(* ===== verification/_CoqProject ===== *)
-Q . S2P
Prelude.v
Ast.v
AstPrint.v
AstProps.v
Lexer.v
LexerFacts.v
LexerProps.v
Bison.v
BisonFacts.v
Grammar.v
Runtime.v
RuntimeFacts.v
RuntimeConc.v
RuntimeProps.v
IR.v
State.v
Builder.v
CodeGenBase.v
GrammarFacts.v
Syntax.v
Parts.v
SyntaxFacts.v
CodeGenExpr.v
CodeGenStmt.v
CodeGenBlock.v
Injections.v
CodeGenLogic.v
BuilderFacts.v
CodeGenWf.v
CodeGenStmtWf.v
CodeGenBlockWf.v
CodeGenLoud.v
Machine.v
ExprLogic.v
ExprCorrect.v
Source.v
SourceFacts.v
Flow.v
EntryCode.v
Closure.v
ClosureBody.v
Capture.v
Scheduled.v
GroupRun.v
GroupEnd.v
Straight.v
StraightProps.v
Control.v
Functions.v
FunctionProps.v
Program.v
Lib.v
Library.v
ProgramProps.v
GroupCorrect.v
GrammarProps.v
CodeGenProps.v
ExprProps.v
GroupProps.v
LibProps.v
Linked.v
LinkedProps.v
Bench.v
Tree.v
TreeProps.v
MonteCarlo.v
MonteCarloProps.v
