(* ===== verification/Prelude.v ===== *)
(** * Fork: the compiler, its runtime library and its benchmarks

    Fork is a small typed language whose compiler (under [src/]) reads a
    program, builds a tree, walks it with a visitor that generates LLVM IR,
    and either dumps the module or runs its [main] on the JIT.  Successive
    statements of a block that are marked as not committing form a commit
    group: the compiler makes a closure of each, and the code it generates
    hands the closures to a runtime library, which may run each on a thread of
    its own, and reconciles their results at the end of the group.

<<
  lex.l, parser.y --> node.cpp --------> codeGenVisitor.cpp --> LLVM builder --> JIT
                      (tree, types)      (expressions,                          | runs
  yy_overrides.h ------------------------> statements, blocks,                  v
  (external declarations)                  closures)            lib.cpp --> parContextManager.cpp
>>

    The development models all of these, from the text of a file to the run
    of the generated code; it states what each part is for, and proves it;
    where the code does something else, the theorem says what it does.

    ** How the code is modelled

    A member function is a computation [SE S E A] (below): from a state, a
    result or an error, and a state.  The state is the C++ object and what it
    refers to; the error is an exception, or the crash that a null pointer, a
    bad index or an assertion of LLVM causes ([crash]).  After a crash the
    state is what it was at that point, so theorems can speak of it.  Fields
    keep their names.  An [int64_t] is a [Z] with [wrap64] where it wraps;
    [double] is IEEE binary64 in the standard library's [SpecFloat]; maps are
    stdpp's [gmap].

    ** The files

    - Prelude.v: the monad and its reasoning rules ([bind_eq], [triple]),
      machine integers, doubles, crashes.
    - Lexer.v ([lex.l]): the rules as regular expressions and the scanner that
      flex makes of them; [lex] is what the parser is given.  LexerFacts.v
      shows that the scanner does what the rules mean.
    - Grammar.v ([parser.y]): the rules with their actions and the precedences.
      Bison.v is what bison makes of a grammar, by its manual: LALR(1) tables,
      conflicts, default reductions, and the machine that runs them; the
      tables are computed by it.  BisonFacts.v and GrammarFacts.v: a check of
      the tables from which it follows that the machine ends and accepts only
      what the rules derive, and that the actions are given what they read.
    - Syntax.v: the texts that are accepted, with their trees, as relations.
      Parts.v and SyntaxFacts.v: a check that a rule is read wherever a part of
      a program may stand, and so the texts are read as these trees.
    - Ast.v, AstPrint.v ([node.h], [node.cpp], [statementVisitor.cpp], the end
      of [codeGenVisitor.cpp]): the node classes with their constructors,
      commit flags, the type table, the visitors that only read, [describe].
    - Runtime.v ([parContextManager.cpp]): the statement manager; the C++
      repeats each function for five value types, here they are instances of
      one text over the class [FutureMap].  RuntimeFacts.v has the equations
      of its operations and RuntimeConc.v the threads: a step relation on
      critical sections, and the abstract map that it refines.
    - Lib.v ([lib.cpp]): printing, allocation, the functions that generated
      code calls, the prototypes of [lib.h].
    - IR.v, Builder.v (the part of LLVM's [IRBuilder.h], [Instructions.cpp],
      [Type.cpp] that is called): types per context, instructions, blocks,
      functions, with the assertions of the library.
    - State.v: the fields of [CodeGenVisitor].  CodeGenBase.v, CodeGenExpr.v,
      CodeGenStmt.v, CodeGenBlock.v ([codeGenVisitor.cpp]): its member
      functions, in the order of the source.  Injections.v
      ([yy_overrides.h], [main.cpp]): the external declarations and the driver.
    - CodeGenLogic.v, BuilderFacts.v, CodeGenWf.v, CodeGenStmtWf.v,
      CodeGenBlockWf.v, CodeGenLoud.v: a program logic ([safe], [loud]) with a
      rule for each function of the builder and of the visitor.
    - Machine.v, ExprLogic.v, ExprCorrect.v: instructions run; expressions
      mean values; the code of an expression computes its meaning.
    - Source.v, SourceFacts.v, Flow.v, Straight.v, StraightProps.v, Control.v,
      Functions.v: statements mean outcomes, blocks run until a return, and
      how a function under construction keeps the runs it has.
    - EntryCode.v, Closure.v, ClosureBody.v, Capture.v, Scheduled.v, GroupRun.v,
      GroupEnd.v, GroupCorrect.v: commit groups in running code.  [standing] is
      the generator at the end of a first block, [steps] its rules; then the
      function of a closure, which reads its variables out of the environment,
      the code that fills the environment and schedules it, all statements of
      a group, its end, the whole.
    - FunctionProps.v, Program.v: a function is compiled to code for what it
      means, and so is a program of functions that call each other, linked
      with a library.  Library.v: the printing functions of [lib.cpp] as one.
      The [Protocol] of GroupRun.v is what a group expects of a runtime; the
      theorems on groups are proved against it.
    - Linked.v: the functions of [lib.cpp] over the manager as such a runtime,
      its [Protocol] an instance.  LinkedProps.v: groups on it.
    - Tree.v ([Bench/C++/Node.cpp], [CTest.cpp]) and MonteCarlo.v
      ([regMonteCarlo.cpp]), over Bench.v: the benchmarks.
    - The files in [Props]: the theorems, with the inputs they are tried on.

    ** What is shown

    - Correct code.  [expression_code_correct]: the code of every int and
      float expression, calls included, leaves its value in a register.
      [program_code_correct]: of a program of functions with parameters,
      definitions, assignments, conditionals, calls, also recursive, and
      returns, the compiler complains of nothing, and a call in the generated
      module returns what the statements mean and makes the calls of the
      library that they mean, in their order: a program prints what it should.
      [struct_field_access] is about structs.
    - Correct IR.  [compile_well_formed]: whatever the program, the modules and
      tables are well formed, and the blocks that functions and builders name
      are there.  [accept_monotone]: visiting only adds.  [null_is_reported], [execution_gated]: errors are reported, and a
      program with an error is not run.
    - Commit groups.  [commit_group_correct]: against any runtime that keeps to
      its [Protocol], the code of the first group of a program opens a context,
      schedules a closure for each statement, stores what the runtime answers
      and destroys the context, and the function of each closure does what its
      statement means with the variables in its environment.  Its statements
      are the assignments of an int expression without calls that is more than
      a variable, such expressions alone, and calls with such arguments;
      [Limits] shows what the generator makes of others.
      [group_on_manager]: on the manager, the variables are those the group
      means, and the manager is as before.  [later_group_throws]: a later
      group, whose vector still has the entries of the first, asks the manager
      for statements that it has not, and the run ends there.  [commit_vector_spec], [schedule_code],
      [end_group_code]: which statements form a group and the code of its
      start and end.
    - The manager.  [manager_refines_spec], [recon_returns_scheduled],
      [thread_accounting], [recon_finishes]: for any interleaving of any
      number of threads.  [group_roundtrip], [set_max_threads_clamps].
    - The lexer.  [lexer_follows_rules]: it ends, with the one splitting of
      the text that the rules define.  [lexer_roundtrip]: tokens written out
      are read back.
    - The parser.  [front_end_total]: it ends, and accepts only what the
      grammar derives.  [program_parses]: the texts of [Syntax] are read as
      their trees.  [source_roundtrip] puts the lexer in front, and
      [source_program_runs] the generator behind: from the text of a file to
      the results of the calls of its functions and the lines they print.
    - The tree and the library.  [declarations_split], [type_table_lookup],
      [dup_char_roundtrip], [print_int_line], [allocation_request],
      [injections_match_prototypes].
    - The benchmarks.  [build_tree_of_size_correct],
      [tree_benchmark_output], [mod_correct], [distances_correct],
      [monte_carlo_output]: they end, with these results.
    - Where the code falls short.  [later_group_throws],
      [failed_recon_blocks_manager], [failed_sched_keeps_slot],
      [leaked_slots_starve], [float_reconciliation_crashes],
      [logical_condition_crashes], [logical_initialiser_negated],
      [use_before_definition], [function_left_open],
      [unknown_character_ends_text], [precedence_ignored],
      [error_keeps_program].

    ** Bounds

    - The generator recurs on the tree and needs no fuel.  [visitBlock] calls
      itself through the closures it makes; it is unfolded once, which is all
      there is: [closures_do_not_nest].
    - Instructions, blocks and struct types are numbered from counters of the
      state; that numbers in use lie below them is part of the invariant.
      The 64-bit counters of the visitor are not wrapped: it numbers what it
      visits.  Those of the manager stop the program when they overflow.
    - The lexer takes at least one character at each step: one step more than
      the text has characters is enough, and [lex] takes that.
    - The parser weighs its stack and the tokens left: a reduction lowers the
      weight, and a shift too, so 28 steps for each token are enough, and
      [parse] takes one more.  Its rows are explored 4096 at most; 168 come out.
    - [isSized] of a type that contains itself recurs on the table of struct
      types, as deep as it is long.
    - [call_block] runs a number of blocks.  A block is left at most once, so
      as many as the module has are enough for one call; [call_function] takes
      one more.  [fk_call] and [call_function] bound the levels of calls; the
      theorem has the same bound on both sides, and [call_levels] says that a
      deeper one changes nothing.
    - The benchmarks have the depth of their recursion as an argument; each
      theorem says which depths are enough (at most twice the nodes of the
      tree; one more than the points of the grid).

    ** Worlds

    What is fixed while code runs, [Running] (the arguments, the results of
    calls, undefined divisions), and what is fixed for the meaning of
    statements, [Meaning], are classes; [Signatures] has the functions that
    may be called.  A call acts on what is outside of the program, whose type
    [Outside] is a class too, of which nothing is assumed; the machine and the
    state of a statement carry it along, so the order of the calls counts.  A
    [World] has both, with the law that ties them: a call of registers that
    stand for values returns what stands for the result and leaves the same
    outside.  The theorems on expressions, statements and functions are proved in any world;
    [Program.world_of] makes one for each level of calls out of the one below,
    and so the law of the calls of a program is the theorem about its
    functions.

    Division by zero and the division that overflows have no result in LLVM.
    A compiler must accept code that is not run, an arm not taken or a
    statement behind a return; in the world [unrun] every division and every
    call has a result, so every typed expression has a value, and the lemmas
    that follow code that runs follow code that does not.

    A call starts with no memory: the functions of the theorem take and return
    numbers, and no place outlives the call it belongs to.  The function of a
    closure is run in any world and any memory that has its environment, once
    its code is there: whatever runs it, and whenever, it does the same.

    ** What is not modelled

    - The size of the parser's stack, which bison limits to ten thousand
      symbols, and the line that [yyerror] prints: the lexer is run before the
      parser here, not by it.
    - LLVM behind the builder and the JIT: the address of a closure is the
      parameter [jit_address]; the order of an [unordered_map] is the parameter
      [hash_order].  Names of blocks and instructions, and [verifyFunction],
      whose answer the compiler does not use.
    - The memory a closure writes: a statement of the manager is a function
      of its environment.  In LinkedProps.v what a closure returns is a
      parameter, of which the theorem says when it is the meaning; what it
      prints or writes, and when, is not followed there.
    - The time: a future's destructor waits for the thread of its statement
      ([destroy_context], a [sched] that fails); statements end, so nothing is
      lost by not waiting.
    - The two lines that the generator itself writes to the standard output
      when an operand is a pointer.
    - The collector ([gc]) and the allocation shims of [yy_overrides.h];
      [fc.py], which starts the compiler.
    - In the correctness of programs: structs and pointers, which the
      invariants and the theorems on emitted code cover, and commit groups,
      which [commit_group_correct] follows in the first block of a function. *)

From Stdlib Require Export ZArith Lia.
From stdpp Require Export base gmap strings list fin_maps fin_sets pretty.
From Stdlib Require Export Floats.SpecFloat.


(** * Hint database of the development *)

Create HintDb fork.

(** * Machine integers

    [int64_t] is a [Z] in two's complement range; [wrap64] is the value an
    arithmetic result has once it is reduced to 64 bits. *)

Abbreviation int64 := Z (only parsing).
Definition two63 : Z := 9223372036854775808.
Definition two64 : Z := 18446744073709551616.

(** The representative of [z] modulo [2^w] in the signed range of [w] bits. *)
Definition wrap (w : Z) (z : Z) : Z := ((z + 2 ^ (w - 1)) `mod` 2 ^ w - 2 ^ (w - 1))%Z.
Definition wrap64 (z : Z) : Z := ((z + two63) `mod` two64 - two63)%Z.

Definition in_int64 (z : Z) : Prop := (- two63 <= z < two63)%Z.

Lemma wrap64_wrap z : wrap64 z = wrap 64 z.
Proof. reflexivity. Qed.

Lemma wrap_range w z : (0 < w)%Z -> (- 2 ^ (w - 1) <= wrap w z < 2 ^ (w - 1))%Z.
Proof.
  intros Hw. unfold wrap.
  assert (2 ^ w = 2 * 2 ^ (w - 1))%Z as E
    by (rewrite <- Z.pow_succ_r by lia; f_equal; lia).
  pose proof (Z.mod_pos_bound (z + 2 ^ (w - 1)) (2 ^ w)). lia.
Qed.

Lemma wrap_small w z : (0 < w)%Z -> (- 2 ^ (w - 1) <= z < 2 ^ (w - 1))%Z -> wrap w z = z.
Proof.
  intros Hw Hz. unfold wrap.
  assert (2 ^ w = 2 * 2 ^ (w - 1))%Z as E
    by (rewrite <- Z.pow_succ_r by lia; f_equal; lia).
  rewrite Z.mod_small by lia. lia.
Qed.

Lemma wrap64_range z : in_int64 (wrap64 z).
Proof. rewrite wrap64_wrap. apply (wrap_range 64 z). lia. Qed.

Lemma wrap64_small z : in_int64 z -> wrap64 z = z.
Proof. rewrite wrap64_wrap. intros H. apply (wrap_small 64 z); [lia | exact H]. Qed.

Lemma wrap_int64 z : in_int64 z -> wrap 64 z = z.
Proof. rewrite <- wrap64_wrap. apply wrap64_small. Qed.

(** Two integers with one representative differ by a multiple of [2^w]. *)
Lemma wrap_mod w z : (0 < w)%Z -> (wrap w z `mod` 2 ^ w = z `mod` 2 ^ w)%Z.
Proof.
  intros Hw. unfold wrap.
  rewrite Zminus_mod_idemp_l. f_equal. lia.
Qed.

#[export] Hint Resolve wrap64_range : fork.

(** The quotient of two integers is one, the least by -1 apart. *)
Lemma quot_in_int64 x y :
  in_int64 x -> in_int64 y -> y <> 0%Z -> ~ (x = - two63 /\ y = -1)%Z -> in_int64 (Z.quot x y).
Proof.
  unfold in_int64, two63. intros Hx Hy Hz Hn.
  destruct (decide (y = -1)%Z) as [->|H1].
  { change (-1)%Z with (- (1))%Z. rewrite Z.quot_opp_r, Z.quot_1_r by lia. lia. }
  destruct (decide (y = 1)%Z) as [->|H2]; [rewrite Z.quot_1_r; lia |].
  pose proof (Z.quot_abs x y Hz) as Ha.
  assert (Z.quot (Z.abs x) (Z.abs y) <= 4611686018427387904)%Z.
  { apply Z.quot_le_upper_bound; [lia |]. nia. }
  assert (0 <= Z.quot (Z.abs x) (Z.abs y))%Z by (apply Z.quot_pos; lia). lia.
Qed.

(** The line feed that ends a line of output. *)
Definition newline : string := String (Ascii.ascii_of_nat 10) EmptyString.

Lemma string_app_nil_r (a : string) : a +:+ EmptyString = a.
Proof. induction a as [|x a IH]; [done |]. exact (f_equal (String x) IH). Qed.

Lemma string_app_assoc (a b c : string) : a +:+ (b +:+ c) = (a +:+ b) +:+ c.
Proof. induction a as [|x a IH]; [done |]. exact (f_equal (String x) IH). Qed.

(** [double]: the binary64 format as the standard library's [spec_float]. *)
Definition double : Type := spec_float.
Definition double_zero : double := S754_zero false.

(** Its operations, rounded to nearest even; [of_int] is the conversion of an
    integer. *)
Definition prec : Z := 53.
Definition emax : Z := 1024.
Definition fadd (a b : double) : double := SFadd prec emax a b.
Definition fsub (a b : double) : double := SFsub prec emax a b.
Definition fmul (a b : double) : double := SFmul prec emax a b.
Definition fdiv (a b : double) : double := SFdiv prec emax a b.
Definition of_int (n : Z) : double := binary_normalize prec emax n 0 false.

(** * Error and state

    A C++ function that reads and writes an object, and may stop the program
    by a failed assertion, undefined behaviour or an exception, is a function
    from the object to a result and the object it leaves.  The object is kept
    when the function fails: what was written before an exception stays. *)

Inductive res (E A : Type) : Type :=
  | Ok (a : A)
  | Err (e : E).
Arguments Ok {E A} a.
Arguments Err {E A} e.

#[export] Instance res_eq_dec {E A} `{EqDecision E, EqDecision A} : EqDecision (res E A).
Proof. solve_decision. Defined.

Definition SE (S E A : Type) : Type := S -> res E A * S.

Definition bind {S E A B : Type} (m : SE S E A) (f : A -> SE S E B) : SE S E B := fun s =>
  match m s with
  | (Ok a, s') => f a s'
  | (Err e, s') => (Err e, s')
  end.

Declare Scope fork_scope.
Delimit Scope fork_scope with fork.
Notation "x <- m ;; k" := (bind m (fun x => k))
  (at level 100, m at next level, k at level 200, right associativity) : fork_scope.
Notation "m ;; k" := (bind m (fun _ => k))
  (at level 100, k at level 200, right associativity) : fork_scope.
#[global] Open Scope fork_scope.

Section monad.
Context {S E : Type}.

#[export] Instance SE_ret : MRet (SE S E) := fun A a s => (Ok a, s).
Definition fail {A} (e : E) : SE S E A := fun s => (Err e, s).
Definition gets {A} (f : S -> A) : SE S E A := fun s => (Ok (f s), s).
Definition modify (f : S -> S) : SE S E unit := fun s => (Ok tt, f s).

(** Two computations are equal when they agree on every state. *)
#[export] Instance SE_equiv {A} : Equiv (SE S E A) := fun m1 m2 => forall s, m1 s = m2 s.

#[export] Instance SE_equivalence {A} : Equivalence (@equiv (SE S E A) _).
Proof.
  split.
  - intros m s. reflexivity.
  - intros m1 m2 H s. symmetry. apply H.
  - intros m1 m2 m3 H1 H2 s. etrans; [apply H1 | apply H2].
Qed.

#[export] Instance SE_bind_proper {A B} :
  Proper ((≡) ==> pointwise_relation A (≡) ==> (≡)) (@bind S E A B).
Proof.
  intros m1 m2 Hm f g Hfg s. unfold bind. rewrite (Hm s).
  destruct (m2 s) as [[a|e] s']; [apply Hfg | reflexivity].
Qed.

Lemma bind_ret_l {A B} (a : A) (f : A -> SE S E B) : bind (mret a) f ≡ f a.
Proof. intros s. reflexivity. Qed.

Lemma bind_ret_r {A} (m : SE S E A) : bind m mret ≡ m.
Proof.
  intros s. unfold bind, mret, SE_ret. destruct (m s) as [[a|e] s']; reflexivity.
Qed.

Lemma bind_assoc {A B C} (m : SE S E A) (f : A -> SE S E B) (g : B -> SE S E C) :
  bind (bind m f) g ≡ bind m (fun a => bind (f a) g).
Proof. intros s. unfold bind. destruct (m s) as [[a|e] s']; reflexivity. Qed.

Lemma bind_assoc_at {A B C} (m : SE S E A) (f : A -> SE S E B) (g : B -> SE S E C) s :
  bind (bind m f) g s = bind m (fun a => bind (f a) g) s.
Proof. exact (bind_assoc m f g s). Qed.

(** ** Steps along a preorder

    [along R m]: whatever state [m] starts from, and whether it fails or
    not, the state it leaves is [R]-above the one it found. *)
Definition along {A} (R : relation S) (m : SE S E A) : Prop := forall s, R s (m s).2.

Section along.
Context (R : relation S) `{!PreOrder R}.

Lemma along_ret {A} (a : A) : along R (mret a).
Proof. intros s. simpl. reflexivity. Qed.
Lemma along_fail {A} (e : E) : along R (@fail A e).
Proof. intros s. simpl. reflexivity. Qed.
Lemma along_gets {A} (f : S -> A) : along R (gets f).
Proof. intros s. simpl. reflexivity. Qed.
Lemma along_modify (f : S -> S) : (forall s, R s (f s)) -> along R (modify f).
Proof. intros H s. apply H. Qed.
Lemma along_bind {A B} (m : SE S E A) (f : A -> SE S E B) :
  along R m -> (forall a, along R (f a)) -> along R (bind m f).
Proof.
  intros Hm Hf s. unfold bind. specialize (Hm s).
  destruct (m s) as [[a|e] s']; simpl in *; [| exact Hm].
  etrans; [exact Hm | apply Hf].
Qed.
End along.

(** ** Partial correctness

    [triple P m Q]: from a state in [P], a computation that returns [a]
    leaves a state in [Q a]. *)
Definition triple {A} (P : S -> Prop) (m : SE S E A) (Q : A -> S -> Prop) : Prop :=
  forall s a s', P s -> m s = (Ok a, s') -> Q a s'.

Lemma triple_bind {A B} P (m : SE S E A) Q (f : A -> SE S E B) R :
  triple P m Q -> (forall a, triple (Q a) (f a) R) -> triple P (bind m f) R.
Proof.
  intros Hm Hf s b s' HP H. unfold bind in H.
  destruct (m s) as [[a|e] s1] eqn:E1; [| discriminate].
  eapply Hf; [| exact H]. eapply Hm; eauto.
Qed.

Lemma bind_ok {A B} (m : SE S E A) (f : A -> SE S E B) s b s' :
  bind m f s = (Ok b, s') <->
  exists a s1, m s = (Ok a, s1) /\ f a s1 = (Ok b, s').
Proof.
  unfold bind. destruct (m s) as [[a|e] s1]; split.
  - intros H. eauto.
  - intros (a' & s1' & H1 & H2). by simplify_eq.
  - discriminate.
  - intros (a' & s1' & H1 & H2). discriminate.
Qed.

(** Only what the first part gives matters. *)
Lemma bind_at {A B} (m m' : SE S E A) (f : A -> SE S E B) s s' : m s = m' s' -> bind m f s = bind m' f s'.
Proof. unfold bind. intros ->. reflexivity. Qed.

Lemma bind_ext_at {A B} (m : SE S E A) (f g : A -> SE S E B) s :
  (forall a s', f a s' = g a s') -> bind m f s = bind m g s.
Proof. intros H. unfold bind. destruct (m s) as [[a|] s']; [apply H | reflexivity]. Qed.

Lemma bind_eq {A B} (m : SE S E A) (f : A -> SE S E B) s a s1 :
  m s = (Ok a, s1) -> bind m f s = f a s1.
Proof. unfold bind. intros ->. reflexivity. Qed.

Lemma bind_err {A B} (m : SE S E A) (f : A -> SE S E B) s e s1 :
  m s = (Err e, s1) -> bind m f s = (Err e, s1).
Proof. unfold bind. intros ->. reflexivity. Qed.
End monad.

#[export] Hint Resolve along_ret along_fail along_gets : fork.

(** [along_tac]: prove [along R m] by following the binds and the matches of
    [m]; what is left are the writes and the calls no hint of [fork] covers. *)
Ltac along_step :=
  match goal with
  | |- along _ (bind _ _) => apply along_bind; [ solve [typeclasses eauto] | | intros ? ]
  | |- along _ (match ?x with _ => _ end) => destruct x eqn:?
  | |- along _ _ => solve [ eauto 3 with fork typeclass_instances ]
  end.
Ltac along_tac := repeat along_step.

(** [run_tac H]: split an equation [m s = (Ok a, s')] of binds into its steps. *)
Ltac run_tac :=
  repeat match goal with
  | H : bind _ _ _ = (Ok _, _) |- _ =>
      let a := fresh "a" in let s := fresh "s" in
      let H1 := fresh "Hrun" in let H2 := fresh "Hrun" in
      apply bind_ok in H as (a & s & H1 & H2)
  | H : mret _ _ = (Ok _, _) |- _ => unfold mret, SE_ret in H; simplify_eq
  | H : gets _ _ = (Ok _, _) |- _ => unfold gets in H; simplify_eq
  | H : modify _ _ = (Ok _, _) |- _ => unfold modify in H; simplify_eq
  | H : fail _ _ = (Ok _, _) |- _ => discriminate H
  end.

(** * Lists *)

(** The first index of [x] in [l], as a loop that breaks on a hit finds it. *)
Fixpoint index_of {A} `{EqDecision A} (x : A) (l : list A) : option nat :=
  match l with
  | [] => None
  | y :: l' => if decide (x = y) then Some 0 else S <$> index_of x l'
  end.

Lemma index_of_Some {A} `{EqDecision A} (x : A) l i :
  index_of x l = Some i <-> l !! i = Some x /\ forall j, j < i -> l !! j <> Some x.
Proof.
  revert i. induction l as [|y l IH]; intros i; simpl.
  - split; [discriminate | intros [H _]; destruct i; discriminate].
  - case_decide as E.
    + subst. split.
      * intros [= <-]. split; [reflexivity | lia].
      * intros [H1 H2]. destruct i as [|i]; [reflexivity |].
        destruct (H2 0); [lia | reflexivity].
    + destruct i as [|i]; simpl.
      * split; [intros H; destruct (index_of x l); discriminate | intros [[= ->] _]; done].
      * rewrite fmap_Some. split.
        -- intros (k & Hk & [= <-]). apply IH in Hk as [H1 H2]. split; [exact H1 |].
           intros [|j] Hj; simpl; [congruence | apply H2; lia].
        -- intros [H1 H2]. exists i. split; [| reflexivity]. apply IH.
           split; [exact H1 |]. intros j Hj. apply (H2 (S j)). lia.
Qed.

Lemma index_of_None {A} `{EqDecision A} (x : A) l : index_of x l = None <-> x ∉ l.
Proof.
  induction l as [|y l IH]; simpl; [split; [intros _; apply not_elem_of_nil | done] |].
  rewrite not_elem_of_cons. case_decide as E; [split; [discriminate | by intros [? _]] |].
  rewrite fmap_None, IH. naive_solver.
Qed.

(** * How a C++ function of this program can stop

    [NullPointer]: a member access through a null pointer; [Assertion]: an
    [assert] of the program or of the library that fails; [OutOfRange]: the
    exception of [at]; [BadIndex]: an access outside of a container;
    [SignedOverflow]: arithmetic on a signed integer that leaves its range,
    undefined in C++; [Blocked]: a lock of a mutex that is never released;
    [Uninitialized]: a read of memory nobody wrote. *)
Inductive crash : Type :=
  | NullPointer
  | Assertion (what : string)
  | OutOfRange
  | BadIndex
  | SignedOverflow
  | Blocked
  | Uninitialized.

#[export] Instance crash_eq_dec : EqDecision crash.
Proof. solve_decision. Defined.

(** [p->field] for a pointer that may be null. *)
Definition deref {S A} (p : option A) : SE S crash A :=
  match p with Some a => mret a | None => fail NullPointer end.

(** [assert(b && what)]. *)
Definition assert {S} (b : bool) (what : string) : SE S crash unit :=
  if b then mret tt else fail (Assertion what).

Lemma deref_ok {S A} (p : option A) (s : S) a s' :
  deref p s = (Ok a, s') <-> p = Some a /\ s' = s.
Proof.
  destruct p; unfold deref, mret, SE_ret, fail; split; intros H;
    [simplify_eq; done | by destruct H as [[= ->] ->] | discriminate | by destruct H].
Qed.

Lemma assert_ok {S} b what (s : S) u s' :
  assert b what s = (Ok u, s') <-> b = true /\ s' = s.
Proof.
  destruct b, u; unfold assert, mret, SE_ret, fail; split; intros H; naive_solver.
Qed.

Lemma along_deref {S A} (R : relation S) `{!PreOrder R} (p : option A) : along R (deref p).
Proof. unfold deref. along_tac. Qed.

Lemma along_assert {S} (R : relation S) `{!PreOrder R} b what : along R (@assert S b what).
Proof. unfold assert. along_tac. Qed.

#[export] Hint Resolve along_deref along_assert : fork.

(** * Sums over finite maps *)

Section map_sum.
Context {K V : Type} `{Countable K}.
Implicit Types (f : V -> Z) (m : gmap K V).
Local Open Scope Z_scope.

Definition map_sum f m : Z := map_fold (fun _ x n => f x + n) 0 m.

Lemma map_sum_empty f : map_sum f ∅ = 0.
Proof. reflexivity. Qed.

Lemma map_sum_insert_new f m k x :
  m !! k = None -> map_sum f (<[k := x]> m) = f x + map_sum f m.
Proof. intros Hk. unfold map_sum.
  apply (map_fold_insert_L (fun (_ : K) x n => f x + n)); [intros; lia | done]. Qed.

Lemma map_sum_delete f m k x :
  m !! k = Some x -> map_sum f (delete k m) = map_sum f m - f x.
Proof.
  intros Hk. rewrite <- (insert_delete_id m k x Hk) at 2.
  rewrite map_sum_insert_new by apply lookup_delete_eq. lia.
Qed.

Lemma map_sum_insert f m k x :
  map_sum f (<[k := x]> m) = f x + map_sum f m - from_option f 0 (m !! k).
Proof.
  destruct (m !! k) as [y|] eqn:Hk; simpl.
  - rewrite <- insert_delete_eq, map_sum_insert_new by apply lookup_delete_eq.
    rewrite (map_sum_delete _ _ _ _ Hk). lia.
  - rewrite map_sum_insert_new by done. lia.
Qed.

Lemma map_sum_nonneg f m : (forall x, 0 <= f x) -> 0 <= map_sum f m.
Proof.
  intros Hf. induction m as [|k x m Hk IH] using map_ind; [done |].
  rewrite map_sum_insert_new by done. specialize (Hf x). lia.
Qed.

Lemma map_sum_ge f m k x : (forall x, 0 <= f x) -> m !! k = Some x -> f x <= map_sum f m.
Proof.
  intros Hf Hk. pose proof (map_sum_nonneg f (delete k m) Hf) as Hn.
  rewrite (map_sum_delete _ _ _ _ Hk) in Hn. lia.
Qed.
End map_sum.
