(* ===== verification/Ast.v ===== *)
(** The abstract syntax tree: the node classes of [node.h] and the member
    functions of [node.cpp] that compute something (commit flags, the type
    table, the constructors), with the visitors that only read the tree:
    [StatementVisitor] and [LambdaReconVisitor].

    A pointer to a node is the node; a pointer the code tests against
    [nullptr] is an [option].  An [Identifier*] or [Keyword*] field is the
    string the node holds ([dup_char] copies it).  [acceptVisitor] is the
    [match] on the constructor in each visitor.  The constructors of the
    other classes and [describe] are in AstPrint.v. *)

From S2P Require Import Prelude.

(** * Expressions *)

Inductive expr : Type :=
  | Integer (value : int64)
  | Float (value : double)
  | Identifier (name : string)
  | UnaryOperator (op : string) (exp : expr)
  | BinaryOperator (left : expr) (op : string) (right : expr)
  | FunctionCall (ident : string) (args : list expr)
  | NullLiteral
  | PointerExpression (ident : string) (offsetExpression : option expr) (field : option string)
  | AddressOfExpression (ident : string) (offsetExpression : option expr)
  | StructureExpression (ident : string) (field : string).

(** Induction that reaches the arguments of a call and the offsets. *)
Section expr_ind.
Context (P : expr -> Prop).
Context (HInteger : forall value, P (Integer value)).
Context (HFloat : forall value, P (Float value)).
Context (HIdentifier : forall name, P (Identifier name)).
Context (HUnary : forall op exp, P exp -> P (UnaryOperator op exp)).
Context (HBinary : forall left op right, P left -> P right -> P (BinaryOperator left op right)).
Context (HCall : forall ident args, Forall P args -> P (FunctionCall ident args)).
Context (HNull : P NullLiteral).
Context (HPointer : forall ident off field,
  (forall e, off = Some e -> P e) -> P (PointerExpression ident off field)).
Context (HAddress : forall ident off,
  (forall e, off = Some e -> P e) -> P (AddressOfExpression ident off)).
Context (HStructure : forall ident field, P (StructureExpression ident field)).

Fixpoint expr_nested_ind (e : expr) : P e :=
  let opt (o : option expr) : forall e, o = Some e -> P e :=
    match o with
    | Some e' => fun e H => eq_ind e' P (expr_nested_ind e') e (Some_inj _ _ H)
    | None => fun e H => match H with eq_refl => I end
    end in
  match e with
  | Integer v => HInteger v
  | Float v => HFloat v
  | Identifier n => HIdentifier n
  | UnaryOperator op e => HUnary op e (expr_nested_ind e)
  | BinaryOperator l op r => HBinary l op r (expr_nested_ind l) (expr_nested_ind r)
  | FunctionCall f args =>
      HCall f args ((fix go (l : list expr) : Forall P l :=
        match l with
        | [] => Forall_nil_2 _
        | e :: l' => Forall_cons_2 _ _ _ (expr_nested_ind e) (go l')
        end) args)
  | NullLiteral => HNull
  | PointerExpression i o f => HPointer i o f (opt o)
  | AddressOfExpression i o => HAddress i o (opt o)
  | StructureExpression i f => HStructure i f
  end.
End expr_ind.

(** * Statements *)

(** A [VariableDefinition*] is one or its subclass [StructureDeclaration],
    whose [type] is null and whose [exp] stays null. *)
Inductive vardef : Type :=
  | VariableDefinition (commit : bool) (type : string) (ident : string)
      (exp : option expr) (hasPointerType : bool)
  | StructureDeclaration (user_type : string) (ident : string) (hasPointerType : bool).

Definition vardef_ident (v : vardef) : string :=
  match v with
  | VariableDefinition _ _ ident _ _ => ident
  | StructureDeclaration _ ident _ => ident
  end.

Definition vardef_hasPointerType (v : vardef) : bool :=
  match v with
  | VariableDefinition _ _ _ _ p => p
  | StructureDeclaration _ _ p => p
  end.

Definition vardef_exp (v : vardef) : option expr :=
  match v with
  | VariableDefinition _ _ _ e _ => e
  | StructureDeclaration _ _ _ => None
  end.

(** [stringType], virtual. *)
Definition stringType (v : vardef) : string :=
  match v with
  | VariableDefinition _ type _ _ _ => type
  | StructureDeclaration user_type _ _ => user_type
  end.

(** The return type of a [FunctionDefinition]: one of its [type] and
    [user_type] is null, according to the constructor that built it. *)
Inductive rettype : Type :=
  | KeywordType (type : string)
  | UserType (user_type : string).

(** A [Block] holds a pointer to its statements, null in an empty block.
    Only the classes that inherit [Statement::setCommit] have a flag that can
    change, and only those carry it here. *)
Inductive stmt : Type :=
  | SVariable (v : vardef)
  | StructureDefinition (ident : string) (block : option (list stmt))
  | FunctionDefinition (type : rettype) (ident : string) (args : list vardef)
      (block : option (list stmt)) (hasPointerType : bool)
  | ExpressionStatement (commit : bool) (exp : expr)
  | ReturnStatement (exp : option expr)
  | AssignStatement (commit : bool) (target : expr) (valxp : expr)
  | IfStatement (exp : expr) (block : option (option (list stmt)))
      (else_block : option (option (list stmt)))
  | ExternStatement (type : string) (ident : string) (args : list vardef)
      (hasPointerType : bool).

Definition block : Type := option (list stmt).

(** Induction that reaches the statements of the blocks. *)
Section stmt_ind.
Context (P : stmt -> Prop).
Let Pblock (b : block) : Prop := forall l, b = Some l -> Forall P l.
Context (HVariable : forall v, P (SVariable v)).
Context (HStruct : forall ident b, Pblock b -> P (StructureDefinition ident b)).
Context (HFunction : forall type ident args b ptr,
  Pblock b -> P (FunctionDefinition type ident args b ptr)).
Context (HExpr : forall c e, P (ExpressionStatement c e)).
Context (HReturn : forall e, P (ReturnStatement e)).
Context (HAssign : forall c t v, P (AssignStatement c t v)).
Context (HIf : forall e b eb, (forall b', b = Some b' -> Pblock b') ->
  (forall b', eb = Some b' -> Pblock b') -> P (IfStatement e b eb)).
Context (HExtern : forall type ident args ptr, P (ExternStatement type ident args ptr)).

Fixpoint stmt_nested_ind (s : stmt) : P s :=
  let go := fix go (l : list stmt) : Forall P l :=
    match l with
    | [] => Forall_nil_2 _
    | s :: l' => Forall_cons_2 _ _ _ (stmt_nested_ind s) (go l')
    end in
  let blk (b : block) : Pblock b :=
    match b with
    | Some l' => fun l H => eq_ind l' (Forall P) (go l') l (Some_inj _ _ H)
    | None => fun l H => match H with eq_refl => I end
    end in
  let oblk (o : option block) : forall b, o = Some b -> Pblock b :=
    match o with
    | Some b' => fun b H => eq_ind b' Pblock (blk b') b (Some_inj _ _ H)
    | None => fun b H => match H with eq_refl => I end
    end in
  match s with
  | SVariable v => HVariable v
  | StructureDefinition i b => HStruct i b (blk b)
  | FunctionDefinition t i a b p => HFunction t i a b p (blk b)
  | ExpressionStatement c e => HExpr c e
  | ReturnStatement e => HReturn e
  | AssignStatement c t v => HAssign c t v
  | IfStatement e b eb => HIf e b eb (oblk b) (oblk eb)
  | ExternStatement t i a p => HExtern t i a p
  end.
End stmt_ind.

(** * Constructors

    [dup_char] allocates [strlen + 1] bytes and copies the string with its
    terminator: the string up to the first zero byte.  A [char*] is the list
    of bytes at its address; [strlen] runs off the buffer when it has no
    zero byte. *)

Definition nul : Ascii.ascii := Ascii.zero.

Fixpoint strlen (buf : list Ascii.ascii) : option nat :=
  match buf with
  | [] => None
  | c :: buf' => if decide (c = nul) then Some 0 else S <$> strlen buf'
  end.

Definition dup_char (name : list Ascii.ascii) : option (list Ascii.ascii) :=
  length ← strlen name; Some (take (length + 1) name).

(** The string a C string at [buf] denotes. *)
Definition c_str (buf : list Ascii.ascii) : option string :=
  n ← strlen buf; Some (String.string_of_list_ascii (take n buf)).

(** [Statement::Statement] and the constructors: [commit] starts false. *)
Definition new_VariableDefinition (type : string) (ident : string) (exp : option expr)
    (isPointer : bool) : stmt :=
  SVariable (VariableDefinition false type ident exp isPointer).

Definition new_StructureDeclaration (user_type : string) (ident : string)
    (hasPointerType : bool) : stmt :=
  SVariable (StructureDeclaration user_type ident hasPointerType).

(** [assert(exp && "Empty expression statement")]. *)
Definition new_ExpressionStatement {S} (exp : option expr) : SE S crash stmt :=
  assert (bool_decide (is_Some exp)) "Empty expression statement" ;;
  e <- deref exp ;; mret (ExpressionStatement false e).

Definition new_FunctionDefinition_keyword {S} (type : option string) (ident : string)
    (args : list vardef) (b : block) (hasPointerType : bool) : SE S crash stmt :=
  assert (bool_decide (is_Some type)) "Missing return type" ;;
  t <- deref type ;; mret (FunctionDefinition (KeywordType t) ident args b hasPointerType).

Definition new_FunctionDefinition_user {S} (user_type : option string) (ident : string)
    (args : list vardef) (b : block) (hasPointerType : bool) : SE S crash stmt :=
  assert (bool_decide (is_Some user_type)) "Missing user-defined return type" ;;
  t <- deref user_type ;; mret (FunctionDefinition (UserType t) ident args b hasPointerType).

(** The five-argument constructor ignores [earlyInsert]; the four-argument
    one delegates to it. *)
Definition new_ExternStatement5 (type ident : string) (args : list vardef)
    (hasPointerType earlyInsert : bool) : stmt :=
  ExternStatement type ident args hasPointerType.

Definition new_ExternStatement4 (type ident : string) (args : list vardef)
    (hasPointerType : bool) : stmt :=
  new_ExternStatement5 type ident args hasPointerType false.

(** * The commit flag of a statement *)

(** [setCommit], virtual: the overrides of the classes without a flag do
    nothing. *)
Definition setCommit (s : stmt) (commit : bool) : stmt :=
  match s with
  | SVariable (VariableDefinition _ t i e p) => SVariable (VariableDefinition commit t i e p)
  | SVariable (StructureDeclaration _ _ _) => s
  | StructureDefinition _ _ => s
  | FunctionDefinition _ _ _ _ _ => s
  | ExpressionStatement _ e => ExpressionStatement commit e
  | ReturnStatement _ => s
  | AssignStatement _ t v => AssignStatement commit t v
  | IfStatement _ _ _ => s
  | ExternStatement _ _ _ _ => s
  end.

(** [statementCommits], virtual. *)
Definition statementCommits (s : stmt) : bool :=
  match s with
  | SVariable (VariableDefinition commit _ _ exp _) => negb (bool_decide (is_Some exp)) || commit
  | SVariable (StructureDeclaration _ _ _) => true
  | StructureDefinition _ _ => true
  | FunctionDefinition _ _ _ _ _ => true
  | ExpressionStatement commit _ => commit
  | ReturnStatement _ => true
  | AssignStatement commit _ _ => commit
  | IfStatement _ _ _ => true
  | ExternStatement _ _ _ _ => true
  end.

(** [lambdable], virtual: what the classes say may run in a closure. *)
Definition lambdable (s : stmt) : bool :=
  match s with
  | SVariable (VariableDefinition _ _ _ exp _) => bool_decide (is_Some exp)
  | SVariable (StructureDeclaration _ _ _) => false
  | StructureDefinition _ _ => false
  | FunctionDefinition _ _ _ _ _ => false
  | ExpressionStatement _ _ => true
  | ReturnStatement _ => false
  | AssignStatement _ _ _ => true
  | IfStatement _ _ _ => false
  | ExternStatement _ _ _ _ => false
  end.

(** [PointerExpression::usesDirectValue] and [referencingStruct], on the
    fields they test. *)
Definition usesDirectValue (offsetExpression : option expr) : bool :=
  negb (bool_decide (is_Some offsetExpression)).
Definition referencingStruct (field : option string) : bool := bool_decide (is_Some field).

(** * TypeTable: the user-defined types *)

Module TypeTable.
Definition t : Type := list string.
Definition new : t := [].
Definition insert (types : t) (ident : string) : t := types ++ [ident].
Definition check (types : t) (ident : string) : bool := bool_decide (ident ∈ types).
End TypeTable.

(** [yyerror]: what it prints at line [yylineno] of the source. *)
Definition yyerror (yylineno : Z) (s : string) : list string :=
  ["Error in parser near line " +:+ pretty yylineno +:+ ": " +:+ s +:+ newline].

(** The [validate] functions over the global [user_type_table]: the answer,
    the table left behind where it can change, and what is printed. *)
Definition StructureDefinition_validate (table : TypeTable.t) (ident : string) :
    bool * TypeTable.t * list string :=
  if TypeTable.check table ident then (false, table, ["User type already exists!" +:+ newline])
  else (true, TypeTable.insert table ident, []).

Definition FunctionDefinition_validate (table : TypeTable.t) (type : rettype) : bool :=
  match type with
  | KeywordType _ => true
  | UserType user_type => TypeTable.check table user_type
  end.

Definition StructureDeclaration_validate (yylineno : Z) (table : TypeTable.t)
    (user_type : string) : bool * list string :=
  if negb (TypeTable.check table user_type)
  then (false, yyerror yylineno "Type was not a declared in the structure table")
  else (true, []).

(** * StatementVisitor: the variables and structures a block declares *)

Module StatementVisitor.
(** The list of structures keeps the three fields of each. *)
Record t : Type := mk {
  varList : list vardef;
  structList : list vardef
}.

Definition new : t := mk [] [].

Definition visitStatement (sv : t) : t := sv.
Definition visitVariableDefinition (v : vardef) (sv : t) : t :=
  mk (varList sv ++ [v]) (structList sv).
Definition visitStructureDeclaration (s : vardef) (sv : t) : t :=
  mk (varList sv) (structList sv ++ [s]).
Definition visitStructureDefinition (sv : t) : t := sv.

(** [acceptVisitor] on a [StatementVisitor]: the overrides of [node.cpp]; the
    other statements inherit [Statement]'s. *)
Definition accept (s : stmt) (sv : t) : t :=
  match s with
  | SVariable (VariableDefinition _ _ _ _ _ as v) => visitVariableDefinition v sv
  | SVariable (StructureDeclaration _ _ _ as d) => visitStructureDeclaration d sv
  | StructureDefinition _ _ => visitStructureDefinition sv
  | _ => visitStatement sv
  end.

(** [visitBlock] reads [b->statements] without a test: an empty block has
    none. *)
Definition visitBlock (b : block) : SE t crash unit :=
  statements <- deref b ;; modify (fun sv => foldl (fun sv s => accept s sv) sv statements).
End StatementVisitor.

(** [StructureDefinition::getVariables] and [getStructs]: a fresh visitor over
    the block, and one of its lists. *)
Definition getVariables (b : block) : res crash (list vardef) :=
  match StatementVisitor.visitBlock b StatementVisitor.new with
  | (Ok _, sv) => Ok (StatementVisitor.varList sv)
  | (Err e, _) => Err e
  end.

Definition getStructs (b : block) : res crash (list vardef) :=
  match StatementVisitor.visitBlock b StatementVisitor.new with
  | (Ok _, sv) => Ok (StatementVisitor.structList sv)
  | (Err e, _) => Err e
  end.

(** * LambdaReconVisitor: the two sides of an assignment, null otherwise *)

Module LambdaReconVisitor.
Record t : Type := mk {
  exprLHS : option expr;
  exprRHS : option expr
}.

Definition new : t := mk None None.
Definition getRHS (v : t) : option expr := exprRHS v.
Definition getLHS (v : t) : option expr := exprLHS v.

Definition visitStatement (v : t) : option expr * t := (None, v).
Definition visitAssignStatement (target valxp : expr) (v : t) : option expr * t :=
  (Some valxp, mk (Some target) (Some valxp)).

(** [acceptVisitor] on a [LambdaReconVisitor]: only [AssignStatement] overrides
    [Statement]'s. *)
Definition accept (s : stmt) (v : t) : option expr * t :=
  match s with
  | AssignStatement _ target valxp => visitAssignStatement target valxp v
  | _ => visitStatement v
  end.
End LambdaReconVisitor.
