(* ===== verification/AstPrint.v ===== *)
(** The constructors of the node classes that Ast.v leaves out, and what the
    classes print about themselves ([describe]) when the compiler is built
    with [YYDEBUG]; [pprintf] of [yy_overrides.h] prints under the same
    switch.  The formatting of a double is a parameter. *)

From S2P Require Import Prelude Ast.

(** * Constructors *)

Definition new_Integer (value : int64) : expr := Integer value.
Definition new_Float (value : double) : expr := Float value.

(** The names are C strings, copied by [dup_char]; a buffer without a
    terminator has no copy. *)
Definition new_Identifier (name : list Ascii.ascii) : option expr := 
  ident ← dup_char name; Identifier <$> c_str ident.

Definition new_UnaryOperator (op : list Ascii.ascii) (exp : expr) : option expr :=
  op ← dup_char op; (fun op => UnaryOperator op exp) <$> c_str op.

Definition new_BinaryOperator (left : expr) (op : list Ascii.ascii) (right : expr) : option expr :=
  op ← dup_char op; (fun op => BinaryOperator left op right) <$> c_str op.

(** A keyword is only ever the type of a declaration: the string it holds. *)
Definition new_Keyword (name : list Ascii.ascii) : option string :=
  name ← dup_char name; c_str name.

Definition new_FunctionCall (ident : string) (args : list expr) : expr := FunctionCall ident args.
Definition new_NullLiteral : expr := NullLiteral.

(** The two constructors of [Block]. *)
Definition new_Block_of (statements : list stmt) : block := Some statements.
Definition new_Block : block := None.

Definition new_StructureDefinition (ident : string) (b : block) : stmt :=
  StructureDefinition ident b.
Definition new_ReturnStatement (exp : option expr) : stmt := ReturnStatement exp.
Definition new_AssignStatement (target valxp : expr) : stmt := AssignStatement false target valxp.
Definition new_IfStatement (exp : expr) (b else_block : option block) : stmt :=
  IfStatement exp b else_block.

(** The assertions on the identifiers; null is [None]. *)
Definition new_PointerExpression {S} (ident : option string) (offsetExpression : option expr)
    (field : option string) : SE S crash expr :=
  assert (bool_decide (is_Some ident)) "No identifier given for PointerExpression" ;;
  i <- deref ident ;; mret (PointerExpression i offsetExpression field).

Definition new_AddressOfExpression {S} (ident : option string) (offsetExpression : option expr) :
    SE S crash expr :=
  assert (bool_decide (is_Some ident)) "No identifier given for AddressOfExpression" ;;
  i <- deref ident ;; mret (AddressOfExpression i offsetExpression).

Definition new_StructureExpression {S} (ident field : option string) : SE S crash expr :=
  assert (bool_decide (is_Some ident)) "No structure identifier given for StructureExpression" ;;
  assert (bool_decide (is_Some field)) "No field given for StructureExpression" ;;
  i <- deref ident ;; f <- deref field ;; mret (StructureExpression i f).

(** * Output *)

Section describe.
(** Whether [YYDEBUG] is defined, and [printf]'s [%f]. *)
Context (YYDEBUG : bool) (format_f : double -> string).

Definition debug (line : string) : list string := if YYDEBUG then [line +:+ newline] else [].

(** [pprintf] prints its argument as it stands. *)
Definition pprintf (s : string) : list string := if YYDEBUG then [s] else [].

(** [(int)value] keeps the low 32 bits. *)
Definition Integer_describe (value : int64) : list string :=
  debug ("---Found Literal Integer: " +:+ pretty (wrap 32 value)).
Definition Float_describe (value : double) : list string :=
  debug ("---Found Float: " +:+ format_f value).
Definition Identifier_describe (name : string) : list string :=
  debug ("---Found Identifier: " +:+ name).
Definition UnaryOperator_describe : list string := debug "---Found Unary Operator".
Definition BinaryOperator_describe (op : string) : list string :=
  debug ("---Found Binary Operator " +:+ op).
Definition Block_describe : list string := debug "---Found Block".
Definition FunctionCall_describe (ident : string) : list string :=
  debug ("---Found Function Call: " +:+ ident).
Definition NullLiteral_describe : list string := debug "---Found Null".
Definition Keyword_describe (name : string) : list string := debug ("---Found Keyword: " +:+ name).
Definition VariableDefinition_describe (type ident : string) (hasPointerType : bool) :
    list string :=
  if hasPointerType
  then debug ("---Found Variable Declaration: type='" +:+ type +:+ "*' identifier='" +:+ ident
              +:+ "'")
  else debug ("---Found Variable Declaration: type='" +:+ type +:+ "' identifier='" +:+ ident
              +:+ "'").
Definition StructureDefinition_describe (ident : string) : list string :=
  debug ("---Found Structure Definition: " +:+ ident).
Definition FunctionDefinition_describe (ident : string) : list string :=
  debug ("---Found Function Definition: " +:+ ident).
Definition StructureDeclaration_describe (user_type ident : string) : list string :=
  debug ("---Found Structure Declaration: type='" +:+ user_type +:+ "' identifier='" +:+ ident
         +:+ "'").
Definition ExpressionStatement_describe : list string :=
  debug "---Expression(s) converted into statements".
Definition ReturnStatement_describe (exp : option expr) : list string :=
  match exp with
  | Some _ => debug "---Found return statement with expression"
  | None => debug "---Found return statement, statement returns void"
  end.
Definition AssignStatement_describe : list string := debug "---Found Assignment Statement".
Definition IfStatement_describe : list string := debug "---Found If Statement".
Definition ExternStatement_describe (ident : string) : list string :=
  debug ("---Found extern: " +:+ ident).
Definition PointerExpression_describe (ident : string) : list string :=
  debug ("---Found PointerExpression for: " +:+ ident).
Definition AddressOfExpression_describe (ident : string) : list string :=
  debug ("---Found AddressOfExpression for: " +:+ ident).
Definition StructureExpression_describe (ident field : string) : list string :=
  debug ("---Found StructureExpression for: " +:+ ident +:+ ", field: " +:+ field).

(** [describe], virtual: one line, nothing about the children. *)
Definition expr_describe (e : expr) : list string :=
  match e with
  | Integer value => Integer_describe value
  | Float value => Float_describe value
  | Identifier name => Identifier_describe name
  | UnaryOperator _ _ => UnaryOperator_describe
  | BinaryOperator _ op _ => BinaryOperator_describe op
  | FunctionCall ident _ => FunctionCall_describe ident
  | NullLiteral => NullLiteral_describe
  | PointerExpression ident _ _ => PointerExpression_describe ident
  | AddressOfExpression ident _ => AddressOfExpression_describe ident
  | StructureExpression ident field => StructureExpression_describe ident field
  end.

Definition stmt_describe (s : stmt) : list string :=
  match s with
  | SVariable (VariableDefinition _ type ident _ ptr) => VariableDefinition_describe type ident ptr
  | SVariable (StructureDeclaration type ident _) => StructureDeclaration_describe type ident
  | StructureDefinition ident _ => StructureDefinition_describe ident
  | FunctionDefinition _ ident _ _ _ => FunctionDefinition_describe ident
  | ExpressionStatement _ _ => ExpressionStatement_describe
  | ReturnStatement exp => ReturnStatement_describe exp
  | AssignStatement _ _ _ => AssignStatement_describe
  | IfStatement _ _ _ => IfStatement_describe
  | ExternStatement _ ident _ _ => ExternStatement_describe ident
  end.
End describe.

(** The [describe] of the three base classes, in every build. *)
Definition Node_describe : list string :=
  ["---Found generic node object with no fields."; "---This SHOULD BE AN ERROR."].
Definition Expression_describe : list string :=
  ["---Found generic Expression object with no fields" +:+ newline].
Definition Statement_describe : list string :=
  ["---Found generic statement object with no fields" +:+ newline].
