(* ===== verification/AstProps.v ===== *)
(** The properties of the syntax tree: copied strings, the visitor that
    collects declarations, the type table. *)

From S2P Require Import Prelude Ast.

(** * Strings *)

Lemma strlen_app l n : strlen l = Some n ->
  n < length l /\ l !! n = Some nul /\ Forall (fun c => c <> nul) (take n l).
Proof.
  revert n. induction l as [|c l IH]; intros n; simpl; [done |]. case_decide as E.
  - intros [= <-]. subst. simpl. split_and!; [lia | done | constructor].
  - intros H. apply fmap_Some in H as (m & Hm & ->). destruct (IH m Hm) as (H1 & H2 & H3).
    split_and!; [lia | done | by constructor].
Qed.

Lemma strlen_take l n : strlen l = Some n -> strlen (take (S n) l) = Some n.
Proof.
  revert n. induction l as [|c l IH]; intros n; [done |]. cbn [strlen take]. case_decide as E.
  - intros [= <-]. done.
  - intros H. apply fmap_Some in H as (m & Hm & ->). by rewrite (IH m Hm).
Qed.

(** [dup_char] copies a C string: the copy is one byte longer than the
    string, ends with its only zero byte and denotes the same string, whatever
    follows the terminator in the original; a buffer without a zero byte has
    no copy (the loop of [strlen] leaves it). *)
Theorem dup_char_roundtrip buf :
  match strlen buf with
  | Some n =>
      exists d, dup_char buf = Some d /\ length d = n + 1 /\ last d = Some nul /\
        (forall i, i < n -> d !! i <> Some nul) /\ c_str d = c_str buf /\ dup_char d = Some d
  | None => dup_char buf = None /\ nul ∉ buf
  end.
Proof.
  unfold dup_char, c_str. destruct (strlen buf) as [n|] eqn:E; simpl.
  - destruct (strlen_app _ _ E) as (Hlt & Hn & Hall). pose proof (strlen_take _ _ E) as Et.
    exists (take (n + 1) buf). rewrite Nat.add_1_r, Et. simpl. split_and!; try done.
    + rewrite length_take. lia.
    + rewrite last_lookup, length_take, Nat.min_l by lia. simpl. rewrite lookup_take_lt by lia. done.
    + intros i Hi Hc. rewrite lookup_take_lt in Hc by lia.
      rewrite Forall_lookup in Hall. apply (Hall i nul); [| done]. by rewrite lookup_take_lt.
    + by rewrite take_take, Nat.min_l by lia.
    + f_equal. rewrite take_take. f_equal. lia.
  - split; [done |]. clear -E. induction buf as [|c buf IH]; [apply not_elem_of_nil |].
    simpl in E. case_decide; [done |]. apply not_elem_of_cons. split; [done |]. apply IH.
    by destruct (strlen buf).
Qed.

(** * Declarations of a block *)

(** The declaration that a statement is. *)
Definition declared (s : stmt) : option vardef :=
  match s with SVariable v => Some v | _ => None end.

Definition is_structure (v : vardef) : bool :=
  match v with StructureDeclaration _ _ _ => true | _ => false end.

Lemma StatementVisitor_fold l sv :
  foldl (fun sv s => StatementVisitor.accept s sv) sv l =
    StatementVisitor.mk
      (StatementVisitor.varList sv ++ filter (fun v => is_structure v = false) (omap declared l))
      (StatementVisitor.structList sv ++ filter (fun v => is_structure v = true) (omap declared l)).
Proof.
  revert sv. induction l as [|s l IH]; intros sv; simpl; [by rewrite !app_nil_r; destruct sv |].
  rewrite IH. destruct s as [[]| | | | | | |]; simpl; try done;
    rewrite ?filter_cons; simpl; by rewrite <- ?app_assoc.
Qed.

(** [getVariables] and [getStructs] split the declarations at the top of a
    block: the plain variables and the structures, each in the order of the
    program and none lost; of an empty block, whose pointer is null, both
    crash. *)
Theorem declarations_split b :
  match b with
  | Some l => exists vars structs, getVariables b = Ok vars /\ getStructs b = Ok structs /\
      Forall (fun v => is_structure v = false) vars /\
      Forall (fun v => is_structure v = true) structs /\
      vars `sublist_of` omap declared l /\ structs `sublist_of` omap declared l /\
      vars ++ structs ≡ₚ omap declared l
  | None => getVariables b = Err NullPointer /\ getStructs b = Err NullPointer
  end.
Proof.
  destruct b as [l|]; [| done]. unfold getVariables, getStructs, StatementVisitor.visitBlock.
  rewrite (bind_eq _ _ StatementVisitor.new l StatementVisitor.new) by done.
  unfold modify. rewrite StatementVisitor_fold. simpl. eexists _, _. split_and!; try done.
  - apply Forall_forall. intros v Hv. by apply list_elem_of_filter in Hv as [? _].
  - apply Forall_forall. intros v Hv. by apply list_elem_of_filter in Hv as [? _].
  - apply sublist_filter.
  - apply sublist_filter.
  - induction (omap declared l) as [|v vs IH]; [done |]. rewrite !filter_cons.
    destruct (is_structure v); simpl; [| by rewrite IH].
    by rewrite <- Permutation_middle, IH.
Qed.

(** The type table: after a structure definition validates, its name is
    found, every later declaration or function that names it validates, and a
    second definition of it is refused, with a message, and changes nothing;
    other names are as before, and a declaration of an unknown one is refused
    with an error at its line. *)
Theorem type_table_lookup table ident line :
  TypeTable.check table ident = false ->
  StructureDeclaration_validate line table ident =
    (false, yyerror line "Type was not a declared in the structure table") /\
  exists table', StructureDefinition_validate table ident = (true, table', []) /\
    StructureDeclaration_validate line table' ident = (true, []) /\
    FunctionDefinition_validate table' (UserType ident) = true /\
    StructureDefinition_validate table' ident =
      (false, table', ["User type already exists!" +:+ newline]) /\
    (forall other, other <> ident -> TypeTable.check table' other = TypeTable.check table other).
Proof.
  intros H. unfold StructureDeclaration_validate. rewrite H. split; [done |].
  exists (TypeTable.insert table ident).
  assert (TypeTable.check (TypeTable.insert table ident) ident = true) as Hin.
  { apply bool_decide_eq_true, elem_of_app. right. by apply list_elem_of_singleton. }
  unfold FunctionDefinition_validate, StructureDefinition_validate.
  rewrite H, Hin. split_and!; try done. intros other Hne. unfold TypeTable.check, TypeTable.insert.
  apply bool_decide_ext. rewrite elem_of_app, list_elem_of_singleton. naive_solver.
Qed.

Lemma type_table_lookup_witness :
  StructureDefinition_validate ["list"] "tree" = (true, ["list"; "tree"], []) /\
  FunctionDefinition_validate ["list"; "tree"] (UserType "tree") = true.
Proof.
  split; [reflexivity |].
  destruct (type_table_lookup ["list"] "tree" 1 eq_refl) as (_ & t & [= <-] & _ & Hf & _).
  exact Hf.
Defined.
