(* ===== verification/Lexer.v ===== *)
(** The lexer [lex.l]: the rules as written there, and the scanner that flex
    makes of them.

    flex takes the longest text that a rule matches, and of the rules that
    match that text the first; a rule with [^] applies at the beginning of a
    line only; a character that no rule matches is echoed.  The text of a
    token that the parser reads is a string, as [SAVE_TOKEN] copies it. *)

From Stdlib Require Import Ascii.
From S2P Require Import Prelude.

(** * Patterns *)

Inductive re : Type :=
  | Empty
  | Eps
  | Class (p : ascii -> bool)
  | Seq (a b : re)
  | Alt (a b : re)
  | Star (a : re).

(** The texts a pattern stands for. *)
Inductive matches : re -> list ascii -> Prop :=
  | matches_eps : matches Eps []
  | matches_class p c : p c = true -> matches (Class p) [c]
  | matches_seq a b v w : matches a v -> matches b w -> matches (Seq a b) (v ++ w)
  | matches_left a b w : matches a w -> matches (Alt a b) w
  | matches_right a b w : matches b w -> matches (Alt a b) w
  | matches_none a : matches (Star a) []
  | matches_more a v w : matches a v -> matches (Star a) w -> matches (Star a) (v ++ w).

Fixpoint nullable (r : re) : bool :=
  match r with
  | Empty | Class _ => false
  | Eps | Star _ => true
  | Seq a b => nullable a && nullable b
  | Alt a b => nullable a || nullable b
  end.

Definition seq (a b : re) : re :=
  match a with Empty => Empty | Eps => b | _ => Seq a b end.

Definition alt (a b : re) : re :=
  match a, b with Empty, _ => b | _, Empty => a | _, _ => Alt a b end.

(** What is left of a pattern behind the character [c]. *)
Fixpoint derive (c : ascii) (r : re) : re :=
  match r with
  | Empty | Eps => Empty
  | Class p => if p c then Eps else Empty
  | Seq a b =>
      if nullable a then alt (seq (derive c a) b) (derive c b) else seq (derive c a) b
  | Alt a b => alt (derive c a) (derive c b)
  | Star a => seq (derive c a) (Star a)
  end.

(** The length of the longest beginning of [s] that [r] matches. *)
Fixpoint longest (r : re) (s : list ascii) : option nat :=
  let here := if nullable r then Some 0 else None in
  match r, s with
  | Empty, _ => None
  | _, [] => here
  | _, c :: s' => match longest (derive c r) s' with Some n => Some (S n) | None => here end
  end.

(** ** The notations of flex *)

Definition char (c : ascii) : re := Class (Ascii.eqb c).
Definition lit (s : string) : re := foldr (fun c r => Seq (char c) r) Eps (String.list_ascii_of_string s).
Definition plus (r : re) : re := Seq r (Star r).

Definition between (lo hi c : ascii) : bool :=
  (nat_of_ascii lo <=? nat_of_ascii c) && (nat_of_ascii c <=? nat_of_ascii hi).

Definition lf : ascii := "010".
Definition is_blank (c : ascii) : bool := Ascii.eqb c " " || Ascii.eqb c "009" || Ascii.eqb c "013".
Definition is_dot (c : ascii) : bool := negb (Ascii.eqb c lf).
Definition is_digit (c : ascii) : bool := between "0" "9" c.
Definition is_letter (c : ascii) : bool :=
  between "a" "z" c || between "A" "Z" c || Ascii.eqb c "$" || Ascii.eqb c "_".
Definition is_word (c : ascii) : bool := is_letter c || is_digit c.

(** * Tokens and rules *)

(** The tokens of [parser.y] that the lexer gives. *)
Inductive kind : Type :=
  | TENDL | TSET | TEQUAL | TNEQUAL | TLT | TLTE | TGT | TGTE | TLOR | TLAND | TLNOT
  | TLPAREN | TRPAREN | TLBRACE | TRBRACE | TLSBRACE | TRSBRACE | TDOT | TPLUS | TDASH
  | TSTAR | TSLASH | TSCOLON | TSAMPR | TCOMMA | TIF | TWHILE | TRETURN | TINT | TFLOAT
  | TVOID | TSTRUCT | TEXTERN | TELSE | TNULL | TNEW | TFLOATLIT | TINTLIT | TIDENTIFIER.

#[export] Instance kind_eq_dec : EqDecision kind.
Proof. solve_decision. Defined.

(** A token with the member of [yylval] that is set: the number of the token,
    or its text. *)
Inductive token : Type := Plain (k : kind) | Text (k : kind) (s : string).

#[export] Instance token_eq_dec : EqDecision token.
Proof. solve_decision. Defined.

Inductive action : Type := Skip | TOKEN (k : kind) | SAVE_TOKEN (k : kind) | Unknown.

(** [first_column]: the pattern begins with [^]. *)
Record rule : Type := mk_rule { first_column : bool; pattern : re; act : action }.

Definition rules : list rule := [
  mk_rule false (Class is_blank) Skip;
  mk_rule true (Seq (Star (char " ")) (char lf)) Skip;
  mk_rule false (Seq (char "/") (Seq (plus (char "/")) (Seq (Star (Class is_dot)) (char lf)))) Skip;
  mk_rule false (char lf) (TOKEN TENDL);
  mk_rule false (lit "=") (TOKEN TSET);
  mk_rule false (lit "==") (SAVE_TOKEN TEQUAL);
  mk_rule false (lit "!=") (SAVE_TOKEN TNEQUAL);
  mk_rule false (lit "<") (SAVE_TOKEN TLT);
  mk_rule false (lit "<=") (SAVE_TOKEN TLTE);
  mk_rule false (lit ">") (SAVE_TOKEN TGT);
  mk_rule false (lit ">=") (SAVE_TOKEN TGTE);
  mk_rule false (lit "||") (SAVE_TOKEN TLOR);
  mk_rule false (lit "&&") (SAVE_TOKEN TLAND);
  mk_rule false (lit "!") (SAVE_TOKEN TLNOT);
  mk_rule false (lit "(") (TOKEN TLPAREN);
  mk_rule false (lit ")") (TOKEN TRPAREN);
  mk_rule false (lit "{") (TOKEN TLBRACE);
  mk_rule false (lit "}") (TOKEN TRBRACE);
  mk_rule false (lit "[") (TOKEN TLSBRACE);
  mk_rule false (lit "]") (TOKEN TRSBRACE);
  mk_rule false (lit ".") (SAVE_TOKEN TDOT);
  mk_rule false (lit "+") (SAVE_TOKEN TPLUS);
  mk_rule false (lit "-") (SAVE_TOKEN TDASH);
  mk_rule false (lit "*") (SAVE_TOKEN TSTAR);
  mk_rule false (lit "/") (SAVE_TOKEN TSLASH);
  mk_rule false (lit ";") (SAVE_TOKEN TSCOLON);
  mk_rule false (lit "&") (SAVE_TOKEN TSAMPR);
  mk_rule false (lit ",") (TOKEN TCOMMA);
  mk_rule false (lit "if") (TOKEN TIF);
  mk_rule false (lit "while") (TOKEN TWHILE);
  mk_rule false (lit "return") (TOKEN TRETURN);
  mk_rule false (lit "int") (TOKEN TINT);
  mk_rule false (lit "float") (TOKEN TFLOAT);
  mk_rule false (lit "void") (TOKEN TVOID);
  mk_rule false (lit "struct") (TOKEN TSTRUCT);
  mk_rule false (lit "extern") (TOKEN TEXTERN);
  mk_rule false (lit "else") (TOKEN TELSE);
  mk_rule false (lit "NULL") (TOKEN TNULL);
  mk_rule false (lit "new") (SAVE_TOKEN TNEW);
  mk_rule false (Seq (Star (Class is_digit)) (Seq (char ".") (plus (Class is_digit)))) (SAVE_TOKEN TFLOATLIT);
  mk_rule false (plus (Class is_digit)) (SAVE_TOKEN TINTLIT);
  mk_rule false (Seq (Class is_letter) (Star (Class is_word))) (SAVE_TOKEN TIDENTIFIER);
  mk_rule false (Class is_dot) Unknown
].

#[global] Arguments rules : simpl never.

(** The longest match, and of equally long ones the first. *)
Fixpoint best (l : list rule) (bol : bool) (s : list ascii) : option (nat * action) :=
  match l with
  | [] => None
  | r :: l' =>
      match (if first_column r && negb bol then None else longest (pattern r) s), best l' bol s with
      | None, b => b
      | Some n, Some (n', a') => if n <? n' then Some (n', a') else Some (n, act r)
      | Some n, None => Some (n, act r)
      end
  end.

(** * The scanner *)

Record scanner : Type := mk_scanner {
  input : list ascii;
  yy_at_bol : bool;
  yylineno : Z;
  printed : string
}.

Inductive lex_error : Type := OutOfFuel.

Abbreviation L := (SE scanner lex_error).

Definition ends_line (w : list ascii) : bool :=
  match last w with Some c => Ascii.eqb c lf | None => false end.

(** Behind the text [w]. *)
Definition advance (w : list ascii) (s : scanner) : scanner :=
  mk_scanner (drop (length w) (input s)) (ends_line w)
    (yylineno s + Z.of_nat (length (filter (fun c => Ascii.eqb c lf) w))) (printed s).

Definition print (t : string) : L unit :=
  modify (fun s => mk_scanner (input s) (yy_at_bol s) (yylineno s) (printed s +:+ t)).

(** [%s] of one character: nothing, when it is the terminator. *)
Definition char_text (w : list ascii) : string :=
  match w with "000"%char :: _ => EmptyString | _ => String.string_of_list_ascii w end.

(** [None] is the end of the input, which [yyterminate] also returns;
    [yywrap] allows one file. *)
Fixpoint yylex (fuel : nat) : L (option token) :=
  match fuel with
  | O => fail OutOfFuel
  | S fuel =>
      s <- gets input ;;
      bol <- gets yy_at_bol ;;
      match s, best rules bol s with
      | [], _ => mret None
      | c :: _, None => modify (advance [c]) ;; print (String.string_of_list_ascii [c]) ;; yylex fuel
      | _, Some (n, a) =>
          let yytext := take n s in
          modify (advance yytext) ;;
          match a with
          | Skip => yylex fuel
          | TOKEN t => mret (Some (Plain t))
          | SAVE_TOKEN t => mret (Some (Text t (String.string_of_list_ascii yytext)))
          | Unknown =>
              print ("Unknown token encountered in lexer: " +:+ char_text yytext +:+ newline) ;;
              mret None
          end
      end
  end.

(** The calls of the parser, until the end. *)
Fixpoint tokens (fuel : nat) : L (list token) :=
  match fuel with
  | O => fail OutOfFuel
  | S fuel =>
      t <- yylex (S fuel) ;;
      match t with
      | None => mret []
      | Some t => ts <- tokens fuel ;; mret (t :: ts)
      end
  end.

Definition open_text (text : list ascii) : scanner := mk_scanner text true 1 EmptyString.

Definition lex (text : list ascii) : res lex_error (list token) * scanner :=
  tokens (S (length text)) (open_text text).
