(* ===== verification/LexerFacts.v ===== *)
(** The scanner takes what the rules say: derivatives, the longest match, the
    first of the rules with the longest match, and the splitting of a text
    that they define. *)

From Stdlib Require Import Ascii.
From S2P Require Import Prelude Lexer.

(** * Patterns *)

#[export] Hint Constructors matches : fork.

Lemma matches_Empty w : ~ matches Empty w.
Proof. inversion 1. Qed.

Lemma matches_Eps w : matches Eps w <-> w = [].
Proof. split; [by inversion 1 | intros ->; constructor]. Qed.

Lemma matches_Class p w : matches (Class p) w <-> exists c, w = [c] /\ p c = true.
Proof. split; [inversion 1; subst; eauto | intros (c & -> & H); by constructor]. Qed.

Lemma matches_Seq a b w :
  matches (Seq a b) w <-> exists u v, w = u ++ v /\ matches a u /\ matches b v.
Proof. split; [inversion 1; subst; eauto | intros (u & v & -> & ? & ?); by constructor]. Qed.

Lemma matches_Alt a b w : matches (Alt a b) w <-> matches a w \/ matches b w.
Proof. split; [inversion 1; subst; eauto | intros [|]; eauto with fork]. Qed.

(** A nonempty text of [Star a] begins with a nonempty text of [a]. *)
Lemma matches_Star_cons a c w :
  matches (Star a) (c :: w) <-> exists u v, w = u ++ v /\ matches a (c :: u) /\ matches (Star a) v.
Proof.
  split.
  - intros H. remember (Star a) as r eqn:Er. remember (c :: w) as t eqn:Et. revert Er w Et.
    induction H as [| | | | | |a' v u Hv _ Hu IH]; intros Er t Et; try discriminate.
    injection Er as ->. destruct v as [|c' v]; simpl in Et; [by apply IH |].
    injection Et as -> <-. by exists v, u.
  - intros (u & v & -> & Hu & Hv). by apply (matches_more a (c :: u) v).
Qed.

Lemma nullable_spec r : nullable r = true <-> matches r [].
Proof.
  induction r as [| |p|a IHa b IHb|a IHa b IHb|a IHa]; simpl.
  - split; [done | inversion 1].
  - rewrite matches_Eps. done.
  - rewrite matches_Class. split; [done | by intros (? & ? & _)].
  - rewrite andb_true_iff, IHa, IHb, matches_Seq. split; [by intros []; exists [], [] |].
    by intros (u & v & [-> ->]%eq_sym%app_eq_nil & ? & ?).
  - by rewrite orb_true_iff, IHa, IHb, matches_Alt.
  - split; eauto with fork.
Qed.

Lemma seq_spec a b w : matches (seq a b) w <-> matches (Seq a b) w.
Proof.
  destruct a; simpl; try done; rewrite matches_Seq.
  - split; [by intros ?%matches_Empty | by intros (? & ? & _ & ?%matches_Empty & _)].
  - split; [intros H; exists [], w; split_and!; [done | constructor | done] |].
    by intros (? & ? & -> & ->%matches_Eps & ?).
Qed.

Lemma alt_spec a b w : matches (alt a b) w <-> matches (Alt a b) w.
Proof.
  rewrite matches_Alt. assert (forall u, matches Empty u <-> False) as HE.
  { intros u. split; [apply matches_Empty | done]. }
  destruct a; destruct b; simpl; rewrite ?matches_Alt, ?HE; tauto.
Qed.

Lemma derive_spec c r : forall w, matches (derive c r) w <-> matches r (c :: w).
Proof.
  induction r as [| |p|a IHa b IHb|a IHa b IHb|a IHa]; intros w; simpl.
  - split; by intros ?%matches_Empty.
  - rewrite matches_Eps. split; [by intros ?%matches_Empty | done].
  - rewrite matches_Class. destruct (p c) eqn:E.
    + rewrite matches_Eps. split; [intros ->; by exists c | by intros (? & [= <- ->] & _)].
    + split; [by intros ?%matches_Empty | intros (? & [= <- ->] & ?); congruence].
  - assert (matches (seq (derive c a) b) w <->
      exists u v, w = u ++ v /\ matches a (c :: u) /\ matches b v) as Hs.
    { rewrite seq_spec, matches_Seq. by setoid_rewrite IHa. }
    rewrite matches_Seq. destruct (nullable a) eqn:Ea.
    + rewrite alt_spec, matches_Alt, Hs, IHb. apply nullable_spec in Ea. split.
      * intros [(u & v & -> & ? & ?)|?]; [by exists (c :: u), v | by exists [], (c :: w)].
      * intros ([|c' u] & v & E & ? & ?); simpl in E; subst; [by right |].
        injection E as -> ->. left. by exists u, v.
    + rewrite Hs. split; [intros (u & v & -> & ? & ?); by exists (c :: u), v |].
      intros ([|c' u] & v & E & Hu & ?); [by apply nullable_spec in Hu; congruence |].
      injection E as -> ->. by exists u, v.
  - rewrite alt_spec, !matches_Alt, IHa, IHb. done.
  - rewrite seq_spec, matches_Seq, matches_Star_cons. by setoid_rewrite IHa.
Qed.

(** * The longest match *)

Definition is_longest (r : re) (s : list ascii) (o : option nat) : Prop :=
  (forall m, m <= length s -> matches r (take m s) -> exists n, o = Some n /\ m <= n) /\
  (forall n, o = Some n -> n <= length s /\ matches r (take n s)).

Lemma is_longest_here r :
  is_longest r [] (if nullable r then Some 0 else None).
Proof.
  split.
  - intros m Hm H. rewrite take_nil in H. apply nullable_spec in H. rewrite H.
    simpl in *. exists 0. split; [done | lia].
  - intros n E. destruct (nullable r) eqn:N; simplify_eq. split; [done |]. by apply nullable_spec.
Qed.

Lemma longest_spec s : forall r, is_longest r s (longest r s).
Proof.
  induction s as [|c s IH]; intros r.
  { destruct r; apply (is_longest_here Empty) || apply is_longest_here. }
  assert (is_longest r (c :: s) (match longest (derive c r) s with
    | Some n => Some (S n) | None => if nullable r then Some 0 else None end)) as H.
  { destruct (IH (derive c r)) as [H1 H2]. split.
    - intros [|m] Hm Hr; simpl in *.
      + apply nullable_spec in Hr. rewrite Hr.
        destruct (longest (derive c r) s); eexists; (split; [done | lia]).
      + apply derive_spec in Hr. destruct (H1 m) as (n & -> & ?); [lia | done |].
        exists (S n). split; [done | lia].
    - intros n E. destruct (longest (derive c r) s) as [k|] eqn:Ek; simplify_eq.
      + destruct (H2 k eq_refl) as [? ?%derive_spec]. simpl. split; [lia | done].
      + destruct (nullable r) eqn:N; simplify_eq. split; [simpl; lia | by apply nullable_spec]. }
  destruct r; try exact H. split; [by intros ? _ ?%matches_Empty | done].
Qed.

(** * The choice of a rule *)

Definition applies (bol : bool) (s : list ascii) (n : nat) (r : rule) : Prop :=
  (first_column r = true -> bol = true) /\ n <= length s /\ matches (pattern r) (take n s).

(** [n] is the greatest length any rule matches at, and [a] the action of the
    first rule that matches there. *)
Definition chosen (l : list rule) (bol : bool) (s : list ascii) (n : nat) (a : action) : Prop :=
  exists i r, l !! i = Some r /\ act r = a /\ applies bol s n r /\
    forall j r' m, l !! j = Some r' -> applies bol s m r' -> m < n \/ (m = n /\ i <= j).

Lemma chosen_fun l bol s n a n' a' :
  chosen l bol s n a -> chosen l bol s n' a' -> n = n' /\ a = a'.
Proof.
  intros (i & r & Hi & <- & Hr & H) (i' & r' & Hi' & <- & Hr' & H').
  destruct (H _ _ _ Hi' Hr') as [?|[? ?]], (H' _ _ _ Hi Hr) as [?|[? ?]]; try lia.
  assert (i = i') as -> by lia. naive_solver.
Qed.

Lemma rule_longest bol s r :
  let o := if first_column r && negb bol then None else longest (pattern r) s in
  (forall m, applies bol s m r -> exists n, o = Some n /\ m <= n) /\
  (forall n, o = Some n -> applies bol s n r).
Proof.
  destruct (longest_spec s (pattern r)) as [H1 H2]. unfold applies.
  destruct (first_column r); destruct bol; simpl; split; naive_solver.
Qed.

Lemma best_None l bol s : best l bol s = None -> forall r m, r ∈ l -> ~ applies bol s m r.
Proof.
  induction l as [|r l IH]; simpl; intros E r' m Hr; [by apply elem_of_nil in Hr |].
  destruct (rule_longest bol s r) as [H1 _]. simpl in H1.
  destruct (if first_column r && negb bol then None else longest (pattern r) s) as [k|];
    [destruct (best l bol s) as [[]|]; [by destruct (_ <? _) | done] |].
  apply elem_of_cons in Hr as [->|Hr]; [| by apply IH].
  intros H. by destruct (H1 _ H) as (? & ? & _).
Qed.

Lemma best_Some l bol s n a : best l bol s = Some (n, a) -> chosen l bol s n a.
Proof.
  revert n a. induction l as [|r l IH]; simpl; intros n a E; [done |].
  destruct (rule_longest bol s r) as [H1 H2]. simpl in H1, H2.
  pose proof (best_None l bol s) as HN.
  destruct (if first_column r && negb bol then None else longest (pattern r) s) as [k|].
  - assert (forall m, applies bol s m r -> m <= k) as Hk.
    { intros m Hm. destruct (H1 _ Hm) as (? & [= <-] & ?). done. }
    destruct (best l bol s) as [[n' a']|] eqn:Eb; [destruct (Nat.ltb_spec k n') |]; simplify_eq.
    + destruct (IH _ _ eq_refl) as (i & r' & Hi & Ha & Hap & Hmax). exists (S i), r'. split_and!; try done.
      intros [|j] r2 m Hj Hm; simpl in Hj; simplify_eq.
      * apply Hk in Hm. lia.
      * destruct (Hmax _ _ _ Hj Hm); lia.
    + destruct (IH _ _ eq_refl) as (i & r' & Hi & Ha & Hap & Hmax). exists 0, r.
      split_and!; try done; [by apply H2 |].
      intros [|j] r2 m Hj Hm; simpl in Hj; simplify_eq.
      * apply Hk in Hm. lia.
      * destruct (Hmax _ _ _ Hj Hm); lia.
    + exists 0, r. split_and!; try done; [by apply H2 |].
      intros [|j] r2 m Hj Hm; simpl in Hj; simplify_eq.
      * apply Hk in Hm. lia.
      * apply list_elem_of_lookup_2 in Hj. by destruct (HN eq_refl _ _ Hj Hm).
  - destruct (IH _ _ E) as (i & r' & Hi & Ha & Hap & Hmax). exists (S i), r'. split_and!; try done.
    intros [|j] r2 m Hj Hm; simpl in Hj; simplify_eq.
    + by destruct (H1 _ Hm) as (? & ? & _).
    + destruct (Hmax _ _ _ Hj Hm); lia.
Qed.

Lemma best_spec l bol s n a : best l bol s = Some (n, a) <-> chosen l bol s n a.
Proof.
  split; [apply best_Some |]. intros H. destruct (best l bol s) as [[n' a']|] eqn:E.
  - apply best_Some in E. by destruct (chosen_fun _ _ _ _ _ _ _ E H) as [-> ->].
  - destruct H as (i & r & Hi & _ & Hap & _). apply list_elem_of_lookup_2 in Hi.
    by destruct (best_None _ _ _ E _ _ Hi Hap).
Qed.

(** * What a text is split into *)

Definition message (w : list ascii) : string :=
  "Unknown token encountered in lexer: " +:+ char_text w +:+ newline.

(** [scan b s ts rest out]: from the text [s], at the beginning of a line when
    [b] is true, the rules give the tokens [ts]; [rest] is not looked at, and
    [out] is printed. *)
Inductive scan : bool -> list ascii -> list token -> list ascii -> string -> Prop :=
  | scan_end b : scan b [] [] [] EmptyString
  | scan_skip b s n ts rest out :
      chosen rules b s n Skip -> scan (ends_line (take n s)) (drop n s) ts rest out ->
      scan b s ts rest out
  | scan_token b s n k ts rest out :
      chosen rules b s n (TOKEN k) -> scan (ends_line (take n s)) (drop n s) ts rest out ->
      scan b s (Plain k :: ts) rest out
  | scan_text b s n k ts rest out :
      chosen rules b s n (SAVE_TOKEN k) -> scan (ends_line (take n s)) (drop n s) ts rest out ->
      scan b s (Text k (String.string_of_list_ascii (take n s)) :: ts) rest out
  | scan_unknown b s n :
      chosen rules b s n Unknown -> scan b s [] (drop n s) (message (take n s)).

Lemma rules_nonempty r : r ∈ rules -> nullable (pattern r) = false.
Proof.
  intros H. assert (forallb (fun r => negb (nullable (pattern r))) rules = true) as E by reflexivity.
  rewrite forallb_forall in E. apply negb_true_iff, E. by apply list_elem_of_In.
Qed.

Lemma chosen_length b s n a : chosen rules b s n a -> 0 < n <= length s.
Proof.
  intros (i & r & Hi & _ & (_ & Hn & Hm) & _). split; [| done].
  destruct n; [| lia]. apply nullable_spec in Hm. apply list_elem_of_lookup_2, rules_nonempty in Hi. congruence.
Qed.

Lemma rules_total b c s : exists n a, best rules b (c :: s) = Some (n, a).
Proof.
  destruct (best rules b (c :: s)) as [[n a]|] eqn:E; [by eauto |]. exfalso.
  destruct (is_dot c) eqn:D.
  - apply (best_None _ _ _ E (mk_rule false (Class is_dot) Unknown) 1).
    + apply (list_elem_of_lookup_2 _ 42). reflexivity.
    + split_and!; [done | simpl; lia |]. by constructor.
  - apply (best_None _ _ _ E (mk_rule false (char lf) (TOKEN TENDL)) 1).
    + apply (list_elem_of_lookup_2 _ 3). reflexivity.
    + split_and!; [done | simpl; lia |]. constructor. unfold is_dot in D.
      apply negb_false_iff in D. by rewrite Ascii.eqb_sym.
Qed.

Lemma scan_fun b s ts rest out :
  scan b s ts rest out -> forall ts' rest' out', scan b s ts' rest' out' ->
  ts = ts' /\ rest = rest' /\ out = out'.
Proof.
  assert (forall b n a, ~ chosen rules b [] n a) as Hnil.
  { intros b' n a H. apply chosen_length in H. simpl in H. lia. }
  induction 1 as [b|b s n ts rest out Hc _ IH|b s n k ts rest out Hc _ IH|b s n k ts rest out Hc _ IH
    |b s n Hc]; intros ts' rest' out' H'; inversion H' as [|? ? ? ? ? ? Hc'|? ? ? ? ? ? ? Hc'
    |? ? ? ? ? ? ? Hc'|? ? ? Hc']; subst; try done; try (by apply Hnil in Hc); try (by apply Hnil in Hc');
    destruct (chosen_fun _ _ _ _ _ _ _ Hc Hc') as [<- Ha]; simplify_eq; try done.
  - by apply IH.
  - by destruct (IH _ _ _ H) as (-> & -> & ->).
  - by destruct (IH _ _ _ H) as (-> & -> & ->).
Qed.

(** * The scanner implements it *)

Definition lines (w : list ascii) : Z := Z.of_nat (length (filter (fun c => Ascii.eqb c lf) w)).

Definition read (st st' : scanner) : Prop :=
  exists w, input st = w ++ input st' /\ yylineno st' = (yylineno st + lines w)%Z.

Lemma read_refl st : read st st.
Proof. exists []. split; [done |]. unfold lines. simpl. lia. Qed.

Lemma read_trans st st1 st2 : read st st1 -> read st1 st2 -> read st st2.
Proof.
  intros (w & E & L) (w' & E' & L'). exists (w ++ w'). split; [by rewrite E, E', app_assoc |].
  rewrite L', L. unfold lines. rewrite filter_app, length_app. lia.
Qed.

Lemma read_advance n st : read st (advance (take n (input st)) st).
Proof.
  exists (take n (input st)). split; [| done]. simpl. rewrite length_take.
  destruct (Nat.min_spec n (length (input st))) as [[? ->]|[? ->]]; [by rewrite take_drop |].
  by rewrite drop_all, take_ge, app_nil_r by lia.
Qed.

(** One call of the lexer. *)
Lemma yylex_runs fuel st :
  length (input st) < fuel -> exists o st', yylex fuel st = (Ok o, st') /\ read st st' /\
    match o with
    | Some t => length (input st') < length (input st) /\ printed st' = printed st /\
        forall ts rest out, scan (yy_at_bol st') (input st') ts rest out ->
          scan (yy_at_bol st) (input st) (t :: ts) rest out
    | None => exists out, scan (yy_at_bol st) (input st) [] (input st') out /\
        printed st' = printed st +:+ out
    end.
Proof.
  revert st. induction fuel as [|fuel IH]; intros st Hf; [lia |].
  destruct (input st) as [|c s] eqn:Es.
  { exists None, st. split; [| split; [apply read_refl |]].
    - cbn [yylex]. unfold bind, gets. by rewrite Es.
    - rewrite Es. exists EmptyString. split; [constructor | by rewrite string_app_nil_r]. }
  destruct (rules_total (yy_at_bol st) c s) as (n & a & E).
  pose proof (proj1 (best_spec _ _ _ _ _) E) as Hc. pose proof (chosen_length _ _ _ _ Hc) as Hn.
  set (st1 := advance (take n (c :: s)) st).
  assert (input st1 = drop n (c :: s)) as E1 by (simpl; rewrite Es, length_take, Nat.min_l by lia; done).
  assert (read st st1) as R1 by (unfold st1; rewrite <- Es; apply read_advance).
  assert (length (input st1) < S (length s)) as Hl by (rewrite E1, length_drop; cbn [length] in Hn |- *; lia).
  assert (yylex (S fuel) st = match a with
    | Skip => yylex fuel st1
    | TOKEN t => (Ok (Some (Plain t)), st1)
    | SAVE_TOKEN t => (Ok (Some (Text t (String.string_of_list_ascii (take n (c :: s))))), st1)
    | Unknown => (Ok None, snd (print (message (take n (c :: s))) st1))
    end) as ->.
  { cbn [yylex]. unfold bind at 1 2, gets. rewrite Es, E. by destruct a. }
  destruct a as [|k|k|].
  - destruct (IH st1) as (o & st' & Ey & R & Ho); [cbn [length] in Hf; lia |].
    exists o, st'. split_and!; [done | by eapply read_trans |]. destruct o as [t|].
    + destruct Ho as (? & ? & Hs). split_and!; [cbn [length]; lia | done |]. intros ts rest out Hsc.
      eapply scan_skip; [exact Hc |]. rewrite <- E1. by apply Hs.
    + destruct Ho as (out & Hs & ?). exists out. split; [| done].
      eapply scan_skip; [exact Hc |]. by rewrite <- E1.
  - exists (Some (Plain k)), st1. split_and!; [done | done | done | done |]. intros ts rest out Hsc.
    eapply scan_token; [exact Hc |]. by rewrite <- E1.
  - exists (Some (Text k (String.string_of_list_ascii (take n (c :: s))))), st1.
    split_and!; [done | done | done | done |]. intros ts rest out Hsc.
    eapply scan_text; [exact Hc |]. by rewrite <- E1.
  - exists None, (snd (print (message (take n (c :: s))) st1)). split; [done | split].
    + destruct R1 as (w & ? & ?). by exists w.
    + exists (message (take n (c :: s))). split; [| done]. change (input _) with (input st1).
      rewrite E1. by apply scan_unknown.
Qed.

Lemma tokens_run fuel st :
  length (input st) < fuel -> exists ts st' out, tokens fuel st = (Ok ts, st') /\ read st st' /\
    scan (yy_at_bol st) (input st) ts (input st') out /\ printed st' = printed st +:+ out.
Proof.
  revert st. induction fuel as [|fuel IH]; intros st Hf; [lia |].
  destruct (yylex_runs (S fuel) st Hf) as (o & st1 & E & R & Ho). cbn [tokens]. rewrite (bind_eq _ _ _ _ _ E).
  destruct o as [t|].
  - destruct Ho as (Hl & Hp & Hs).
    destruct (IH st1) as (ts & st' & out & E' & R' & H' & Hp'); [lia |].
    exists (t :: ts), st', out. rewrite (bind_eq _ _ _ _ _ E'). split_and!; [done | by eapply read_trans | |].
    + by apply Hs.
    + by rewrite Hp', Hp.
  - destruct Ho as (out & Hs & Hp). by exists [], st1, out.
Qed.

(** A text that splits is lexed so. *)
Lemma lex_scan text ts rest out :
  scan true text ts rest out -> exists s, lex text = (Ok ts, s) /\ input s = rest /\ printed s = out.
Proof.
  intros H. destruct (tokens_run (S (length text)) (open_text text)) as (ts' & s & out' & E & _ & H' & Hp);
    [cbn [input open_text]; lia |].
  destruct (scan_fun _ _ _ _ _ H _ _ _ H') as (-> & -> & ->). exists s. by split_and!.
Qed.
