(* ===== verification/LexerProps.v ===== *)
(** The properties of the lexer: it splits every text as its rules say, it
    gives back the tokens of a text in which they are written out, and it
    takes a character it does not know for the end of the text. *)

From Stdlib Require Import Ascii.
From S2P Require Import Prelude Lexer LexerFacts.

(** * Words in a text *)

(** [r] matches no text that goes on behind [w]. *)
Definition finished (r : re) : bool := match r with Empty | Eps => true | _ => false end.

Definition derives (w : list ascii) (r : re) : re := foldl (fun r c => derive c r) r w.

Lemma derives_spec w : forall r v, matches (derives w r) v <-> matches r (w ++ v).
Proof. induction w as [|c w IH]; intros r v; [done |]. simpl. by rewrite IH, derive_spec. Qed.

Lemma finished_spec w v r : finished (derives w r) = true -> matches r (w ++ v) -> v = [].
Proof.
  rewrite <- derives_spec. destruct (derives w r); simpl; intros ? H; try done.
  - by apply matches_Empty in H.
  - by apply matches_Eps in H.
Qed.

(** What follows [w] does not change the choice, when no rule matches beyond
    [w]. *)
Lemma best_stop b w s :
  (forall r v v', r ∈ rules -> s = v ++ v' -> matches (pattern r) (w ++ v) -> v = []) ->
  best rules b (w ++ s) = best rules b w.
Proof.
  intros H.
  assert (forall r m, r ∈ rules -> applies b (w ++ s) m r <-> applies b w m r) as Hap.
  { intros r m Hr. unfold applies. rewrite length_app. destruct (Nat.le_gt_cases m (length w)) as [Hm|Hm].
    - rewrite take_app_le by done. split; intros (? & ? & ?); split_and!; (done || lia).
    - split; intros (_ & Hl & Hx); [| lia].
      rewrite take_app_ge in Hx by lia. apply (H _ _ (drop (m - length w) s) Hr) in Hx;
        [| symmetry; apply take_drop].
      apply (f_equal length) in Hx. rewrite length_take in Hx. simpl in Hx. lia. }
  assert (forall n a, chosen rules b (w ++ s) n a <-> chosen rules b w n a) as Hc.
  { intros n a. split; intros (i & r & Hi & Ha & Hr & Hmax); exists i, r;
      (split_and!; [done | done | apply Hap; [by eapply list_elem_of_lookup_2 | done] |]);
      intros j r' m Hj Hm; apply (Hmax j r' m Hj), Hap; (done || by eapply list_elem_of_lookup_2). }
  apply option_eq. intros [n a]. by rewrite !best_spec.
Qed.

Lemma best_finished b w s :
  forallb (fun r => finished (derives w (pattern r))) rules = true ->
  best rules b (w ++ s) = best rules b w.
Proof.
  intros H. apply best_stop. intros r v v' Hr _. apply finished_spec.
  rewrite forallb_forall in H. by apply H, list_elem_of_In.
Qed.

(** ** The letters of a pattern, and those its texts begin with *)

Fixpoint letters (r : re) (c : ascii) : bool :=
  match r with
  | Empty | Eps => false
  | Class p => p c
  | Seq a b | Alt a b => letters a c || letters b c
  | Star a => letters a c
  end.

Lemma letters_spec r w c : matches r w -> c ∈ w -> letters r c = true.
Proof.
  induction 1; simpl; intros Hc; rewrite ?orb_true_iff; try by apply elem_of_nil in Hc.
  - apply list_elem_of_singleton in Hc. by subst.
  - apply elem_of_app in Hc as []; auto.
  - auto.
  - auto.
  - apply elem_of_app in Hc as []; auto.
Qed.

Fixpoint starts (r : re) (c : ascii) : bool :=
  match r with
  | Empty | Eps => false
  | Class p => p c
  | Seq a b => starts a c || (nullable a && starts b c)
  | Alt a b => starts a c || starts b c
  | Star a => starts a c
  end.

Lemma starts_spec r w c : matches r (c :: w) -> starts r c = true.
Proof.
  remember (c :: w) as t eqn:Et. intros H. revert w Et.
  induction H as [|p c'|a b v u Hv IHv Hu IHu|a b v Hv IH|a b v Hv IH|a|a v u Hv IHv Hu IHu];
    intros w Et; simpl; try discriminate.
  - by injection Et as -> <-.
  - destruct v as [|c' v]; simpl in Et.
    + apply nullable_spec in Hv. rewrite Hv, (IHu _ Et). apply orb_true_r.
    + injection Et as -> _. by rewrite (IHv v).
  - by rewrite (IH _ Et).
  - rewrite (IH _ Et). apply orb_true_r.
  - destruct v as [|c' v]; simpl in Et; [by apply (IHu w) |]. injection Et as -> _. by apply (IHv v).
Qed.

Definition single (r : re) : bool := match r with Class _ => true | _ => false end.

(** A word or a number ends at a space. *)
Definition is_start (c : ascii) : bool := is_word c || Ascii.eqb c ".".

Lemma start_rules c : is_start c = true ->
  forallb (fun r => single (pattern r) || negb (letters (pattern r) " ") || negb (starts (pattern r) c))
    rules = true.
Proof. destruct c as [[] [] [] [] [] [] [] []]; vm_compute; congruence. Qed.

Lemma best_word b c w s :
  is_start c = true -> best rules b ((c :: w) ++ " "%char :: s) = best rules b (c :: w).
Proof.
  intros Hc. apply best_stop. intros r [|c' v] v' Hr E Hm; [done |]. exfalso.
  injection E as <- _.
  pose proof (start_rules c Hc) as E. rewrite forallb_forall in E.
  specialize (E r (proj1 (list_elem_of_In _ _) Hr)). rewrite !orb_true_iff, !negb_true_iff in E.
  destruct E as [[E|E]|E].
  - destruct (pattern r); try done. apply matches_Class in Hm as (? & Hm & _).
    apply (f_equal length) in Hm. rewrite length_app in Hm. simpl in Hm. lia.
  - apply letters_spec with (c := " "%char) in Hm; [congruence |]. apply elem_of_app. right. by left.
  - apply starts_spec in Hm. congruence.
Qed.

(** * Tokens written out *)

Definition keywords : list string :=
  ["if"; "while"; "return"; "int"; "float"; "void"; "struct"; "extern"; "else"; "NULL"; "new"].

(** The text of the tokens that have only one. *)
Definition spelling (k : kind) : string :=
  match k with
  | TENDL => newline | TSET => "=" | TEQUAL => "==" | TNEQUAL => "!=" | TLT => "<" | TLTE => "<="
  | TGT => ">" | TGTE => ">=" | TLOR => "||" | TLAND => "&&" | TLNOT => "!" | TLPAREN => "("
  | TRPAREN => ")" | TLBRACE => "{" | TRBRACE => "}" | TLSBRACE => "[" | TRSBRACE => "]"
  | TDOT => "." | TPLUS => "+" | TDASH => "-" | TSTAR => "*" | TSLASH => "/" | TSCOLON => ";"
  | TSAMPR => "&" | TCOMMA => "," | TIF => "if" | TWHILE => "while" | TRETURN => "return"
  | TINT => "int" | TFLOAT => "float" | TVOID => "void" | TSTRUCT => "struct" | TEXTERN => "extern"
  | TELSE => "else" | TNULL => "NULL" | TNEW => "new" | TFLOATLIT | TINTLIT | TIDENTIFIER => ""
  end.

(** The tokens that the parser reads the text of. *)
Definition has_text (k : kind) : bool :=
  match k with
  | TEQUAL | TNEQUAL | TLT | TLTE | TGT | TGTE | TLOR | TLAND | TLNOT | TDOT | TPLUS | TDASH
  | TSTAR | TSLASH | TSCOLON | TSAMPR | TNEW | TFLOATLIT | TINTLIT | TIDENTIFIER => true
  | _ => false
  end.

Definition is_identifier (s : string) : bool :=
  match String.list_ascii_of_string s with
  | c :: w => is_letter c && forallb is_word w && negb (bool_decide (s ∈ keywords))
  | [] => false
  end.

Definition is_number (l : list ascii) : bool := negb (bool_decide (l = [])) && forallb is_digit l.

Fixpoint is_fraction (l : list ascii) : bool :=
  match l with
  | [] => false
  | c :: l => if Ascii.eqb c "." then is_number l else is_digit c && is_fraction l
  end.

Definition valid (t : token) : bool :=
  match t with
  | Plain k => negb (has_text k)
  | Text TIDENTIFIER s => is_identifier s
  | Text TINTLIT s => is_number (String.list_ascii_of_string s)
  | Text TFLOATLIT s => is_fraction (String.list_ascii_of_string s)
  | Text k s => has_text k && bool_decide (s = spelling k)
  end.

Definition text_of (t : token) : list ascii :=
  String.list_ascii_of_string (match t with Plain k => spelling k | Text _ s => s end).

Definition action_of (t : token) : action :=
  match t with Plain k => TOKEN k | Text k _ => SAVE_TOKEN k end.

(** ** The rule that takes the whole of a text *)

Lemma best_whole b s i r :
  rules !! i = Some r -> first_column r = false -> matches (pattern r) s ->
  (forall r', r' ∈ take i rules -> ~ matches (pattern r') s) ->
  best rules b s = Some (length s, act r).
Proof.
  intros Hi Hc Hm Hbefore. apply best_spec. exists i, r. split_and!; [done | done | |].
  - unfold applies. rewrite Hc, take_ge by done. by split_and!.
  - intros j r' m Hj (_ & Hl & Hx). destruct (decide (m < length s)) as [|Hge]; [by left | right].
    assert (m = length s) as -> by lia. split; [done |]. destruct (decide (j < i)) as [Hlt|]; [| lia].
    rewrite take_ge in Hx by done. destruct (Hbefore r'); [| done].
    apply (list_elem_of_lookup_2 _ j). by rewrite lookup_take_lt.
Qed.

Lemma matches_lit k w : matches (lit k) w <-> w = String.list_ascii_of_string k.
Proof.
  unfold lit. revert w. induction (String.list_ascii_of_string k) as [|c l IH]; intros w; simpl.
  - apply matches_Eps.
  - rewrite matches_Seq. split.
    + intros (u & v & -> & (c' & -> & Hc)%matches_Class & ->%IH). apply Ascii.eqb_eq in Hc. by subst.
    + intros ->. exists [c], l. split_and!; [done | | by apply IH].
      constructor. by apply Ascii.eqb_eq.
Qed.

Lemma matches_all p w : matches (Star (Class p)) w <-> forallb p w = true.
Proof.
  induction w as [|c w IH]; simpl.
  - split; [done | constructor].
  - rewrite andb_true_iff, <- IH, matches_Star_cons. split.
    + intros (u & v & -> & (c' & [= <- ->] & Hc)%matches_Class & Hv). done.
    + intros [Hc Hw]. exists [], w. split_and!; [done | by constructor | done].
Qed.

Lemma matches_plus p w : matches (plus (Class p)) w <-> w <> [] /\ forallb p w = true.
Proof.
  unfold plus. rewrite matches_Seq. setoid_rewrite matches_all. setoid_rewrite matches_Class. split.
  - intros (u & v & -> & (c & -> & Hc) & Hv). simpl. by rewrite Hc.
  - destruct w as [|c w]; simpl; [by intros [] |]. intros [_ [? ?]%andb_true_iff].
    exists [c], w. split_and!; [done | by exists c | done].
Qed.

(** ** Identifiers and numbers *)

Lemma starts_not l c w :
  forallb (fun r => negb (starts (pattern r) c)) l = true ->
  forall r, r ∈ l -> ~ matches (pattern r) (c :: w).
Proof.
  rewrite forallb_forall. intros H r Hr Hm. apply starts_spec in Hm.
  specialize (H r (proj1 (list_elem_of_In _ _) Hr)). apply negb_true_iff in H. congruence.
Qed.

Lemma letter_rules c : is_letter c = true ->
  forallb (fun r => negb (starts (pattern r) c)) (take 28 rules ++ take 2 (drop 39 rules)) = true.
Proof. destruct c as [[] [] [] [] [] [] [] []]; vm_compute; congruence. Qed.

Lemma digit_rules c : is_digit c || Ascii.eqb c "." = true ->
  forallb (fun r => negb (starts (pattern r) c)) (take 20 rules ++ take 18 (drop 21 rules)) = true.
Proof. destruct c as [[] [] [] [] [] [] [] []]; vm_compute; congruence. Qed.

Lemma keyword_rules : Forall (fun r => exists k, k ∈ keywords /\ pattern r = lit k) (take 11 (drop 28 rules)).
Proof.
  repeat (apply Forall_cons; split;
    [eexists; split; [| reflexivity]; apply (bool_decide_unpack _); reflexivity |]). constructor.
Qed.

Lemma best_identifier b s :
  is_identifier s = true ->
  best rules b (String.list_ascii_of_string s) =
    Some (length (String.list_ascii_of_string s), SAVE_TOKEN TIDENTIFIER).
Proof.
  unfold is_identifier. destruct (String.list_ascii_of_string s) as [|c w] eqn:Es; [done |].
  rewrite !andb_true_iff, negb_true_iff, bool_decide_eq_false. intros [[Hc Hw] Hk].
  apply (best_whole _ _ 41 (mk_rule false (Seq (Class is_letter) (Star (Class is_word))) (SAVE_TOKEN TIDENTIFIER)));
    [done | done | |].
  - apply matches_Seq. exists [c], w. split_and!; [done | by constructor | by apply matches_all].
  - intros r Hr Hm. change (take 41 rules) with (take 28 rules ++ take 11 (drop 28 rules) ++ take 2 (drop 39 rules)) in Hr.
    rewrite !elem_of_app in Hr. pose proof (starts_not _ c w (letter_rules c Hc)) as Hs.
    destruct Hr as [Hr|[Hr|Hr]].
    + apply (Hs r); [apply elem_of_app; by left | done].
    + pose proof keyword_rules as HK. rewrite Forall_forall in HK. destruct (HK _ Hr) as (k & Hin & E).
      rewrite E in Hm. apply matches_lit in Hm. rewrite <- Es in Hm.
      apply (f_equal String.string_of_list_ascii) in Hm.
      rewrite !String.string_of_list_ascii_of_string in Hm. by subst.
    + apply (Hs r); [apply elem_of_app; by right | done].
Qed.

Lemma digit_before r c w :
  is_digit c || Ascii.eqb c "." = true -> c :: w <> ["."%char] -> r ∈ take 39 rules -> ~ matches (pattern r) (c :: w).
Proof.
  intros Hc Hw Hr Hm.
  change (take 39 rules) with (take 20 rules ++ [mk_rule false (lit ".") (SAVE_TOKEN TDOT)] ++ take 18 (drop 21 rules)) in Hr.
  rewrite !elem_of_app in Hr. pose proof (starts_not _ c w (digit_rules c Hc)) as Hs.
  destruct Hr as [Hr|[Hr|Hr]].
  - apply (Hs r); [apply elem_of_app; by left | done].
  - apply list_elem_of_singleton in Hr as ->. by apply matches_lit in Hm.
  - apply (Hs r); [apply elem_of_app; by right | done].
Qed.

Lemma best_int b l :
  is_number l = true -> best rules b l = Some (length l, SAVE_TOKEN TINTLIT).
Proof.
  unfold is_number. rewrite andb_true_iff, negb_true_iff, bool_decide_eq_false. intros [Hne Hd].
  apply (best_whole _ _ 40 (mk_rule false (plus (Class is_digit)) (SAVE_TOKEN TINTLIT))); [done | done | |].
  - by apply matches_plus.
  - intros r Hr. change (take 40 rules) with (take 39 rules ++ take 1 (drop 39 rules)) in Hr.
    apply elem_of_app in Hr as [Hr|Hr].
    + destruct l as [|c w]; [done |]. simpl in Hd. apply andb_true_iff in Hd as [Hc _].
      apply digit_before; [by rewrite Hc | by intros [= -> ->] | done].
    + apply list_elem_of_singleton in Hr as ->. simpl. rewrite matches_Seq.
      intros (u & v & -> & _ & (u' & v' & -> & (c & -> & Hc)%matches_Class & _)%matches_Seq).
      apply Ascii.eqb_eq in Hc as <-. rewrite !forallb_app in Hd. simpl in Hd.
      by rewrite andb_false_r in Hd.
Qed.

Lemma fraction_parts l :
  is_fraction l = true ->
  exists u v, l = u ++ "."%char :: v /\ forallb is_digit u = true /\ is_number v = true.
Proof.
  induction l as [|c l IH]; simpl; [done |]. destruct (Ascii.eqb_spec c ".") as [->|Hc].
  - intros H. by exists [], l.
  - intros [Hd H]%andb_true_iff. destruct (IH H) as (u & v & -> & Hu & Hv). exists (c :: u), v.
    simpl. by rewrite Hd.
Qed.

Lemma best_fraction b l :
  is_fraction l = true -> best rules b l = Some (length l, SAVE_TOKEN TFLOATLIT).
Proof.
  intros (u & v & -> & Hu & Hv)%fraction_parts.
  unfold is_number in Hv. apply andb_true_iff in Hv as [Hne Hv].
  rewrite negb_true_iff, bool_decide_eq_false in Hne.
  apply (best_whole _ _ 39 (mk_rule false
    (Seq (Star (Class is_digit)) (Seq (char ".") (plus (Class is_digit)))) (SAVE_TOKEN TFLOATLIT)));
    [done | done | |].
  - apply matches_Seq. exists u, ("."%char :: v). split_and!; [done | by apply matches_all |].
    apply matches_Seq. exists ["."%char], v. split_and!; [done | by constructor | by apply matches_plus].
  - intros r Hr. destruct u as [|c u]; simpl in *; apply digit_before; try done.
    + by intros [= ->].
    + apply andb_true_iff in Hu as [-> _]. done.
    + intros [= -> E]. by destruct u.
Qed.

(** ** Every token *)

Lemma best_fixed k b :
  k <> TENDL -> has_text k = false \/ (has_text k = true /\ spelling k <> EmptyString) ->
  let w := String.list_ascii_of_string (spelling k) in
  forall s, best rules b (w ++ " "%char :: s) =
    Some (length w, if has_text k then SAVE_TOKEN k else TOKEN k).
Proof.
  intros Hk Ht w s. change (" "%char :: s) with ([" "%char] ++ s). rewrite app_assoc.
  rewrite best_finished; destruct k; destruct b; try (vm_compute; done); by destruct Ht as [Ht|[Ht ?]].
Qed.

(** A token in front of a space. *)
Lemma best_text b t s :
  valid t = true -> t <> Plain TENDL ->
  best rules b (text_of t ++ " "%char :: s) = Some (length (text_of t), action_of t).
Proof.
  intros Hv Ht.
  assert (forall c w o, text_of t = c :: w -> is_start c = true -> best rules b (text_of t) = o ->
    best rules b (text_of t ++ " "%char :: s) = o) as Hw.
  { intros c w o -> Hc <-. by apply best_word. }
  destruct t as [k|k x].
  - simpl in Hv. apply negb_true_iff in Hv. unfold text_of, action_of.
    rewrite best_fixed; [by rewrite Hv | congruence | by left].
  - assert ((has_text k = true /\ spelling k <> EmptyString) -> x = spelling k ->
      best rules b (text_of (Text k x) ++ " "%char :: s) = Some (length (text_of (Text k x)), SAVE_TOKEN k)) as Hf.
    { intros Hk ->. unfold text_of. rewrite best_fixed; [by destruct Hk as [-> _] | by intros -> | by right]. }
    destruct k; simpl in Hv; try discriminate; try (apply bool_decide_eq_true in Hv; by apply Hf).
    + destruct (fraction_parts _ Hv) as ([|c u] & v & E & Hu & _); simpl in E.
      * apply (Hw "."%char v); [done | done | by apply best_fraction].
      * apply (Hw c (u ++ "."%char :: v)); [done | | by apply best_fraction].
        simpl in Hu. apply andb_true_iff in Hu as [Hc _]. unfold is_start, is_word. by rewrite Hc, orb_true_r.
    + pose proof Hv as Hn. unfold is_number in Hn.
      destruct (String.list_ascii_of_string x) as [|c w] eqn:E; [done |]. simpl in Hn.
      apply (Hw c w); [done | | rewrite <- E in Hv; by apply best_int].
      apply andb_true_iff in Hn as [Hc _]. unfold is_start, is_word. by rewrite Hc, orb_true_r.
    + pose proof Hv as Hn. unfold is_identifier in Hn.
      destruct (String.list_ascii_of_string x) as [|c w] eqn:E; [done |].
      apply (Hw c w); [done | | by apply best_identifier].
      rewrite !andb_true_iff in Hn. destruct Hn as [[Hc _] _]. unfold is_start, is_word. by rewrite Hc.
Qed.

(** ** Line ends and spaces *)

Lemma best_line_end b s :
  best rules b (lf :: s) = Some (1, if b then Skip else TOKEN TENDL).
Proof.
  change (lf :: s) with ([lf] ++ s). rewrite best_finished by reflexivity. by destruct b.
Qed.

Lemma best_blank_line s : best rules true (" "%char :: lf :: s) = Some (2, Skip).
Proof. change (" "%char :: lf :: s) with ([" "%char; lf] ++ s). by rewrite best_finished. Qed.

Lemma space_rules c : Ascii.eqb c " " || Ascii.eqb c lf = false ->
  forallb (fun r => finished (derives [" "%char; c] (pattern r))) rules = true /\
  best rules true [" "%char; c] = Some (1, Skip) /\ best rules false [" "%char; c] = Some (1, Skip).
Proof. destruct c as [[] [] [] [] [] [] [] []]; vm_compute; try congruence; by intros _. Qed.

Lemma best_space b s :
  match s with c :: _ => Ascii.eqb c " " || Ascii.eqb c lf = false | [] => True end ->
  best rules b (" "%char :: s) = Some (1, Skip).
Proof.
  destruct s as [|c s]; [by destruct b |]. intros Hc. destruct (space_rules c Hc) as (H & Ht & Hf).
  change (" "%char :: c :: s) with ([" "%char; c] ++ s). rewrite best_finished by done. by destruct b.
Qed.

Lemma best_space_line_end s : best rules false (" "%char :: lf :: s) = Some (1, Skip).
Proof. change (" "%char :: lf :: s) with ([" "%char; lf] ++ s). by rewrite best_finished. Qed.

(** A token other than [TENDL] holds neither. *)
Lemma token_rules :
  forallb (fun r => match act r with
    | Skip | Unknown | TOKEN TENDL => true
    | _ => negb (letters (pattern r) lf) && negb (letters (pattern r) " ") && negb (nullable (pattern r))
    end) rules = true.
Proof. reflexivity. Qed.

Lemma text_letters t c :
  valid t = true -> t <> Plain TENDL -> c ∈ text_of t -> Ascii.eqb c " " || Ascii.eqb c lf = false.
Proof.
  intros Hv Ht Hc. pose proof (best_text false t [] Hv Ht) as (i & r & Hi & Ha & (_ & _ & Hm) & _)%best_Some.
  rewrite take_app_length in Hm. pose proof token_rules as E. rewrite forallb_forall in E.
  specialize (E r (proj1 (list_elem_of_In _ _) (list_elem_of_lookup_2 _ _ _ Hi))). rewrite Ha in E.
  assert (negb (letters (pattern r) lf) && negb (letters (pattern r) " ") && negb (nullable (pattern r)) = true) as El.
  { destruct t as [[]|[] x]; simpl in E; done. }
  rewrite !andb_true_iff, !negb_true_iff in El. destruct El as [[E1 E2] _].
  apply orb_false_iff. split; apply Ascii.eqb_neq; intros ->.
  - by rewrite (letters_spec _ _ _ Hm Hc) in E2.
  - by rewrite (letters_spec _ _ _ Hm Hc) in E1.
Qed.

Lemma text_ends t : valid t = true -> t <> Plain TENDL -> ends_line (text_of t) = false.
Proof.
  intros Hv Ht. unfold ends_line. destruct (last (text_of t)) as [c|] eqn:E; [| done].
  destruct (proj1 (last_Some _ _) E) as [l' E'].
  assert (c ∈ text_of t) as Hc by (rewrite E'; apply elem_of_app; right; apply list_elem_of_here).
  apply (text_letters t c Hv Ht) in Hc. by apply orb_false_iff in Hc as [_ ->].
Qed.

(** * Reading back *)

(** The tokens with a space behind each. *)
Fixpoint written (ts : list token) : list ascii :=
  match ts with [] => [] | t :: ts => text_of t ++ " "%char :: written ts end.

(** Empty lines give no token. *)
Fixpoint without_blank_lines (b : bool) (ts : list token) : list token :=
  match ts with
  | [] => []
  | t :: ts =>
      if bool_decide (t = Plain TENDL) then
        if b then without_blank_lines true ts else t :: without_blank_lines true ts
      else t :: without_blank_lines false ts
  end.

Section reading.
Context (tail rest : list ascii) (out : string).
Context (Htail : forall b, scan b tail [] rest out).
Context (Hstart : match tail with c :: _ => Ascii.eqb c " " || Ascii.eqb c lf = false | [] => True end).

Lemma scan_from b s n a ts :
  best rules b s = Some (n, a) -> scan (ends_line (take n s)) (drop n s) ts rest out ->
  match a with
  | Skip => scan b s ts rest out
  | TOKEN k => scan b s (Plain k :: ts) rest out
  | SAVE_TOKEN k => scan b s (Text k (String.string_of_list_ascii (take n s)) :: ts) rest out
  | Unknown => True
  end.
Proof.
  intros E%best_Some H. destruct a; [by eapply scan_skip | by eapply scan_token | by eapply scan_text | done].
Qed.

(** At a token, when the rest behind its space is read. *)
Lemma scan_at b t ts :
  valid t = true -> (forall b, scan b (" "%char :: written ts ++ tail) (without_blank_lines b ts) rest out) ->
  scan b (written (t :: ts) ++ tail) (without_blank_lines b (t :: ts)) rest out.
Proof.
  intros Hv IH. simpl. rewrite <- app_assoc. simpl. case_bool_decide as Ht.
  - subst t. change (text_of (Plain TENDL)) with [lf]. simpl.
    pose proof (scan_from b _ _ _ (without_blank_lines true ts) (best_line_end b _) (IH true)) as H.
    by destruct b.
  - pose proof (scan_from b _ _ _ (without_blank_lines false ts)
      (best_text b t (written ts ++ tail) Hv Ht)) as H.
    rewrite take_app_length, drop_app_length, text_ends in H by done. specialize (H (IH false)).
    destruct t as [k|k x]; simpl in H; [done |].
    unfold text_of in H |- *. by rewrite String.string_of_list_ascii_of_string in H.
Qed.

Lemma scan_written ts :
  forallb valid ts = true ->
  forall b, scan b (" "%char :: written ts ++ tail) (without_blank_lines b ts) rest out.
Proof.
  induction ts as [|t ts IH]; simpl; intros Hv b.
  { eapply (scan_from b _ 1 Skip []); [by apply best_space | apply Htail]. }
  apply andb_true_iff in Hv as [Hv Hvs]. specialize (IH Hvs).
  destruct (decide (b = true /\ t = Plain TENDL)) as [[-> ->]|Hn].
  - rewrite <- app_assoc. simpl.
    apply (scan_from true _ 2 Skip (without_blank_lines true ts)); [apply best_blank_line | apply (IH true)].
  - pose proof (scan_at false t ts Hv IH) as H. simpl in H.
    assert (without_blank_lines b (t :: ts) = without_blank_lines false (t :: ts)) as E.
    { simpl. case_bool_decide; [| done]. destruct b; [by destruct Hn | done]. }
    simpl in E. rewrite E.
    apply (scan_from b _ 1 Skip (without_blank_lines false (t :: ts))); [| exact H].
    destruct (decide (t = Plain TENDL)) as [->|Ht].
    + destruct b; [by destruct Hn |]. rewrite <- app_assoc. apply best_space_line_end.
    + apply best_space. rewrite <- app_assoc. destruct (text_of t) as [|c w] eqn:Et; [exfalso |].
      * pose proof (best_text b t [] Hv Ht) as Hb. rewrite Et in Hb. apply best_Some, chosen_length in Hb.
        simpl in Hb. lia.
      * apply (text_letters t c Hv Ht). rewrite Et. by left.
Qed.

Lemma lex_written ts :
  forallb valid ts = true ->
  exists s, lex (written ts ++ tail) = (Ok (without_blank_lines true ts), s) /\ input s = rest /\ printed s = out.
Proof.
  intros Hv. apply lex_scan. destruct ts as [|t ts]; [apply Htail |].
  simpl in Hv. apply andb_true_iff in Hv as [Hv Hvs]. apply scan_at; [done |]. by apply scan_written.
Qed.
End reading.

(** A character with which no token begins. *)
Definition is_strange (c : ascii) : bool :=
  negb (is_word c || is_blank c || Ascii.eqb c lf ||
    existsb (Ascii.eqb c) (String.list_ascii_of_string "=!<>|&(){}[].+-*/;,")).

Lemma strange_rules c : is_strange c = true ->
  forallb (fun r => finished (derives [c] (pattern r))) rules = true /\
  (Ascii.eqb c " " || Ascii.eqb c lf = false) /\
  best rules true [c] = Some (1, Unknown) /\ best rules false [c] = Some (1, Unknown).
Proof. destruct c as [[] [] [] [] [] [] [] []]; vm_compute; try congruence; by intros _. Qed.

Lemma scan_strange b c s :
  is_strange c = true -> scan b (c :: s) [] s (message [c]).
Proof.
  intros Hc. destruct (strange_rules c Hc) as (H & _ & Ht & Hf).
  apply (scan_unknown b (c :: s) 1), best_spec.
  change (c :: s) with ([c] ++ s). rewrite (best_finished b [c] s H).
  destruct b; [exact Ht | exact Hf].
Qed.

(** * Theorems *)

(** C12. For every text the lexer ends with the tokens that the rules of
    [lex.l] define: at each place the longest text that a rule matches, by
    the first rule that matches it, up to the end of the text or to the first
    character no token begins with.  There is only one such splitting.  What
    has been read is a beginning of the text, and [yylineno] counts its line
    ends. *)
Theorem lexer_follows_rules text :
  exists ts s, lex text = (Ok ts, s) /\ scan true text ts (input s) (printed s) /\
    (forall ts' rest out, scan true text ts' rest out -> ts' = ts /\ rest = input s /\ out = printed s) /\
    exists w, text = w ++ input s /\ yylineno s = (1 + lines w)%Z.
Proof.
  destruct (tokens_run (S (length text)) (open_text text)) as (ts & s & out & E & (w & Hw & Hl) & H & Hp);
    [cbn [input open_text]; lia |].
  assert (printed s = out) as <- by (rewrite Hp; reflexivity).
  exists ts, s. split_and!; [done | done | | by exists w].
  intros ts' rest out' H'. by destruct (scan_fun _ _ _ _ _ H _ _ _ H') as (-> & -> & ->).
Qed.

(** C13. Tokens that are written out with spaces between them are read back:
    keywords, operators, identifiers, numbers and line ends, whatever their
    order, except for the ends of empty lines, which give no token. *)
Theorem lexer_roundtrip ts :
  forallb valid ts = true ->
  exists s, lex (written ts) = (Ok (without_blank_lines true ts), s) /\ input s = [] /\ printed s = EmptyString.
Proof.
  intros Hv. rewrite <- (app_nil_r (written ts)). apply lex_written; [apply scan_end | done | done].
Qed.

(** C17. At a character with which no token begins, the lexer prints a message
    and then says that the text has ended: whatever follows, the parser is
    given the tokens in front of the character, and nothing tells it that
    there was an error. *)
Theorem unknown_character_ends_text ts c rest :
  forallb valid ts = true -> is_strange c = true ->
  exists s, lex (written ts ++ c :: rest) = (Ok (without_blank_lines true ts), s) /\ input s = rest /\
    printed s = message [c].
Proof.
  intros Hv Hc. apply lex_written; [| by apply (strange_rules c Hc) | done].
  intros b. by apply scan_strange.
Qed.

(** * Witnesses *)

Definition demo_tokens : list token :=
  [Plain TENDL; Plain TINT; Text TIDENTIFIER "integer"; Plain TSET; Text TFLOATLIT "1.50"; Text TDASH "-";
   Text TINTLIT "07"; Plain TENDL; Plain TENDL; Plain TRETURN; Text TNEQUAL "!="; Plain TENDL].

Lemma lexer_roundtrip_witness : exists s,
  lex (written demo_tokens) =
    (Ok [Plain TINT; Text TIDENTIFIER "integer"; Plain TSET; Text TFLOATLIT "1.50"; Text TDASH "-";
         Text TINTLIT "07"; Plain TENDL; Plain TRETURN; Text TNEQUAL "!="; Plain TENDL], s) /\
  input s = [] /\ printed s = EmptyString.
Proof. exact (lexer_roundtrip demo_tokens eq_refl). Defined.

Lemma unknown_character_ends_text_witness : exists s,
  lex (written [Plain TRETURN] ++ "%"%char :: written [Plain TENDL]) = (Ok [Plain TRETURN], s) /\
  input s = written [Plain TENDL] /\ printed s = message ["%"%char].
Proof. exact (unknown_character_ends_text [Plain TRETURN] "%"%char (written [Plain TENDL]) eq_refl eq_refl). Defined.

(** A comment takes the end of its line with it: behind the statement of a line
    the parser gets no [TENDL]. *)
Example comment_takes_line_end :
  (lex (String.list_ascii_of_string ("x = 1 // one" +:+ newline +:+ "y = 2" +:+ newline))).1 =
    Ok [Text TIDENTIFIER "x"; Plain TSET; Text TINTLIT "1"; Text TIDENTIFIER "y"; Plain TSET;
        Text TINTLIT "2"; Plain TENDL].
Proof. reflexivity. Qed.
