(* ===== verification/Bison.v ===== *)
(** What bison makes of a grammar, as its manual defines it: an LALR(1)
    automaton whose conflicts are resolved by the declared precedences, then
    in favour of a shift, then of the earlier rule, with the most frequent
    reduction of a state as its default, and the stack machine that runs it.

    The tables are computed, and checked: [tables_ok] is what the theorems on
    the machine need of them. *)

From Stdlib Require Import NArith.
From S2P Require Import Prelude.

(** * Grammars *)

Section grammar.
Context {T NT V : Type}.

Inductive symbol : Type := Term (t : T) | NonTerm (n : NT).

(** A rule with its action; its precedence is the one of [prec_token], that
    [%prec] names, or else of its last token. *)
Record rule : Type := mk_rule {
  lhs : NT;
  rhs : list symbol;
  prec_token : option T;
  action : list V -> option V
}.

Inductive assoc : Type := AssocLeft | AssocRight | AssocNone.

(** A state: its items, a rule and a place in it; where each symbol leads; and
    what the parser does at each token, and the rule that it reduces at all
    the others. *)
Inductive step : Type := Shift (j : nat) | Reduce (r : nat).

Record row : Type := mk_row {
  items : list (nat * nat);
  nexts : list (symbol * nat);
  steps : list (T * step);
  default_reduction : option nat
}.
End grammar.

Arguments symbol : clear implicits.
Arguments rule : clear implicits.
Arguments row : clear implicits.

#[export] Instance symbol_eq_dec {T NT} `{EqDecision T, EqDecision NT} : EqDecision (symbol T NT).
Proof. solve_decision. Defined.

#[export] Instance step_eq_dec : EqDecision step.
Proof. solve_decision. Defined.

(** Lookup in a list of pairs. *)
Fixpoint assoc_of {A B} `{EqDecision A} (a : A) (l : list (A * B)) : option B :=
  match l with
  | [] => None
  | (a', b) :: l' => if decide (a = a') then Some b else assoc_of a l'
  end.

(** * The automaton *)

Section build.
Context {T NT V : Type} `{EqDecision T, EqDecision NT}.
Context (terminals : list T) (rules : list (rule T NT V)).
Context (level : T -> option (nat * assoc)).

Local Abbreviation symbol := (symbol T NT).

(** A set of tokens is the bits of a number, by their places in [terminals]. *)
Fixpoint place_in (t : T) (l : list T) : N :=
  match l with
  | [] => 0
  | t' :: l' => if decide (t = t') then 0 else N.succ (place_in t l')
  end%N.

Definition single (t : T) : N := N.shiftl 1 (place_in t terminals).
Definition member (t : T) (s : N) : bool := N.testbit s (place_in t terminals).

(** For each nonterminal whether it may be empty, and how it may begin. *)
Definition starts : Type := list (NT * (bool * N)).

Definition start_of (m : starts) (n : NT) : bool * N := default (false, 0%N) (assoc_of n m).

(** How [seq] may begin when [la] follows. *)
Fixpoint begins (m : starts) (seq : list symbol) (la : N) : N :=
  match seq with
  | [] => la
  | Term t :: _ => single t
  | NonTerm n :: seq' =>
      let '(e, f) := start_of m n in N.lor f (if e then begins m seq' la else 0)
  end.

Fixpoint may_vanish (m : starts) (seq : list symbol) : bool :=
  match seq with
  | [] => true
  | Term _ :: _ => false
  | NonTerm n :: seq' => (start_of m n).1 && may_vanish m seq'
  end.

Fixpoint update {A B} `{EqDecision A} (a : A) (b : B) (l : list (A * B)) : list (A * B) :=
  match l with
  | [] => [(a, b)]
  | (a', b') :: l' => if decide (a = a') then (a, b) :: l' else (a', b') :: update a b l'
  end.

Definition add_starts (m : starts) (r : rule T NT V) : starts :=
  let '(e, f) := start_of m (lhs r) in
  update (lhs r) (e || may_vanish m (rhs r), N.lor f (begins m (rhs r) 0)) m.

(** As many rounds as there are rules reach the least solution. *)
Definition all_starts : starts := Nat.iter (length rules) (fun m => foldl add_starts m rules) [].

(** An item with the tokens that may follow its rule. *)
Definition kernel : Type := list ((nat * nat) * N).

(** The tokens that may follow each nonterminal that can come next. *)
Definition follows : Type := list (NT * N).

Definition spread (st : starts) (seq : list symbol) (la : N) (m : follows) : follows :=
  match seq with
  | NonTerm n :: seq' => update n (N.lor (default 0%N (assoc_of n m)) (begins st seq' la)) m
  | _ => m
  end.

Definition spread_rules (st : starts) (m : follows) : follows :=
  foldl (fun m r => match assoc_of (lhs r) m with Some la => spread st (rhs r) la m | None => m end) m rules.

Definition rhs_from (i : nat * nat) : list symbol :=
  match rules !! i.1 with Some r => drop i.2 (rhs r) | None => [] end.

Fixpoint until_same {A} `{EqDecision A} (f : A -> A) (fuel : nat) (a : A) : A :=
  match fuel with
  | O => a
  | S fuel => let b := f a in if decide (b = a) then a else until_same f fuel b
  end.

(** A state with the items at the beginning of the rules that can come next. *)
Definition closure (st : starts) (k : kernel) : kernel :=
  let m := foldl (fun m i => spread st (rhs_from i.1) i.2 m) [] k in
  let m := until_same (spread_rules st) (length rules) m in
  k ++ omap (fun p => (fun la => ((p.1, 0), la)) <$> assoc_of (lhs p.2) m) (imap pair rules).

(** Items in order, so that a state has one form. *)
Fixpoint insert_item (i : (nat * nat) * N) (k : kernel) : kernel :=
  match k with
  | [] => [i]
  | j :: k' =>
      if (i.1.1 <? j.1.1) || ((i.1.1 =? j.1.1) && (i.1.2 <? j.1.2)) then i :: k
      else j :: insert_item i k'
  end.

(** The states that the symbols lead to. *)
Definition successors (k : kernel) : list (symbol * kernel) :=
  foldl (fun acc i =>
    match rhs_from i.1 with
    | x :: _ => update x (insert_item ((i.1.1, S i.1.2), i.2) (default [] (assoc_of x acc))) acc
    | [] => acc
    end) [] k.

Definition core (k : kernel) : list (nat * nat) := k.*1.

Fixpoint find_core (c : list (nat * nat)) (ks : list kernel) (i : nat) : option nat :=
  match ks with
  | [] => None
  | k :: ks' => if decide (core k = c) then Some i else find_core c ks' (S i)
  end.

(** Two states of one core become one. *)
Definition merge (k k' : kernel) : kernel := zip_with (fun a b => (a.1, N.lor a.2 b.2)) k k'.

Definition visit_successor (a : list kernel * list nat) (x : symbol * kernel) : list kernel * list nat :=
  let '(ks, queue) := a in
  match find_core (core x.2) ks 0 with
  | None => (ks ++ [x.2], queue ++ [length ks])
  | Some j =>
      let old := default [] (ks !! j) in
      let new := merge old x.2 in
      if decide (new = old) then (ks, queue)
      else (<[j := new]> ks, if decide (j ∈ queue) then queue else queue ++ [j])
  end.

(** States whose successors are not up to date wait in [queue]. *)
Fixpoint explore (st : starts) (fuel : nat) (ks : list kernel) (queue : list nat) : list kernel :=
  match fuel, queue with
  | S fuel, i :: queue =>
      let '(ks, queue) := foldl visit_successor (ks, queue) (successors (closure st (default [] (ks !! i)))) in
      explore st fuel ks queue
  | _, _ => ks
  end.

(** * Conflicts *)

Definition last_token (r : rule T NT V) : option T :=
  match omap (fun x => match x with Term t => Some t | NonTerm _ => None end) (reverse (rhs r)) with
  | t :: _ => Some t
  | [] => None
  end.

Definition rule_level (r : rule T NT V) : option nat :=
  t ← (match prec_token r with Some t => Some t | None => last_token r end); (level t) ≫= fun l => Some l.1.

(** What the precedences say of a shift of [t] and a reduction at it: [true]
    is to shift, [false] to reduce. *)
Definition by_level (r : rule T NT V) (t : T) : option bool :=
  l ← rule_level r; lt ← level t;
  if lt.1 <? l then Some false else if l <? lt.1 then Some true
  else match lt.2 with AssocLeft => Some false | AssocRight => Some true | AssocNone => None end.

(** One rule that can be reduced against the tokens that can be shifted. *)
Definition resolve (shifts : list (T * nat)) (r : rule T NT V) (la : N) : list (T * nat) * N :=
  let keep p := negb (member p.1 la && bool_decide (by_level r p.1 = Some false)) in
  let drop p := member p.1 la && bool_decide (by_level r p.1 = Some true) in
  (filter (fun p => Is_true (keep p)) shifts,
   foldl (fun la p => if drop p then N.ldiff la (single p.1) else la) la shifts).

Definition resolve_all (shifts : list (T * nat)) (reductions : list (nat * N)) :
    list (T * nat) * list (nat * N) :=
  foldl (fun a p =>
    match rules !! p.1 with
    | Some r => let '(shifts, la) := resolve a.1 r p.2 in (shifts, a.2 ++ [(p.1, la)])
    | None => a
    end) (shifts, []) reductions.

(** What is left: a shift if there is one, or the first rule. *)
Definition steps_of (shifts : list (T * nat)) (reductions : list (nat * N)) : list (T * step) :=
  let '(shifts, reductions) := resolve_all shifts reductions in
  omap (fun t =>
    match assoc_of t shifts with
    | Some j => Some (t, Shift j)
    | None =>
        match filter (fun p => Is_true (member t p.2)) reductions with
        | (r, _) :: _ => Some (t, Reduce r)
        | [] => None
        end
    end) terminals.

(** The reduction that most tokens call for, the earliest rule if there are
    several. *)
Definition most_frequent (reductions : list nat) (ss : list (T * step)) : option nat :=
  (foldl (fun best r =>
     let n := length (filter (fun p => p.2 = Reduce r) ss) in
     if best.2 <? n then (Some r, n) else best) (None, 0) reductions).1.

Definition row_of (st : starts) (ks : list kernel) (k : kernel) : row T NT :=
  let k := foldr insert_item [] (closure st k) in
  let nexts := omap (fun x => pair x.1 <$> find_core (core x.2) ks 0) (successors k) in
  let shifts := omap (fun x => match x.1 with Term t => Some (t, x.2) | NonTerm _ => None end) nexts in
  let reductions :=
    omap (fun i => match rhs_from i.1 with [] => Some (i.1.1, i.2) | _ => None end) k in
  let ss := steps_of shifts reductions in
  mk_row (core k) nexts ss (most_frequent reductions.*1 ss).

(** The first rule is [$accept]: the start symbol and the end of the text. *)
Definition build (fuel : nat) : list (row T NT) :=
  let st := all_starts in
  let ks := explore st fuel [[((0, 0), 0%N)]] [0] in
  row_of st ks <$> ks.
End build.

(** * The machine *)

Section machine.
Context {T NT V tok : Type} `{EqDecision T, EqDecision NT}.
Context (rules : list (rule T NT V)) (table : list (row T NT)).
(** The class of a token, [stop] behind the last, and its value. *)
Context (class : tok -> T) (stop : T) (value : tok -> V).

Definition next_state (i : nat) (x : symbol T NT) : option nat :=
  r ← table !! i; assoc_of x (nexts r).

Definition step_at (i : nat) (t : T) : option step :=
  r ← table !! i;
  match assoc_of t (steps r) with Some a => Some a | None => Reduce <$> default_reduction r end.

Definition class_of_next (ts : list tok) : T := match ts with [] => stop | t :: _ => class t end.

(** The parser: states with the values of the symbols that lead to them, the
    last one first, and the tokens that are left. *)
Definition stack : Type := list (nat * V).
Definition top (s : stack) : nat := match s with [] => 0 | (i, _) :: _ => i end.

Inductive answer : Type :=
  | Parsed (v : V)
  | SyntaxError (left : list tok) (s : stack)
  | Stuck
  | OutOfFuel.

(** The values of the [n] last symbols, in the order of the text. *)
Definition last_values (n : nat) (s : stack) : list V := reverse (take n s).*2.

Definition reduce (r : rule T NT V) (s : stack) : option stack :=
  let n := length (rhs r) in
  v ← action r (last_values n s);
  j ← next_state (top (drop n s)) (NonTerm (lhs r));
  Some ((j, v) :: drop n s).

Fixpoint parse_from (fuel : nat) (s : stack) (ts : list tok) : answer :=
  match fuel with
  | O => OutOfFuel
  | S fuel =>
      match step_at (top s) (class_of_next ts) with
      | None => SyntaxError ts s
      | Some (Shift j) =>
          match ts, s with
          | t :: ts', _ => parse_from fuel ((j, value t) :: s) ts'
          | [], (_, v) :: _ => Parsed v
          | [], [] => Stuck
          end
      | Some (Reduce r) =>
          match rules !! r with
          | Some r => match reduce r s with Some s' => parse_from fuel s' ts | None => Stuck end
          | None => Stuck
          end
      end
  end.

(** * What the rules derive *)

Inductive derives : symbol T NT -> list tok -> V -> Prop :=
  | derives_token t : derives (Term (class t)) [t] (value t)
  | derives_rule i r ts vs v :
      rules !! i = Some r -> derives_all (rhs r) ts vs -> action r vs = Some v ->
      derives (NonTerm (lhs r)) ts v
with derives_all : list (symbol T NT) -> list tok -> list V -> Prop :=
  | derives_nil : derives_all [] [] []
  | derives_cons x xs ts ts' v vs :
      derives x ts v -> derives_all xs ts' vs -> derives_all (x :: xs) (ts ++ ts') (v :: vs).

Lemma derives_all_snoc xs ts vs x ts' v :
  derives_all xs ts vs -> derives x ts' v -> derives_all (xs ++ [x]) (ts ++ ts') (vs ++ [v]).
Proof.
  induction 1 as [|y xs ts1 ts2 w vs Hy _ IH]; intros Hx; simpl.
  - rewrite <- (app_nil_r ts'). by constructor; [| constructor].
  - rewrite <- app_assoc. constructor; [done | by apply IH].
Qed.

(** * What the machine needs of the tables *)

(** An item that has passed a symbol was reached by that symbol from a state
    that has the item before it; the first state is not reached again. *)
Definition item_ok (i : nat) (x : symbol T NT) (it : nat * nat) : bool :=
  match it.2 with
  | O => true
  | S d =>
      match rules !! it.1, table !! i with
      | Some r, Some from => bool_decide (rhs r !! d = Some x) && bool_decide ((it.1, d) ∈ items from)
      | _, _ => false
      end
  end.

Definition nexts_ok (i : nat) (from : row T NT) : bool :=
  forallb (fun x => match table !! x.2 with
                    | Some to => bool_decide (x.2 <> 0) && forallb (item_ok i x.1) (items to)
                    | None => false
                    end) (nexts from).

(** Where a rule begins its symbol leads on; the first rule begins in the
    first state only. *)
Definition items_ok (i : nat) (from : row T NT) : bool :=
  forallb (fun it =>
    match it with
    | (O, O) => bool_decide (i = 0)
    | (r, O) =>
        match rules !! r with
        | Some rl => bool_decide (is_Some (assoc_of (NonTerm (lhs rl)) (nexts from)))
        | None => false
        end
    | _ => bool_decide (i <> 0)
    end) (items from).

(** What is reduced is complete, what is shifted leads somewhere, and the end
    of the text is passed in the first rule only, behind the start symbol. *)
Definition reduce_ok (from : row T NT) (r : nat) : bool :=
  bool_decide (r <> 0) &&
  match rules !! r with
  | Some rl => bool_decide ((r, length (rhs rl)) ∈ items from)
  | None => false
  end.

Definition step_ok (from : row T NT) (p : T * step) : bool :=
  match p.2 with
  | Shift j =>
      bool_decide (assoc_of (Term p.1) (nexts from) = Some j) &&
      (bool_decide (p.1 <> stop) || bool_decide ((0, 1) ∈ items from))
  | Reduce r => reduce_ok from r
  end.

Definition steps_ok (from : row T NT) : bool :=
  forallb (step_ok from) (steps from) &&
  match default_reduction from with Some r => reduce_ok from r | None => true end.

Definition first_rule_ok : bool :=
  match rules with
  | r :: _ => match rhs r with [NonTerm _; Term t] => bool_decide (t = stop) | _ => false end
  | [] => false
  end.

Definition tables_ok : bool :=
  forallb (fun p => nexts_ok p.1 p.2 && items_ok p.1 p.2 && steps_ok p.2)
    (imap pair table) && first_rule_ok.

(** ** That it ends

    A rule of one symbol leads to a symbol of a smaller rank, and an empty one
    is reduced only behind an opening symbol. *)
Context (rank : symbol T NT -> nat) (opens : T -> bool).

Definition opener (x : symbol T NT) : bool := match x with Term t => opens t | NonTerm _ => false end.

Definition rule_falls (highest : nat) (r : rule T NT V) : bool :=
  (rank (NonTerm (lhs r)) <=? highest) && match rhs r with [x] => rank (NonTerm (lhs r)) <? rank x | _ => true end.

Definition is_empty_rule (r : nat) : bool :=
  match rules !! r with Some rl => bool_decide (rhs rl = []) | None => false end.

Definition empties (from : row T NT) : bool :=
  existsb (fun p => match p.2 with Reduce r => is_empty_rule r | Shift _ => false end) (steps from) ||
  match default_reduction from with Some r => is_empty_rule r | None => false end.

Definition ends_ok (highest : nat) : bool :=
  forallb (rule_falls highest) rules &&
  forallb (fun from => forallb (fun x =>
    opener x.1 || match table !! x.2 with Some to => negb (empties to) | None => false end) (nexts from)) table &&
  match table with from :: _ => negb (empties from) | [] => false end.
End machine.
