(* ===== verification/BisonFacts.v ===== *)
(** The machine of Bison.v, over tables that pass the checks: what it accepts
    the rules derive, it does not get stuck, and it ends. *)

From S2P Require Import Prelude Bison.

Section facts.
Context {T NT V tok : Type} `{EqDecision T, EqDecision NT}.
Context (rules : list (rule T NT V)) (table : list (row T NT)).
Context (class : tok -> T) (stop : T) (value : tok -> V).
Context (Hok : tables_ok rules table stop = true).

Local Abbreviation symbol := (symbol T NT).
Local Abbreviation next_state := (next_state table).
Local Abbreviation step_at := (step_at table).
Local Abbreviation derives := (derives rules class value).
Local Abbreviation derives_all := (derives_all rules class value).
Local Abbreviation parse_from := (parse_from rules table class stop value).
Local Abbreviation reduce := (reduce table).

(** * The checks *)

Lemma assoc_of_elem {A B} `{EqDecision A} (a : A) (l : list (A * B)) b : assoc_of a l = Some b -> (a, b) ∈ l.
Proof.
  induction l as [|[a' b'] l IH]; simpl; [done |].
  destruct (decide (a = a')) as [->|]; [intros [= ->]; left | right; auto].
Qed.

Lemma rows_ok i from : table !! i = Some from ->
  nexts_ok rules table i from = true /\ items_ok rules i from = true /\ steps_ok rules stop from = true.
Proof using Hok.
  intros Hi. apply andb_true_iff in Hok as [H _]. rewrite forallb_forall in H.
  specialize (H (i, from)). destruct (andb_true_iff (nexts_ok rules table i from && items_ok rules i from)
    (steps_ok rules stop from)) as [[[]%andb_true_iff ?] _]; [| done].
  apply H, list_elem_of_In, elem_of_lookup_imap. by exists i, from.
Qed.

Lemma next_ok i x j : next_state i x = Some j -> exists from to,
  table !! i = Some from /\ table !! j = Some to /\ j <> 0 /\
  forall r d, (r, S d) ∈ items to -> exists rl, rules !! r = Some rl /\ rhs rl !! d = Some x /\
    (r, d) ∈ items from.
Proof using Hok.
  intros H. unfold Bison.next_state in H. apply bind_Some in H as (from & Hi & H).
  destruct (rows_ok _ _ Hi) as [Hn _]. unfold nexts_ok in Hn. rewrite forallb_forall in Hn.
  specialize (Hn (x, j)). simpl in Hn.
  destruct (table !! j) as [to|]; [| exfalso; discriminate Hn; by apply list_elem_of_In, assoc_of_elem].
  apply assoc_of_elem, list_elem_of_In in H. apply Hn in H.
  apply andb_true_iff in H as [Hj%bool_decide_eq_true H]. rewrite forallb_forall in H.
  exists from, to. split_and!; [done.. |]. intros r d Hit.
  apply list_elem_of_In, H in Hit. unfold item_ok in Hit. simpl in Hit. rewrite Hi in Hit.
  destruct (rules !! r) as [rl|]; [| done]. apply andb_true_iff in Hit as [H1 H2].
  exists rl. split_and!; [done | by apply bool_decide_eq_true in H1 | by apply bool_decide_eq_true in H2].
Qed.

Lemma item_at i from r : table !! i = Some from -> (r, 0) ∈ items from ->
  (r = 0 /\ i = 0) \/
  (r <> 0 /\ exists rl j, rules !! r = Some rl /\ next_state i (NonTerm (lhs rl)) = Some j).
Proof using Hok.
  intros Hi Hit. destruct (rows_ok _ _ Hi) as (_ & H & _). unfold items_ok in H.
  rewrite forallb_forall in H. apply list_elem_of_In, H in Hit.
  destruct r as [|r]; [left; split; [done | by apply bool_decide_eq_true in Hit] | right].
  destruct (rules !! S r) as [rl|]; [| done]. apply bool_decide_eq_true in Hit as [j Hj].
  split; [done |]. exists rl, j. split; [done |]. unfold Bison.next_state. by rewrite Hi.
Qed.

Lemma item_behind i from r d : table !! i = Some from -> (r, S d) ∈ items from -> i <> 0.
Proof using Hok.
  intros Hi Hit. destruct (rows_ok _ _ Hi) as (_ & H & _). unfold items_ok in H.
  rewrite forallb_forall in H. apply list_elem_of_In, H in Hit. destruct r; by apply bool_decide_eq_true in Hit.
Qed.

Lemma reduce_rule from r : reduce_ok rules from r = true ->
  r <> 0 /\ exists rl, rules !! r = Some rl /\ (r, length (rhs rl)) ∈ items from.
Proof using Type.
  unfold reduce_ok. intros [Hr%bool_decide_eq_true H]%andb_true_iff. split; [done |].
  destruct (rules !! r) as [rl|]; [| done]. exists rl. split; [done |]. by apply bool_decide_eq_true in H.
Qed.

Lemma step_at_ok i t a : step_at i t = Some a -> exists from, table !! i = Some from /\
  match a with
  | Shift j => next_state i (Term t) = Some j /\ (t = stop -> (0, 1) ∈ items from)
  | Reduce r => r <> 0 /\ exists rl, rules !! r = Some rl /\ (r, length (rhs rl)) ∈ items from
  end.
Proof using Hok.
  intros H. unfold Bison.step_at in H. apply bind_Some in H as (from & Hi & H).
  exists from. split; [done |]. destruct (rows_ok _ _ Hi) as (_ & _ & [Hs Hd]%andb_true_iff).
  rewrite forallb_forall in Hs. destruct (assoc_of t (steps from)) as [a'|] eqn:E.
  - injection H as ->. apply assoc_of_elem, list_elem_of_In in E. apply Hs in E.
    unfold step_ok in E. simpl in E. destruct a as [j|r]; [| by apply reduce_rule].
    apply andb_true_iff in E as [H1%bool_decide_eq_true H2]. split.
    + unfold Bison.next_state. by rewrite Hi.
    + intros ->. rewrite bool_decide_false in H2 by tauto. by apply bool_decide_eq_true in H2.
  - destruct (default_reduction from) as [r|]; [| done]. injection H as <-. by apply reduce_rule.
Qed.

Lemma first_rule : exists r n, rules !! 0 = Some r /\ rhs r = [NonTerm n; Term stop].
Proof using Hok.
  apply andb_true_iff in Hok as [_ H]. unfold first_rule_ok in H. destruct rules as [|r rs]; [done |].
  destruct (rhs r) as [|[|n] [|[t|] []]] eqn:E; try done. apply bool_decide_eq_true in H as ->. by exists r, n.
Qed.

(** * The symbols on the stack

    [path s xs tss]: the states of [s] are reached by the symbols [xs], which
    derive the texts [tss], the last one first. *)
Inductive path : @stack V -> list symbol -> list (list tok) -> Prop :=
  | path_nil : path [] [] []
  | path_cons j v x s xs ts tss :
      path s xs tss -> next_state (top s) x = Some j -> derives x ts v ->
      path ((j, v) :: s) (x :: xs) (ts :: tss).

Definition text (tss : list (list tok)) : list tok := concat (reverse tss).

Lemma text_cons ts tss : text (ts :: tss) = text tss ++ ts.
Proof. unfold text. by rewrite reverse_cons, concat_app; simpl; rewrite app_nil_r. Qed.

(** The symbols that an item has passed are on top of the stack. *)
Lemma path_item s xs tss r d from : path s xs tss -> table !! top s = Some from -> (r, d) ∈ items from ->
  exists rl, (d <= length (rhs rl)) /\ rules !! r = Some rl /\ take d xs = reverse (take d (rhs rl)) /\ d <= length xs /\
    exists from', table !! top (drop d s) = Some from' /\ (r, 0) ∈ items from'.
Proof using Hok.
  intros Hp. revert r d from. induction Hp as [|j v x s xs ts tss Hp IH Hj Hx]; intros r d from Hf Hit.
  - destruct d as [|d]; [| by destruct (item_behind _ _ _ _ Hf Hit)].
    simpl in Hf. destruct (item_at _ _ _ Hf Hit) as [[-> _]|(_ & rl & _ & Hr & _)].
    + destruct first_rule as (rl & n & Hr & _). exists rl. split_and!; [lia | done | done | simpl; lia |]. by exists from.
    + exists rl. split_and!; [lia | done | done | simpl; lia |]. by exists from.
  - simpl in Hf. destruct d as [|d].
    { destruct (item_at _ _ _ Hf Hit) as [[-> _]|(_ & rl & _ & Hr & _)].
      - destruct first_rule as (rl & n & Hr & _). exists rl. split_and!; [lia | done | done | simpl; lia |]. by exists from.
      - exists rl. split_and!; [lia | done | done | simpl; lia |]. by exists from. }
    destruct (next_ok _ _ _ Hj) as (from0 & to & H0 & Hto & _ & Hitems). simplify_eq.
    destruct (Hitems _ _ Hit) as (rl & Hr & Hd & Hit').
    destruct (IH _ _ _ H0 Hit') as (rl' & Hlen & Hr' & Htake & Hxs & Hfrom). simplify_eq.
    exists rl. split_and!; [by apply lookup_lt_Some in Hd | done | | simpl; lia | done].
    simpl. rewrite Htake, (take_S_r _ _ _ Hd), reverse_app. done.
Qed.

(** The values on top of the stack, for the symbols of a rule. *)
Lemma path_values s xs tss d : path s xs tss -> d <= length xs ->
  derives_all (reverse (take d xs)) (concat (reverse (take d tss))) (last_values d s) /\
  path (drop d s) (drop d xs) (drop d tss).
Proof using Type.
  intros Hp. revert d. induction Hp as [|j v x s xs ts tss Hp IH Hj Hx]; intros d Hd.
  - simpl in Hd. assert (d = 0) as -> by lia. split; [constructor | constructor].
  - destruct d as [|d]; [split; [constructor | by econstructor] |]. simpl in Hd.
    destruct (IH d ltac:(lia)) as [IH1 IH2]. split; [| done]. unfold last_values in *. simpl.
    rewrite !reverse_cons, concat_app. simpl. rewrite app_nil_r. by apply derives_all_snoc.
Qed.

Lemma text_split d tss : text (drop d tss) ++ concat (reverse (take d tss)) = text tss.
Proof. unfold text. rewrite <- concat_app, <- reverse_app. by rewrite take_drop. Qed.

(** A reduction. *)
Lemma reduce_path s xs tss r rl from s' : path s xs tss -> table !! top s = Some from ->
  rules !! r = Some rl -> (r, length (rhs rl)) ∈ items from -> reduce rl s = Some s' ->
  exists xs' tss', path s' xs' tss' /\ text tss' = text tss /\
    xs' = NonTerm (lhs rl) :: drop (length (rhs rl)) xs /\
    take (length (rhs rl)) xs = reverse (rhs rl) /\ length (rhs rl) <= length xs.
Proof using Hok.
  intros Hp Hf Hr Hit Hred. unfold Bison.reduce in Hred.
  apply bind_Some in Hred as (v & Hv & Hred). apply bind_Some in Hred as (j & Hj & [= <-]).
  destruct (path_item _ _ _ _ _ _ Hp Hf Hit) as (rl' & _ & Hr' & Htake & Hlen & _). simplify_eq.
  rewrite (firstn_all (rhs rl)) in Htake.
  destruct (path_values _ _ _ _ Hp Hlen) as [Hall Hp']. rewrite Htake, reverse_involutive in Hall.
  eexists _, (concat (reverse (take (length (rhs rl)) tss)) :: drop (length (rhs rl)) tss). split_and!.
  - econstructor; [exact Hp' | exact Hj | by econstructor].
  - rewrite text_cons. apply text_split.
  - done.
  - done.
  - done.
Qed.

(** * What is accepted is derived *)

Lemma parse_from_derives fuel : forall s xs tss ts v,
  path s xs tss -> parse_from fuel s ts = Parsed v ->
  exists r n, rules !! 0 = Some r /\ rhs r = [NonTerm n; Term stop] /\ derives (NonTerm n) (text tss ++ ts) v.
Proof using Hok.
  induction fuel as [|fuel IH]; intros s xs tss ts v Hp H; [done |]. simpl in H.
  destruct (step_at (top s) (class_of_next class stop ts)) as [a|] eqn:Ha; [| done].
  destruct (step_at_ok _ _ _ Ha) as (from & Hf & Hstep). destruct a as [j|r].
  - destruct Hstep as [Hj Hstop]. destruct ts as [|t ts].
    + destruct s as [|[i w] s]; [done |]. simplify_eq. simpl in Hstop.
      destruct (path_item _ _ _ _ _ _ Hp Hf (Hstop eq_refl)) as (rl & _ & Hr & Htake & _ & from' & Hf' & Hit').
      destruct first_rule as (r0 & n & Hr0 & Hrhs). simplify_eq. exists rl, n. split_and!; [done.. |].
      inversion Hp as [|? ? x ? xs' ts' tss' Hp' Hi Hx]; subst. rewrite Hrhs in Htake. simpl in Htake.
      injection Htake as ->. simpl in Hf', Hit'.
      destruct (item_at _ _ _ Hf' Hit') as [[_ Htop]|[]]; [| done].
      assert (s = []) as ->.
      { destruct s as [|[k w] s]; [done |]. inversion Hp' as [|? ? y ? ys ? ? ? Hk]; subst.
        simpl in Htop. subst k. by destruct (next_ok _ _ _ Hk) as (_ & _ & _ & _ & Hne & _). }
      inversion Hp'; subst. rewrite text_cons, app_nil_r. exact Hx.
    + apply (IH _ (Term (class t) :: xs) ([t] :: tss)) in H.
      * rewrite text_cons, <- app_assoc in H. exact H.
      * constructor; [done | exact Hj | constructor].
  - destruct Hstep as (_ & rl & Hr & Hit). rewrite Hr in H. destruct (reduce rl s) as [s'|] eqn:Hred; [| done].
    destruct (reduce_path _ _ _ _ _ _ _ Hp Hf Hr Hit Hred) as (xs' & tss' & Hp' & Htext & _).
    rewrite <- Htext. by eapply IH.
Qed.
(** Where there is an error, what has been read is on the stack. *)
Lemma parse_from_error fuel : forall s xs tss ts left s',
  path s xs tss -> parse_from fuel s ts = SyntaxError left s' ->
  exists xs' tss', path s' xs' tss' /\ text tss' ++ left = text tss ++ ts.
Proof using Hok.
  induction fuel as [|fuel IH]; intros s xs tss ts left s' Hp H; [done |]. simpl in H.
  destruct (step_at (top s) (class_of_next class stop ts)) as [a|] eqn:Ha; [| injection H as <- <-; eauto].
  destruct (step_at_ok _ _ _ Ha) as (from & Hf & Hstep). destruct a as [j|r].
  - destruct ts as [|t ts]; [by destruct s as [|[]] |]. destruct Hstep as [Hj _].
    destruct (IH _ (Term (class t) :: xs) ([t] :: tss) _ _ _ ltac:(constructor; [done | exact Hj | constructor]) H)
      as (xs' & tss' & Hp' & E). exists xs', tss'. split; [done |]. by rewrite E, text_cons, <- app_assoc.
  - destruct Hstep as (_ & rl & Hr & Hit). rewrite Hr in H. destruct (reduce rl s) as [s1|] eqn:Hred; [| done].
    destruct (reduce_path _ _ _ _ _ _ _ Hp Hf Hr Hit Hred) as (xs1 & tss1 & Hp1 & Htext & _).
    destruct (IH _ _ _ _ _ _ Hp1 H) as (xs' & tss' & Hp' & E). exists xs', tss'. by rewrite E, Htext.
Qed.

(** * It does not get stuck

    [fits x v]: the value [v] is of the kind that the actions expect of the
    symbol [x]; [good] are the tokens with such values. *)
Section total.
Context (fits : symbol -> V -> Prop) (good : tok -> Prop).
Context (Htok : forall t, good t -> fits (Term (class t)) (value t)).
Context (Hact : forall i r vs, i <> 0 -> rules !! i = Some r -> Forall2 fits (rhs r) vs ->
  exists v, action r vs = Some v /\ fits (NonTerm (lhs r)) v).
Context (Hfirst_action : forall r vs v, rules !! 0 = Some r -> action r vs = Some v -> fits (NonTerm (lhs r)) v).

Fixpoint derives_fits x ts v (H : derives x ts v) : Forall good ts -> fits x v
with derives_all_fits xs ts vs (H : derives_all xs ts vs) : Forall good ts -> Forall2 fits xs vs.
Proof using Htok Hact Hfirst_action.
  - destruct H as [t|i r ts vs v Hr Hall Ha]; intros Hg.
    + apply Htok. by inversion Hg.
    + destruct (decide (i = 0)) as [->|Hi]; [by eapply Hfirst_action |].
      destruct (Hact _ _ _ Hi Hr (derives_all_fits _ _ _ Hall Hg)) as (v' & Hv & Hfit). congruence.
  - destruct H as [|x xs ts ts' v vs Hx Hxs]; intros Hg; [constructor |].
    apply Forall_app in Hg as [Hg1 Hg2]. constructor; [by eapply derives_fits | by eapply derives_all_fits].
Qed.

Lemma path_good s xs tss d : path s xs tss -> Forall good (text tss) -> d <= length xs ->
  Forall2 fits (reverse (take d xs)) (last_values d s).
Proof using Htok Hact Hfirst_action.
  intros Hp Hg Hd. destruct (path_values _ _ _ _ Hp Hd) as [Hall _].
  eapply derives_all_fits; [exact Hall |]. rewrite <- (text_split d) in Hg. by apply Forall_app in Hg as [_ Hg].
Qed.

Lemma reduce_some s xs tss r rl from : path s xs tss -> Forall good (text tss) -> table !! top s = Some from ->
  r <> 0 -> rules !! r = Some rl -> (r, length (rhs rl)) ∈ items from -> exists s', reduce rl s = Some s'.
Proof using Hok Htok Hact Hfirst_action.
  intros Hp Hg Hf Hr0 Hr Hit.
  destruct (path_item _ _ _ _ _ _ Hp Hf Hit) as (rl' & _ & Hr' & Htake & Hlen & from' & Hf' & Hit'). simplify_eq.
  pose proof (path_good _ _ _ _ Hp Hg Hlen) as Hfit. rewrite (firstn_all (rhs rl)) in Htake.
  rewrite Htake, reverse_involutive in Hfit. destruct (Hact _ _ _ Hr0 Hr Hfit) as (v & Hv & _).
  destruct (item_at _ _ _ Hf' Hit') as [[-> _]|(_ & rl' & j & Hr' & Hj)]; [done |]. simplify_eq.
  unfold Bison.reduce. rewrite Hv. simpl. rewrite Hj. by eexists.
Qed.

Lemma parse_from_not_stuck fuel : forall s xs tss ts,
  path s xs tss -> Forall good (text tss ++ ts) -> parse_from fuel s ts <> Stuck.
Proof using Hok Htok Hact Hfirst_action.
  induction fuel as [|fuel IH]; intros s xs tss ts Hp Hg; [done |]. simpl.
  destruct (step_at (top s) (class_of_next class stop ts)) as [a|] eqn:Ha; [| done].
  destruct (step_at_ok _ _ _ Ha) as (from & Hf & Hstep). destruct a as [j|r].
  - destruct Hstep as [Hj Hstop]. destruct ts as [|t ts].
    + destruct s as [|[i w] s]; [| done]. simpl in Hstop.
      by destruct (item_behind _ _ _ _ Hf (Hstop eq_refl)).
    + apply (IH _ (Term (class t) :: xs) ([t] :: tss)).
      * constructor; [done | exact Hj | constructor].
      * by rewrite text_cons, <- app_assoc.
  - destruct Hstep as (Hr0 & rl & Hr & Hit). rewrite Hr. apply Forall_app in Hg as [Hg1 Hg2].
    destruct (reduce_some _ _ _ _ _ _ Hp Hg1 Hf Hr0 Hr Hit) as [s' Hred]. rewrite Hred.
    destruct (reduce_path _ _ _ _ _ _ _ Hp Hf Hr Hit Hred) as (xs' & tss' & Hp' & Htext & _).
    eapply IH; [exact Hp' |]. rewrite Htext. by apply Forall_app.
Qed.
End total.

(** * It ends *)

Section ends.
Context (rank : symbol -> nat) (opens : T -> bool) (highest : nat).
Context (Hends : ends_ok rules table rank opens highest = true).
Context (Hrank : forall t, rank (Term t) <= highest).

(** What is on the stack, and the tokens that are left, bound the steps. *)
Definition weight (x : symbol) : nat := S highest + rank x.

Definition stack_weight (xs : list symbol) : nat :=
  sum_list_with weight xs + match xs with x :: _ => if opener opens x then 2 * S highest else 0 | [] => 0 end.

Definition steps_left (xs : list symbol) (ts : list tok) : nat := stack_weight xs + 4 * S highest * length ts.

Lemma rule_weight i r : rules !! i = Some r ->
  rank (NonTerm (lhs r)) <= highest /\ (forall x, rhs r = [x] -> rank (NonTerm (lhs r)) < rank x).
Proof using Hends.
  intros Hr. unfold ends_ok in Hends. apply andb_true_iff in Hends as [H _].
  apply andb_true_iff in H as [H _]. rewrite forallb_forall in H.
  apply list_elem_of_lookup_2, list_elem_of_In, H in Hr. apply andb_true_iff in Hr as [H1%Nat.leb_le H2].
  split; [done |]. intros x E. rewrite E in H2. by apply Nat.ltb_lt in H2.
Qed.

(** An empty rule is reduced only behind an opening symbol. *)
Lemma empty_behind s xs tss t r rl : path s xs tss -> step_at (top s) t = Some (Reduce r) ->
  rules !! r = Some rl -> rhs rl = [] -> exists x xs', xs = x :: xs' /\ opener opens x = true.
Proof using Hok Hends.
  intros Hp Ha Hr He. unfold ends_ok in Hends. apply andb_true_iff in Hends as [H H0].
  apply andb_true_iff in H as [_ H]. rewrite forallb_forall in H.
  assert (forall from, table !! top s = Some from -> empties rules from = true) as Hempty.
  { intros from Hf. unfold Bison.step_at in Ha. rewrite Hf in Ha. simpl in Ha.
    assert (is_empty_rule rules r = true) as He' by (unfold is_empty_rule; rewrite Hr; by apply bool_decide_eq_true).
    unfold empties. apply orb_true_iff. destruct (assoc_of t (steps from)) as [a|] eqn:E.
    - left. injection Ha as ->. apply assoc_of_elem, list_elem_of_In in E. apply existsb_exists. by exists (t, Reduce r).
    - right. destruct (default_reduction from) as [r'|]; [| done]. by injection Ha as ->. }
  destruct Hp as [|j v x s xs ts tss Hp Hj Hx].
  - simpl in Hempty. destruct table as [|from rest]; [done |]. by rewrite (Hempty from eq_refl) in H0.
  - exists x, xs. split; [done |]. destruct (next_ok _ _ _ Hj) as (from & to & Hf & Hto & _).
    specialize (H from). rewrite <- list_elem_of_In in H. specialize (H (list_elem_of_lookup_2 _ _ _ Hf)).
    rewrite forallb_forall in H. specialize (H (x, j)). rewrite <- list_elem_of_In in H.
    unfold Bison.next_state in Hj. rewrite Hf in Hj. simpl in Hj. specialize (H (assoc_of_elem _ _ _ Hj)).
    simpl in H. rewrite Hto in H. apply orb_true_iff in H as [H|H]; [done |].
    simpl in Hempty. rewrite (Hempty to Hto) in H. done.
Qed.

Lemma reduce_weight xs rl r n : rules !! r = Some rl -> n = length (rhs rl) ->
  take n xs = reverse (rhs rl) -> n <= length xs ->
  (rhs rl = [] -> exists x xs', xs = x :: xs' /\ opener opens x = true) ->
  stack_weight (NonTerm (lhs rl) :: drop n xs) < stack_weight xs.
Proof using Hends.
  intros Hr Hn Htake Hlen Hempty. destruct (rule_weight _ _ Hr) as [Hle Hone].
  assert (sum_list_with weight xs = sum_list_with weight (rhs rl) + sum_list_with weight (drop n xs)) as Hsum.
  { rewrite <- (take_drop n xs) at 1. by rewrite sum_list_with_app, Htake, sum_list_with_reverse. }
  unfold stack_weight. rewrite Hsum. simpl.
  set (rest := sum_list_with weight (drop n xs)).
  destruct (rhs rl) as [|x [|y l]] eqn:E.
  - destruct (Hempty eq_refl) as (x & xs' & -> & Hx). simpl in Hn. subst n.
    unfold rest, weight. simpl. rewrite Hx. lia.
  - specialize (Hone x eq_refl). clearbody rest. unfold weight. simpl. lia.
  - clearbody rest. simpl. unfold weight. lia.
Qed.

Lemma parse_from_ends fuel : forall s xs tss ts,
  path s xs tss -> steps_left xs ts < fuel -> parse_from fuel s ts <> OutOfFuel.
Proof using Hok Hends Hrank.
  induction fuel as [|fuel IH]; intros s xs tss ts Hp Hlt; [lia |]. simpl.
  destruct (step_at (top s) (class_of_next class stop ts)) as [a|] eqn:Ha; [| done].
  destruct (step_at_ok _ _ _ Ha) as (from & Hf & Hstep). destruct a as [j|r].
  - destruct ts as [|t ts]; [by destruct s as [|[]] |]. destruct Hstep as [Hj _].
    apply (IH _ (Term (class t) :: xs) ([t] :: tss)).
    + constructor; [done | exact Hj | constructor].
    + unfold steps_left, stack_weight in *. cbn [length sum_list_with] in *. rewrite (Nat.mul_succ_r (4 * S highest)) in Hlt.
      pose proof (Hrank (class t)). unfold weight at 1.
      set (k := 4 * S highest * length ts) in *. clearbody k. clear IH.
      destruct (opener opens (Term (class t))), xs as [|x xs]; try destruct (opener opens x); lia.
  - destruct Hstep as (_ & rl & Hr & Hit). rewrite Hr.
    destruct (reduce rl s) as [s'|] eqn:Hred; [| done].
    destruct (reduce_path _ _ _ _ _ _ _ Hp Hf Hr Hit Hred) as (xs' & tss' & Hp' & _ & -> & Htake & Hlen).
    eapply IH; [exact Hp' |].
    pose proof (reduce_weight xs rl r _ Hr eq_refl Htake Hlen (empty_behind _ _ _ _ _ _ Hp Ha Hr)) as Hw.
    unfold steps_left in *. lia.
Qed.
End ends.

(** * What a state does with a text

    [goes i x ts v la j]: from the state [i], with a token of the class [la]
    behind [ts], the parser reduces [ts] to the symbol [x] with the value [v],
    and is in the state [j] then. *)
Definition first_class (ts : list tok) (la : T) : T := match ts with [] => la | t :: _ => class t end.

Inductive goes : nat -> symbol -> list tok -> V -> T -> nat -> Prop :=
  | goes_token i t la j :
      step_at i (class t) = Some (Shift j) -> goes i (Term (class t)) [t] (value t) la j
  | goes_rule i r rl ts vs v la k j :
      rules !! r = Some rl -> goes_all i (rhs rl) ts vs la k -> step_at k la = Some (Reduce r) ->
      action rl vs = Some v -> next_state i (NonTerm (lhs rl)) = Some j ->
      goes i (NonTerm (lhs rl)) ts v la j
with goes_all : nat -> list symbol -> list tok -> list V -> T -> nat -> Prop :=
  | goes_nil i la : goes_all i [] [] [] la i
  | goes_cons i x xs ts ts' v vs la k j :
      goes i x ts v (first_class ts' la) k -> goes_all k xs ts' vs la j ->
      goes_all i (x :: xs) (ts ++ ts') (v :: vs) la j.

Lemma class_of_next_app ts rest : class_of_next class stop (ts ++ rest) = first_class ts (class_of_next class stop rest).
Proof. by destruct ts. Qed.

(** The machine does so, on whatever it has on its stack. *)
Fixpoint goes_runs i x ts v la j (H : goes i x ts v la j) : forall s rest,
  top s = i -> class_of_next class stop rest = la ->
  exists n, forall fuel, parse_from (n + fuel) s (ts ++ rest) = parse_from fuel ((j, v) :: s) rest
with goes_all_runs i xs ts vs la j (H : goes_all i xs ts vs la j) : forall s rest,
  top s = i -> class_of_next class stop rest = la ->
  exists n s', top (s' ++ s) = j /\ length s' = length xs /\ s'.*2 = reverse vs /\
    forall fuel, parse_from (n + fuel) s (ts ++ rest) = parse_from fuel (s' ++ s) rest.
Proof using Type.
  - destruct H as [i t la j Hs|i r rl ts vs v la k j Hr Hall Hs Ha Hj]; intros s rest Hi Hla.
    + exists 1. intros fuel. simpl. by rewrite Hi, Hs.
    + destruct (goes_all_runs _ _ _ _ _ _ Hall s rest Hi Hla) as (n & s' & Htop & Hlen & Hvs & Hn).
      exists (n + 1). intros fuel. rewrite <- Nat.add_assoc, Hn. simpl. rewrite Htop, Hla, Hs, Hr.
      unfold Bison.reduce. rewrite <- Hlen, drop_app_length, Hi. unfold last_values.
      rewrite take_app_length, Hvs, reverse_involutive, Ha. simpl. by rewrite Hj.
  - destruct H as [i la|i x xs ts ts' v vs la k j Hx Hxs]; intros s rest Hi Hla.
    + exists 0, []. by rewrite !app_nil_l.
    + destruct (goes_runs _ _ _ _ _ _ Hx s (ts' ++ rest) Hi) as [n1 Hn1].
      { by rewrite class_of_next_app, Hla. }
      destruct (goes_all_runs _ _ _ _ _ _ Hxs ((k, v) :: s) rest eq_refl Hla) as (n2 & s' & Htop & Hlen & Hvs & Hn2).
      exists (n1 + n2), (s' ++ [(k, v)]). rewrite <- app_assoc. split_and!; [done | | |].
      * rewrite length_app. simpl. lia.
      * by rewrite fmap_app, Hvs, reverse_cons.
      * intros fuel. by rewrite <- app_assoc, <- Nat.add_assoc, Hn1, Hn2.
Qed.

(** More fuel changes no answer. *)
Lemma parse_from_more fuel k : forall s ts, parse_from fuel s ts <> OutOfFuel ->
  parse_from (fuel + k) s ts = parse_from fuel s ts.
Proof using Type.
  induction fuel as [|fuel IH]; intros s ts H; [done |]. simpl in H |- *.
  destruct (step_at (top s) (class_of_next class stop ts)) as [[j|r]|]; [| | done].
  - destruct ts as [|t ts]; [by destruct s as [|[]] | by apply IH].
  - destruct (rules !! r) as [rl|]; [| done]. destruct (reduce rl s) as [s'|]; [by apply IH | done].
Qed.

(** A text of the start symbol is accepted. *)
Lemma goes_parses n ts v j k fuel :
  goes 0 (NonTerm n) ts v stop j -> step_at j stop = Some (Shift k) ->
  parse_from fuel [] ts <> OutOfFuel -> parse_from fuel [] ts = Parsed v.
Proof using Type.
  intros H Hs Hfuel. destruct (goes_runs _ _ _ _ _ _ H [] [] eq_refl eq_refl) as [m Hm].
  rewrite app_nil_r in Hm. specialize (Hm 1). simpl in Hm. rewrite Hs in Hm.
  assert (parse_from (m + 1) [] ts <> OutOfFuel) as Hm' by (by rewrite Hm).
  rewrite <- Hm, <- (parse_from_more _ fuel _ _ Hm'), <- (parse_from_more fuel (m + 1) _ _ Hfuel).
  by rewrite Nat.add_comm.
Qed.

(** A text with a token behind it that cannot follow is an error there. *)
Lemma goes_fails x ts t rest v j fuel :
  goes 0 x ts v (class t) j -> step_at j (class t) = None ->
  parse_from fuel [] (ts ++ t :: rest) <> OutOfFuel ->
  parse_from fuel [] (ts ++ t :: rest) = SyntaxError (t :: rest) [(j, v)].
Proof using Type.
  intros H Hs Hfuel. destruct (goes_runs _ _ _ _ _ _ H [] (t :: rest) eq_refl eq_refl) as [m Hm].
  specialize (Hm 1). cbn [Bison.parse_from Bison.class_of_next top] in Hm. rewrite Hs in Hm.
  assert (parse_from (m + 1) [] (ts ++ t :: rest) <> OutOfFuel) as Hm' by (by rewrite Hm).
  rewrite <- Hm, <- (parse_from_more _ fuel _ _ Hm'), <- (parse_from_more fuel (m + 1) _ _ Hfuel).
  by rewrite Nat.add_comm.
Qed.
End facts.
