(* ===== verification/Grammar.v ===== *)
(** [parser.y]: the rules with their actions, the precedences, and the parser
    that bison makes of them.

    A semantic value is one of the members of the union of the grammar.  What
    the actions print under [YYDEBUG] is that of [AstPrint]'s [describe]; the
    values are built by the constructors of the node classes. *)

From Stdlib Require Import NArith Ascii.
From S2P Require Import Prelude Lexer Ast AstPrint Bison.

(** * Symbols *)

(** The tokens of the lexer, the two that stand for a precedence, and the end
    of the text. *)
Inductive terminal : Type := Tok (k : kind) | UMINUS | EMPTYFUNARGS | End_of_file.

#[export] Instance terminal_eq_dec : EqDecision terminal.
Proof. solve_decision. Defined.

Inductive nonterminal : Type :=
  | accept_ | program_ | statements | statement | externStatement | externStatement_h | if_statement
  | block_ | variableDec | structDec_f | structDec_b | functionDec | var_keyword | struct_keyword
  | functionArgs | callArgs | rexp | ident | exp | numeric | binaryOperatorToken
  | leftBraceToken | rightBraceToken | unaryOperatorToken.

#[export] Instance nonterminal_eq_dec : EqDecision nonterminal.
Proof. solve_decision. Defined.

(** The members of the union, and the token values. *)
Inductive sval : Type :=
  | Vtoken                                  (* token *)
  | Vstring (s : string)                    (* string *)
  | Vident (name : string)                  (* identifier *)
  | Vexp (e : expr)                         (* exp *)
  | Vstatement (s : stmt)                   (* statement *)
  | Vvariable (v : vardef)                  (* statement, of a variableDec *)
  | Vstructure (name : string)              (* structureDeclaration, its block still null *)
  | Vblock (b : block)                      (* block *)
  | Vkeyword (name : string)                (* keyword *)
  | Vvariables (l : list vardef)            (* variableVec *)
  | Vexpressions (l : list expr).           (* expressionVec *)

(** * Numbers *)

(** [atol] of digits: what does not fit is the greatest [long]. *)
Definition digit_value (c : Ascii.ascii) : Z := Z.of_nat (Ascii.nat_of_ascii c) - 48.

Definition decimal (l : list Ascii.ascii) : Z := foldl (fun n c => 10 * n + digit_value c)%Z 0%Z l.

Definition atol (s : string) : Z := Z.min (decimal (String.list_ascii_of_string s)) (two63 - 1).

Fixpoint point_place (l : list ascii) : nat :=
  match l with [] => 0 | c :: l' => if decide (c = "."%char) then 0 else S (point_place l') end.

(** [atof] of digits with a point: the double nearest to the fraction. *)
Definition atof (s : string) : double :=
  let l := String.list_ascii_of_string s in
  let digits := filter (fun c => c <> "."%char) l in
  let places := length l - S (point_place l) in
  match decimal digits, (10 ^ Z.of_nat places)%Z with
  | Zpos m, Zpos d => fdiv (S754_finite false m 0) (S754_finite false d 0)
  | _, _ => double_zero
  end.

(** * Actions *)

(** A C string that holds [s]. *)
Definition cstring (s : string) : list Ascii.ascii := String.list_ascii_of_string s ++ [nul].

(** What a constructor leaves, when its assertions hold. *)
Definition built {A} (m : SE unit crash A) : option A := match (m tt).1 with Ok a => Some a | Err _ => None end.

(** The variable declaration as the statement it is. *)
Definition new_variable (s : stmt) : option sval := match s with SVariable v => Some (Vvariable v) | _ => None end.

Definition new_ident (name : string) : option string :=
  e ← new_Identifier (cstring name); match e with Identifier x => Some x | _ => None end.

Local Abbreviation act := (list sval -> option sval).

(** [$$ = $1]. *)
Definition first : act := fun vs => match vs with v :: _ => Some v | [] => None end.

Definition of_statement (commit : bool) : act := fun vs =>
  match vs with
  | Vvariable v :: _ => Some (Vstatement (setCommit (SVariable v) commit))
  | _ => None
  end.

Definition of_assignment (commit : bool) : act := fun vs =>
  match vs with
  | Vexp l :: _ :: Vexp r :: _ => Some (Vstatement (setCommit (new_AssignStatement l r) commit))
  | _ => None
  end.

Definition of_expression (commit : bool) : act := fun vs =>
  match vs with
  | Vexp e :: _ => s ← built (new_ExpressionStatement (Some e)); Some (Vstatement (setCommit s commit))
  | _ => None
  end.

Definition of_return : act := fun _ => Some (Vstatement (new_ReturnStatement None)).

Definition of_return_value : act := fun vs =>
  match vs with _ :: Vexp e :: _ => Some (Vstatement (new_ReturnStatement (Some e))) | _ => None end.

(** [extern], the type, an optional star, the name and the arguments. *)
Definition of_extern (pointer : bool) : act := fun vs =>
  match vs, pointer with
  | [_; Vkeyword t; _; Vident x; _; Vvariables args; _; _], true
  | [_; Vkeyword t; Vident x; _; Vvariables args; _; _], false =>
      Some (Vstatement (new_ExternStatement4 t x args pointer))
  | _, _ => None
  end.

Definition of_if : act := fun vs =>
  match vs with
  | [_; _; Vexp e; _; Vblock b] => Some (Vstatement (new_IfStatement e (Some b) None))
  | [_; _; Vexp e; _; Vblock b; _; Vblock eb] => Some (Vstatement (new_IfStatement e (Some b) (Some eb)))
  | _ => None
  end.

(** The type is a keyword or a name. *)
Definition of_variable (pointer : bool) : act := fun vs =>
  match vs, pointer with
  | [Vkeyword t; Vident x], false => new_variable (new_VariableDefinition t x None false)
  | [Vkeyword t; _; Vident x], true => new_variable (new_VariableDefinition t x None true)
  | [Vident t; Vident x], false => new_variable (new_StructureDeclaration t x false)
  | [Vident t; _; Vident x], true => new_variable (new_StructureDeclaration t x true)
  | [Vkeyword t; Vident x; _; Vexp e], false => new_variable (new_VariableDefinition t x (Some e) false)
  | [Vkeyword t; _; Vident x; _; Vexp e], true => new_variable (new_VariableDefinition t x (Some e) true)
  | _, _ => None
  end.

Definition of_function (pointer : bool) : act := fun vs =>
  match vs, pointer with
  | [Vkeyword t; Vident x; _; Vvariables args; _; Vblock b], false
  | [Vkeyword t; _; Vident x; _; Vvariables args; _; Vblock b], true =>
      Vstatement <$> built (new_FunctionDefinition_keyword (Some t) x args b pointer)
  | [Vident t; Vident x; _; Vvariables args; _; Vblock b], false
  | [Vident t; _; Vident x; _; Vvariables args; _; Vblock b], true =>
      Vstatement <$> built (new_FunctionDefinition_user (Some t) x args b pointer)
  | _, _ => None
  end.

Definition of_structure : act := fun vs =>
  match vs with
  | [Vstructure x; Vblock b; _] => Some (Vstatement (new_StructureDefinition x b))
  | _ => None
  end.

Definition of_struct_head : act := fun vs =>
  match vs with [_; Vident x] => Some (Vstructure x) | _ => None end.

Definition of_keyword (name : string) : act := fun _ => Vkeyword <$> new_Keyword (cstring name).

(** The three rules of [functionArgs]; [callArgs] has the same. *)
Definition of_variables : act := fun vs =>
  match vs with
  | [] => Some (Vvariables [])
  | [Vvariable v] => Some (Vvariables [v])
  | [Vvariables l; _; Vvariable v] => Some (Vvariables (l ++ [v]))
  | _ => None
  end.

Definition of_expressions : act := fun vs =>
  match vs with
  | [] => Some (Vexpressions [])
  | [Vexp e] => Some (Vexpressions [e])
  | [Vexpressions l; _; Vexp e] => Some (Vexpressions (l ++ [e]))
  | _ => None
  end.

(** [statements]: a block of one, or one more. *)
Definition of_statements : act := fun vs =>
  match vs with
  | [Vstatement s] => Some (Vblock (new_Block_of [s]))
  | [Vblock (Some l); Vstatement s] => Some (Vblock (new_Block_of (l ++ [s])))
  | _ => None
  end.

(** The places that may be assigned to. *)
Definition of_place : act := fun vs =>
  match vs with
  | [Vident x] => Some (Vexp (Identifier x))
  | [_; Vident x] => Vexp <$> built (new_PointerExpression (Some x) (Some (new_Integer 0)) None)
  | [Vident x; _; Vexp e; _] => Vexp <$> built (new_PointerExpression (Some x) (Some e) None)
  | [Vident x; _; Vident f] => Vexp <$> built (new_StructureExpression (Some x) (Some f))
  | [_; Vident x; _; Vident f] => Vexp <$> built (new_PointerExpression (Some x) (Some (new_Integer 0)) (Some f))
  | _ => None
  end.

Definition of_binary : act := fun vs =>
  match vs with
  | [Vexp l; Vstring op; Vexp r] => Vexp <$> new_BinaryOperator l (cstring op) r
  | _ => None
  end.

Definition of_unary : act := fun vs =>
  match vs with [Vstring op; Vexp e] => Vexp <$> new_UnaryOperator (cstring op) e | _ => None end.

Definition of_null : act := fun _ => Some (Vexp new_NullLiteral).

Definition of_parentheses : act := fun vs => match vs with [_; Vexp e; _] => Some (Vexp e) | _ => None end.

Definition of_call : act := fun vs =>
  match vs with [Vident f; _; Vexpressions args; _] => Some (Vexp (new_FunctionCall f args)) | _ => None end.

Definition of_address : act := fun vs =>
  match vs with
  | [_; Vident x] => Vexp <$> built (new_AddressOfExpression (Some x) None)
  | [_; Vident x; _; Vexp e; _] => Vexp <$> built (new_AddressOfExpression (Some x) (Some e))
  | _ => None
  end.

Definition of_identifier : act := fun vs =>
  match vs with [Vstring s] => Vident <$> new_ident s | _ => None end.

Definition of_integer : act := fun vs =>
  match vs with [Vstring s] => Some (Vexp (new_Integer (atol s))) | _ => None end.

Definition of_float : act := fun vs =>
  match vs with [Vstring s] => Some (Vexp (new_Float (atof s))) | _ => None end.

(** The block between the braces; the action of its rule takes [$2] or [$3]. *)
Definition of_block (n : nat) : act := fun vs => vs !! n.

Definition of_empty_block : act := fun _ => Some (Vblock new_Block).

(** * The rules *)

Local Abbreviation N := NonTerm.
Definition K (k : kind) : symbol terminal nonterminal := Term (Tok k).

Definition mk (l : nonterminal) (r : list (symbol terminal nonterminal)) (a : act) :
    rule terminal nonterminal sval := mk_rule l r None a.

Definition statement_rules : list (rule terminal nonterminal sval) := [
  mk accept_ [N program_; Term End_of_file] first;
  mk program_ [N statements] first;
  mk statements [N statement] of_statements;
  mk statements [N statements; N statement] of_statements;
  mk statement [N variableDec; K TSCOLON; K TENDL] (of_statement true);
  mk statement [N variableDec; K TENDL] (of_statement false);
  mk statement [N functionDec; K TENDL] first;
  mk statement [N structDec_f; K TENDL] first;
  mk statement [N if_statement; K TENDL] first;
  mk statement [N externStatement; K TENDL] first;
  mk statement [N rexp; K TSET; N exp; K TENDL] (of_assignment false);
  mk statement [N rexp; K TSET; N exp; K TSCOLON; K TENDL] (of_assignment true);
  mk statement [N exp; K TENDL] (of_expression false);
  mk statement [N exp; K TSCOLON; K TENDL] (of_expression true);
  mk statement [K TRETURN; K TENDL] of_return;
  mk statement [K TRETURN; K TSCOLON; K TENDL] of_return;
  mk statement [K TRETURN; N exp; K TENDL] of_return_value;
  mk statement [K TRETURN] of_return;
  mk statement [K TRETURN; N exp] of_return_value;
  mk statement [K TRETURN; N exp; K TSCOLON] of_return_value;
  mk externStatement [N externStatement_h; N var_keyword; K TSTAR; N ident; K TLPAREN; N functionArgs;
    K TRPAREN; K TSCOLON] (of_extern true);
  mk externStatement [N externStatement_h; N var_keyword; N ident; K TLPAREN; N functionArgs;
    K TRPAREN; K TSCOLON] (of_extern false);
  mk externStatement_h [K TEXTERN] first;
  mk if_statement [K TIF; K TLPAREN; N exp; K TRPAREN; N block_] of_if;
  mk if_statement [K TIF; K TLPAREN; N exp; K TRPAREN; N block_; K TELSE; N block_] of_if;
  mk block_ [N leftBraceToken; N statements; N rightBraceToken] (of_block 1);
  mk block_ [N leftBraceToken; K TENDL; N statements; N rightBraceToken] (of_block 2);
  mk block_ [N leftBraceToken; N statements; K TENDL; N rightBraceToken] (of_block 1);
  mk block_ [N leftBraceToken; K TENDL; N statements; K TENDL; N rightBraceToken] (of_block 2);
  mk block_ [N leftBraceToken; N rightBraceToken] of_empty_block;
  mk block_ [N leftBraceToken; K TENDL; N rightBraceToken] of_empty_block
].

Definition declaration_rules : list (rule terminal nonterminal sval) := [
  mk variableDec [N var_keyword; N ident] (of_variable false);
  mk variableDec [N var_keyword; K TSTAR; N ident] (of_variable true);
  mk variableDec [N ident; N ident] (of_variable false);
  mk variableDec [N ident; K TSTAR; N ident] (of_variable true);
  mk variableDec [N var_keyword; N ident; K TSET; N exp] (of_variable false);
  mk variableDec [N var_keyword; K TSTAR; N ident; K TSET; N exp] (of_variable true);
  mk structDec_f [N structDec_b; N block_; K TSCOLON] of_structure;
  mk structDec_b [N struct_keyword; N ident] of_struct_head;
  mk functionDec [N var_keyword; N ident; K TLPAREN; N functionArgs; K TRPAREN; N block_] (of_function false);
  mk functionDec [N var_keyword; K TSTAR; N ident; K TLPAREN; N functionArgs; K TRPAREN; N block_]
    (of_function true);
  mk functionDec [N ident; N ident; K TLPAREN; N functionArgs; K TRPAREN; N block_] (of_function false);
  mk functionDec [N ident; K TSTAR; N ident; K TLPAREN; N functionArgs; K TRPAREN; N block_]
    (of_function true);
  mk var_keyword [K TINT] (of_keyword "int");
  mk var_keyword [K TFLOAT] (of_keyword "float");
  mk var_keyword [K TVOID] (of_keyword "void");
  mk struct_keyword [K TSTRUCT] (of_keyword "struct");
  mk_rule functionArgs [] (Some EMPTYFUNARGS) of_variables;
  mk functionArgs [N variableDec] of_variables;
  mk functionArgs [N functionArgs; K TCOMMA; N variableDec] of_variables;
  mk_rule callArgs [] (Some EMPTYFUNARGS) of_expressions;
  mk callArgs [N exp] of_expressions;
  mk callArgs [N callArgs; K TCOMMA; N exp] of_expressions
].

Definition expression_rules : list (rule terminal nonterminal sval) := [
  mk rexp [N ident] of_place;
  mk rexp [K TSTAR; N ident] of_place;
  mk rexp [N ident; K TLSBRACE; N exp; K TRSBRACE] of_place;
  mk rexp [N ident; K TDOT; N ident] of_place;
  mk rexp [K TSTAR; N ident; K TDOT; N ident] of_place;
  mk ident [K TIDENTIFIER] of_identifier;
  mk exp [N exp; N binaryOperatorToken; N exp] of_binary;
  mk_rule exp [N unaryOperatorToken; N exp] (Some UMINUS) of_unary;
  mk exp [N numeric] first;
  mk exp [N rexp] first;
  mk exp [K TNULL] of_null;
  mk exp [K TLPAREN; N exp; K TRPAREN] of_parentheses;
  mk exp [N exp; K TEQUAL; N exp] of_binary;
  mk exp [N ident; K TLPAREN; N callArgs; K TRPAREN] of_call;
  mk exp [K TSAMPR; N ident] of_address;
  mk exp [K TSAMPR; N ident; K TLSBRACE; N exp; K TRSBRACE] of_address;
  mk numeric [K TINTLIT] of_integer;
  mk numeric [K TFLOATLIT] of_float
].

(** The tokens that an operator can be: [$$ = $1], the text of the operator. *)
Definition operator_rules : list (rule terminal nonterminal sval) :=
  ((fun k => mk binaryOperatorToken [K k] first) <$>
     [TEQUAL; TNEQUAL; TLT; TLTE; TGT; TGTE; TDASH; TPLUS; TSTAR; TSLASH; TLOR; TLAND]) ++
  [mk leftBraceToken [K TLBRACE] first; mk rightBraceToken [K TRBRACE] first] ++
  ((fun k => mk unaryOperatorToken [K k] first) <$> [TDASH; TLNOT; TNEW]).

Definition rules : list (rule terminal nonterminal sval) :=
  statement_rules ++ declaration_rules ++ expression_rules ++ operator_rules.

(** * The precedences *)

(** The lines [%precedence], [%left] and [%right], each one above the line
    before; names that no rule uses are left out. *)
Definition precedence : list (list kind * assoc) := [
  ([TENDL; TSCOLON], AssocNone);
  ([TEQUAL; TNEQUAL; TLT; TLTE; TGT; TGTE; TLAND; TLOR; TLNOT], AssocLeft);
  ([TPLUS; TDASH], AssocLeft);
  ([TSTAR; TSLASH], AssocLeft);
  ([], AssocRight);                          (* UMINUS *)
  ([TIDENTIFIER], AssocNone)
].

Definition level (t : terminal) : option (nat * assoc) :=
  match t with
  | Tok k =>
      match filter (fun p => k ∈ p.2.1) (imap (fun i l => (S i, l)) precedence) with
      | (i, l) :: _ => Some (i, l.2)
      | [] => None
      end
  | UMINUS => Some (5, AssocRight)
  | EMPTYFUNARGS | End_of_file => None
  end.

(** * The parser *)

Definition kinds : list kind := [
  TENDL; TSET; TEQUAL; TNEQUAL; TLT; TLTE; TGT; TGTE; TLOR; TLAND; TLNOT;
  TLPAREN; TRPAREN; TLBRACE; TRBRACE; TLSBRACE; TRSBRACE; TDOT; TPLUS; TDASH;
  TSTAR; TSLASH; TSCOLON; TSAMPR; TCOMMA; TIF; TWHILE; TRETURN; TINT; TFLOAT;
  TVOID; TSTRUCT; TEXTERN; TELSE; TNULL; TNEW; TFLOATLIT; TINTLIT; TIDENTIFIER].

Definition terminals : list terminal := (Tok <$> kinds) ++ [End_of_file].

Definition tables : list (row terminal nonterminal) :=
  Eval vm_compute in build terminals rules level 4096.

Definition class (t : token) : terminal := match t with Plain k | Text k _ => Tok k end.
Definition value (t : token) : sval := match t with Plain _ => Vtoken | Text _ s => Vstring s end.

(** Four times the greatest rank, and one, of steps for each token are enough. *)
Definition parse (ts : list token) : answer :=
  parse_from rules tables class End_of_file value (S (28 * length ts)) [] ts.

(** [ast_root]: the statements of the program block, once the rule of [program]
    is reduced.  As a default it is reduced in front of any token that cannot
    begin a statement, and it is an error only then that the text has not
    ended. *)
Definition program_state : nat :=
  Eval vm_compute in default 0 (next_state tables 0 (NonTerm program_)).

Definition grammar (ts : list token) : option (list stmt) :=
  match parse ts with
  | Parsed (Vblock b) => b
  | SyntaxError _ [(i, Vblock b)] => if decide (i = program_state) then b else None
  | _ => None
  end.

(** Whether [yyerror] is called. *)
Definition syntax_error (ts : list token) : bool := match parse ts with SyntaxError _ _ => true | _ => false end.
