(* ===== verification/Runtime.v ===== *)
(** The parallel statement manager of the runtime library: the classes
    [StatementContext] and [ParContextManager] of [parContextManager.h] and
    [parContextManager.cpp].

    The five families of member functions (int, float, int*, float*, void)
    are one text up to the value type; they are written once over the class
    [FutureMap], which says where the futures of a value type are kept, and
    each C++ function is the instance at its type.

    A statement is a function of its environment; what it does to memory is
    not part of this model.  A [std::future] is the shared state it refers
    to: the launch policy, the value the statement returns, and whether it
    has run. *)

From S2P Require Import Prelude.

(** * Values and futures *)

Record intptr : Type := mk_intptr { intptr_addr : Z }.
Record floatptr : Type := mk_floatptr { floatptr_addr : Z }.

(** The launch policies of [std::async]; [LaunchAsync] starts a thread. *)
Inductive launch : Type := LaunchDeferred | LaunchAsync.

#[export] Instance launch_eq_dec : EqDecision launch.
Proof. solve_decision. Defined.

Record future (A : Type) : Type := mk_future {
  policy : launch;
  value : A;
  ready : bool
}.
Arguments mk_future {A}.
Arguments policy {A}.
Arguments value {A}.
Arguments ready {A}.

(** [std::async(policy, statement, env)]. *)
Definition std_async {Env A} (p : launch) (statement : Env -> A) (env : Env) : future A :=
  mk_future p (statement env) false.

(** * StatementContext *)

Record StatementContext : Type := mk_StatementContext {
  int_future_id_map : gmap Z (future int64);
  float_future_id_map : gmap Z (future double);
  intptr_future_id_map : gmap Z (future intptr);
  floatptr_future_id_map : gmap Z (future floatptr);
  void_future_id_map : gmap Z (future unit)
}.

Definition new_StatementContext : StatementContext := mk_StatementContext ∅ ∅ ∅ ∅ ∅.

(** The move constructor: the five maps are moved. *)
Definition move_StatementContext (sc : StatementContext) : StatementContext :=
  mk_StatementContext (int_future_id_map sc) (float_future_id_map sc)
    (intptr_future_id_map sc) (floatptr_future_id_map sc) (void_future_id_map sc).

(** The value of a statement of any of the five types. *)
Inductive kind : Type := KInt | KFloat | KIntptr | KFloatptr | KVoid.

#[export] Instance kind_eq_dec : EqDecision kind.
Proof. solve_decision. Defined.

Inductive dyn : Type :=
  | DInt (v : int64)
  | DFloat (v : double)
  | DIntptr (v : intptr)
  | DFloatptr (v : floatptr)
  | DVoid.

(** [futures sc k id]: the policy, value and readiness of statement [id] of
    kind [k]. *)
Definition forget {A} (to_dyn : A -> dyn) (f : future A) : launch * dyn * bool :=
  (policy f, to_dyn (value f), ready f).

Definition futures (sc : StatementContext) (k : kind) : gmap Z (launch * dyn * bool) :=
  match k with
  | KInt => forget DInt <$> int_future_id_map sc
  | KFloat => forget DFloat <$> float_future_id_map sc
  | KIntptr => forget DIntptr <$> intptr_future_id_map sc
  | KFloatptr => forget DFloatptr <$> floatptr_future_id_map sc
  | KVoid => forget (fun _ => DVoid) <$> void_future_id_map sc
  end.

(** Where the futures of type [A] live in a context, and the laws of that
    field. *)
Class FutureMap (A : Type) := {
  fm_kind : kind;
  fm_dyn : A -> dyn;
  fm_get : StatementContext -> gmap Z (future A);
  fm_set : gmap Z (future A) -> StatementContext -> StatementContext;
  fm_get_set : forall m sc, fm_get (fm_set m sc) = m;
  fm_futures : forall sc, futures sc fm_kind = forget fm_dyn <$> fm_get sc;
  fm_other : forall m sc k, k <> fm_kind -> futures (fm_set m sc) k = futures sc k;
  fm_inj : forall a b, fm_dyn a = fm_dyn b -> a = b
}.

#[export, refine] Instance int_FutureMap : FutureMap int64 := {|
  fm_kind := KInt; fm_dyn := DInt; fm_get := int_future_id_map;
  fm_set m sc := mk_StatementContext m (float_future_id_map sc)
    (intptr_future_id_map sc) (floatptr_future_id_map sc) (void_future_id_map sc) |}.
Proof. all: first [done | by intros m sc [] | by intros ? ? [=] | by intros [] []]. Defined.

#[export, refine] Instance float_FutureMap : FutureMap double := {|
  fm_kind := KFloat; fm_dyn := DFloat; fm_get := float_future_id_map;
  fm_set m sc := mk_StatementContext (int_future_id_map sc) m
    (intptr_future_id_map sc) (floatptr_future_id_map sc) (void_future_id_map sc) |}.
Proof. all: first [done | by intros m sc [] | by intros ? ? [=] | by intros [] []]. Defined.

#[export, refine] Instance intptr_FutureMap : FutureMap intptr := {|
  fm_kind := KIntptr; fm_dyn := DIntptr; fm_get := intptr_future_id_map;
  fm_set m sc := mk_StatementContext (int_future_id_map sc) (float_future_id_map sc)
    m (floatptr_future_id_map sc) (void_future_id_map sc) |}.
Proof. all: first [done | by intros m sc [] | by intros ? ? [=] | by intros [] []]. Defined.

#[export, refine] Instance floatptr_FutureMap : FutureMap floatptr := {|
  fm_kind := KFloatptr; fm_dyn := DFloatptr; fm_get := floatptr_future_id_map;
  fm_set m sc := mk_StatementContext (int_future_id_map sc) (float_future_id_map sc)
    (intptr_future_id_map sc) m (void_future_id_map sc) |}.
Proof. all: first [done | by intros m sc [] | by intros ? ? [=] | by intros [] []]. Defined.

#[export, refine] Instance void_FutureMap : FutureMap unit := {|
  fm_kind := KVoid; fm_dyn := fun _ => DVoid; fm_get := void_future_id_map;
  fm_set m sc := mk_StatementContext (int_future_id_map sc) (float_future_id_map sc)
    (intptr_future_id_map sc) (floatptr_future_id_map sc) m |}.
Proof. all: first [done | by intros m sc [] | by intros ? ? [=] | by intros [] []]. Defined.

(** [addIntFuture] and its four copies. *)
Definition addFuture {A} `{FutureMap A} (f : future A) (id : int64) :
    SE StatementContext crash unit :=
  m <- gets fm_get ;;
  assert (bool_decide (m !! id = None)) "Statement id already exists" ;;
  modify (fm_set (<[id := f]> m)).

(** [getIntFuture] and its four copies. *)
Definition getFuture {A} `{FutureMap A} (id : int64) : SE StatementContext crash (future A) :=
  m <- gets fm_get ;;
  match m !! id with
  | None => fail OutOfRange
  | Some f => modify (fm_set (delete id m)) ;; mret f
  end.

Definition addIntFuture : future int64 -> int64 -> SE StatementContext crash unit := addFuture.
Definition addFloatFuture : future double -> int64 -> SE StatementContext crash unit := addFuture.
Definition addIntptrFuture : future intptr -> int64 -> SE StatementContext crash unit := addFuture.
Definition addFloatptrFuture : future floatptr -> int64 -> SE StatementContext crash unit :=
  addFuture.
Definition addVoidFuture : future unit -> int64 -> SE StatementContext crash unit := addFuture.
Definition getIntFuture : int64 -> SE StatementContext crash (future int64) := getFuture.
Definition getFloatFuture : int64 -> SE StatementContext crash (future double) := getFuture.
Definition getIntptrFuture : int64 -> SE StatementContext crash (future intptr) := getFuture.
Definition getFloatptrFuture : int64 -> SE StatementContext crash (future floatptr) := getFuture.
Definition getVoidFuture : int64 -> SE StatementContext crash (future unit) := getFuture.

(** * ParContextManager *)

Record ParContextManager : Type := mk_ParContextManager {
  context_map : gmap Z StatementContext;
  thread_count : int64;
  max_threads : int64;
  next_cid : int64;
  mutex : bool (* held *)
}.

Definition set_context_map (c : gmap Z StatementContext) (m : ParContextManager) :=
  mk_ParContextManager c (thread_count m) (max_threads m) (next_cid m) (mutex m).
Definition set_thread_count (n : int64) (m : ParContextManager) :=
  mk_ParContextManager (context_map m) n (max_threads m) (next_cid m) (mutex m).
Definition set_next_cid (n : int64) (m : ParContextManager) :=
  mk_ParContextManager (context_map m) (thread_count m) (max_threads m) n (mutex m).
Definition set_mutex (b : bool) (m : ParContextManager) :=
  mk_ParContextManager (context_map m) (thread_count m) (max_threads m) (next_cid m) b.

(** [set_max_threads], from what [hardware_concurrency] returned: the limit,
    and the two lines that are printed. *)
Definition set_max_threads (dth : Z) : int64 * list string :=
  let max := if (dth <? 2)%Z then 2%Z else if (4 <? dth)%Z then 4%Z else dth in
  (max, ["Detected " +:+ pretty (wrap 32 dth) +:+ " compute elements.";
         "Setting max execution threads: " +:+ pretty (wrap 32 max)]).

Definition new_ParContextManager (hardware_concurrency : Z) : ParContextManager :=
  mk_ParContextManager ∅ 0%Z (set_max_threads hardware_concurrency).1 0%Z false.

Abbreviation PM := (SE ParContextManager crash).

(** [mutex.lock()]; a mutex left held blocks the caller for ever. *)
Definition lock : PM unit :=
  held <- gets mutex ;; if held then fail Blocked else modify (set_mutex true).
Definition unlock : PM unit := modify (set_mutex false).

(** [std::lock_guard]: released on the way out, also by an exception. *)
Definition lock_guard {A} (body : PM A) : PM A := fun s =>
  match lock s with
  | (Err e, s1) => (Err e, s1)
  | (Ok _, s1) => let '(r, s2) := body s1 in (r, set_mutex false s2)
  end.

(** Signed 64-bit arithmetic. *)
Definition checked (z : Z) : PM int64 :=
  if bool_decide (- two63 <= z < two63)%Z then mret z else fail SignedOverflow.

Definition increment_threads : PM unit :=
  n <- gets thread_count ;; n' <- checked (n + 1)%Z ;; modify (set_thread_count n').
Definition decrement_threads : PM unit :=
  n <- gets thread_count ;; n' <- checked (n - 1)%Z ;; modify (set_thread_count n').

(** [context_map.at(cid).f()]. *)
Definition at_context {A} (cid : int64) (f : SE StatementContext crash A) : PM A := fun m =>
  match context_map m !! cid with
  | None => (Err OutOfRange, m)
  | Some sc => let '(r, sc') := f sc in (r, set_context_map (<[cid := sc']> (context_map m)) m)
  end.

Definition make_context : PM int64 := lock_guard (
  cid <- gets next_cid ;;
  n <- checked (cid + 1)%Z ;;
  modify (set_next_cid n) ;;
  modify (fun m =>
    match context_map m !! cid with
    | None => set_context_map (<[cid := move_StatementContext new_StatementContext]> (context_map m)) m
    | Some _ => m
    end) ;;
  mret cid).

(** The futures that are still filed go with the context.  The destructor of
    one that has a thread waits until its statement has ended; statements end,
    so the wait is no step of its own. *)
Definition destroy_context (cid : int64) : PM unit := lock_guard (
  c <- gets context_map ;;
  assert (bool_decide (is_Some (c !! cid))) "Couldnt find exactly one context to destroy" ;;
  modify (set_context_map (delete cid c))).

(** [sched_int] and its four copies.  When filing throws, the future goes, and
    with it the statement, for whose thread its destructor waits. *)
Definition sched {Env A} `{FutureMap A} (statement : Env -> A) (env : Env) (id cid : int64) :
    PM unit := lock_guard (
  n <- gets thread_count ;;
  mx <- gets max_threads ;;
  promise <- (if (mx <=? n)%Z then mret (std_async LaunchDeferred statement env)
             else increment_threads ;; mret (std_async LaunchAsync statement env)) ;;
  at_context cid (addFuture promise id)).

(** The first critical section of [recon_int]: an exception of [at] leaves
    the mutex held. *)
Definition recon_take {A} `{FutureMap A} (id cid : int64) : PM (future A) :=
  lock ;; fv <- at_context cid (getFuture id) ;; unlock ;; mret fv.

(** The last critical section. *)
Definition recon_release : PM unit := lock ;; decrement_threads ;; unlock.

(** [recon_int] and its four copies: [wait_for] a zero span answers whether
    the future is deferred; [get] runs a deferred statement and waits for the
    thread of the other.  [original], [known] and [max] are not read. *)
Definition recon {A} `{FutureMap A} (id cid : int64) : PM A :=
  fv <- recon_take id cid ;;
  match policy fv with
  | LaunchDeferred => mret (value fv)
  | LaunchAsync => let v := value fv in recon_release ;; mret v
  end.

Section functions.
Context {Env : Type}.
Definition sched_int : (Env -> int64) -> Env -> int64 -> int64 -> PM unit := sched.
Definition sched_float : (Env -> double) -> Env -> int64 -> int64 -> PM unit := sched.
Definition sched_intptr : (Env -> intptr) -> Env -> int64 -> int64 -> PM unit := sched.
Definition sched_floatptr : (Env -> floatptr) -> Env -> int64 -> int64 -> PM unit := sched.
Definition sched_void : (Env -> unit) -> Env -> int64 -> int64 -> PM unit := sched.
End functions.

Definition recon_int (original known id max cid : int64) : PM int64 := recon id cid.
Definition recon_float (original : double) (known id max cid : int64) : PM double := recon id cid.
Definition recon_intptr (original : intptr) (known id max cid : int64) : PM intptr := recon id cid.
Definition recon_floatptr (original : floatptr) (known id max cid : int64) : PM floatptr :=
  recon id cid.
Definition recon_void (id max cid : int64) : PM unit := recon id cid.
