(* ===== verification/RuntimeFacts.v ===== *)
(** What each operation of [Runtime] does, on every branch: the equations
    that the theorems about sequences and interleavings of operations use. *)

From S2P Require Import Prelude Runtime.

Local Open Scope Z_scope.

(** * The futures of a context *)

Section future_map.
Context {A : Type} `{FutureMap A}.

Lemma futures_lookup sc id :
  futures sc fm_kind !! id = forget fm_dyn <$> (fm_get sc !! id).
Proof. rewrite fm_futures. apply lookup_fmap. Qed.

Lemma futures_insert sc id f :
  futures (fm_set (<[id := f]> (fm_get sc)) sc) fm_kind =
  <[id := forget fm_dyn f]> (futures sc fm_kind).
Proof. rewrite !fm_futures, fm_get_set, fmap_insert. reflexivity. Qed.

Lemma futures_delete sc id :
  futures (fm_set (delete id (fm_get sc)) sc) fm_kind = delete id (futures sc fm_kind).
Proof. rewrite !fm_futures, fm_get_set, fmap_delete. reflexivity. Qed.

Lemma addFuture_eq (f : future A) id sc :
  addFuture f id sc =
  match fm_get sc !! id with
  | None => (Ok tt, fm_set (<[id := f]> (fm_get sc)) sc)
  | Some _ => (Err (Assertion "Statement id already exists"), sc)
  end.
Proof.
  unfold addFuture, bind, gets, assert. destruct (fm_get sc !! id) as [g|]; reflexivity.
Qed.

Lemma getFuture_eq id sc :
  getFuture id sc =
  match fm_get sc !! id with
  | None => (Err OutOfRange, sc)
  | Some f => (Ok f, fm_set (delete id (fm_get sc)) sc)
  end.
Proof. unfold getFuture, bind, gets. destruct (fm_get sc !! id); reflexivity. Qed.
End future_map.

(** * The operations of the manager *)

Lemma lock_guard_free {A} (body : PM A) m :
  mutex m = false ->
  lock_guard body m = let '(r, m') := body (set_mutex true m) in (r, set_mutex false m').
Proof. intros Hm. unfold lock_guard, lock, bind, gets, modify. by rewrite Hm. Qed.

Lemma lock_guard_held {A} (body : PM A) m :
  mutex m = true -> lock_guard body m = (Err Blocked, m).
Proof. intros Hm. unfold lock_guard, lock, bind, gets, fail. by rewrite Hm. Qed.

Lemma checked_eq z m :
  checked z m = (if bool_decide (- two63 <= z < two63) then Ok z else Err SignedOverflow, m).
Proof. unfold checked. case_bool_decide; reflexivity. Qed.

(** The policy and the thread count [sched] settles on. *)
Definition sched_policy (m : ParContextManager) : launch :=
  if max_threads m <=? thread_count m then LaunchDeferred else LaunchAsync.
Definition sched_count (m : ParContextManager) : Z :=
  if max_threads m <=? thread_count m then thread_count m else thread_count m + 1.

Definition add_to {A} `{FutureMap A} (f : future A) (id cid : Z) (sc : StatementContext)
    (m : ParContextManager) : ParContextManager :=
  set_context_map (<[cid := fm_set (<[id := f]> (fm_get sc)) sc]> (context_map m)) m.

Definition remove_from {A} `{FutureMap A} (id cid : Z) (sc : StatementContext)
    (m : ParContextManager) : ParContextManager :=
  set_context_map (<[cid := fm_set (delete id (fm_get sc)) sc]> (context_map m)) m.

Lemma set_mutex_same m : mutex m = false -> set_mutex false m = m.
Proof. destruct m. simpl. by intros ->. Qed.

Section operations.
Context {A : Type} `{FutureMap A} {Env : Type}.

(** [sched], on every branch: the thread count is raised before the context
    is looked up, and stays raised when that fails. *)
Lemma sched_eq (statement : Env -> A) env id cid m :
  mutex m = false -> in_int64 (sched_count m) ->
  sched statement env id cid m =
  let m1 := set_thread_count (sched_count m) m in
  match context_map m !! cid with
  | None => (Err OutOfRange, m1)
  | Some sc =>
      match fm_get sc !! id with
      | Some _ =>
          (Err (Assertion "Statement id already exists"),
           set_context_map (<[cid := sc]> (context_map m)) m1)
      | None => (Ok tt, add_to (std_async (sched_policy m) statement env) id cid sc m1)
      end
  end.
Proof.
  intros Hm Hr. unfold sched. rewrite lock_guard_free by done.
  destruct m as [c n mx nx mu]; simpl in *; subst.
  unfold sched_count, sched_policy, add_to, increment_threads in *. simpl in *.
  unfold bind, gets, modify, mret, SE_ret. simpl.
  destruct (mx <=? n) eqn:E; simpl.
  - unfold at_context, set_context_map, set_thread_count. simpl.
    destruct (c !! cid) as [sc|]; [| reflexivity].
    rewrite addFuture_eq. destruct (fm_get sc !! id); reflexivity.
  - rewrite checked_eq, bool_decide_eq_true_2 by exact Hr. simpl.
    unfold at_context, set_context_map, set_thread_count. simpl.
    destruct (c !! cid) as [sc|]; [| reflexivity].
    rewrite addFuture_eq. destruct (fm_get sc !! id); reflexivity.
Qed.

(** At the limit. *)
Lemma sched_full (statement : Env -> A) env id cid m :
  mutex m = false -> in_int64 (thread_count m) -> max_threads m <= thread_count m ->
  sched statement env id cid m =
  match context_map m !! cid with
  | None => (Err OutOfRange, m)
  | Some sc =>
      match fm_get sc !! id with
      | Some _ => (Err (Assertion "Statement id already exists"), set_context_map (<[cid := sc]> (context_map m)) m)
      | None => (Ok tt, add_to (std_async LaunchDeferred statement env) id cid sc m)
      end
  end.
Proof.
  intros Hm Hr Hfull. apply Z.leb_le in Hfull.
  assert (sched_count m = thread_count m) as Hc by (unfold sched_count; by rewrite Hfull).
  rewrite sched_eq by (done || by rewrite Hc). unfold sched_policy. rewrite Hfull, Hc.
  destruct m. reflexivity.
Qed.

Lemma sched_held (statement : Env -> A) env id cid m :
  mutex m = true -> sched statement env id cid m = (Err Blocked, m).
Proof. apply lock_guard_held. Qed.

(** [recon_take], on every branch: a failure leaves the mutex held. *)
Lemma recon_take_eq id cid m :
  mutex m = false ->
  recon_take (A := A) id cid m =
  match context_map m !! cid with
  | None => (Err OutOfRange, set_mutex true m)
  | Some sc =>
      match fm_get sc !! id with
      | None => (Err OutOfRange,
                 set_context_map (<[cid := sc]> (context_map m)) (set_mutex true m))
      | Some f => (Ok f, remove_from (A := A) id cid sc m)
      end
  end.
Proof.
  destruct m as [c n mx nx mu]; simpl. intros ->.
  unfold recon_take, lock, unlock, remove_from, bind, gets, modify, at_context, mret, SE_ret.
  simpl. destruct (c !! cid) as [sc|]; [| reflexivity].
  rewrite getFuture_eq. destruct (fm_get sc !! id) as [f|]; reflexivity.
Qed.
End operations.

Lemma recon_release_eq m :
  mutex m = false -> in_int64 (thread_count m - 1) ->
  recon_release m = (Ok tt, set_thread_count (thread_count m - 1) m).
Proof.
  destruct m as [c n mx nx mu]; simpl. intros -> Hr.
  unfold recon_release, lock, unlock, decrement_threads, bind, gets, modify. simpl.
  rewrite checked_eq, bool_decide_eq_true_2 by exact Hr. reflexivity.
Qed.

Lemma make_context_eq m :
  mutex m = false -> in_int64 (next_cid m + 1) -> context_map m !! next_cid m = None ->
  make_context m =
  (Ok (next_cid m),
   set_next_cid (next_cid m + 1)
     (set_context_map (<[next_cid m := new_StatementContext]> (context_map m)) m)).
Proof.
  destruct m as [c n mx nx mu]; simpl. intros -> Hr Hf.
  unfold make_context. rewrite lock_guard_free by done.
  unfold bind, gets, modify, mret, SE_ret. simpl.
  rewrite checked_eq, bool_decide_eq_true_2 by exact Hr. simpl. by rewrite Hf.
Qed.

(** [make_context] succeeds only below the last [int64_t]. *)
Lemma make_context_inv m cid m' :
  make_context m = (Ok cid, m') ->
  mutex m = false /\ in_int64 (next_cid m + 1).
Proof.
  intros H. destruct (mutex m) eqn:Hm.
  { unfold make_context in H. rewrite lock_guard_held in H by done. discriminate. }
  split; [done |]. unfold make_context in H. rewrite lock_guard_free in H by done.
  unfold bind, gets, modify, mret, SE_ret in H. destruct m; simpl in *.
  rewrite checked_eq in H. case_bool_decide; [done | discriminate].
Qed.

Lemma destroy_context_eq cid m :
  mutex m = false ->
  destroy_context cid m =
  match context_map m !! cid with
  | Some _ => (Ok tt, set_context_map (delete cid (context_map m)) m)
  | None => (Err (Assertion "Couldnt find exactly one context to destroy"), m)
  end.
Proof.
  destruct m as [c n mx nx mu]; simpl. intros ->.
  unfold destroy_context. rewrite lock_guard_free by done.
  unfold bind, gets, modify, assert, mret, SE_ret. simpl.
  destruct (c !! cid); reflexivity.
Qed.

(** Every operation finds a held mutex blocked. *)
Lemma ops_held m :
  mutex m = true ->
  make_context m = (Err Blocked, m) /\
  (forall cid, destroy_context cid m = (Err Blocked, m)) /\
  (forall A `{FutureMap A} id cid, recon_take (A := A) id cid m = (Err Blocked, m)).
Proof.
  intros Hm. split_and!.
  - by apply lock_guard_held.
  - intros cid. by apply lock_guard_held.
  - intros A ? id cid. unfold recon_take, lock, bind, gets. by rewrite Hm.
Qed.

(** * What a manager has to deliver *)

(** The value statement [id] of kind [k] will give back to [recon]. *)
Definition pending (m : ParContextManager) (cid : Z) (k : kind) (id : Z) : option dyn :=
  sc ← context_map m !! cid; f ← futures sc k !! id; Some f.1.2.

Lemma pending_None m cid k id : context_map m !! cid = None -> pending m cid k id = None.
Proof. unfold pending. by intros ->. Qed.

Lemma pending_add {A} `{FutureMap A} (f : future A) id cid sc m cid' k' id' :
  context_map m !! cid = Some sc ->
  pending (add_to f id cid sc m) cid' k' id' =
  if bool_decide (cid' = cid /\ k' = fm_kind (A := A) /\ id' = id)
  then Some (fm_dyn (value f)) else pending m cid' k' id'.
Proof.
  intros Hsc. unfold pending, add_to. simpl.
  destruct (decide (cid' = cid)) as [->|Hc].
  2: { rewrite lookup_insert_ne by done. rewrite bool_decide_eq_false_2 by tauto. done. }
  rewrite lookup_insert_eq, Hsc. simpl.
  destruct (decide (k' = fm_kind (A := A))) as [->|Hk].
  2: { rewrite fm_other by done. rewrite bool_decide_eq_false_2 by tauto. done. }
  rewrite futures_insert. destruct (decide (id' = id)) as [->|Hi].
  - rewrite lookup_insert_eq, bool_decide_eq_true_2 by done. done.
  - rewrite lookup_insert_ne by done. rewrite bool_decide_eq_false_2 by tauto. done.
Qed.

Lemma pending_remove {A} `{FutureMap A} id cid sc m cid' k' id' :
  context_map m !! cid = Some sc ->
  pending (remove_from (A := A) id cid sc m) cid' k' id' =
  if bool_decide (cid' = cid /\ k' = fm_kind (A := A) /\ id' = id)
  then None else pending m cid' k' id'.
Proof.
  intros Hsc. unfold pending, remove_from. simpl.
  destruct (decide (cid' = cid)) as [->|Hc].
  2: { rewrite lookup_insert_ne by done. rewrite bool_decide_eq_false_2 by tauto. done. }
  rewrite lookup_insert_eq, Hsc. simpl.
  destruct (decide (k' = fm_kind (A := A))) as [->|Hk].
  2: { rewrite fm_other by done. rewrite bool_decide_eq_false_2 by tauto. done. }
  rewrite futures_delete. destruct (decide (id' = id)) as [->|Hi].
  - rewrite lookup_delete_eq, bool_decide_eq_true_2 by done. done.
  - rewrite lookup_delete_ne by done. rewrite bool_decide_eq_false_2 by tauto. done.
Qed.

Lemma pending_present {A} `{FutureMap A} m cid sc id :
  context_map m !! cid = Some sc ->
  pending m cid (fm_kind (A := A)) id = (fun f => fm_dyn (value f)) <$> (fm_get sc !! id).
Proof.
  intros Hsc. unfold pending. rewrite Hsc. simpl. rewrite futures_lookup.
  by destruct (fm_get sc !! id).
Qed.
