(* ===== verification/RuntimeConc.v ===== *)
(** Threads using one [ParContextManager] at once.

    [cstep] interleaves the critical sections of [Runtime]: [make_context],
    [destroy_context] and [sched] are one section each; [recon] is three
    pieces (take the future, get its value, give the thread slot back), and
    another thread may run between any two of them.  A statement launched on
    its own thread completes at any moment.  A configuration in which an
    operation fails has no successor: the exception leaves the [extern "C"]
    function that made the call and the program stops.

    [spec_step] is what a client may assume: a finite map from (context,
    kind, statement id) to the value that statement will deliver. *)

From S2P Require Import Prelude Runtime RuntimeFacts.

Local Open Scope Z_scope.

(** * Configurations *)

(** Where a thread is inside [recon]. *)
Inductive call : Type :=
  | Taken (p : launch) (v : dyn) (ready : bool) (* it owns the future *)
  | Releasing (v : dyn)                         (* [get] returned, async *)
  | Returning (v : dyn).                        (* about to return *)

(** [leaked] counts the async futures of the contexts that were destroyed: it
    is bookkeeping of this model, no operation reads it. *)
Record conf : Type := mk_conf {
  manager : ParContextManager;
  calls : gmap nat call;
  leaked : Z
}.

Definition set_manager (m : ParContextManager) (c : conf) : conf :=
  mk_conf m (calls c) (leaked c).
Definition set_call (t : nat) (k : call) (c : conf) : conf :=
  mk_conf (manager c) (<[t := k]> (calls c)) (leaked c).

(** ** Counting threads *)

Definition is_async (e : launch * dyn * bool) : bool := bool_decide (e.1.1 = LaunchAsync).

Definition count_async (m : gmap Z (launch * dyn * bool)) : Z :=
  map_sum (fun e => Z.b2z (is_async e)) m.

Definition async_in (sc : StatementContext) : Z :=
  count_async (futures sc KInt) + count_async (futures sc KFloat) +
  count_async (futures sc KIntptr) + count_async (futures sc KFloatptr) +
  count_async (futures sc KVoid).

Definition total_async (cm : gmap Z StatementContext) : Z :=
  map_sum async_in cm.

Definition holds_slot (k : call) : Z :=
  match k with
  | Taken LaunchAsync _ _ | Releasing _ => 1
  | _ => 0
  end.

Definition slots_in_calls (cs : gmap nat call) : Z :=
  map_sum holds_slot cs.

(** * Steps *)

Inductive event : Type :=
  | EMake (cid : Z)
  | EDestroy (cid : Z)
  | ESched (cid : Z) (k : kind) (id : Z) (v : dyn)
  | ETake (t : nat) (cid : Z) (k : kind) (id : Z)
  | EReturn (t : nat) (v : dyn)
  | ETau.

(** A thread finishes statement [id] of the type [A]. *)
Definition complete {A} `{FutureMap A} (id cid : Z) (m : ParContextManager) :
    option ParContextManager :=
  sc ← context_map m !! cid;
  f ← fm_get sc !! id;
  match policy f with
  | LaunchDeferred => None
  | LaunchAsync => Some (add_to (mk_future LaunchAsync (value f) true) id cid sc m)
  end.

Inductive cstep (c : conf) : event -> conf -> Prop :=
  | st_make cid m' :
      make_context (manager c) = (Ok cid, m') ->
      cstep c (EMake cid) (set_manager m' c)
  | st_destroy cid sc m' :
      context_map (manager c) !! cid = Some sc ->
      destroy_context cid (manager c) = (Ok tt, m') ->
      cstep c (EDestroy cid) (mk_conf m' (calls c) (leaked c + async_in sc))
  | st_sched {A} `{FutureMap A} {Env} (statement : Env -> A) env id cid m' :
      sched statement env id cid (manager c) = (Ok tt, m') ->
      cstep c (ESched cid (fm_kind (A := A)) id (fm_dyn (statement env))) (set_manager m' c)
  | st_complete {A} `{FutureMap A} id cid m' :
      complete (A := A) id cid (manager c) = Some m' ->
      cstep c ETau (set_manager m' c)
  | st_complete_taken t v :
      calls c !! t = Some (Taken LaunchAsync v false) ->
      cstep c ETau (set_call t (Taken LaunchAsync v true) c)
  | st_take {A} `{FutureMap A} t id cid (f : future A) m' :
      calls c !! t = None ->
      recon_take id cid (manager c) = (Ok f, m') ->
      cstep c (ETake t cid (fm_kind (A := A)) id)
        (set_call t (Taken (policy f) (fm_dyn (value f)) (ready f)) (set_manager m' c))
  | st_run t v r :
      calls c !! t = Some (Taken LaunchDeferred v r) ->
      cstep c ETau (set_call t (Returning v) c)
  | st_wait t v :
      calls c !! t = Some (Taken LaunchAsync v true) ->
      cstep c ETau (set_call t (Releasing v) c)
  | st_release t v m' :
      calls c !! t = Some (Releasing v) ->
      recon_release (manager c) = (Ok tt, m') ->
      cstep c ETau (set_call t (Returning v) (set_manager m' c))
  | st_return t v :
      calls c !! t = Some (Returning v) ->
      cstep c (EReturn t v) (mk_conf (manager c) (delete t (calls c)) (leaked c)).

Inductive crun : conf -> list event -> conf -> Prop :=
  | crun_nil c : crun c [] c
  | crun_snoc c es c1 e c2 : crun c es c1 -> cstep c1 e c2 -> crun c (es ++ [e]) c2.

Definition initial (hardware_concurrency : Z) : conf :=
  mk_conf (new_ParContextManager hardware_concurrency) ∅ 0.

Definition reachable (hw : Z) (c : conf) : Prop := exists es, crun (initial hw) es c.

(** * The specification *)

Record spec : Type := mk_spec {
  live : gset Z;
  due : gmap (Z * Z * Z) dyn;
  owed : gmap nat dyn
}.

Definition kind_code (k : kind) : Z :=
  match k with KInt => 0 | KFloat => 1 | KIntptr => 2 | KFloatptr => 3 | KVoid => 4 end.

Inductive spec_step (a : spec) : event -> spec -> Prop :=
  | sp_make cid : cid ∉ live a ->
      spec_step a (EMake cid) (mk_spec ({[cid]} ∪ live a) (due a) (owed a))
  | sp_destroy cid : cid ∈ live a ->
      spec_step a (EDestroy cid)
        (mk_spec (live a ∖ {[cid]}) (filter (fun p => p.1.1.1 <> cid) (due a)) (owed a))
  | sp_sched cid k id v : cid ∈ live a -> due a !! (cid, kind_code k, id) = None ->
      spec_step a (ESched cid k id v)
        (mk_spec (live a) (<[(cid, kind_code k, id) := v]> (due a)) (owed a))
  | sp_take t cid k id v : owed a !! t = None -> due a !! (cid, kind_code k, id) = Some v ->
      spec_step a (ETake t cid k id)
        (mk_spec (live a) (delete (cid, kind_code k, id) (due a)) (<[t := v]> (owed a)))
  | sp_return t v : owed a !! t = Some v ->
      spec_step a (EReturn t v) (mk_spec (live a) (due a) (delete t (owed a)))
  | sp_tau : spec_step a ETau a.

Inductive spec_run : spec -> list event -> spec -> Prop :=
  | spec_nil a : spec_run a [] a
  | spec_snoc a es a1 e a2 : spec_run a es a1 -> spec_step a1 e a2 -> spec_run a (es ++ [e]) a2.

Definition initial_spec : spec := mk_spec ∅ ∅ ∅.

(** The value a thread inside [recon] will return. *)
Definition call_value (k : call) : dyn :=
  match k with Taken _ v _ | Releasing v | Returning v => v end.

Record refines (c : conf) (a : spec) : Prop := mk_refines {
  ref_live : live a = dom (context_map (manager c));
  ref_due : forall cid k id, due a !! (cid, kind_code k, id) = pending (manager c) cid k id;
  ref_owed : owed a = call_value <$> calls c
}.

(** * Accounting of threads *)

Lemma count_async_nonneg m : 0 <= count_async m.
Proof. apply map_sum_nonneg. intros x. destruct (is_async x); simpl; lia. Qed.

Lemma async_in_nonneg sc : 0 <= async_in sc.
Proof.
  unfold async_in.
  pose proof (count_async_nonneg (futures sc KInt)).
  pose proof (count_async_nonneg (futures sc KFloat)).
  pose proof (count_async_nonneg (futures sc KIntptr)).
  pose proof (count_async_nonneg (futures sc KFloatptr)).
  pose proof (count_async_nonneg (futures sc KVoid)). lia.
Qed.

Lemma holds_slot_nonneg k : 0 <= holds_slot k.
Proof. destruct k as [[] ? ?| |]; simpl; lia. Qed.

#[export] Hint Resolve async_in_nonneg holds_slot_nonneg : fork.

Definition slot {A} (f : future A) : Z := if decide (policy f = LaunchAsync) then 1 else 0.

Lemma slot_nonneg {A} (f : future A) : 0 <= slot f.
Proof. unfold slot. case_decide; lia. Qed.

Lemma slot_policy {A} (f : future A) :
  slot f = match policy f with LaunchAsync => 1 | LaunchDeferred => 0 end.
Proof. unfold slot. by destruct (policy f). Qed.

#[export] Hint Resolve slot_nonneg : fork.

Section async_in.
Context {A : Type} `{FutureMap A}.

(** Only the count of the kind that changes moves. *)
Lemma async_in_change m sc :
  async_in (fm_set m sc) =
  async_in sc - count_async (futures sc (fm_kind (A := A)))
              + count_async (futures (fm_set m sc) (fm_kind (A := A))).
Proof.
  unfold async_in.
  assert (forall k, k <> fm_kind (A := A) ->
    count_async (futures (fm_set m sc) k) = count_async (futures sc k)) as Hne
    by (intros k Hk; by rewrite fm_other).
  destruct (fm_kind (A := A));
    try rewrite (Hne KInt) by discriminate; try rewrite (Hne KFloat) by discriminate;
    try rewrite (Hne KIntptr) by discriminate; try rewrite (Hne KFloatptr) by discriminate;
    try rewrite (Hne KVoid) by discriminate; lia.
Qed.

Lemma is_async_forget (f : future A) : Z.b2z (is_async (forget fm_dyn f)) = slot f.
Proof.
  unfold is_async, slot, forget. simpl. case_decide; case_bool_decide; done.
Qed.

Lemma async_in_insert sc id (f : future A) :
  async_in (fm_set (<[id := f]> (fm_get sc)) sc) =
  async_in sc + slot f - from_option slot 0 (fm_get sc !! id).
Proof.
  rewrite async_in_change, futures_insert. unfold count_async.
  rewrite map_sum_insert, is_async_forget, futures_lookup.
  destruct (fm_get sc !! id) as [g|]; simpl; rewrite ?is_async_forget; lia.
Qed.

Lemma async_in_delete sc id (f : future A) :
  fm_get sc !! id = Some f ->
  async_in (fm_set (delete id (fm_get sc)) sc) = async_in sc - slot f.
Proof.
  intros Hf. rewrite async_in_change, futures_delete. unfold count_async.
  rewrite (map_sum_delete _ _ _ (forget fm_dyn f)) by (by rewrite futures_lookup, Hf).
  rewrite is_async_forget. lia.
Qed.
End async_in.

(** The books of a reachable configuration. *)
Record books (c : conf) : Prop := mk_books {
  bk_mutex : mutex (manager c) = false;
  bk_max : 2 <= max_threads (manager c) <= 4;
  bk_leaked : 0 <= leaked c;
  bk_count : thread_count (manager c) =
    total_async (context_map (manager c)) + slots_in_calls (calls c) + leaked c;
  bk_le : thread_count (manager c) <= max_threads (manager c);
  bk_fresh : forall cid, is_Some (context_map (manager c) !! cid) -> cid < next_cid (manager c)
}.

Lemma total_async_nonneg cm : 0 <= total_async cm.
Proof. apply map_sum_nonneg. auto with fork. Qed.
Lemma slots_in_calls_nonneg cs : 0 <= slots_in_calls cs.
Proof. apply map_sum_nonneg. auto with fork. Qed.

Lemma books_count_range c : books c -> 0 <= thread_count (manager c) <= 4.
Proof.
  intros [_ Hmx Hl Hc Hle _].
  pose proof (total_async_nonneg (context_map (manager c))).
  pose proof (slots_in_calls_nonneg (calls c)). lia.
Qed.

Lemma books_sched_range c : books c -> in_int64 (sched_count (manager c)).
Proof.
  intros H. pose proof (books_count_range c H). unfold in_int64, two63, sched_count.
  destruct (_ <=? _); lia.
Qed.

#[export] Hint Resolve books_count_range books_sched_range : fork.

Lemma total_async_context cm cid sc sc' :
  cm !! cid = Some sc ->
  total_async (<[cid := sc']> cm) = total_async cm + async_in sc' - async_in sc.
Proof. intros Hsc. unfold total_async. rewrite map_sum_insert, Hsc. simpl. lia. Qed.

(** * Inversion of the successful operations *)

Section inversion.
Context (c : conf) (B : books c).
Let m := manager c.

Lemma sched_ok {A} `{FutureMap A} {Env} (statement : Env -> A) env id cid m' :
  sched statement env id cid m = (Ok tt, m') ->
  exists sc, context_map m !! cid = Some sc /\ fm_get sc !! id = None /\
    m' = add_to (std_async (sched_policy m) statement env) id cid sc
           (set_thread_count (sched_count m) m).
Proof.
  rewrite sched_eq by eauto using bk_mutex with fork. simpl.
  destruct (context_map m !! cid) as [sc|] eqn:Hsc; [| discriminate].
  destruct (fm_get sc !! id) eqn:Hid; [discriminate |]. intros [= <-]. eauto.
Qed.

Lemma recon_take_ok {A} `{FutureMap A} id cid (f : future A) m' :
  recon_take id cid m = (Ok f, m') ->
  exists sc, context_map m !! cid = Some sc /\ fm_get sc !! id = Some f /\
    m' = remove_from (A := A) id cid sc m.
Proof.
  rewrite recon_take_eq by apply B.
  destruct (context_map m !! cid) as [sc|] eqn:Hsc; [| discriminate].
  destruct (fm_get sc !! id) eqn:Hid; [| discriminate]. intros [= -> <-]. eauto.
Qed.

Lemma complete_ok {A} `{FutureMap A} id cid m' :
  complete (A := A) id cid m = Some m' ->
  exists sc (f : future A), context_map m !! cid = Some sc /\ fm_get sc !! id = Some f /\
    policy f = LaunchAsync /\
    m' = add_to (mk_future LaunchAsync (value f) true) id cid sc m.
Proof.
  unfold complete. destruct (context_map m !! cid) as [sc|] eqn:Hsc; [| discriminate]. simpl.
  destruct (fm_get sc !! id) as [f|] eqn:Hid; [| discriminate]. simpl.
  destruct (policy f) eqn:Hp; [discriminate |]. intros [= <-]. eauto 10.
Qed.

Lemma make_ok cid m' :
  make_context m = (Ok cid, m') ->
  cid = next_cid m /\ context_map m !! cid = None /\
  m' = set_next_cid (next_cid m + 1)
         (set_context_map (<[next_cid m := new_StatementContext]> (context_map m)) m).
Proof.
  intros Hmk. destruct (make_context_inv _ _ _ Hmk) as [Hmu Hr].
  assert (context_map m !! next_cid m = None) as Hf.
  { destruct (context_map m !! next_cid m) eqn:E; [| done].
    pose proof (bk_fresh c B (next_cid m) ltac:(by eexists)) as Hlt. subst m. lia. }
  rewrite make_context_eq in Hmk by done. simplify_eq. done.
Qed.

Lemma destroy_ok cid sc m' :
  context_map m !! cid = Some sc -> destroy_context cid m = (Ok tt, m') ->
  m' = set_context_map (delete cid (context_map m)) m.
Proof.
  intros Hsc. rewrite destroy_context_eq by apply B. rewrite Hsc. by intros [= <-].
Qed.

Lemma release_eq t v :
  calls c !! t = Some (Releasing v) ->
  recon_release m = (Ok tt, set_thread_count (thread_count m - 1) m).
Proof.
  intros Ht. apply recon_release_eq; [apply B |].
  pose proof (books_count_range c B). unfold in_int64, two63, m in *. lia.
Qed.
End inversion.

Lemma new_context_no_async : async_in new_StatementContext = 0.
Proof. reflexivity. Qed.

Lemma slot_sched m {Env A} (statement : Env -> A) env :
  slot (std_async (sched_policy m) statement env) = sched_count m - thread_count m.
Proof.
  unfold slot, sched_policy, sched_count, std_async. simpl.
  destruct (max_threads m <=? thread_count m); simpl; lia.
Qed.

(** Rewrite the slot count of the calls after [calls] changed at one thread. *)
Ltac count_calls Ht :=
  unfold slots_in_calls; rewrite ?map_sum_insert, ?Ht; simpl;
  repeat match goal with
  | H : ?cs !! ?t = Some ?k |- context [map_sum holds_slot (delete ?t ?cs)] =>
      rewrite (map_sum_delete holds_slot cs t k H); simpl
  end.

Lemma books_step c e c' : books c -> cstep c e c' -> books c'.
Proof.
  intros B Hs. pose proof B as [Hmu Hmx Hl Hc Hle Hfr].
  destruct Hs as [cid m' Hop|cid sc m' Hsc Hop|A ? Env st env id cid m' Hop|A ? id cid m' Hop
    |t v Ht|A ? t id cid f m' Ht Hop|t v r Ht|t v Ht|t v m' Ht Hop|t v Ht].
  - apply (make_ok c B) in Hop as (-> & Hn & ->). split; simpl; try done.
    + unfold total_async. rewrite map_sum_insert_new by done.
      rewrite new_context_no_async. unfold total_async in Hc. lia.
    + intros cid Hd. destruct (decide (cid = next_cid (manager c))) as [->|Hne]; [lia |].
      rewrite lookup_insert_ne in Hd by done. specialize (Hfr cid Hd). lia.
  - rewrite (destroy_ok c B cid sc m' Hsc Hop). split; simpl; try done.
    + pose proof (async_in_nonneg sc). lia.
    + unfold total_async in *. rewrite (map_sum_delete _ _ _ sc Hsc). lia.
    + intros cid' [s Hd]. apply lookup_delete_Some in Hd as [_ Hd]. eauto.
  - apply (sched_ok c B) in Hop as (sc & Hsc & Hid & ->). unfold set_manager, add_to.
    split; simpl; try done.
    + rewrite (total_async_context _ _ sc) by done.
      rewrite async_in_insert, Hid, (slot_sched (manager c)). simpl. lia.
    + unfold sched_count. destruct (Z.leb_spec (max_threads (manager c)) (thread_count (manager c))); lia.
    + intros cid' Hd. destruct (decide (cid' = cid)) as [->|Hne]; [eauto |].
      rewrite lookup_insert_ne in Hd by done. eauto.
  - apply (complete_ok c) in Hop as (sc & f & Hsc & Hid & Hp & ->). unfold set_manager, add_to.
    split; simpl; try done.
    + rewrite (total_async_context _ _ sc) by done.
      rewrite async_in_insert, Hid. simpl. unfold slot. simpl. rewrite Hp. simpl. lia.
    + intros cid' Hd. destruct (decide (cid' = cid)) as [->|Hne]; [eauto |].
      rewrite lookup_insert_ne in Hd by done. eauto.
  - split; simpl; try done. count_calls Ht. unfold slots_in_calls in Hc. lia.
  - apply (recon_take_ok c B) in Hop as (sc & Hsc & Hid & ->). unfold set_manager, remove_from.
    split; simpl; try done.
    + rewrite (total_async_context _ _ sc) by done. rewrite (async_in_delete sc id f) by done.
      unfold slot. count_calls Ht. unfold slots_in_calls in Hc. destruct (policy f); simpl; lia.
    + intros cid' Hd. destruct (decide (cid' = cid)) as [->|Hne]; [eauto |].
      rewrite lookup_insert_ne in Hd by done. eauto.
  - split; simpl; try done. count_calls Ht. unfold slots_in_calls in Hc. lia.
  - split; simpl; try done. count_calls Ht. unfold slots_in_calls in Hc. lia.
  - rewrite (release_eq c B t v Ht) in Hop. simplify_eq. split; simpl; try done.
    + count_calls Ht. unfold slots_in_calls in Hc. lia.
    + lia.
  - split; simpl; try done. count_calls Ht. unfold slots_in_calls in Hc. lia.
Qed.

Lemma set_max_threads_range dth : 2 <= (set_max_threads dth).1 <= 4.
Proof. unfold set_max_threads. cbn [fst]. destruct (Z.ltb_spec dth 2), (Z.ltb_spec 4 dth); lia. Qed.

Lemma books_initial hw : books (initial hw).
Proof.
  pose proof (set_max_threads_range hw) as Hm. set (n := (set_max_threads hw).1) in *.
  split; [done | exact Hm | done | done | change (0 <= n); lia |].
  intros cid [? Hc]. simpl in Hc. by rewrite lookup_empty in Hc.
Qed.

Lemma books_reachable hw c : reachable hw c -> books c.
Proof.
  intros [es Hr]. remember (initial hw) as c0. induction Hr; subst;
    eauto using books_initial, books_step.
Qed.

(** * Refinement *)

Lemma kind_code_inj k k' : kind_code k = kind_code k' -> k = k'.
Proof. by destruct k, k'. Qed.

Lemma refines_initial hw : refines (initial hw) initial_spec.
Proof. by split; simpl; rewrite ?dom_empty_L, ?fmap_empty. Qed.

Lemma key_eq (c c' : Z) k k' (i i' : Z) :
  (c, kind_code k, i) = (c', kind_code k', i') <-> c' = c /\ k' = k /\ i' = i.
Proof.
  split; [| by intros (-> & -> & ->)].
  intros [= -> Hk ->]. by apply kind_code_inj in Hk as ->.
Qed.

(** A change of phase does not change what the call returns. *)
Lemma call_value_phase (cs : gmap nat call) t k0 k :
  cs !! t = Some k0 -> call_value k = call_value k0 ->
  call_value <$> <[t := k]> cs = call_value <$> cs.
Proof.
  intros Ht Hv. rewrite fmap_insert, Hv. apply insert_id. by rewrite lookup_fmap, Ht.
Qed.

(** An internal step that keeps the contexts and the values is no step of the
    specification. *)
Lemma refines_tau c c' a :
  refines c a ->
  dom (context_map (manager c')) = dom (context_map (manager c)) ->
  (forall cid k id, pending (manager c') cid k id = pending (manager c) cid k id) ->
  call_value <$> calls c' = call_value <$> calls c ->
  exists a', spec_step a ETau a' /\ refines c' a'.
Proof.
  intros [Hl Hd Ho] Hdom Hp Hc. exists a. split; [constructor |].
  split; [by rewrite Hdom | intros; by rewrite Hp | by rewrite Hc].
Qed.

Lemma due_add c a {A} `{FutureMap A} (f : future A) id cid sc m cid' k' id' :
  refines c a -> context_map m !! cid = Some sc ->
  (forall cid k id, pending m cid k id = pending (manager c) cid k id) ->
  <[(cid, kind_code (fm_kind (A := A)), id) := fm_dyn (value f)]> (due a) !! (cid', kind_code k', id')
  = pending (add_to f id cid sc m) cid' k' id'.
Proof.
  intros R Hsc Hm. rewrite pending_add by done. rewrite lookup_insert.
  case_decide as E; case_bool_decide as E'; rewrite key_eq in E; try tauto.
  rewrite Hm. apply R.
Qed.

Lemma due_remove c a {A} `{FutureMap A} id cid sc cid' k' id' :
  refines c a -> context_map (manager c) !! cid = Some sc ->
  delete (cid, kind_code (fm_kind (A := A)), id) (due a) !! (cid', kind_code k', id')
  = pending (remove_from (A := A) id cid sc (manager c)) cid' k' id'.
Proof.
  intros R Hsc. rewrite pending_remove by done. rewrite lookup_delete.
  case_decide as E; case_bool_decide as E'; rewrite key_eq in E; try tauto. apply R.
Qed.

Lemma refines_make c a m' cid :
  books c -> refines c a -> make_context (manager c) = (Ok cid, m') ->
  exists a', spec_step a (EMake cid) a' /\ refines (set_manager m' c) a'.
Proof.
  intros B [Hl Hd Ho] Hop. apply (make_ok c B) in Hop as (-> & Hn & ->). eexists. split.
  { apply sp_make. rewrite Hl. by apply not_elem_of_dom. }
  split; simpl; [by rewrite dom_insert_L, Hl | | done].
  intros cid k id. rewrite Hd. unfold pending. simpl.
  destruct (decide (cid = next_cid (manager c))) as [->|Hne].
  - rewrite lookup_insert_eq, Hn. simpl. by destruct k.
  - by rewrite lookup_insert_ne.
Qed.

Lemma refines_destroy c a cid sc m' n :
  books c -> refines c a -> context_map (manager c) !! cid = Some sc ->
  destroy_context cid (manager c) = (Ok tt, m') ->
  exists a', spec_step a (EDestroy cid) a' /\ refines (mk_conf m' (calls c) n) a'.
Proof.
  intros B [Hl Hd Ho] Hsc Hop. rewrite (destroy_ok c B cid sc m' Hsc Hop). eexists. split.
  { apply sp_destroy. rewrite Hl. apply elem_of_dom. eauto. }
  split; simpl; [by rewrite dom_delete_L, Hl | | done].
  intros cid' k id. unfold pending. simpl.
  destruct (decide (cid' = cid)) as [->|Hne].
  - rewrite lookup_delete_eq. simpl. apply map_lookup_filter_None_2. right. naive_solver.
  - rewrite lookup_delete_ne by done. specialize (Hd cid' k id). unfold pending in Hd.
    rewrite <- Hd. destruct (due a !! (cid', kind_code k, id)) eqn:E.
    + by apply map_lookup_filter_Some_2.
    + apply map_lookup_filter_None_2. by left.
Qed.

Lemma refines_step c a e c' :
  books c -> refines c a -> cstep c e c' -> exists a', spec_step a e a' /\ refines c' a'.
Proof.
  intros B R Hs. pose proof R as [Hl Hd Ho].
  destruct Hs as [cid m' Hop|cid sc m' Hsc Hop|A ? Env st env id cid m' Hop|A ? id cid m' Hop
    |t v Ht|A ? t id cid f m' Ht Hop|t v r Ht|t v Ht|t v m' Ht Hop|t v Ht].
  - eauto using refines_make.
  - eauto using refines_destroy.
  - apply (sched_ok c B) in Hop as (sc & Hsc & Hid & ->). eexists. split.
    { apply sp_sched; [rewrite Hl; apply elem_of_dom; eauto |].
      rewrite Hd, (pending_present _ _ sc) by done. by rewrite Hid. }
    split; simpl; [by rewrite dom_insert_lookup_L | | done].
    intros cid' k id'. by apply (due_add c a (std_async (sched_policy (manager c)) st env)).
  - apply (complete_ok c) in Hop as (sc & f & Hsc & Hid & Hp & ->).
    apply (refines_tau c); simpl; try done; [by rewrite dom_insert_lookup_L |].
    intros cid' k id'. rewrite pending_add by done. simpl. case_bool_decide as E; [| done].
    destruct E as (-> & -> & ->). by rewrite (pending_present _ _ sc), Hid.
  - apply (refines_tau c); simpl; try done. by eapply call_value_phase.
  - apply (recon_take_ok c B) in Hop as (sc & Hsc & Hid & ->). eexists. split.
    { eapply (sp_take _ _ _ _ _ (fm_dyn (value f))).
      - by rewrite Ho, lookup_fmap, Ht.
      - by rewrite Hd, (pending_present _ _ sc), Hid. }
    split; simpl; [by rewrite dom_insert_lookup_L | | by rewrite fmap_insert, Ho].
    intros cid' k id'. by apply (due_remove c).
  - apply (refines_tau c); simpl; try done. by eapply call_value_phase.
  - apply (refines_tau c); simpl; try done. by eapply call_value_phase.
  - rewrite (release_eq c B t v Ht) in Hop. simplify_eq.
    apply (refines_tau c); simpl; try done. by eapply call_value_phase.
  - eexists. split; [apply sp_return; by rewrite Ho, lookup_fmap, Ht |].
    split; simpl; [done | done |]. by rewrite fmap_delete, Ho.
Qed.

Lemma crun_refines hw es c :
  crun (initial hw) es c -> exists a, spec_run initial_spec es a /\ refines c a /\ books c.
Proof.
  intros Hr. remember (initial hw) as c0. induction Hr as [|c0 es c1 e c2 Hr IH Hs]; subst.
  - exists initial_spec. split_and!; [constructor | apply refines_initial | apply books_initial].
  - destruct (IH eq_refl) as (a & Ha & R & B). destruct (refines_step _ _ _ _ B R Hs) as (a' & Ha' & R').
    exists a'. split_and!; [by econstructor | done | by eapply books_step].
Qed.

(** * Runs *)

Lemma crun_trans c es c1 es' c2 : crun c es c1 -> crun c1 es' c2 -> crun c (es ++ es') c2.
Proof.
  intros H1 H2. revert H1. induction H2 as [c1|c1 es' c2 e c3 H2 IH Hs]; intros H1.
  - by rewrite app_nil_r.
  - rewrite app_assoc. econstructor; eauto.
Qed.

Lemma crun_one c e c' : cstep c e c' -> crun c [e] c'.
Proof. intros H. apply (crun_snoc c [] c e c'); [constructor | done]. Qed.

Lemma crun_cons c e c1 es c2 : cstep c e c1 -> crun c1 es c2 -> crun c (e :: es) c2.
Proof. intros H1 H2. apply (crun_trans c [e] c1); [by apply crun_one | done]. Qed.

Lemma books_run c es c' : books c -> crun c es c' -> books c'.
Proof. intros B Hr. induction Hr; eauto using books_step. Qed.

Lemma leaked_step c e c' : cstep c e c' -> leaked c <= leaked c'.
Proof.
  destruct 1; simpl; try lia.
  match goal with sc : StatementContext |- _ => pose proof (async_in_nonneg sc) end. lia.
Qed.

Lemma leaked_run c es c' : crun c es c' -> leaked c <= leaked c'.
Proof.
  induction 1 as [|c es c1 e c2 Hr IH Hs]; [lia |]. pose proof (leaked_step _ _ _ Hs). lia.
Qed.

Lemma max_threads_step c e c' :
  books c -> cstep c e c' -> max_threads (manager c') = max_threads (manager c).
Proof.
  intros B Hs.
  destruct Hs as [cid m' Hop|cid sc m' Hsc Hop|A ? Env st env id cid m' Hop|A ? id cid m' Hop
    |t v Ht|A ? t id cid f m' Ht Hop|t v r Ht|t v Ht|t v m' Ht Hop|t v Ht]; try reflexivity.
  - by apply (make_ok c B) in Hop as (-> & Hn & ->).
  - by rewrite (destroy_ok c B cid sc m' Hsc Hop).
  - by apply (sched_ok c B) in Hop as (sc & Hsc & Hid & ->).
  - by apply (complete_ok c) in Hop as (sc & f & Hsc & Hid & Hp & ->).
  - by apply (recon_take_ok c B) in Hop as (sc & Hsc & Hid & ->).
  - rewrite (release_eq c B t v Ht) in Hop. by simplify_eq.
Qed.

Lemma max_threads_run c es c' :
  books c -> crun c es c' -> max_threads (manager c') = max_threads (manager c).
Proof.
  intros B Hr. induction Hr as [|c es c1 e c2 Hr IH Hs]; [done |].
  rewrite (max_threads_step c1 e c2); [by apply IH | by eapply books_run | done].
Qed.

(** ** The phases of [recon] as steps of one thread *)

(** [c] after thread [t] has returned, with manager [m]. *)
Definition returned (t : nat) (m : ParContextManager) (c : conf) : conf :=
  mk_conf m (delete t (calls c)) (leaked c).

Lemma phase_cons c t k m0 m es :
  cstep c ETau (set_call t k (set_manager m0 c)) ->
  crun (set_call t k (set_manager m0 c)) es (returned t m (set_call t k (set_manager m0 c))) ->
  crun c (ETau :: es) (returned t m c).
Proof.
  intros Hs Hr. eapply crun_cons; [exact Hs |].
  unfold returned, set_call in *. simpl in *. by rewrite delete_insert_eq in Hr.
Qed.

Section phases.
Context (t : nat) (v : dyn).

Lemma phases_returning c :
  calls c !! t = Some (Returning v) -> crun c [EReturn t v] (returned t (manager c) c).
Proof. intros Ht. by apply crun_one, st_return. Qed.

Lemma phases_releasing c :
  books c -> calls c !! t = Some (Releasing v) ->
  crun c [ETau; EReturn t v]
    (returned t (set_thread_count (thread_count (manager c) - 1) (manager c)) c).
Proof.
  intros B Ht. eapply phase_cons; [apply (st_release c t v); [done | by apply (release_eq c B t v)] |].
  apply phases_returning, lookup_insert_eq.
Qed.

Lemma phases_deferred c r :
  calls c !! t = Some (Taken LaunchDeferred v r) ->
  crun c [ETau; EReturn t v] (returned t (manager c) c).
Proof.
  intros Ht. apply (phase_cons c t (Returning v) (manager c)); [by destruct c; eapply st_run |].
  apply (phases_returning (set_call t (Returning v) (set_manager (manager c) c))).
  apply lookup_insert_eq.
Qed.

Lemma phases_ready c :
  books c -> calls c !! t = Some (Taken LaunchAsync v true) ->
  crun c [ETau; ETau; EReturn t v]
    (returned t (set_thread_count (thread_count (manager c) - 1) (manager c)) c).
Proof.
  intros B Ht. assert (cstep c ETau (set_call t (Releasing v) (set_manager (manager c) c))) as Hs
    by (destruct c; by eapply st_wait).
  eapply phase_cons; [exact Hs |].
  apply (phases_releasing (set_call t (Releasing v) (set_manager (manager c) c)));
    [by eapply books_step | apply lookup_insert_eq].
Qed.

Lemma phases_running c :
  books c -> calls c !! t = Some (Taken LaunchAsync v false) ->
  crun c [ETau; ETau; ETau; EReturn t v]
    (returned t (set_thread_count (thread_count (manager c) - 1) (manager c)) c).
Proof.
  intros B Ht.
  assert (cstep c ETau (set_call t (Taken LaunchAsync v true) (set_manager (manager c) c))) as Hs
    by (destruct c; by eapply st_complete_taken).
  eapply phase_cons; [exact Hs |].
  apply (phases_ready (set_call t (Taken LaunchAsync v true) (set_manager (manager c) c)));
    [by eapply books_step | apply lookup_insert_eq].
Qed.
End phases.

(** From any point of [recon], the thread can finish on its own: the statement
    completes, the slot is given back, and the value the call held is returned. *)
Lemma call_finishes (c : conf) (t : nat) (k : call) :
  books c -> calls c !! t = Some k ->
  exists es, Forall (eq ETau) es /\
    crun c (es ++ [EReturn t (call_value k)])
      (returned t (set_thread_count (thread_count (manager c) - holds_slot k) (manager c)) c).
Proof.
  intros B Ht.
  assert (set_thread_count (thread_count (manager c) - 0) (manager c) = manager c) as E
    by (destruct c as [[] ? ?]; unfold set_thread_count; simpl; by rewrite Z.sub_0_r).
  destruct k as [[] v []|v|v]; simpl; rewrite ?E;
    [exists [ETau] | exists [ETau] | exists [ETau; ETau] | exists [ETau; ETau; ETau]
    |exists [ETau] | exists []];
    (split; [by repeat constructor |]); simpl;
    eauto using phases_returning, phases_releasing, phases_deferred, phases_ready, phases_running.
Qed.

(** The sequential [recon] of [Runtime] is one run of its phases by a thread. *)
Lemma recon_is_run {A} `{FutureMap A} c t id cid (v : A) m' :
  books c -> calls c !! t = None -> recon id cid (manager c) = (Ok v, m') ->
  exists es, Forall (eq ETau) es /\
    crun c (ETake t cid (fm_kind (A := A)) id :: es ++ [EReturn t (fm_dyn v)])
      (mk_conf m' (calls c) (leaked c)).
Proof.
  intros B Ht Hr. unfold recon in Hr. apply bind_ok in Hr as (f & m1 & Htake & Hr).
  pose proof (st_take c t id cid f m1 Ht Htake) as Hs.
  set (c1 := set_call t (Taken (policy f) (fm_dyn (value f)) (ready f)) (set_manager m1 c)) in *.
  assert (books c1) as B1 by by eapply books_step.
  destruct (call_finishes c1 t (Taken (policy f) (fm_dyn (value f)) (ready f))) as (es & Hes & Hrun);
    [done | apply lookup_insert_eq |].
  exists es. split; [done |]. eapply crun_cons; [exact Hs |].
  replace (fm_dyn v) with (fm_dyn (value f)).
  2: { destruct (policy f); run_tac; done. }
  enough (returned t (set_thread_count (thread_count (manager c1) -
    holds_slot (Taken (policy f) (fm_dyn (value f)) (ready f))) (manager c1)) c1
    = mk_conf m' (calls c) (leaked c)) as <- by exact Hrun.
  unfold returned. f_equal; [| simpl; by rewrite delete_insert_id].
  destruct (policy f) eqn:Hp; simpl.
  - run_tac. destruct m'. unfold set_thread_count. simpl. by rewrite Z.sub_0_r.
  - apply bind_ok in Hr as (u & m2 & Hrel & Hr). run_tac.
    rewrite recon_release_eq in Hrel; [by simplify_eq | apply B1 |].
    pose proof (books_count_range c1 B1). unfold in_int64, two63. simpl in *. lia.
Qed.
