(* ===== verification/RuntimeProps.v ===== *)
(** The properties of the parallel statement manager: what a client of the
    runtime may rely on, under any interleaving of its threads, and what the
    manager does when it is misused. *)

From S2P Require Import Prelude Runtime RuntimeFacts RuntimeConc.

Local Open Scope Z_scope.

(** * Which value a statement delivers *)

(** The events after which statement [id] of kind [k] in [cid] is gone. *)
Definition consumes (cid : Z) (k : kind) (id : Z) (e : event) : Prop :=
  (exists t, e = ETake t cid k id) \/ e = EDestroy cid.

Lemma due_kept a e a' cid k id v :
  spec_step a e a' -> ~ consumes cid k id e ->
  due a !! (cid, kind_code k, id) = Some v -> due a' !! (cid, kind_code k, id) = Some v.
Proof.
  intros Hs Hc Hd. unfold consumes in Hc.
  destruct Hs as [c Hn|c Hi|c k' i v' Hi Hn|t c k' i v' Hn Hd'|t v' Ho|]; simpl; try done.
  - apply map_lookup_filter_Some_2; [done |]. simpl. intros ->. apply Hc. by right.
  - apply lookup_insert_Some. right. split; [congruence | done].
  - apply lookup_delete_Some. split; [| done]. rewrite key_eq. intros (-> & -> & ->).
    apply Hc. left. eauto.
Qed.

Lemma due_kept_run a es a' cid k id v :
  spec_run a es a' -> Forall (fun e => ~ consumes cid k id e) es ->
  due a !! (cid, kind_code k, id) = Some v -> due a' !! (cid, kind_code k, id) = Some v.
Proof.
  intros Hr. induction Hr as [|a es a1 e a2 Hr IH Hs]; intros Hes Hd; [done |].
  apply Forall_app in Hes as [Hes He]. inversion_clear He. eapply due_kept; eauto.
Qed.

Lemma owed_kept_run a es a' t v :
  spec_run a es a' -> Forall (fun e => forall w, e <> EReturn t w) es ->
  owed a !! t = Some v -> owed a' !! t = Some v.
Proof.
  intros Hr. induction Hr as [|a es a1 e a2 Hr IH Hs]; intros Hes Ho; [done |].
  apply Forall_app in Hes as [Hes He]. inversion_clear He as [|? ? Hne _].
  specialize (IH Hes Ho). destruct Hs; simpl; try done.
  - apply lookup_insert_Some. right. split; [congruence | done].
  - apply lookup_delete_Some. split; [| done]. intros ->. by eapply Hne.
Qed.

Lemma spec_run_snoc a es e a2 :
  spec_run a (es ++ [e]) a2 -> exists a1, spec_run a es a1 /\ spec_step a1 e a2.
Proof.
  intros Hr. inversion Hr as [? H1 H2|a0 es1 a1 e1 a2' Hr1 Hs Ha He]; [by destruct es |].
  apply app_inj_2 in He as [-> He]; [| done]. simplify_eq. eauto.
Qed.

Lemma spec_run_app a es es' a' :
  spec_run a (es ++ es') a' -> exists a1, spec_run a es a1 /\ spec_run a1 es' a'.
Proof.
  revert a'. induction es' as [|e es' IH] using rev_ind; intros a' Hr.
  - rewrite app_nil_r in Hr. eexists. split; [exact Hr | constructor].
  - rewrite app_assoc in Hr. apply spec_run_snoc in Hr as (a1 & Hr & Hs).
    destruct (IH _ Hr) as (a0 & H1 & H2). exists a0. split; [done | by econstructor].
Qed.

(** * The properties *)

(** C6. Refinement: every run of threads over one manager, however their
    critical sections interleave, is a run of the specification, in which a
    scheduled value waits under its context, kind and id until one [recon]
    takes it, and [recon] returns exactly the value it took. *)
Theorem manager_refines_spec hw es c :
  crun (initial hw) es c -> exists a, spec_run initial_spec es a /\ refines c a.
Proof. intros Hr. destruct (crun_refines _ _ _ Hr) as (a & Ha & R & _). eauto. Qed.

(** C10. A [recon] that returns gives back what the statement of its id
    computed, whatever else ran in between: schedule, then take the same key
    with no earlier take of it and its context still alive, then return. *)
Theorem recon_returns_scheduled hw es0 cid k id v es1 t es2 w c :
  crun (initial hw)
    (es0 ++ [ESched cid k id v] ++ es1 ++ [ETake t cid k id] ++ es2 ++ [EReturn t w]) c ->
  Forall (fun e => ~ consumes cid k id e) es1 ->
  Forall (fun e => forall u, e <> EReturn t u) es2 ->
  w = v.
Proof.
  intros Hr H1 H2. destruct (crun_refines _ _ _ Hr) as (a & Ha & _ & _).
  apply spec_run_app in Ha as (a0 & _ & Ha).
  apply (spec_run_app _ [_]) in Ha as (a1 & Hs & Ha).
  apply spec_run_app in Ha as (a2 & Hk & Ha).
  apply (spec_run_app _ [_]) in Ha as (a3 & Ht & Ha).
  apply spec_run_app in Ha as (a4 & Hk' & Hw).
  apply (spec_run_snoc _ []) in Hs as (? & _ & Hs). inversion Hs; simplify_eq.
  apply (spec_run_snoc _ []) in Ht as (? & Hnil & Ht). apply (spec_run_snoc _ []) in Hw as (? & Hnil' & Hw).
  inversion Hnil; [simplify_eq | by destruct es]. inversion Hnil'; [simplify_eq | by destruct es].
  eapply due_kept_run in Hk; [| done | simpl; apply lookup_insert_eq].
  inversion Ht; simplify_eq. eapply owed_kept_run in Hk'; [| done | simpl; apply lookup_insert_eq].
  inversion Hw; simplify_eq. done.
Qed.

(** C11. The thread count is exact in every reachable configuration: it is the
    number of threads whose statement is still filed, plus those inside a
    [recon] that has not given its slot back, plus those whose context was
    destroyed under them; it never passes the limit of 2 to 4, so the 64-bit
    counter cannot overflow; and no operation leaves the mutex held. *)
Theorem thread_accounting hw c :
  reachable hw c ->
  thread_count (manager c) =
    total_async (context_map (manager c)) + slots_in_calls (calls c) + leaked c /\
  0 <= thread_count (manager c) <= max_threads (manager c) /\
  2 <= max_threads (manager c) <= 4 /\
  mutex (manager c) = false.
Proof.
  intros Hr. pose proof (books_reachable _ _ Hr) as B.
  pose proof (books_count_range _ B). destruct B. split_and!; try done; lia.
Qed.

(** C24. No deadlock: from every point inside [recon], in every reachable
    configuration, the thread reaches its return on its own, with the value
    it took, and gives its slot back exactly when the statement had one. *)
Theorem recon_finishes hw c t k :
  reachable hw c -> calls c !! t = Some k ->
  exists es, Forall (eq ETau) es /\
    crun c (es ++ [EReturn t (call_value k)])
      (returned t (set_thread_count (thread_count (manager c) - holds_slot k) (manager c)) c).
Proof. intros Hr Ht. apply call_finishes; [by eapply books_reachable | done]. Qed.

(** C29. Slots of destroyed contexts never come back: once they reach the
    limit, in every later configuration [sched], of any of the five types and
    whatever its arguments, starts no thread: the thread count stays, and a
    statement that is filed is filed deferred.  Nothing runs in parallel any
    more. *)
Theorem leaked_slots_starve hw c es c' {A} `{FutureMap A} {Env} (st : Env -> A) env id cid r m' :
  reachable hw c -> max_threads (manager c) <= leaked c -> crun c es c' ->
  sched st env id cid (manager c') = (r, m') ->
  thread_count m' = thread_count (manager c') /\
  (r = Ok tt -> exists sc f, context_map m' !! cid = Some sc /\ fm_get sc !! id = Some f /\
    policy f = LaunchDeferred /\ value f = st env).
Proof.
  intros Hr Hl Hrun Hs. pose proof (books_reachable _ _ Hr) as B.
  pose proof (leaked_run _ _ _ Hrun). pose proof (max_threads_run _ _ _ B Hrun) as Hm.
  pose proof (books_run _ _ _ B Hrun) as B'. pose proof (books_count_range _ B') as Hrange.
  destruct B' as [? ? ? Hc ? ?].
  pose proof (total_async_nonneg (context_map (manager c'))).
  pose proof (slots_in_calls_nonneg (calls c')).
  assert (max_threads (manager c') <= thread_count (manager c')) as Hfull by lia.
  rewrite sched_full in Hs by (done || (unfold in_int64, two63; lia)).
  destruct (context_map (manager c') !! cid) as [sc|]; [| by simplify_eq].
  destruct (fm_get sc !! id); simplify_eq; [done |]. split; [done |]. intros _.
  eexists _, _. split; [apply lookup_insert_eq |]. by rewrite fm_get_set, lookup_insert_eq.
Qed.

(** [set_max_threads] clamps what the hardware reports to [2, 4]. *)
Theorem set_max_threads_clamps dth :
  (set_max_threads dth).1 = Z.max 2 (Z.min 4 dth).
Proof. unfold set_max_threads. cbn [fst]. destruct (Z.ltb_spec dth 2), (Z.ltb_spec 4 dth); lia. Qed.

(** C31. A failed [recon] (unknown context, or a statement that is not filed)
    throws with the mutex still held: every operation of every thread blocks
    for ever after. *)
Theorem failed_recon_blocks_manager {A} `{FutureMap A} id cid m e m' :
  mutex m = false -> 0 <= thread_count m <= 4 -> recon (A := A) id cid m = (Err e, m') ->
  e = OutOfRange /\ mutex m' = true /\ context_map m' = context_map m /\
  make_context m' = (Err Blocked, m') /\
  (forall c, destroy_context c m' = (Err Blocked, m')) /\
  (forall {Env} (st : Env -> A) env i c, sched st env i c m' = (Err Blocked, m')) /\
  (forall i c, recon (A := A) i c m' = (Err Blocked, m')).
Proof.
  intros Hm Hn Hr.
  assert (e = OutOfRange /\ mutex m' = true /\ context_map m' = context_map m) as (-> & Hh & Hc).
  { unfold recon in Hr. destruct (recon_take (A := A) id cid m) as [[f|e1] m1] eqn:Ht.
    - pose proof Ht as Ht'. rewrite recon_take_eq in Ht' by done.
      destruct (context_map m !! cid) as [sc|]; [| discriminate].
      destruct (fm_get sc !! id); simplify_eq.
      rewrite (bind_eq _ _ _ _ _ Ht) in Hr. destruct (policy f); [discriminate |].
      erewrite bind_eq in Hr; [discriminate |]. apply recon_release_eq; [done |].
      unfold in_int64, two63. simpl. lia.
    - rewrite (bind_err _ _ _ _ _ Ht) in Hr. simplify_eq. rewrite recon_take_eq in Ht by done.
      destruct (context_map m !! cid) as [sc|] eqn:Hsc; [| by simplify_eq].
      destruct (fm_get sc !! id); simplify_eq. simpl. by rewrite insert_id. }
  destruct (ops_held m' Hh) as (H1 & H2 & H3). split_and!; try done.
  - intros. by apply sched_held.
  - intros i c. unfold recon. erewrite bind_err; [done |]. by apply H3.
Qed.

(** C30. A [sched] that fails keeps the slot it took: into an unknown context
    or over an id that is filed already, a manager below its limit is left
    with one thread more than it has futures for. *)
Theorem failed_sched_keeps_slot {A} `{FutureMap A} {Env} (st : Env -> A) env id cid m e m' :
  mutex m = false -> 0 <= thread_count m < max_threads m -> max_threads m <= 4 ->
  sched st env id cid m = (Err e, m') ->
  thread_count m' = thread_count m + 1 /\
  (forall c, context_map m' !! c = context_map m !! c) /\
  (context_map m !! cid = None /\ e = OutOfRange \/
   exists sc f, context_map m !! cid = Some sc /\ fm_get sc !! id = Some (f : future A) /\
     e = Assertion "Statement id already exists").
Proof.
  intros Hm Hn Hmx Hs.
  assert (sched_count m = thread_count m + 1) as Hc.
  { unfold sched_count. destruct (Z.leb_spec (max_threads m) (thread_count m)); lia. }
  rewrite sched_eq in Hs; [| done | unfold in_int64, two63; lia]. simpl in Hs.
  destruct (context_map m !! cid) as [sc|] eqn:Hsc; [| simplify_eq; simpl; eauto].
  destruct (fm_get sc !! id) as [f|] eqn:Hf; simplify_eq. simpl.
  rewrite insert_id by done. split_and!; try done. right. eauto.
Qed.

(** * A group of statements *)

(** What compiled code does with a group of uncommitted int statements: one
    context, the statements scheduled under 0, 1, ..., then reconciled in the
    same order, and the context destroyed. *)
Section group.
Context {Env : Type} (env : Env).

Fixpoint sched_group (cid i : Z) (statements : list (Env -> Z)) : PM unit :=
  match statements with
  | [] => mret tt
  | st :: sts => sched_int st env i cid ;; sched_group cid (i + 1) sts
  end.

Fixpoint recon_group (cid i : Z) (originals : list Z) (max : Z) : PM (list Z) :=
  match originals with
  | [] => mret []
  | o :: os => v <- recon_int o 1 i max cid ;; vs <- recon_group cid (i + 1) os max ;;
      mret (v :: vs)
  end.

Definition run_group (statements : list (Env -> Z)) (originals : list Z) : PM (list Z) :=
  cid <- make_context ;;
  sched_group cid 0 statements ;;
  vs <- recon_group cid 0 originals (Z.of_nat (length statements) - 1) ;;
  destroy_context cid ;;
  mret vs.

(** The manager [m0] with one more context [cid], which holds int futures
    [mp] only. *)
Definition in_group (m0 : ParContextManager) (cid : Z) (mp : gmap Z (future Z)) :=
  set_thread_count (thread_count m0 + map_sum slot mp)
    (set_context_map (<[cid := fm_set mp new_StatementContext]> (context_map m0)) m0).

Context (m0 : ParContextManager) (cid : Z).
Context (Hmutex : mutex m0 = false) (Hcount : 0 <= thread_count m0)
  (Hmax : thread_count m0 <= max_threads m0 <= 4).

Lemma sched_group_ok sts i mp :
  (forall j, i <= j -> mp !! j = None) ->
  thread_count m0 + map_sum slot mp <= max_threads m0 ->
  exists mp', sched_group cid i sts (in_group m0 cid mp) = (Ok tt, in_group m0 cid mp') /\
    thread_count m0 + map_sum slot mp' <= max_threads m0 /\
    (forall j, j < i -> mp' !! j = mp !! j) /\
    (forall n st, sts !! n = Some st -> value <$> mp' !! (i + Z.of_nat n) = Some (st env)) /\
    (forall j, i + Z.of_nat (length sts) <= j -> mp' !! j = None).
Proof.
  revert i mp. induction sts as [|st sts IH]; intros i mp Hnone Hle.
  { exists mp. split_and!; try done. simpl. intros j Hj. apply Hnone. lia. }
  assert (0 <= map_sum slot mp) as Hpos
    by (apply map_sum_nonneg; auto with fork).
  set (mp1 := <[i := std_async (sched_policy (in_group m0 cid mp)) st env]> mp).
  assert (map_sum slot mp1 = map_sum slot mp + (sched_count (in_group m0 cid mp)
    - thread_count (in_group m0 cid mp))) as Hsum.
  { unfold mp1. rewrite map_sum_insert, Hnone, slot_sched by lia. simpl. lia. }
  assert (sched_int st env i cid (in_group m0 cid mp) = (Ok tt, in_group m0 cid mp1)) as Hs.
  { unfold sched_int. rewrite sched_eq; [| done |].
    2: { unfold sched_count, in_int64, two63. simpl. destruct (_ <=? _); lia. }
    simpl. rewrite lookup_insert_eq. simpl. rewrite Hnone by lia.
    unfold add_to, in_group, set_context_map, set_thread_count. simpl.
    rewrite insert_insert_eq, Hsum. do 3 f_equal. simpl. match goal with |- sched_count ?x = _ => change x with (in_group m0 cid mp) end. lia. }
  destruct (IH (i + 1) mp1) as (mp' & Hr & Hle' & Hlow & Hval & Hhigh).
  { intros j Hj. unfold mp1. rewrite lookup_insert_ne by lia. apply Hnone. lia. }
  { rewrite Hsum. unfold sched_count. simpl.
    destruct (Z.leb_spec (max_threads m0) (thread_count m0 + map_sum slot mp)); lia. }
  exists mp'. simpl. rewrite (bind_eq _ _ _ _ _ Hs). split_and!; try done.
  - intros j Hj. rewrite Hlow by lia. unfold mp1. by rewrite lookup_insert_ne by lia.
  - intros [|n] st' Hn; simpl in Hn; simplify_eq.
    + rewrite Z.add_0_r, Hlow by lia. unfold mp1. by rewrite lookup_insert_eq.
    + rewrite <- (Hval n st' Hn). do 2 f_equal. lia.
  - intros j Hj. apply Hhigh. simpl in Hj. lia.
Qed.

Lemma recon_group_ok sts os i mp max :
  length os = length sts ->
  thread_count m0 + map_sum slot mp <= 4 ->
  (forall n st, sts !! n = Some st -> value <$> mp !! (i + Z.of_nat n) = Some (st env)) ->
  (forall j, j < i \/ i + Z.of_nat (length sts) <= j -> mp !! j = None) ->
  recon_group cid i os max (in_group m0 cid mp) =
    (Ok ((fun st => st env) <$> sts), in_group m0 cid ∅).
Proof.
  revert os i mp. induction sts as [|st sts IH]; intros [|o os] i mp Hlen Hle Hval Hnone;
    simplify_eq/=.
  { assert (mp = ∅) as ->; [| done]. apply map_eq. intros j. rewrite lookup_empty. apply Hnone. lia. }
  destruct (mp !! i) as [f|] eqn:Hf.
  2: { specialize (Hval 0%nat st eq_refl). rewrite Z.add_0_r, Hf in Hval. discriminate. }
  assert (value f = st env) as Hv.
  { specialize (Hval 0%nat st eq_refl). rewrite Z.add_0_r, Hf in Hval. by simplify_eq/=. }
  assert (recon_int o 1 i max cid (in_group m0 cid mp)
    = (Ok (st env), in_group m0 cid (delete i mp))) as Hr.
  { unfold recon_int, recon. erewrite bind_eq.
    2: { rewrite recon_take_eq by done. simpl. rewrite lookup_insert_eq. simpl. by rewrite Hf. }
    pose proof (map_sum_delete slot mp i f Hf) as Hd. rewrite slot_policy in Hd.
    destruct (policy f) eqn:Hp; simpl in Hd.
    - unfold remove_from, in_group, set_context_map, set_thread_count, mret, SE_ret. simpl.
      rewrite insert_insert_eq, Hd, Hv. repeat f_equal. lia.
    - erewrite bind_eq; [| apply recon_release_eq; [done |]].
      + unfold remove_from, in_group, set_context_map, set_thread_count, mret, SE_ret. simpl.
        rewrite insert_insert_eq, Hd, Hv. repeat f_equal. lia.
      + simpl. unfold in_int64, two63. pose proof (map_sum_nonneg slot mp slot_nonneg). lia. }
  rewrite (bind_eq _ _ _ _ _ Hr). erewrite bind_eq; [reflexivity |]. apply IH; [done | | |].
  - rewrite (map_sum_delete slot mp i f Hf). pose proof (slot_nonneg f). lia.
  - intros n st' Hn. rewrite lookup_delete_ne by lia.
    rewrite <- (Hval (S n) st' Hn). do 2 f_equal. lia.
  - intros j Hj. destruct (decide (j = i)) as [->|Hne]; [apply lookup_delete_eq |].
    rewrite lookup_delete_ne by done. apply Hnone. lia.
Qed.
End group.

(** C19. Round trip of a commit group: however many of its statements got a
    thread, a group gives back the value of every statement, in order, and
    leaves the manager as it was but for the context number it used up.  The
    original values passed to [recon_int] do not matter. *)
Theorem group_roundtrip {Env} (env : Env) statements originals m :
  mutex m = false -> 0 <= thread_count m <= max_threads m -> max_threads m <= 4 ->
  context_map m !! next_cid m = None -> in_int64 (next_cid m + 1) ->
  length originals = length statements ->
  run_group env statements originals m =
    (Ok ((fun st => st env) <$> statements), set_next_cid (next_cid m + 1) m).
Proof.
  intros Hmu Hn Hmx Hfresh Hr Hlen. set (m0 := set_next_cid (next_cid m + 1) m).
  unfold run_group. rewrite (bind_eq _ _ _ _ _ (make_context_eq m Hmu Hr Hfresh)).
  assert (set_next_cid (next_cid m + 1)
    (set_context_map (<[next_cid m := new_StatementContext]> (context_map m)) m)
    = in_group m0 (next_cid m) ∅) as ->.
  { unfold in_group, set_thread_count, set_context_map, set_next_cid. simpl.
    by rewrite map_sum_empty, Z.add_0_r. }
  destruct (sched_group_ok env m0 (next_cid m) Hmu ltac:(simpl; lia) ltac:(simpl; lia)
    statements 0 ∅) as (mp & Hs & Hle & Hlow & Hval & Hhigh);
    [done | rewrite map_sum_empty; simpl; lia |].
  rewrite (bind_eq _ _ _ _ _ Hs). erewrite bind_eq.
  2: { apply (recon_group_ok env m0 (next_cid m) Hmu ltac:(simpl; lia) statements); try done.
       - simpl in *. lia.
       - intros j [Hj|Hj]; [| by apply Hhigh].
         by rewrite Hlow, lookup_empty. }
  erewrite bind_eq; [unfold mret, SE_ret; reflexivity |].
  rewrite destroy_context_eq by done. simpl. rewrite lookup_insert_eq.
  unfold m0, set_next_cid, set_context_map, set_thread_count. simpl.
  rewrite map_sum_empty, Z.add_0_r, delete_insert_id by done. reflexivity.
Qed.

(** * Witnesses

    A machine with two hardware threads; one thread makes context 0 and
    schedules an int statement, another reconciles it. *)

Definition demo_statement (_ : unit) : Z := 7.

Definition demo_made : conf := set_manager (make_context (manager (initial 2))).2 (initial 2).
Definition demo_scheduled : conf :=
  set_manager (sched_int demo_statement tt 0 0 (manager demo_made)).2 demo_made.
Definition demo_taken : conf :=
  set_call 1 (Taken LaunchAsync (DInt 7) false)
    (set_manager (recon_take (A := Z) 0 0 (manager demo_scheduled)).2 demo_scheduled).
Definition demo_returned : conf :=
  returned 1 (set_thread_count 0 (manager demo_taken)) demo_taken.

Definition demo_events : list event :=
  [EMake 0] ++ [ESched 0 KInt 0 (DInt 7)] ++ [] ++ [ETake 1 0 KInt 0] ++
  [ETau; ETau; ETau] ++ [EReturn 1 (DInt 7)].

Lemma demo_run_made : crun (initial 2) [EMake 0] demo_made.
Proof. apply crun_one, st_make. reflexivity. Qed.

Lemma demo_run_scheduled : crun (initial 2) [EMake 0; ESched 0 KInt 0 (DInt 7)] demo_scheduled.
Proof.
  apply (crun_trans _ [EMake 0] demo_made); [apply demo_run_made |].
  apply crun_one. refine (st_sched demo_made demo_statement tt 0 0 _ _). reflexivity.
Qed.

Lemma demo_run_taken :
  crun (initial 2) [EMake 0; ESched 0 KInt 0 (DInt 7); ETake 1 0 KInt 0] demo_taken.
Proof.
  apply (crun_trans _ [EMake 0; ESched 0 KInt 0 (DInt 7)] demo_scheduled); [apply demo_run_scheduled |].
  apply crun_one.
  refine (st_take (A := Z) demo_scheduled 1 0 0 (mk_future LaunchAsync 7 false) _ _ _); reflexivity.
Qed.

Lemma demo_run : crun (initial 2) demo_events demo_returned.
Proof.
  apply (crun_trans _ [EMake 0; ESched 0 KInt 0 (DInt 7); ETake 1 0 KInt 0] demo_taken
    [ETau; ETau; ETau; EReturn 1 (DInt 7)]); [apply demo_run_taken |].
  apply (phases_running 1 (DInt 7) demo_taken); [| reflexivity].
  apply (books_reachable 2). eexists. apply demo_run_taken.
Qed.

Lemma manager_refines_spec_witness :
  exists a, spec_run initial_spec demo_events a /\ refines demo_returned a.
Proof. exact (manager_refines_spec 2 demo_events demo_returned demo_run). Defined.

Lemma recon_returns_scheduled_witness :
  crun (initial 2) demo_events demo_returned /\ DInt 7 = DInt (demo_statement tt).
Proof.
  split; [exact demo_run |].
  refine (recon_returns_scheduled 2 [EMake 0] 0 KInt 0 (DInt 7) [] 1 [ETau; ETau; ETau] (DInt 7)
    demo_returned demo_run _ _); repeat constructor; done.
Defined.

Lemma thread_accounting_witness :
  thread_count (manager demo_scheduled) = 1 /\
  thread_count (manager demo_scheduled) = total_async (context_map (manager demo_scheduled)) +
    slots_in_calls (calls demo_scheduled) + leaked demo_scheduled.
Proof.
  split; [reflexivity |].
  exact (proj1 (thread_accounting 2 demo_scheduled (ex_intro _ _ demo_run_scheduled))).
Defined.

Lemma recon_finishes_witness :
  exists es, Forall (eq ETau) es /\
    crun demo_taken (es ++ [EReturn 1 (DInt 7)])
      (returned 1 (set_thread_count (thread_count (manager demo_taken) - 1) (manager demo_taken)) demo_taken).
Proof.
  refine (recon_finishes 2 demo_taken 1 (Taken LaunchAsync (DInt 7) false) _ _); [| reflexivity].
  eexists. apply demo_run_taken.
Defined.

(** Two statements on threads of their own, whose context is destroyed. *)
Definition demo_full : conf :=
  set_manager (sched_int demo_statement tt 1 0 (manager demo_scheduled)).2 demo_scheduled.
Definition demo_leaked : conf :=
  mk_conf (destroy_context 0 (manager demo_full)).2 (calls demo_full) 2.

Lemma demo_run_leaked :
  crun (initial 2) [EMake 0; ESched 0 KInt 0 (DInt 7); ESched 0 KInt 1 (DInt 7); EDestroy 0] demo_leaked.
Proof.
  apply (crun_trans _ [EMake 0; ESched 0 KInt 0 (DInt 7)] demo_scheduled
    [ESched 0 KInt 1 (DInt 7); EDestroy 0]); [apply demo_run_scheduled |].
  apply (crun_cons _ _ demo_full).
  - refine (st_sched demo_scheduled demo_statement tt 1 0 _ _). reflexivity.
  - apply crun_one. destruct (context_map (manager demo_full) !! 0) as [sc|] eqn:E; [| discriminate].
    replace demo_leaked with (mk_conf (destroy_context 0 (manager demo_full)).2 (calls demo_full)
      (leaked demo_full + async_in sc)).
    + by apply st_destroy.
    + unfold demo_leaked. f_equal. vm_compute in E. by injection E as <-.
Qed.

(** A third statement, into a context made behind the leak. *)
Definition demo_reopened : conf := set_manager (make_context (manager demo_leaked)).2 demo_leaked.

Lemma leaked_slots_starve_witness :
  exists m', sched_int demo_statement tt 0 1 (manager demo_reopened) = (Ok tt, m') /\
    exists sc f, context_map m' !! 1 = Some sc /\ fm_get sc !! 0 = Some (f : future Z) /\
      policy f = LaunchDeferred /\ value f = 7.
Proof.
  eexists. split; [reflexivity |].
  refine (proj2 (leaked_slots_starve 2 demo_leaked [EMake 1] demo_reopened demo_statement tt 0 1 (Ok tt) _
    _ _ _ eq_refl) eq_refl).
  - eexists. apply demo_run_leaked.
  - vm_compute. discriminate.
  - apply crun_one, st_make. reflexivity.
Defined.

Lemma failed_recon_blocks_manager_witness :
  exists m', recon (A := Z) 5 9 (new_ParContextManager 2) = (Err OutOfRange, m') /\
    make_context m' = (Err Blocked, m').
Proof.
  eexists. split; [reflexivity |].
  refine (proj1 (proj2 (proj2 (proj2
    (failed_recon_blocks_manager (A := Z) 5 9 (new_ParContextManager 2) OutOfRange _ _ _ _)))));
    [reflexivity | simpl; lia | reflexivity].
Defined.

Lemma failed_sched_keeps_slot_witness :
  exists m', sched_int demo_statement tt 0 9 (new_ParContextManager 2) = (Err OutOfRange, m') /\
    thread_count m' = 0 + 1.
Proof.
  eexists. split; [reflexivity |].
  refine (proj1 (failed_sched_keeps_slot demo_statement tt 0 9 (new_ParContextManager 2) OutOfRange _ _ _ _ _));
    [reflexivity | vm_compute; intuition discriminate | vm_compute; discriminate | reflexivity].
Defined.

Lemma group_roundtrip_witness :
  run_group 10 [fun x => x + 1; fun x => x * 2; fun x => x - 3] [0; 0; 0] (new_ParContextManager 2) =
    (Ok [11; 20; 7], set_next_cid 1 (new_ParContextManager 2)).
Proof.
  refine (group_roundtrip 10 [fun x => x + 1; fun x => x * 2; fun x => x - 3] [0; 0; 0]
    (new_ParContextManager 2) _ _ _ _ _ _);
    [reflexivity | vm_compute; intuition discriminate | vm_compute; discriminate | reflexivity
    | vm_compute; intuition discriminate | reflexivity].
Defined.
