(* ===== verification/IR.v ===== *)
(** The part of LLVM's intermediate representation that the code generator
    builds: types, values, instructions, functions and modules.

    The visitor keeps two [LLVMContext]s, one for the program and one for the
    closures, and compares types by pointer: a type remembers its context,
    and the [i64] of one context is not the [i64] of the other.  A struct
    type is its number in the table of struct types; the names of blocks and
    instructions are not kept. *)

From S2P Require Import Prelude.

(** * Types *)

Inductive ctx : Type := MainCtx | LambdaCtx.

#[export] Instance ctx_eq_dec : EqDecision ctx.
Proof. solve_decision. Defined.

Inductive ty : Type :=
  | TVoid (c : ctx)
  | TInt (c : ctx) (bits : Z)
  | TDouble (c : ctx)
  | TPointer (t : ty)
  | TStruct (id : nat).

#[export] Instance ty_eq_dec : EqDecision ty.
Proof. solve_decision. Defined.

Definition isVoidTy (t : ty) : bool := match t with TVoid _ => true | _ => false end.
Definition isIntegerTy (t : ty) : bool := match t with TInt _ _ => true | _ => false end.
Definition isDoubleTy (t : ty) : bool := match t with TDouble _ => true | _ => false end.
Definition isPointerTy (t : ty) : bool := match t with TPointer _ => true | _ => false end.
Definition isStructTy (t : ty) : bool := match t with TStruct _ => true | _ => false end.

(** [getScalarSizeInBits]: zero for a pointer. *)
Definition scalarSizeInBits (t : ty) : Z :=
  match t with TInt _ w => w | TDouble _ => 64 | _ => 0 end.

Record fun_ty : Type := mk_fun_ty { fret : ty; fparams : list ty }.

#[export] Instance fun_ty_eq_dec : EqDecision fun_ty.
Proof. solve_decision. Defined.

(** A named struct; its body is unset until [setBody]. *)
Record struct_info : Type := mk_struct_info {
  st_ctx : ctx;
  st_name : string;
  st_body : option (list ty)
}.

(** * Values and instructions *)

Inductive value : Type :=
  | VConstInt (c : ctx) (bits : Z) (n : Z)     (* ConstantInt *)
  | VConstFP (c : ctx) (d : double)            (* ConstantFP *)
  | VConstNull (t : ty)                        (* ConstantPointerNull of type [t] *)
  | VAggregateZero (t : ty)                    (* ConstantAggregateZero *)
  | VArgument (f : string) (i : nat) (t : ty)  (* argument [i] of function [f] *)
  | VInst (id : nat) (t : ty)                  (* the result of instruction [id] *)
  | VRetVoid (c : ctx).                        (* the free [ret void] of a context *)

#[export] Instance spec_float_eq_dec : EqDecision spec_float.
Proof. solve_decision. Defined.

#[export] Instance double_eq_dec : EqDecision double := spec_float_eq_dec.

#[export] Instance value_eq_dec : EqDecision value.
Proof. solve_decision. Defined.

(** [getType]. *)
Definition getType (v : value) : ty :=
  match v with
  | VConstInt c w _ => TInt c w
  | VConstFP c _ => TDouble c
  | VConstNull t | VAggregateZero t => t
  | VArgument _ _ t => t
  | VInst _ t => t
  | VRetVoid c => TVoid c
  end.

Definition isConstant (v : value) : bool :=
  match v with
  | VConstInt _ _ _ | VConstFP _ _ | VConstNull _ | VAggregateZero _ => true
  | _ => false
  end.

Inductive binop : Type :=
  | Add | Sub | Mul | SDiv | And | Or | Xor | FAdd | FSub | FMul | FDiv.
Inductive ipred : Type := INE | IEQ | ISGE | ISLE | ISGT | ISLT.
Inductive fpred : Type := FONE | FOEQ | FOGE | FOLE | FOGT | FOLT.
Inductive castop : Type := ZExt | BitCast | SIToFP | PtrToInt | IntToPtr.

#[export] Instance binop_eq_dec : EqDecision binop.
Proof. solve_decision. Defined.
#[export] Instance ipred_eq_dec : EqDecision ipred.
Proof. solve_decision. Defined.
#[export] Instance fpred_eq_dec : EqDecision fpred.
Proof. solve_decision. Defined.
#[export] Instance castop_eq_dec : EqDecision castop.
Proof. solve_decision. Defined.

Inductive inst : Type :=
  | IAlloca (t : ty)
  | ILoad (p : value)
  | IStore (v p : value)
  | IBinary (op : binop) (l r : value)
  | IICmp (p : ipred) (l r : value)
  | IFCmp (p : fpred) (l r : value)
  | ICast (op : castop) (v : value) (t : ty)
  | IGEP (p idx : value)
  | IStructGEP (t : ty) (p : value) (field : nat)
  | ICall (f : string) (args : list value)
  | IRet (v : option value)
  | IBr (b : nat)
  | ICondBr (v : value) (t e : nat).

#[export] Instance inst_eq_dec : EqDecision inst.
Proof. solve_decision. Defined.

(** The operands of an instruction. *)
Definition operands (i : inst) : list value :=
  match i with
  | IAlloca _ | IBr _ => []
  | ILoad p => [p]
  | IStore v p => [v; p]
  | IBinary _ l r | IICmp _ l r | IFCmp _ l r => [l; r]
  | ICast _ v _ => [v]
  | IGEP p idx => [p; idx]
  | IStructGEP _ p _ => [p]
  | ICall _ args => args
  | IRet v => match v with Some v => [v] | None => [] end
  | ICondBr v _ _ => [v]
  end.

Definition isTerminator (i : inst) : bool :=
  match i with IRet _ | IBr _ | ICondBr _ _ _ => true | _ => false end.

(** * Functions and modules *)

(** A function without blocks is a declaration. *)
Record func : Type := mk_func {
  f_type : fun_ty;
  f_argnames : list string;
  f_blocks : list nat
}.

Definition func_empty (f : func) : bool := bool_decide (f_blocks f = []).

(** [CastInst::castIsValid] on the types the generator casts between. *)
Definition isFirstClassScalar (t : ty) : bool :=
  match t with TVoid _ | TStruct _ => false | _ => true end.

Definition castIsValid (op : castop) (src dst : ty) : bool :=
  isFirstClassScalar src && isFirstClassScalar dst &&
  match op with
  | ZExt => isIntegerTy src && isIntegerTy dst &&
      bool_decide (scalarSizeInBits src < scalarSizeInBits dst)%Z
  | SIToFP => isIntegerTy src && isDoubleTy dst
  | PtrToInt => isPointerTy src && isIntegerTy dst
  | IntToPtr => isIntegerTy src && isPointerTy dst
  | BitCast =>
      if isPointerTy src then isPointerTy dst
      else negb (isPointerTy dst) && bool_decide (scalarSizeInBits src = scalarSizeInBits dst)
  end.

(** [BinaryOperator::init]: what it asks of the operands' common type, and
    what it says when that fails. *)
Definition binaryIsValid (op : binop) (t : ty) : bool :=
  match op with
  | FAdd | FSub | FMul | FDiv => isDoubleTy t
  | _ => isIntegerTy t
  end.

Definition binaryMessage (op : binop) : string :=
  match op with
  | Add | Sub | Mul => "Tried to create an integer operation on a non-integer type!"
  | FAdd | FSub | FMul =>
      "Tried to create a floating-point operation on a non-floating-point type!"
  | SDiv => "Incorrect operand type (not integer) for S/UDIV"
  | FDiv => "Incorrect operand type (not floating point) for FDIV"
  | And | Or | Xor => "Tried to create a logical operation on a non-integral type!"
  end.
