(* ===== verification/State.v ===== *)
(** The state of the code generator: the fields of [CodeGenVisitor] and the
    modules it fills, and the monad in which its member functions are
    written.  A [Value*] that may be null is an [option value]. *)

From S2P Require Import Prelude IR.

(** What the two modules and contexts hold. *)
Record ir : Type := mk_ir {
  main_module : gmap string func;
  lambda_module : option (gmap string func); (* null before a closure and once the JIT took it *)
  structs : list struct_info;                (* by struct number *)
  struct_rename : Z * Z;                     (* NamedStructTypesUniqueID of each context *)
  blocks : gmap nat (list (nat * inst));
  block_parent : gmap nat (ctx * string);    (* the function a block is in *)
  detached : list (nat * inst);              (* created while no block was selected *)
  next_block : nat;
  next_inst : nat;
  main_ip : option nat;                      (* insertion block of [mainBuilder] *)
  lambda_ip : option nat;                    (* insertion block of [lambdaBuilder] *)
  jitted : list string                       (* closures given to [lambdaJIT] *)
}.

Record cg : Type := mk_cg {
  error : bool;
  errors : list string;                      (* what [ErrorV] printed *)
  lambdaNum : Z;
  insideLambda : bool;
  currCid : option value;
  currId : Z;
  executeCommit : bool;
  lambdaKeyword : option string;
  justReturned : bool;
  recon : bool;
  reconVector : list (option value * option value);
  namedValues : gmap string (option value);  (* [AllocaInst*], null when [operator[]] made it *)
  structTypes : gmap string (nat * list string);
  theIR : ir
}.

Abbreviation M := (SE cg crash).

(** ** Field updates *)

Definition set_error (e : bool) (l : list string) (s : cg) : cg :=
  mk_cg e l (lambdaNum s) (insideLambda s) (currCid s) (currId s) (executeCommit s)
    (lambdaKeyword s) (justReturned s) (recon s) (reconVector s) (namedValues s) (structTypes s) (theIR s).
Definition set_lambdaNum (n : Z) (s : cg) : cg :=
  mk_cg (error s) (errors s) n (insideLambda s) (currCid s) (currId s) (executeCommit s)
    (lambdaKeyword s) (justReturned s) (recon s) (reconVector s) (namedValues s) (structTypes s) (theIR s).
Definition set_insideLambda (b : bool) (s : cg) : cg :=
  mk_cg (error s) (errors s) (lambdaNum s) b (currCid s) (currId s) (executeCommit s)
    (lambdaKeyword s) (justReturned s) (recon s) (reconVector s) (namedValues s) (structTypes s) (theIR s).
Definition set_currCid (v : option value) (s : cg) : cg :=
  mk_cg (error s) (errors s) (lambdaNum s) (insideLambda s) v (currId s) (executeCommit s)
    (lambdaKeyword s) (justReturned s) (recon s) (reconVector s) (namedValues s) (structTypes s) (theIR s).
Definition set_currId (n : Z) (s : cg) : cg :=
  mk_cg (error s) (errors s) (lambdaNum s) (insideLambda s) (currCid s) n (executeCommit s)
    (lambdaKeyword s) (justReturned s) (recon s) (reconVector s) (namedValues s) (structTypes s) (theIR s).
Definition set_executeCommit (b : bool) (s : cg) : cg :=
  mk_cg (error s) (errors s) (lambdaNum s) (insideLambda s) (currCid s) (currId s) b
    (lambdaKeyword s) (justReturned s) (recon s) (reconVector s) (namedValues s) (structTypes s) (theIR s).
Definition set_lambdaKeyword (k : option string) (s : cg) : cg :=
  mk_cg (error s) (errors s) (lambdaNum s) (insideLambda s) (currCid s) (currId s) (executeCommit s)
    k (justReturned s) (recon s) (reconVector s) (namedValues s) (structTypes s) (theIR s).
Definition set_justReturned (b : bool) (s : cg) : cg :=
  mk_cg (error s) (errors s) (lambdaNum s) (insideLambda s) (currCid s) (currId s) (executeCommit s)
    (lambdaKeyword s) b (recon s) (reconVector s) (namedValues s) (structTypes s) (theIR s).
Definition set_recon (b : bool) (s : cg) : cg :=
  mk_cg (error s) (errors s) (lambdaNum s) (insideLambda s) (currCid s) (currId s) (executeCommit s)
    (lambdaKeyword s) (justReturned s) b (reconVector s) (namedValues s) (structTypes s) (theIR s).
Definition set_reconVector (l : list (option value * option value)) (s : cg) : cg :=
  mk_cg (error s) (errors s) (lambdaNum s) (insideLambda s) (currCid s) (currId s) (executeCommit s)
    (lambdaKeyword s) (justReturned s) (recon s) l (namedValues s) (structTypes s) (theIR s).
Definition set_namedValues (m : gmap string (option value)) (s : cg) : cg :=
  mk_cg (error s) (errors s) (lambdaNum s) (insideLambda s) (currCid s) (currId s) (executeCommit s)
    (lambdaKeyword s) (justReturned s) (recon s) (reconVector s) m (structTypes s) (theIR s).
Definition set_structTypes (m : gmap string (nat * list string)) (s : cg) : cg :=
  mk_cg (error s) (errors s) (lambdaNum s) (insideLambda s) (currCid s) (currId s) (executeCommit s)
    (lambdaKeyword s) (justReturned s) (recon s) (reconVector s) (namedValues s) m (theIR s).
Definition set_ir (i : ir) (s : cg) : cg :=
  mk_cg (error s) (errors s) (lambdaNum s) (insideLambda s) (currCid s) (currId s) (executeCommit s)
    (lambdaKeyword s) (justReturned s) (recon s) (reconVector s) (namedValues s) (structTypes s) i.

Definition ir_set_modules (m : gmap string func) (l : option (gmap string func)) (i : ir) : ir :=
  mk_ir m l (structs i) (struct_rename i) (blocks i) (block_parent i) (detached i) (next_block i)
    (next_inst i) (main_ip i) (lambda_ip i) (jitted i).
Definition ir_set_structs (l : list struct_info) (n : Z * Z) (i : ir) : ir :=
  mk_ir (main_module i) (lambda_module i) l n (blocks i) (block_parent i) (detached i)
    (next_block i) (next_inst i) (main_ip i) (lambda_ip i) (jitted i).
Definition ir_set_blocks (b : gmap nat (list (nat * inst))) (p : gmap nat (ctx * string))
    (n : nat) (i : ir) : ir :=
  mk_ir (main_module i) (lambda_module i) (structs i) (struct_rename i) b p (detached i) n
    (next_inst i) (main_ip i) (lambda_ip i) (jitted i).
Definition ir_set_code (b : gmap nat (list (nat * inst))) (d : list (nat * inst)) (n : nat)
    (i : ir) : ir :=
  mk_ir (main_module i) (lambda_module i) (structs i) (struct_rename i) b (block_parent i) d
    (next_block i) n (main_ip i) (lambda_ip i) (jitted i).
Definition ir_set_ip (m l : option nat) (i : ir) : ir :=
  mk_ir (main_module i) (lambda_module i) (structs i) (struct_rename i) (blocks i)
    (block_parent i) (detached i) (next_block i) (next_inst i) m l (jitted i).
Definition ir_set_jitted (l : list string) (i : ir) : ir :=
  mk_ir (main_module i) (lambda_module i) (structs i) (struct_rename i) (blocks i)
    (block_parent i) (detached i) (next_block i) (next_inst i) (main_ip i) (lambda_ip i) l.

Definition modify_ir (f : ir -> ir) : M unit := modify (fun s => set_ir (f (theIR s)) s).
Definition gets_ir {A} (f : ir -> A) : M A := gets (fun s => f (theIR s)).

(** [ErrorV]: print, set the flag, return null. *)
Definition ErrorV {A} (str : string) : M (option A) :=
  modify (fun s => set_error true (errors s ++ [str]) s) ;; mret None.

(** ** Constructors *)

Definition empty_ir : ir :=
  mk_ir ∅ None [] (0%Z, 0%Z) ∅ ∅ [] 0 0 None None [].

(** [CodeGenVisitor::CodeGenVisitor].  [currCid], [currId] and
    [lambdaKeyword] are not initialised there; they are written before they
    are read. *)
Definition new_CodeGenVisitor : cg :=
  mk_cg false [] 0%Z false None 0%Z true None false false [] ∅ ∅ empty_ir.

(** ** Selection by [insideLambda] *)

Definition context_of (s : cg) : ctx := if insideLambda s then LambdaCtx else MainCtx.

(** [getContext], and the context of [getBuilder()]. *)
Definition getContext : M ctx := gets context_of.

(** The block the current builder inserts into. *)
Definition getInsertBlock : M (option nat) :=
  gets (fun s => if insideLambda s then lambda_ip (theIR s) else main_ip (theIR s)).

(** [getModule()->getFunction(name)] reads a null module as a crash. *)
Definition getModule : M (gmap string func) :=
  s <- gets id ;;
  if insideLambda s then deref (lambda_module (theIR s)) else mret (main_module (theIR s)).

Definition setModule (m : gmap string func) : M unit :=
  s <- gets id ;;
  if insideLambda s then modify_ir (fun i => ir_set_modules (main_module i) (Some m) i)
  else modify_ir (fun i => ir_set_modules m (lambda_module i) i).

Definition getFunction (name : string) : M (option func) :=
  m <- getModule ;; mret (m !! name).

(** [getVoidValue], [getIntNullPointer], [getFloatNullPointer]. *)
Definition getVoidValue : M (option value) := c <- getContext ;; mret (Some (VRetVoid c)).
Definition getIntNullPointer : M value :=
  c <- getContext ;; mret (VConstNull (TPointer (TInt c 64))).
Definition getFloatNullPointer : M value :=
  c <- getContext ;; mret (VConstNull (TPointer (TDouble c))).

Definition getInt64Ty : M ty := c <- getContext ;; mret (TInt c 64).
Definition getDoubleTy : M ty := c <- getContext ;; mret (TDouble c).
