(* ===== verification/Builder.v ===== *)
(** [IRBuilder<true, NoFolder>]: the member functions the code generator
    calls, over the state of [State].  [NoFolder] builds an instruction also
    for constant operands.  The library is built with assertions: an operand
    that breaks one stops the compiler. *)

From S2P Require Import Prelude IR State.

(** * Insertion *)

(** [Insert]: at the end of the current block; without a block the new
    instruction is in none. *)
Definition Insert (i : inst) (t : ty) : M value :=
  b <- getInsertBlock ;;
  id <- gets_ir next_inst ;;
  modify_ir (fun r =>
    match b with
    | Some b => ir_set_code (<[b := default [] (blocks r !! b) ++ [(id, i)]]> (blocks r))
                  (detached r) (S id) r
    | None => ir_set_code (blocks r) (detached r ++ [(id, i)]) (S id) r
    end) ;;
  mret (VInst id t).

(** [BasicBlock::Create] without and with a parent. *)
Definition new_block : M nat :=
  b <- gets_ir next_block ;;
  modify_ir (fun r => ir_set_blocks (<[b := []]> (blocks r)) (block_parent r) (S b) r) ;;
  mret b.

(** [func->getBasicBlockList().push_back(block)]. *)
Definition push_block (c : ctx) (fname : string) (b : nat) : M unit :=
  modify_ir (fun r =>
    let add f := mk_func (f_type f) (f_argnames f) (f_blocks f ++ [b]) in
    let r := ir_set_blocks (blocks r) (<[b := (c, fname)]> (block_parent r)) (next_block r) r in
    match c with
    | MainCtx => ir_set_modules (alter add fname (main_module r)) (lambda_module r) r
    | LambdaCtx => ir_set_modules (main_module r) (alter add fname <$> lambda_module r) r
    end).

Definition new_block_in (c : ctx) (fname : string) : M nat :=
  b <- new_block ;; push_block c fname b ;; mret b.

(** [SetInsertPoint] of the current builder. *)
Definition SetInsertPoint (b : nat) : M unit :=
  s <- gets id ;;
  if insideLambda s then modify_ir (fun r => ir_set_ip (main_ip r) (Some b) r)
  else modify_ir (fun r => ir_set_ip (Some b) (lambda_ip r) r).

(** [saveAndClearIP] and [restoreIP] of the current builder. *)
Definition saveAndClearIP : M (option nat) :=
  ip <- getInsertBlock ;;
  s <- gets id ;;
  (if insideLambda s then modify_ir (fun r => ir_set_ip (main_ip r) None r)
   else modify_ir (fun r => ir_set_ip None (lambda_ip r) r)) ;;
  mret ip.

Definition restoreIP (ip : option nat) : M unit :=
  s <- gets id ;;
  if insideLambda s then modify_ir (fun r => ir_set_ip (main_ip r) ip r)
  else modify_ir (fun r => ir_set_ip ip (lambda_ip r) r).

(** [GetInsertBlock()->getParent()]: the function under construction. *)
Definition getParent : M (ctx * string) :=
  b <- getInsertBlock ;;
  b <- deref b ;;
  p <- gets_ir (fun r => block_parent r !! b) ;;
  deref p.

Definition getFunc (p : ctx * string) : M func :=
  r <- gets_ir id ;;
  deref (match p.1 with
         | MainCtx => main_module r !! p.2
         | LambdaCtx => m ← lambda_module r; m !! p.2
         end).

(** * Struct types *)

Definition struct_of (id : nat) : M struct_info :=
  l <- gets_ir structs ;; deref (l !! id).

(** [isSized]: void and a struct without a body have no size, and a struct has
    one when its fields have.  The fields of a struct by value were declared
    before it, so the number of structs bounds the depth. *)
Fixpoint sized (l : list struct_info) (fuel : nat) (t : ty) : bool :=
  match t with
  | TVoid _ => false
  | TStruct id =>
      match fuel, l !! id ≫= st_body with
      | S fuel, Some body => forallb (sized l fuel) body
      | _, _ => false
      end
  | _ => true
  end.

Definition isSized (t : ty) : M bool :=
  l <- gets_ir structs ;; mret (sized l (S (length l)) t).

(** * Operators *)

Definition CreateBinary (op : binop) (l r : value) : M value :=
  assert (bool_decide (getType l = getType r)) "Binary operator operand types must match!" ;;
  assert (binaryIsValid op (getType l)) (binaryMessage op) ;;
  Insert (IBinary op l r) (getType l).

Definition CreateAdd : value -> value -> M value := CreateBinary Add.
Definition CreateSub : value -> value -> M value := CreateBinary Sub.
Definition CreateMul : value -> value -> M value := CreateBinary Mul.
Definition CreateSDiv : value -> value -> M value := CreateBinary SDiv.
Definition CreateFAdd : value -> value -> M value := CreateBinary FAdd.
Definition CreateFSub : value -> value -> M value := CreateBinary FSub.
Definition CreateFMul : value -> value -> M value := CreateBinary FMul.
Definition CreateFDiv : value -> value -> M value := CreateBinary FDiv.

Definition isNullValue (v : value) : bool :=
  match v with
  | VConstInt _ _ n => bool_decide (n = 0)%Z
  | VConstFP _ d => bool_decide (d = double_zero)
  | VConstNull _ | VAggregateZero _ => true
  | _ => false
  end.

Definition isAllOnesInt (v : value) : bool :=
  match v with VConstInt _ _ n => bool_decide (n = -1)%Z | _ => false end.

(** [x | 0] and [x & -1] are [x]. *)
Definition CreateOr (l r : value) : M value :=
  if isConstant r && isNullValue r then mret l else CreateBinary Or l r.
Definition CreateAnd (l r : value) : M value :=
  if isConstant r && isAllOnesInt r then mret l else CreateBinary And l r.

(** [CreateNot]: exclusive or with all ones. *)
Definition CreateNot (v : value) : M value :=
  match getType v with
  | TInt c w => CreateBinary Xor v (VConstInt c w (-1))
  | _ => fail (Assertion (binaryMessage Xor))
  end.

Definition i1_like (t : ty) : M ty :=
  c <- getContext ;;
  mret (match t with TInt c' _ | TDouble c' => TInt c' 1 | _ => TInt c 1 end).

(** The result of a comparison is the [i1] of the operands' context. *)
Definition CreateICmp (p : ipred) (l r : value) : M value :=
  assert (bool_decide (getType l = getType r))
    "Both operands to ICmp instruction are not of the same type!" ;;
  assert (isIntegerTy (getType l) || isPointerTy (getType l))
    "Invalid operand types for ICmp instruction" ;;
  t <- i1_like (getType l) ;;
  Insert (IICmp p l r) t.

Definition CreateFCmp (p : fpred) (l r : value) : M value :=
  assert (bool_decide (getType l = getType r))
    "Both operands to FCmp instruction are not of the same type!" ;;
  assert (isDoubleTy (getType l)) "Invalid operand types for FCmp instruction" ;;
  t <- i1_like (getType l) ;;
  Insert (IFCmp p l r) t.

(** * Casts *)

Definition CreateCast (op : castop) (v : value) (t : ty) : M value :=
  if bool_decide (getType v = t) then mret v
  else assert (castIsValid op (getType v) t) "Invalid cast!" ;; Insert (ICast op v t) t.

Definition CreateSIToFP : value -> ty -> M value := CreateCast SIToFP.
Definition CreatePtrToInt : value -> ty -> M value := CreateCast PtrToInt.
Definition CreateIntToPtr : value -> ty -> M value := CreateCast IntToPtr.

Definition CreateZExtOrBitCast (v : value) (t : ty) : M value :=
  if bool_decide (getType v = t) then mret v
  else CreateCast (if bool_decide (scalarSizeInBits (getType v) = scalarSizeInBits t)
                   then BitCast else ZExt) v t.

Definition CreateBitOrPointerCast (v : value) (t : ty) : M value :=
  if bool_decide (getType v = t) then mret v
  else if isPointerTy (getType v) && isIntegerTy t then CreatePtrToInt v t
  else if isIntegerTy (getType v) && isPointerTy t then CreateIntToPtr v t
  else CreateCast BitCast v t.

(** * Memory *)

(** [CreateAlloca] asserts a type other than void. *)
Definition CreateLoad (p : value) : M value :=
  match getType p with
  | TPointer t => Insert (ILoad p) t
  | _ => fail (Assertion "Ptr must have pointer type.")
  end.

Definition CreateStore (v p : value) : M value :=
  c <- getContext ;;
  match getType p with
  | TPointer t =>
      assert (bool_decide (getType v = t)) "Ptr must be a pointer to Val type!" ;;
      Insert (IStore v p) (TVoid c)
  | _ => fail (Assertion "Ptr must have pointer type!")
  end.

(** LLVM looks at the type of the pointer only: an index of any type goes into
    the instruction, a double too. *)
Definition CreateGEP (p idx : value) : M value :=
  match getType p with
  | TPointer t =>
      sized <- isSized t ;;
      assert sized "Invalid GetElementPtrInst indices for type!" ;;
      Insert (IGEP p idx) (TPointer t)
  | _ => fail (Assertion "cast<Ty>() argument of incompatible type!")
  end.

Definition CreateStructGEP (t : ty) (p : value) (field : nat) : M value :=
  match t with
  | TStruct id =>
      assert (bool_decide (getType p = TPointer t)) "PointeeType" ;;
      i <- struct_of id ;;
      match st_body i ≫= (fun l => l !! field) with
      | Some ft => Insert (IStructGEP t p field) (TPointer ft)
      | None => fail (Assertion "Invalid GetElementPtrInst indices for type!")
      end
  | _ => fail (Assertion "Invalid GetElementPtrInst indices for type!")
  end.

(** * Calls and terminators *)

Definition CreateCall (fname : string) (ft : fun_ty) (args : list value) : M value :=
  assert (bool_decide (getType <$> args = fparams ft)) "Calling a function with a bad signature!" ;;
  Insert (ICall fname args) (fret ft).

Definition CreateRetVoid : M value := c <- getContext ;; Insert (IRet None) (TVoid c).
Definition CreateRet (v : value) : M value := c <- getContext ;; Insert (IRet (Some v)) (TVoid c).
Definition CreateBr (b : nat) : M value := c <- getContext ;; Insert (IBr b) (TVoid c).
Definition CreateCondBr (v : value) (t e : nat) : M value :=
  c <- getContext ;;
  assert (match getType v with TInt _ w => bool_decide (w = 1)%Z | _ => false end)
    "May only branch on boolean predicates!" ;;
  Insert (ICondBr v t e) (TVoid c).

(** * Types and functions made by name *)

(** [StructType::create]: a name that its context already has gets a number
    behind a dot, from a counter that never goes back. *)
Fixpoint fresh_struct_name (fuel : nat) (used : list string) (name : string) (n : Z) :
    string * Z :=
  let candidate := name +:+ "." +:+ pretty n in
  match fuel with
  | O => (candidate, (n + 1)%Z)
  | S fuel => if bool_decide (candidate ∈ used) then fresh_struct_name fuel used name (n + 1)
              else (candidate, (n + 1)%Z)
  end.

Definition StructType_create (name : string) : M nat :=
  c <- getContext ;;
  r <- gets_ir id ;;
  let used := st_name <$> filter (fun i => st_ctx i = c) (structs r) in
  let n := match c with MainCtx => (struct_rename r).1 | LambdaCtx => (struct_rename r).2 end in
  let '(name', n') :=
    if bool_decide (name ∈ used) then fresh_struct_name (length used) used name n
    else (name, n) in
  let ids := match c with
             | MainCtx => (n', (struct_rename r).2)
             | LambdaCtx => ((struct_rename r).1, n')
             end in
  modify_ir (ir_set_structs (structs r ++ [mk_struct_info c name' None]) ids) ;;
  mret (length (structs r)).

Definition setBody (id : nat) (l : list ty) : M unit :=
  i <- struct_of id ;;
  assert (negb (bool_decide (is_Some (st_body i)))) "Struct body already set!" ;;
  modify_ir (fun r => ir_set_structs
    (<[id := mk_struct_info (st_ctx i) (st_name i) (Some l)]> (structs r)) (struct_rename r) r).

(** [setName] of the arguments, in order: a name already given in this
    function gets the next number behind it. *)
Fixpoint fresh_arg_name (fuel : nat) (used : list string) (name : string) (n : Z) :
    string * Z :=
  let candidate := name +:+ pretty (n + 1)%Z in
  match fuel with
  | O => (candidate, (n + 1)%Z)
  | S fuel => if bool_decide (candidate ∈ used) then fresh_arg_name fuel used name (n + 1)
              else (candidate, (n + 1)%Z)
  end.

Fixpoint setNames (used : list string) (n : Z) (names : list string) : list string :=
  match names with
  | [] => used
  | x :: names' =>
      if bool_decide (x ∈ used) then
        let '(x', n') := fresh_arg_name (length used) used x n in
        setNames (used ++ [x']) n' names'
      else setNames (used ++ [x]) n names'
  end.

(** [Function::Create] with external linkage in the current module. *)
Definition Function_Create (ft : fun_ty) (name : string) (argnames : list string) : M func :=
  m <- getModule ;;
  let f := mk_func ft argnames [] in
  setModule (<[name := f]> m) ;;
  mret f.
