(* ===== verification/CodeGenBase.v ===== *)
(** The helper functions of [CodeGenVisitor] (codeGenVisitor.cpp, before the
    visitors): the operator table, the casts, struct fields, types by name,
    function signatures and stack variables. *)

From S2P Require Import Prelude Ast IR State Builder.

(** * The operator table *)

Inductive Binops : Type :=
  | BOP_PLUS | BOP_MINUS | BOP_MULT | BOP_DIV
  | BOP_GTE | BOP_LTE | BOP_LT | BOP_GT
  | BOP_NEQ | BOP_EQ | BOP_OR | BOP_AND.

#[export] Instance Binops_eq_dec : EqDecision Binops.
Proof. solve_decision. Defined.

(** [populateSwitchMap]. *)
Definition switchMap : gmap string Binops :=
  <["&&" := BOP_AND]> (<["||" := BOP_OR]> (<["==" := BOP_EQ]> (<["!=" := BOP_NEQ]>
  (<["<" := BOP_LT]> (<[">" := BOP_GT]> (<["<=" := BOP_LTE]> (<[">=" := BOP_GTE]>
  (<["/" := BOP_DIV]> (<["*" := BOP_MULT]> (<["-" := BOP_MINUS]> (<["+" := BOP_PLUS]> ∅))))))))))).

(** [switchMap.find(op)->second]: the past-the-end iterator has no second. *)
Definition find_op (op : string) : M Binops :=
  match switchMap !! op with Some b => mret b | None => fail BadIndex end.

(** * Casts *)

Definition castIntToFloat (val : value) : M value := t <- getDoubleTy ;; CreateSIToFP val t.

Definition castIntToBoolean (val : value) : M value :=
  c <- getContext ;; CreateICmp INE val (VConstInt c 64 0).

Definition castFloatToBoolean (val : value) : M value :=
  c <- getContext ;; CreateFCmp FONE val (VConstFP c double_zero).

Definition castBooleantoInt (val : value) : M value :=
  t <- getInt64Ty ;; CreateZExtOrBitCast val t.

Definition castPointerToInt (val : value) : M value := t <- getInt64Ty ;; CreatePtrToInt val t.

Definition castIntToPointer (val : value) : M value :=
  t <- getInt64Ty ;; CreateIntToPtr val (TPointer t).

(** [getContainedType(0)] of a pointer type. *)
Definition pointee (t : ty) : M ty :=
  match t with TPointer t' => mret t' | _ => fail (Assertion "Index out of range!") end.

Definition getValType (val : value) : ty := getType val.
Definition getPointedType (val : value) : M ty := pointee (getType val).

(** [alloca->getAllocatedType()]. *)
Definition getAllocaType (alloca : value) : M ty := pointee (getType alloca).

Definition getFuncRetType (f : func) : ty := fret (f_type f).

Definition getStructName (t : ty) : M string :=
  match t with
  | TStruct id => i <- struct_of id ;; mret (st_name i)
  | _ => fail (Assertion "cast<Ty>() argument of incompatible type!")
  end.

(** * Struct types of the program *)

Definition getNullPointer (typeName : string) : M (option value) :=
  types <- gets structTypes ;;
  match types !! typeName with
  | Some (tempStruct, _) => mret (Some (VConstNull (TPointer (TStruct tempStruct))))
  | None => ErrorV "Attempt to create null pointer of undeclared struct type"
  end.

(** [getStructField] loads the field; its callers that want the address ask
    the load for its pointer operand, so both are returned here. *)
Definition getStructField (typeString fieldName : string) (var : value) :
    M (option (value * value)) :=
  types <- gets structTypes ;;
  match types !! typeString with
  | None => ErrorV "Unable to access undeclared struct with dot operator"
  | Some (currStruct, varList) =>
      match index_of fieldName varList with
      | None => ErrorV "Unable to evaluate field that does not belong to struct"
      | Some index =>
          CreateLoad var ;;
          gep <- CreateStructGEP (TStruct currStruct) var index ;;
          ld <- CreateLoad gep ;;
          mret (Some (ld, gep))
      end
  end.

(** The load [getStructField] returned, and its pointer operand: a null load
    has none. *)
Definition field_value (r : option (value * value)) : option value := fst <$> r.
Definition field_pointer (r : option (value * value)) : M value :=
  p <- deref r ;; mret p.2.

Definition getTypeFromString (typeName : string) (isPointer allowsVoid : bool) :
    M (option ty) :=
  c <- getContext ;;
  types <- gets structTypes ;;
  if isPointer then
    if decide (typeName = "float") then mret (Some (TPointer (TDouble c)))
    else if decide (typeName = "int") then mret (Some (TPointer (TInt c 64)))
    else if decide (typeName = "void") then mret (Some (TPointer (TInt c 64)))
    else match types !! typeName with
         | Some (tempStruct, _) => mret (Some (TPointer (TStruct tempStruct)))
         | None => ErrorV "Invalid pointer type detected"
         end
  else
    if decide (typeName = "float") then mret (Some (TDouble c))
    else if decide (typeName = "int") then mret (Some (TInt c 64))
    else if decide (typeName = "void") then
      if allowsVoid then mret (Some (TVoid c)) else ErrorV "Invalid type void detected"
    else match types !! typeName with
         | Some (tempStruct, _) => mret (Some (TStruct tempStruct))
         | None => ErrorV "Invalid type detected"
         end.

(** * Functions and stack variables *)

(** The types of the arguments, in order; the first invalid one stops. *)
Fixpoint inputArgs (arguments : list vardef) : M (option (list ty)) :=
  match arguments with
  | [] => mret (Some [])
  | argument :: arguments' =>
      type <- getTypeFromString (stringType argument) (vardef_hasPointerType argument) false ;;
      match type with
      | None => ErrorV "Invalid argument for function definition"
      | Some t =>
          rest <- inputArgs arguments' ;;
          mret (cons t <$> rest)
      end
  end.

Definition generateFunction (hasPointerType : bool) (returnType name : string)
    (arguments : list vardef) : M (option func) :=
  args <- inputArgs arguments ;;
  match args with
  | None => mret None
  | Some args =>
      type <- getTypeFromString returnType hasPointerType true ;;
      match type with
      | None => ErrorV "Invalid return for function definition"
      | Some type =>
          f <- Function_Create (mk_fun_ty type args) name
                 (setNames [] 0 (vardef_ident <$> arguments)) ;;
          mret (Some f)
      end
  end.

(** [createAlloca]: a stack variable at the front of the entry block. *)
Definition createAlloca (p : ctx * string) (type : ty) : M value :=
  f <- getFunc p ;;
  entry <- deref (head (f_blocks f)) ;;
  assert (negb (isVoidTy type)) "Cannot allocate void!" ;;
  id <- gets_ir next_inst ;;
  modify_ir (fun r =>
    ir_set_code (<[entry := (id, IAlloca type) :: default [] (blocks r !! entry)]> (blocks r))
      (detached r) (S id) r) ;;
  mret (VInst id (TPointer type)).

(** [makeSched]: the return type of the closure, from the type assigned to. *)
Definition makeSched (type : ty) : M (option value) :=
  if isIntegerTy type then modify (set_lambdaKeyword (Some "int")) ;; mret None
  else if isDoubleTy type then modify (set_lambdaKeyword (Some "float")) ;; mret None
  else ErrorV "Not yet implemented closure assignment to pointer or struct types".

(** [namedValues[name]]: a missing entry is created, null. *)
Definition namedValue (name : string) : M (option value) :=
  m <- gets namedValues ;;
  match m !! name with
  | Some v => mret v
  | None => modify (set_namedValues (<[name := None]> m)) ;; mret None
  end.

(** [namedValues.insert]: an entry that is there stays. *)
Definition namedValues_insert (name : string) (v : value) : M unit :=
  modify (fun s =>
    match namedValues s !! name with
    | Some _ => s
    | None => set_namedValues (<[name := Some v]> (namedValues s)) s
    end).

Definition structTypes_insert (name : string) (st : nat) (fields : list string) : M unit :=
  modify (fun s =>
    match structTypes s !! name with
    | Some _ => s
    | None => set_structTypes (<[name := (st, fields)]> (structTypes s)) s
    end).
