(* ===== verification/GrammarFacts.v ===== *)
(** The rules of [parser.y] and the tables that bison makes of them: the
    tables pass the checks, and the values that the actions are given have the
    members of the union that they read. *)

From S2P Require Import Prelude Lexer LexerFacts LexerProps Ast AstPrint AstProps IR State Builder CodeGenBase.
From S2P Require Import Bison BisonFacts Grammar.

(** * The tables *)

Lemma tables_checked : tables_ok rules tables End_of_file = true.
Proof. vm_compute. reflexivity. Qed.

(** A rule of one symbol leads down in this order. *)
Definition rank (x : symbol terminal nonterminal) : nat :=
  match x with
  | Term _ => 6
  | NonTerm n =>
      match n with
      | ident | numeric => 5
      | rexp => 4
      | exp | variableDec => 3
      | callArgs | functionArgs | statement => 2
      | statements => 1
      | accept_ | program_ => 0
      | _ => 4
      end
  end.

(** An empty list of arguments stands behind a parenthesis. *)
Definition opens (t : terminal) : bool := bool_decide (t = Tok TLPAREN).

Lemma tables_end : ends_ok rules tables rank opens 6 = true.
Proof. vm_compute. reflexivity. Qed.

(** * The tokens of the lexer *)

(** The kinds whose text varies. *)
Definition varies (k : kind) : bool :=
  match k with TFLOATLIT | TINTLIT | TIDENTIFIER => true | _ => false end.

(** A token has its text where the grammar reads it, and an operator has the
    text of its kind. *)
Definition good (t : token) : Prop :=
  match t with
  | Plain k => has_text k = false
  | Text k s => has_text k = true /\ (varies k = false -> s = spelling k)
  end.

Lemma lit_matches s w : matches (lit s) w -> w = String.list_ascii_of_string s.
Proof.
  unfold lit. generalize (String.list_ascii_of_string s). clear s. intros l. revert w.
  induction l as [|c l IH]; intros w; simpl.
  - by intros ?%matches_Eps.
  - intros (u & v & -> & (d & -> & E%Ascii.eqb_eq)%matches_Class & H)%matches_Seq. subst d.
    by rewrite (IH v H).
Qed.

(** What a rule of the lexer that gives a token is like. *)
Definition rule_gives (r : Lexer.rule) : Prop :=
  match act r with
  | TOKEN k => has_text k = false
  | SAVE_TOKEN k => has_text k = true /\ (varies k = true \/ pattern r = lit (spelling k))
  | _ => True
  end.

Lemma rules_give : Forall rule_gives Lexer.rules.
Proof.
  unfold Lexer.rules. repeat (apply Forall_cons; split); try apply Forall_nil_2;
    unfold rule_gives; cbn [act pattern]; try done; (split; [done |]); first [by left | by right].
Qed.

Lemma scan_good b s ts rest out : scan b s ts rest out -> Forall good ts.
Proof.
  induction 1 as [| |b s n k ts rest out (i & r & Hi & Ha & _) _ IH|b s n k ts rest out (i & r & Hi & Ha & Hm & _) _ IH|];
    try done; constructor; try done.
  - pose proof (proj1 (Forall_lookup _ _) rules_give i r Hi) as H. unfold rule_gives in H. by rewrite Ha in H.
  - pose proof (proj1 (Forall_lookup _ _) rules_give i r Hi) as H. unfold rule_gives in H. rewrite Ha in H.
    destruct H as [H1 H2]. split; [done |]. intros Hv. destruct H2 as [H2|H2]; [congruence |].
    destruct Hm as (_ & _ & Hm). rewrite H2 in Hm. apply lit_matches in Hm. rewrite Hm.
    apply String.string_of_list_ascii_of_string.
Qed.

Lemma lex_good text ts s : lex text = (Ok ts, s) -> Forall good ts.
Proof.
  unfold lex. intros E. destruct (tokens_run (S (length text)) (open_text text))
    as (ts' & s' & out & E' & _ & H & _); [cbn [input open_text]; lia |].
  rewrite E in E'. injection E' as <- <-. by eapply scan_good.
Qed.

(** * The values of the symbols *)

(** The operators of a tree are those that the code generator knows. *)
Definition known_op (op : string) : bool := bool_decide (is_Some (switchMap !! op)).
Definition known_unary (op : string) : bool := bool_decide (op ∈ ["-"; "!"; "new"]).

Fixpoint known_expr (e : expr) : bool :=
  match e with
  | UnaryOperator op e => known_unary op && known_expr e
  | BinaryOperator l op r => known_op op && (known_expr l && known_expr r)
  | FunctionCall _ args => forallb known_expr args
  | PointerExpression _ (Some e) _ | AddressOfExpression _ (Some e) => known_expr e
  | _ => true
  end.

Definition known_vardef (v : vardef) : bool :=
  match v with VariableDefinition _ _ _ (Some e) _ => known_expr e | _ => true end.

Fixpoint known (s : stmt) : bool :=
  let block b := match b with Some l => forallb known l | None => true end in
  let arm b := match b with Some b => block b | None => true end in
  match s with
  | SVariable v => known_vardef v
  | StructureDefinition _ b => block b
  | FunctionDefinition _ _ args b _ => forallb known_vardef args && block b
  | ExpressionStatement _ e => known_expr e
  | ReturnStatement (Some e) => known_expr e
  | ReturnStatement None => true
  | AssignStatement _ l r => known_expr l && known_expr r
  | IfStatement e b eb => known_expr e && arm b && arm eb
  | ExternStatement _ _ args _ => forallb known_vardef args
  end.

Definition known_block (b : block) : bool := match b with Some l => forallb known l | None => true end.

(** The member of the union that the actions read of a symbol. *)
Definition fits (x : symbol terminal nonterminal) (v : sval) : Prop :=
  match x with
  | Term (Tok k) =>
      if has_text k then exists s, v = Vstring s /\ (varies k = false -> s = spelling k) else v = Vtoken
  | Term _ => False
  | NonTerm n =>
      match n with
      | accept_ => True
      | program_ | statements => exists l, v = Vblock (Some l) /\ forallb known l = true
      | statement | externStatement | if_statement | structDec_f | functionDec =>
          exists s, v = Vstatement s /\ known s = true
      | block_ => exists b, v = Vblock b /\ known_block b = true
      | variableDec => exists d, v = Vvariable d /\ known_vardef d = true
      | structDec_b => exists x, v = Vstructure x
      | var_keyword | struct_keyword => exists x, v = Vkeyword x
      | functionArgs => exists l, v = Vvariables l /\ forallb known_vardef l = true
      | callArgs => exists l, v = Vexpressions l /\ forallb known_expr l = true
      | rexp | exp | numeric => exists e, v = Vexp e /\ known_expr e = true
      | ident => exists x, v = Vident x
      | binaryOperatorToken => exists op, v = Vstring op /\ known_op op = true
      | unaryOperatorToken => exists op, v = Vstring op /\ known_unary op = true
      | leftBraceToken | rightBraceToken | externStatement_h => v = Vtoken
      end
  end.

Lemma good_fits t : good t -> fits (Term (class t)) (value t).
Proof. destruct t as [k|k s]; simpl; intros H; [by rewrite H | destruct H as [-> H]; by exists s]. Qed.

(** ** The constructors *)

Lemma strlen_cstring s : exists n, strlen (cstring s) = Some n.
Proof.
  unfold cstring. induction (String.list_ascii_of_string s) as [|c l [n IH]]; simpl; [by exists 0 |].
  destruct (decide (c = nul)); [by exists 0 |]. rewrite IH. by exists (S n).
Qed.

(** Every name has a copy. *)
Lemma dup_cstring s : exists name x, dup_char (cstring s) = Some name /\ c_str name = Some x.
Proof.
  destruct (strlen_cstring s) as [n Hn]. unfold dup_char. rewrite Hn. simpl.
  eexists _, _. split; [reflexivity |]. unfold c_str. by rewrite Nat.add_1_r, (strlen_take _ _ Hn).
Qed.

(** A name without a zero byte is its own copy. *)
Lemma strlen_proper s : Forall (fun c => c <> nul) (String.list_ascii_of_string s) ->
  strlen (cstring s) = Some (length (String.list_ascii_of_string s)).
Proof.
  unfold cstring. induction (String.list_ascii_of_string s) as [|c l IH]; intros H; [done |].
  apply Forall_cons in H as [Hc H]. simpl. rewrite decide_False by done. by rewrite (IH H).
Qed.

Lemma dup_proper s : Forall (fun c => c <> nul) (String.list_ascii_of_string s) ->
  dup_char (cstring s) = Some (cstring s) /\ c_str (cstring s) = Some s.
Proof.
  intros H. unfold dup_char, c_str. rewrite (strlen_proper _ H). simpl. unfold cstring. split.
  - f_equal. rewrite firstn_all2; [done |]. rewrite length_app. simpl. lia.
  - rewrite take_app_length. by rewrite String.string_of_list_ascii_of_string.
Qed.

Lemma new_ident_some s : exists x, new_ident s = Some x.
Proof.
  destruct (dup_cstring s) as (name & x & E1 & E2). unfold new_ident, new_Identifier. rewrite E1. simpl. rewrite E2.
  by exists x.
Qed.

(** An operator is copied as it is. *)
Lemma operator_proper op : known_op op || known_unary op = true -> Forall (fun c => c <> nul) (String.list_ascii_of_string op).
Proof.
  intros H. apply orb_true_iff in H as [H|H].
  - apply bool_decide_eq_true in H as [o H]. unfold switchMap in H.
    repeat (apply lookup_insert_Some in H as [[<- _]|[_ H]]; [by repeat constructor |]). done.
  - apply bool_decide_eq_true in H. rewrite !elem_of_cons in H.
    destruct H as [->|[->|[->|H]]]; [by repeat constructor.. |]. by apply elem_of_nil in H.
Qed.

Lemma binary_some l op r : known_op op = true -> new_BinaryOperator l (cstring op) r = Some (BinaryOperator l op r).
Proof.
  intros H. destruct (dup_proper op) as [E1 E2]; [apply operator_proper; by rewrite H |].
  unfold new_BinaryOperator. rewrite E1. simpl. by rewrite E2.
Qed.

Lemma unary_some op e : known_unary op = true -> new_UnaryOperator (cstring op) e = Some (UnaryOperator op e).
Proof.
  intros H. destruct (dup_proper op) as [E1 E2]; [apply operator_proper; rewrite H; apply orb_true_r |].
  unfold new_UnaryOperator. rewrite E1. simpl. by rewrite E2.
Qed.

Lemma known_commit s c : known (setCommit s c) = known s.
Proof. by destruct s as [[]| | | | | | |]. Qed.

(** ** The actions *)

Definition action_fits (r : rule terminal nonterminal sval) : Prop := forall vs,
  Forall2 fits (rhs r) vs -> exists v, action r vs = Some v /\ fits (NonTerm (lhs r)) v.

Ltac open_values :=
  repeat match goal with
  | H : Forall2 _ [] _ |- _ => apply Forall2_nil_inv_l in H; subst
  | H : Forall2 _ (_ :: _) _ |- _ => apply Forall2_cons_inv_l in H as (? & ? & H & ? & ->)
  | H : fits _ _ |- _ => progress simpl in H
  | H : exists _, _ |- _ => destruct H
  | H : _ /\ _ |- _ => destruct H
  | H : False |- _ => destruct H
  end; subst.

Ltac rewrite_known :=
  simpl; rewrite ?known_commit, ?forallb_app; simpl; unfold known_block in *;
  repeat match goal with H : _ = true |- _ => rewrite H; simpl end; done.

Ltac close_value :=
  simpl; first
    [ done
    | by eexists
    | eexists; split; [reflexivity | rewrite_known]
    | match goal with d : vardef |- _ => destruct d end; eexists; (split; [reflexivity | rewrite_known]) ].

Lemma statement_rules_fit : Forall action_fits (tail statement_rules).
Proof.
  unfold statement_rules. cbn [tail].
  repeat (apply Forall_cons; split); try apply Forall_nil_2; intros vs H; simpl in H; open_values; simpl.
  all: eexists; split; [reflexivity | close_value].
Qed.

Lemma declaration_rules_fit : Forall action_fits declaration_rules.
Proof.
  unfold declaration_rules.
  repeat (apply Forall_cons; split); try apply Forall_nil_2; intros vs H; simpl in H; open_values; simpl.
  all: eexists; split; [reflexivity | close_value].
Qed.

Lemma expression_rules_fit : Forall action_fits expression_rules.
Proof.
  unfold expression_rules.
  repeat (apply Forall_cons; split); try apply Forall_nil_2; intros vs H; simpl in H; open_values; simpl.
  all: try match goal with |- context [new_ident ?s] => destruct (new_ident_some s) as [? ->] end.
  all: try match goal with H : false = false -> _ |- context [new_BinaryOperator] =>
         specialize (H eq_refl); subst end.
  all: try rewrite binary_some by done; try rewrite unary_some by done.
  all: eexists; split; [reflexivity | close_value].
Qed.

Lemma operator_rules_fit : Forall action_fits operator_rules.
Proof.
  unfold operator_rules. cbn [fmap list_fmap app].
  repeat (apply Forall_cons; split); try apply Forall_nil_2; intros vs H; simpl in H; open_values; simpl.
  all: eexists; split; [reflexivity |]; simpl; try done.
  all: eexists; split; [reflexivity |].
  all: match goal with H : false = false -> _ |- _ => rewrite (H eq_refl); vm_compute; reflexivity end.
Qed.

Lemma rules_fit i r vs : i <> 0 -> rules !! i = Some r -> Forall2 fits (rhs r) vs ->
  exists v, action r vs = Some v /\ fits (NonTerm (lhs r)) v.
Proof.
  intros Hi Hr. assert (Forall action_fits (tail rules)) as H.
  { unfold rules. change (tail (statement_rules ++ ?l)) with (tail statement_rules ++ l).
    rewrite !Forall_app. split_and!; [apply statement_rules_fit | apply declaration_rules_fit
      | apply expression_rules_fit | apply operator_rules_fit]. }
  destruct i as [|i]; [done |]. rewrite Forall_lookup in H. apply (H i r).
  etrans; [apply lookup_tail |]. done.
Qed.
