(* ===== verification/Syntax.v ===== *)
(** The programs that the parser accepts, as texts of tokens with the trees
    they stand for: what [parser.y] amounts to once bison has resolved the
    conflicts of its rules.

    The precedences of the operators have almost no effect, because an operator
    comes to the rule of binary expressions as a [binaryOperatorToken]: what
    stands behind an operator is its right operand, as far as it goes.  Only
    [==] has a rule of its own, which ends in front of an operator of its
    level. *)

From S2P Require Import Prelude Lexer LexerFacts LexerProps Ast AstPrint Bison Grammar.

(** * Tokens *)

(** A token of a kind with one spelling, and a name. *)
Definition sign (k : kind) : token := if has_text k then Text k (spelling k) else Plain k.
Definition name (x : string) : token := Text TIDENTIFIER x.
Definition named (x : string) : Prop := is_identifier x = true.

Definition loose : list kind := [TEQUAL; TNEQUAL; TLT; TLTE; TGT; TGTE; TLAND; TLOR].
Definition tight : list kind := [TPLUS; TDASH; TSTAR; TSLASH].
Definition binary : list kind := loose ++ tight.
Definition prefix : list kind := [TDASH; TLNOT; TNEW].

Definition starts_with (ks : list kind) (ts : list token) : bool :=
  match ts with t :: _ => bool_decide (class t ∈ (Tok <$> ks)) | [] => false end.

(** * Expressions *)

(** What may be assigned to; an operand of an operator; the arguments of a
    call, which may begin with a comma; an expression.

    [continues l ts e]: behind the operand [l] the text [ts] of operators and
    operands makes it the expression [e]. *)
Inductive place : list token -> expr -> Prop :=
  | place_name x : named x -> place [name x] (Identifier x)
  | place_star x : named x -> place [sign TSTAR; name x] (PointerExpression x (Some (Integer 0)) None)
  | place_index x ts e : named x -> expression ts e ->
      place (name x :: sign TLSBRACE :: ts ++ [sign TRSBRACE]) (PointerExpression x (Some e) None)
  | place_field x f : named x -> named f -> place [name x; sign TDOT; name f] (StructureExpression x f)
  | place_star_field x f : named x -> named f ->
      place [sign TSTAR; name x; sign TDOT; name f] (PointerExpression x (Some (Integer 0)) (Some f))
with operand : list token -> expr -> Prop :=
  | operand_place ts e : place ts e -> operand ts e
  | operand_integer s : is_number (String.list_ascii_of_string s) = true ->
      operand [Text TINTLIT s] (Integer (atol s))
  | operand_float s : is_fraction (String.list_ascii_of_string s) = true ->
      operand [Text TFLOATLIT s] (Float (atof s))
  | operand_null : operand [sign TNULL] NullLiteral
  | operand_parentheses ts e : expression ts e -> operand (sign TLPAREN :: ts ++ [sign TRPAREN]) e
  | operand_call f ts args : named f -> call_arguments ts args ->
      operand (name f :: sign TLPAREN :: ts ++ [sign TRPAREN]) (FunctionCall f args)
  | operand_address x : named x -> operand [sign TSAMPR; name x] (AddressOfExpression x None)
  | operand_address_index x ts e : named x -> expression ts e ->
      operand (sign TSAMPR :: name x :: sign TLSBRACE :: ts ++ [sign TRSBRACE]) (AddressOfExpression x (Some e))
  | operand_prefix k ts e : k ∈ prefix -> operand ts e ->
      operand (sign k :: ts) (UnaryOperator (spelling k) e)
with call_arguments : list token -> list expr -> Prop :=
  | arguments_none : call_arguments [] []
  | arguments_one ts e : expression ts e -> call_arguments ts [e]
  | arguments_more ts l ts' e : call_arguments ts l -> expression ts' e ->
      call_arguments (ts ++ sign TCOMMA :: ts') (l ++ [e])
with expression : list token -> expr -> Prop :=
  | expression_operand ts l rest e : operand ts l -> continues l rest e -> expression (ts ++ rest) e
with continues : expr -> list token -> expr -> Prop :=
  | continues_end e : continues e [] e
  | continues_right l k ts r rest e :
      k ∈ binary -> (k = TEQUAL -> starts_with [TLNOT] ts || starts_with tight rest = true) ->
      operand ts r -> continues r rest e ->
      continues l (sign k :: ts ++ rest) (BinaryOperator l (spelling k) e)
  | continues_left l ts r rest e :
      starts_with [TLNOT] ts || starts_with tight rest = false ->
      operand ts r -> continues (BinaryOperator l (spelling TEQUAL) r) rest e ->
      continues l (sign TEQUAL :: ts ++ rest) e.

Scheme place_scheme := Minimality for place Sort Prop
with operand_scheme := Minimality for operand Sort Prop
with arguments_scheme := Minimality for call_arguments Sort Prop
with expression_scheme := Minimality for expression Sort Prop
with continues_scheme := Minimality for continues Sort Prop.

Combined Scheme expressions_ind from place_scheme, operand_scheme, arguments_scheme,
  expression_scheme, continues_scheme.

(** * Declarations *)

Definition types : list kind := [TINT; TFLOAT; TVOID].

(** A variable; the parameters of a function, which may begin with a comma. *)
Inductive variable : list token -> vardef -> Prop :=
  | variable_plain k x : k ∈ types -> named x ->
      variable [sign k; name x] (VariableDefinition false (spelling k) x None false)
  | variable_pointer k x : k ∈ types -> named x ->
      variable [sign k; sign TSTAR; name x] (VariableDefinition false (spelling k) x None true)
  | variable_value k x ts e : k ∈ types -> named x -> expression ts e ->
      variable (sign k :: name x :: sign TSET :: ts) (VariableDefinition false (spelling k) x (Some e) false)
  | variable_pointer_value k x ts e : k ∈ types -> named x -> expression ts e ->
      variable (sign k :: sign TSTAR :: name x :: sign TSET :: ts)
        (VariableDefinition false (spelling k) x (Some e) true)
  | variable_structure t x : named t -> named x -> variable [name t; name x] (StructureDeclaration t x false)
  | variable_structure_pointer t x : named t -> named x ->
      variable [name t; sign TSTAR; name x] (StructureDeclaration t x true).

Inductive parameters : list token -> list vardef -> Prop :=
  | parameters_none : parameters [] []
  | parameters_one ts v : variable ts v -> parameters ts [v]
  | parameters_more ts l ts' v : parameters ts l -> variable ts' v ->
      parameters (ts ++ sign TCOMMA :: ts') (l ++ [v]).

(** * Statements *)

Definition semicolon (c : bool) : list token := if c then [sign TSCOLON] else [].
Definition star (p : bool) : list token := if p then [sign TSTAR] else [].
Definition line (b : bool) : list token := if b then [sign TENDL] else [].

(** A name and a star at the beginning of a statement are a declaration. *)
Definition declares_pointer (ts : list token) : bool :=
  starts_with [TIDENTIFIER] ts && starts_with [TSTAR] (tail ts).

(** The type of a function. *)
Inductive type_text : list token -> rettype -> Prop :=
  | type_keyword k : k ∈ types -> type_text [sign k] (KeywordType (spelling k))
  | type_name t : named t -> type_text [name t] (UserType t).

(** A statement with the end of its line; a return that needs none, in front
    of the brace that closes its block; blocks.

    [closing b]: a line may end behind it. *)
Inductive statement_text : list token -> stmt -> Prop :=
  | statement_variable c ts v : variable ts v ->
      statement_text (ts ++ semicolon c ++ [sign TENDL]) (setCommit (SVariable v) c)
  | statement_assign c tp p ts e : place tp p -> expression ts e ->
      statement_text (tp ++ sign TSET :: ts ++ semicolon c ++ [sign TENDL]) (AssignStatement c p e)
  | statement_expression c ts e : expression ts e -> declares_pointer ts = false ->
      statement_text (ts ++ semicolon c ++ [sign TENDL]) (ExpressionStatement c e)
  | statement_return c : statement_text (sign TRETURN :: semicolon c ++ [sign TENDL]) (ReturnStatement None)
  | statement_return_value ts e : expression ts e ->
      statement_text (sign TRETURN :: ts ++ [sign TENDL]) (ReturnStatement (Some e))
  | statement_function tt t p x ta args tb b :
      type_text tt t -> named x -> parameters ta args -> block_text tb b ->
      statement_text (tt ++ star p ++ name x :: sign TLPAREN :: ta ++ sign TRPAREN :: tb ++ [sign TENDL])
        (FunctionDefinition t x args b p)
  | statement_structure x tb b : named x -> block_text tb b ->
      statement_text (sign TSTRUCT :: name x :: tb ++ [sign TSCOLON; sign TENDL]) (StructureDefinition x b)
  | statement_if ts e tb b : expression ts e -> block_text tb b ->
      statement_text (sign TIF :: sign TLPAREN :: ts ++ sign TRPAREN :: tb ++ [sign TENDL])
        (IfStatement e (Some b) None)
  | statement_if_else ts e tb b te be : expression ts e -> block_text tb b -> block_text te be ->
      statement_text (sign TIF :: sign TLPAREN :: ts ++ sign TRPAREN :: tb ++ sign TELSE :: te ++ [sign TENDL])
        (IfStatement e (Some b) (Some be))
  | statement_extern k p x ta args : k ∈ types -> named x -> parameters ta args ->
      statement_text (sign TEXTERN :: sign k :: star p ++
        name x :: sign TLPAREN :: ta ++ [sign TRPAREN; sign TSCOLON; sign TENDL])
        (ExternStatement (spelling k) x args p)
with last_text : bool -> list token -> stmt -> Prop :=
  | last_return : last_text false [sign TRETURN] (ReturnStatement None)
  | last_return_value ts e : expression ts e -> last_text false (sign TRETURN :: ts) (ReturnStatement (Some e))
  | last_return_semicolon ts e : expression ts e ->
      last_text true (sign TRETURN :: ts ++ [sign TSCOLON]) (ReturnStatement (Some e))
with statements_text : list token -> list stmt -> Prop :=
  | statements_one ts s : statement_text ts s -> statements_text ts [s]
  | statements_more ts l ts' s : statements_text ts l -> statement_text ts' s ->
      statements_text (ts ++ ts') (l ++ [s])
with body_text : bool -> list token -> list stmt -> Prop :=
  | body_statements ts l : statements_text ts l -> body_text true ts l
  | body_last b ts s : last_text b ts s -> body_text b ts [s]
  | body_more b ts l ts' s : statements_text ts l -> last_text b ts' s -> body_text b (ts ++ ts') (l ++ [s])
with block_text : list token -> block -> Prop :=
  | block_empty b : block_text (sign TLBRACE :: line b ++ [sign TRBRACE]) new_Block
  | block_body b ts l closing b' : body_text closing ts l -> (b' = true -> closing = true) ->
      block_text (sign TLBRACE :: line b ++ ts ++ line b' ++ [sign TRBRACE]) (Some l).

Scheme statement_scheme := Minimality for statement_text Sort Prop
with last_scheme := Minimality for last_text Sort Prop
with statements_scheme := Minimality for statements_text Sort Prop
with body_scheme := Minimality for body_text Sort Prop
with block_scheme := Minimality for block_text Sort Prop.

Combined Scheme statements_ind from statement_scheme, last_scheme, statements_scheme, body_scheme, block_scheme.
