(* ===== verification/Parts.v ===== *)
(** Parts of a program in the tables of the parser: where each part may stand,
    and a check that a rule of the grammar, read from every such state, is
    reduced at every token that may follow. *)

From S2P Require Import Prelude Lexer LexerFacts LexerProps Ast AstPrint Bison BisonFacts Grammar GrammarFacts Syntax.
From stdpp Require Import base.
Local Open Scope nat_scope.

Local Abbreviation goes := (BisonFacts.goes rules tables class value).
Local Abbreviation goes_all := (BisonFacts.goes_all rules tables class value).
Local Abbreviation first_class := (BisonFacts.first_class class).
Local Abbreviation next := (next_state tables).
Local Abbreviation at_token := (step_at tables).
Local Abbreviation N := (@NonTerm terminal nonterminal).

(** * Parts of a program

    A part stands in the states and in front of the tokens that [stands]
    allows.  That an operand is a name alone, and that an expression begins
    with a name and a star, matters where a statement begins: there it is read
    as the declaration of a pointer.  That an operand begins with [!] matters
    behind [==].  [Last] and [Body] stand in front of the
    brace that closes their block, with an end of line between or without. *)
Inductive shape : Type := Alone | Negated | Harmless.

Inductive part : Type :=
  | Place (alone : bool) | Operand (s : shape) | Arguments | Expression (declares : bool)
  | Variable_ | Parameters | Function_ | Head | Structure | Extern_ | If_ | Statement
  | Last (closing : bool) | Statements | Body (closing : bool) | Block_ | Program_.

Definition symbol_of (p : part) : nonterminal :=
  match p with
  | Place _ => rexp | Operand _ | Expression _ => exp | Arguments => callArgs
  | Variable_ => variableDec | Parameters => functionArgs | Function_ => functionDec
  | Head => structDec_b | Structure => structDec_f
  | Extern_ => externStatement | If_ => if_statement | Statement | Last _ => statement
  | Statements | Body _ => statements | Block_ => block_ | Program_ => program_
  end.

(** What a part begins with, where that matters. *)
Definition operand_heads : list kind :=
  [TIDENTIFIER; TINTLIT; TFLOATLIT; TNULL; TLPAREN; TSTAR; TSAMPR; TDASH; TLNOT; TNEW].
Definition statement_heads : list kind := operand_heads ++ [TINT; TFLOAT; TVOID; TSTRUCT; TIF; TEXTERN; TRETURN].

Definition heads_of (p : part) : option (list kind) :=
  match p with
  | Operand _ | Place _ | Expression _ => Some operand_heads
  | Statement | Statements | Body _ => Some statement_heads
  | Variable_ | Function_ => Some [TIDENTIFIER; TINT; TFLOAT; TVOID]
  | Structure | Head => Some [TSTRUCT]
  | Extern_ => Some [TEXTERN]
  | If_ => Some [TIF]
  | Last _ => Some [TRETURN]
  | Block_ => Some [TLBRACE]
  | _ => None
  end.

(** Where a symbol leads, and whether a state is inside a rule. *)
Definition leads (n : nonterminal) (i : nat) : bool := bool_decide (is_Some (next i (N n))).
Definition to (i : nat) (n : nonterminal) : nat := default 0 (next i (N n)).

Definition rule_of (n : nonterminal) (xs : list (symbol terminal nonterminal)) : nat :=
  match filter (fun p => lhs p.2 = n /\ rhs p.2 = xs) (imap pair rules) with p :: _ => p.1 | [] => 0 end.

Definition inside (r d i : nat) : bool :=
  match tables !! i with Some row => bool_decide ((r, d) ∈ items row) | None => false end.

(** Behind [==] and behind a prefix an operand stands, but no expression. *)
Definition equal_rule : nat := Eval vm_compute in rule_of exp [N exp; Term (Tok TEQUAL); N exp].
Definition binary_rule : nat := Eval vm_compute in rule_of exp [N exp; N binaryOperatorToken; N exp].
Definition prefix_rule : nat := Eval vm_compute in rule_of exp [N unaryOperatorToken; N exp].
Definition behind_equal : nat -> bool := inside equal_rule 2.
Definition behind_prefix : nat -> bool := inside prefix_rule 1.

Definition token_of (t : terminal) (l : list kind) : bool := bool_decide (t ∈ (Tok <$> l)).

Definition ends (i : nat) (t : terminal) : bool :=
  if leads statement i then token_of t [TENDL; TSCOLON]
  else token_of t [TENDL; TSCOLON; TRPAREN; TRBRACE; TRSBRACE; TCOMMA].

Definition is_star (i : nat) (alone : bool) (t : terminal) : bool :=
  leads statement i && alone && token_of t [TSTAR].

Definition stands (p : part) (i : nat) (t : terminal) : bool :=
  leads (symbol_of p) i &&
  match p with
  | Operand Alone => negb (is_star i true t) && (ends i t || token_of t binary)
  | Operand Negated => negb (behind_equal i) && (ends i t || token_of t binary)
  | Operand Harmless => ends i t || token_of t binary
  | Place alone =>
      negb (is_star i alone t) && (ends i t || token_of t binary || (leads statement i && token_of t [TSET]))
  | Arguments | Parameters => token_of t [TRPAREN; TCOMMA]
  | Expression declares =>
      negb (behind_equal i || behind_prefix i || (leads statement i && declares)) && ends i t
  | Variable_ => if leads statement i then token_of t [TENDL; TSCOLON] else token_of t [TRPAREN; TCOMMA]
  | Head => token_of t [TLBRACE]
  | Function_ | Structure | Extern_ | If_ => token_of t [TENDL]
  | Statement => bool_decide (t ∈ terminals)
  | Last closing => token_of t (TRBRACE :: if closing then [TENDL] else [])
  | Body closing => negb (leads program_ i) && token_of t (TRBRACE :: if closing then [TENDL] else [])
  | Statements =>
      if leads program_ i then bool_decide (t ∈ terminals)
      else token_of t (TRBRACE :: TENDL :: statement_heads)
  | Block_ => token_of t [TENDL; TSCOLON; TELSE]
  | Program_ => bool_decide (t ∈ terminals) && negb (token_of t statement_heads)
  end.

Definition reads (p : part) (ts : list token) (v : sval) : Prop :=
  (forall l, heads_of p = Some l -> starts_with l ts = true) /\
  forall i la, stands p i la = true -> goes i (N (symbol_of p)) ts v la (to i (symbol_of p)).

(** * Rules as pieces of text

    A token; a token that is all of a symbol; a part. *)
Inductive piece : Type := Sign (k : kind) | Only (n : nonterminal) (k : kind) | Part (p : part).

Definition symbol_at (x : piece) : symbol terminal nonterminal :=
  match x with Sign k => Term (Tok k) | Only n _ => N n | Part p => N (symbol_of p) end.

Definition act_of (n : nonterminal) (xs : list (symbol terminal nonterminal)) (vs : list sval) : option sval :=
  match rules !! rule_of n xs with Some r => action r vs | None => None end.

Inductive spells : list piece -> list token -> list sval -> Prop :=
  | spells_nil : spells [] [] []
  | spells_sign k t xs ts vs : class t = Tok k -> spells xs ts vs ->
      spells (Sign k :: xs) (t :: ts) (value t :: vs)
  | spells_only n k t v xs ts vs : class t = Tok k -> act_of n [Term (Tok k)] [value t] = Some v ->
      spells xs ts vs -> spells (Only n k :: xs) (t :: ts) (v :: vs)
  | spells_part p ts v xs ts' vs : reads p ts v -> spells xs ts' vs ->
      spells (Part p :: xs) (ts ++ ts') (v :: vs).

(** ** The check *)

(** How the pieces may begin, [None] when nothing is known of it. *)
Definition heads (xs : list piece) (las : list terminal) : option (list terminal) :=
  match xs with
  | [] => Some las
  | Sign k :: _ | Only _ k :: _ => Some [Tok k]
  | Part p :: _ => option_map (List.map Tok) (heads_of p)
  end.

Definition every (f : terminal -> bool) (l : option (list terminal)) : bool :=
  match l with Some l => forallb f l | None => false end.

Definition reduces_to (i : nat) (r : nat) (t : terminal) : bool := bool_decide (at_token i t = Some (Reduce r)).
Definition is_rule (n : nonterminal) (xs : list (symbol terminal nonterminal)) : bool :=
  bool_decide (option_map (fun r => (lhs r, rhs r)) (rules !! rule_of n xs) = Some (n, xs)).

Fixpoint passes (i : nat) (xs : list piece) (las : list terminal) : option nat :=
  match xs with
  | [] => Some i
  | Sign k :: xs => match at_token i (Tok k) with Some (Shift j) => passes j xs las | _ => None end
  | Only n k :: xs =>
      match at_token i (Tok k), next i (N n) with
      | Some (Shift m), Some j =>
          if every (reduces_to m (rule_of n [Term (Tok k)])) (heads xs las) && is_rule n [Term (Tok k)]
          then passes j xs las else None
      | _, _ => None
      end
  | Part p :: xs =>
      if every (stands p i) (heads xs las) then passes (to i (symbol_of p)) xs las else None
  end.

(** The pieces are a rule for the part wherever it stands. *)
Definition rule_passes (p : part) (xs : list piece) : bool :=
  let n := symbol_of p in
  let r := rule_of n (symbol_at <$> xs) in
  is_rule n (symbol_at <$> xs) &&
  match heads_of p with Some l => every (fun t => token_of t l) (heads xs [End_of_file]) | None => true end &&
  forallb (fun i =>
    let las := List.filter (stands p i) terminals in
    (length las =? 0) ||
    match passes i xs las with
    | Some k => forallb (reduces_to k r) las && leads n i
    | None => false
    end) (seq 0 (length tables)).

(** ** What the check says *)

Lemma starts_first l ts la : starts_with l ts = true -> first_class ts la ∈ Tok <$> l.
Proof. destruct ts as [|t ts]; simpl; [done |]. by intros H%bool_decide_eq_true. Qed.

Lemma first_class_app ts ts' la l : starts_with l ts = true -> first_class (ts ++ ts') la = first_class ts la.
Proof. by destruct ts. Qed.

Lemma spells_heads xs ts vs la las l : spells xs ts vs -> In la las -> heads xs las = Some l ->
  In (first_class ts la) l.
Proof.
  intros H Hla. destruct H as [|k t xs ts vs Hk _|n k t v xs ts vs Hk _ _|p ts v xs ts' vs [Hh _] _]; simpl.
  - by intros [= <-].
  - intros [= <-]. left. congruence.
  - intros [= <-]. left. congruence.
  - destruct (heads_of p) as [l'|]; [| done]. intros [= <-].
    rewrite (first_class_app _ _ _ l') by auto. by apply list_elem_of_In, starts_first, Hh.
Qed.

Lemma every_head f xs ts vs la las : spells xs ts vs -> In la las -> every f (heads xs las) = true ->
  f (first_class ts la) = true.
Proof.
  intros H Hla. destruct (heads xs las) as [l|] eqn:E; [| done]. intros Hf. simpl in Hf.
  rewrite forallb_forall in Hf. by eapply Hf, spells_heads.
Qed.

Lemma goes_by_rule n xs i ts vs v la k : is_rule n xs = true ->
  goes_all i xs ts vs la k -> reduces_to k (rule_of n xs) la = true -> act_of n xs vs = Some v ->
  is_Some (next i (N n)) -> goes i (N n) ts v la (to i n).
Proof.
  unfold is_rule, act_of, reduces_to, to. intros H%bool_decide_eq_true Hall Hs%bool_decide_eq_true Ha [j Hj].
  rewrite Hj. destruct (rules !! rule_of n xs) as [rl|] eqn:Hr; [| done]. simpl in H. injection H as <- Hrhs.
  rewrite <- Hrhs in Hall. by eapply goes_rule.
Qed.

Lemma goes_all_token i k j c t xs ts vs la : class t = c -> at_token i c = Some (Shift k) ->
  goes_all k xs ts vs la j -> goes_all i (Term c :: xs) (t :: ts) (value t :: vs) la j.
Proof. intros <- Hs H. apply (goes_cons _ _ _ _ i (Term (class t)) xs [t] ts _ _ _ k); [by constructor | done]. Qed.

Lemma goes_last i x ts v la j : goes i x ts v la j -> goes_all i [x] ts [v] la j.
Proof. intros H. rewrite <- (app_nil_r ts). eapply goes_cons; [exact H | constructor]. Qed.

Lemma passes_goes xs ts vs : spells xs ts vs -> forall i las k la,
  passes i xs las = Some k -> In la las -> goes_all i (symbol_at <$> xs) ts vs la k.
Proof.
  induction 1 as [|c t xs ts vs Hk Hsp IH|n c t v xs ts vs Hk Hv Hsp IH|p ts v xs ts' vs [Hh Hp] Hsp IH];
    intros i las k la; simpl.
  - intros [= <-] _. constructor.
  - destruct (at_token i (Tok c)) as [[j|]|] eqn:Hs; [| done..]. intros H Hla.
    eapply goes_all_token; [exact Hk | exact Hs | by eapply IH].
  - destruct (at_token i (Tok c)) as [[m|]|] eqn:Hs; [| done..]. destruct (next i (N n)) as [j|] eqn:Hj; [| done].
    destruct (every _ _ && _) eqn:E; [| done]. apply andb_true_iff in E as [Hr Hn]. intros H Hla.
    apply (goes_cons _ _ _ _ i (N n) (symbol_at <$> xs) [t] ts v vs la j k); [| by eapply IH].
    assert (to i n = j) as <- by (unfold to; by rewrite Hj).
    eapply (goes_by_rule n [Term (Tok c)]); [exact Hn | | | exact Hv | by rewrite Hj].
    + eapply goes_all_token; [exact Hk | exact Hs | constructor].
    + by eapply every_head in Hr.
  - destruct (every _ _) eqn:E; [| done]. intros H Hla.
    eapply goes_cons; [| by eapply IH]. by apply Hp, (every_head (stands p i) _ _ _ _ _ Hsp Hla).
Qed.

(** Only tokens that the lexer gives, and the end, stand behind a part. *)
Lemma token_of_Tok t l : token_of t l = true -> exists k, t = Tok k.
Proof. intros H%bool_decide_eq_true. apply list_elem_of_fmap in H as (k & -> & _). by exists k. Qed.

Lemma token_of_kind k l : token_of (Tok k) l = true <-> k ∈ l.
Proof.
  unfold token_of. rewrite bool_decide_eq_true, list_elem_of_fmap.
  split; [by intros (k' & [= ->] & H) | intros H; by exists k].
Qed.

Lemma starts_cons l t ts : starts_with l (t :: ts) = token_of (class t) l.
Proof. done. Qed.

Lemma token_terminal t l : token_of t l = true -> In t terminals.
Proof.
  intros H. destruct (token_of_Tok _ _ H) as [k ->]. apply in_or_app. left. apply in_map. destruct k; vm_compute; tauto.
Qed.

Lemma stands_token p i t : stands p i t = true -> In t terminals.
Proof.
  unfold stands, ends. intros [_ H]%andb_true_iff.
  destruct p as [| [] | | | | | | | | | | | | | | |].
  all: repeat match goal with
    | H : (bool_decide (_ ∈ terminals) && _)%bool = true |- _ => apply andb_true_iff in H as [H _]
    | H : (_ && _)%bool = true |- _ => apply andb_true_iff in H as [? H]
    | H : (_ || _)%bool = true |- _ => apply orb_true_iff in H as [H|H]
    | H : (if ?b then _ else _) = true |- _ => destruct b
    end; first [by eapply token_terminal | by apply bool_decide_eq_true, list_elem_of_In in H].
Qed.

Lemma stands_bound p i t : stands p i t = true -> i < length tables /\ In t terminals.
Proof.
  intros H. split.
  - unfold stands in H. apply andb_true_iff in H as [[j Hj]%bool_decide_eq_true _].
    unfold next_state in Hj. apply bind_Some in Hj as (row & Hrow & _). by eapply lookup_lt_Some.
  - by eapply stands_token.
Qed.

(** The rule of the part is for its texts. *)
Lemma rule_reads p xs ts vs v : rule_passes p xs = true -> spells xs ts vs ->
  act_of (symbol_of p) (symbol_at <$> xs) vs = Some v -> reads p ts v.
Proof.
  unfold rule_passes. intros [[Hrule Hheads]%andb_true_iff H]%andb_true_iff Hsp Ha. split.
  - intros l Hl. rewrite Hl in Hheads.
    pose proof (every_head _ _ _ _ End_of_file _ Hsp (or_introl eq_refl : In End_of_file [End_of_file]) Hheads) as Hf.
    destruct ts as [|t ts]; [by apply token_of_Tok in Hf as [k Hk] | exact Hf].
  - intros i la Hst. destruct (stands_bound _ _ _ Hst) as [Hi Hla]. rewrite forallb_forall in H.
    specialize (H i (proj2 (in_seq _ _ _) (conj (Nat.le_0_l _) Hi))). cbv beta zeta in H.
    assert (In la (List.filter (stands p i) terminals)) as Hin by (by apply filter_In).
    remember (List.filter (stands p i) terminals) as las eqn:E. clear E.
    apply orb_true_iff in H as [H%Nat.eqb_eq|H]; [by destruct las |].
    destruct (passes i xs las) as [k|] eqn:Hp; [| discriminate H].
    apply andb_true_iff in H as [Hr Hn%bool_decide_eq_true]. rewrite forallb_forall in Hr.
    eapply goes_by_rule; [exact Hrule | by eapply passes_goes | by apply Hr | exact Ha | exact Hn].
Qed.

(** ** Texts of pieces *)

Lemma spells_last p ts v : reads p ts v -> spells [Part p] ts [v].
Proof. intros H. rewrite <- (app_nil_r ts). by apply spells_part; [| constructor]. Qed.

(** A name has no zero byte, so it is its own copy. *)
Lemma named_ident x : named x -> new_ident x = Some x.
Proof.
  intros Hx. destruct (dup_proper x) as [E1 E2].
  - unfold named, is_identifier in Hx. destruct (String.list_ascii_of_string x) as [|c w]; [done |].
    apply andb_true_iff in Hx as [[Hc Hw]%andb_true_iff _]. constructor; [by intros -> |].
    rewrite forallb_forall in Hw. apply List.Forall_forall. intros d Hd. apply Hw in Hd. by intros ->.
  - unfold new_ident, new_Identifier. rewrite E1. simpl. by rewrite E2.
Qed.

Lemma spells_name x xs ts vs : named x -> spells xs ts vs -> spells (Only ident TIDENTIFIER :: xs) (name x :: ts) (Vident x :: vs).
Proof.
  intros Hx H. apply spells_only; [done | | done].
  assert (act_of ident [Term (Tok TIDENTIFIER)] [value (name x)] = Vident <$> new_ident x) as -> by reflexivity.
  by rewrite named_ident.
Qed.

Lemma act_at n xs vs r : rule_of n xs = r -> act_of n xs vs = match rules !! r with Some r => action r vs | None => None end.
Proof. by intros <-. Qed.

Ltac act := erewrite act_at by (vm_compute; reflexivity); reflexivity.

Ltac spell := repeat first
  [ apply spells_nil
  | apply spells_name; [assumption |]
  | apply spells_sign; [reflexivity |]
  | eapply spells_last; eassumption
  | eapply spells_part; [eassumption |]
  | eapply spells_only; [reflexivity | act |] ].

Ltac read_by xs := eapply (rule_reads _ xs); [vm_compute; reflexivity | spell | act].

(** A part that may stand in more places. *)
Lemma reads_weaken p q ts v : symbol_of p = symbol_of q -> (forall l, heads_of q = Some l -> heads_of p = Some l) ->
  (forall i t, stands q i t = true -> stands p i t = true) -> reads p ts v -> reads q ts v.
Proof. intros Hs Hh Hst [H1 H2]. split; [auto |]. intros i la H. rewrite <- Hs. auto. Qed.

