(* ===== verification/SyntaxFacts.v ===== *)
(** The texts of [Syntax] in the tables of the parser: from every state in
    which a part of a program can begin, the text of the part is reduced to its
    symbol, with the tree for its value. *)

From S2P Require Import Prelude Lexer LexerFacts LexerProps Ast AstPrint Bison BisonFacts Grammar GrammarFacts Syntax Parts.
From stdpp Require Import base.
Local Open Scope nat_scope.

Local Abbreviation goes := (BisonFacts.goes rules tables class value).
Local Abbreviation goes_all := (BisonFacts.goes_all rules tables class value).
Local Abbreviation first_class := (BisonFacts.first_class class).
Local Abbreviation next := (next_state tables).
Local Abbreviation at_token := (step_at tables).
Local Abbreviation N := (@NonTerm terminal nonterminal).
Local Abbreviation Name := (Only ident TIDENTIFIER).

(** * Expressions *)

(** A name alone. *)
Definition lone (ts : list token) : bool := match ts with [Text TIDENTIFIER _] => true | _ => false end.

Definition shape_of (ts : list token) : shape :=
  if lone ts then Alone else if starts_with [TLNOT] ts then Negated else Harmless.

Lemma any_expression b ts v : reads (Expression b) ts v -> reads (Expression true) ts v.
Proof.
  apply reads_weaken; [done | done |]. intros i t. unfold stands. destruct b; [done |].
  rewrite !andb_true_iff, !negb_true_iff, !orb_false_iff, andb_true_r, andb_false_r. tauto.
Qed.

Definition goes_on (l : expr) (rest : list token) (e : expr) : Prop := forall i ts la,
  leads exp i = true -> behind_prefix i = false -> (behind_equal i = true -> starts_with loose rest = false) ->
  ends i la = true -> goes i (N exp) ts (Vexp l) (first_class rest la) (to i exp) ->
  goes i (N exp) (ts ++ rest) (Vexp e) la (to i exp).

(** ** Operators *)

Definition loose_or_end (i : nat) (t : terminal) : bool := ends i t || token_of t loose.

(** Behind an expression an operator leads to a state where an operand may
    stand, and the expression behind it; at its end the rule is reduced. *)
Definition equal_ok (i m : nat) : bool :=
  leads exp m && behind_equal m && negb (leads statement m || behind_prefix m) &&
  forallb (fun t => implb (loose_or_end i t) (reduces_to (to m exp) equal_rule t) && implb (ends i t) (ends m t))
    terminals.

Definition operator_ok (i : nat) (k : kind) : bool :=
  (behind_equal i && token_of (Tok k) loose) ||
  match at_token (to i exp) (Tok k) with
  | Some (Shift m) =>
      is_rule binaryOperatorToken [Term (Tok k)] &&
      forallb (fun t => (bool_decide (k = TEQUAL) && negb (bool_decide (t = TLNOT))) ||
        reduces_to m (rule_of binaryOperatorToken [Term (Tok k)]) (Tok t)) operand_heads &&
      (negb (bool_decide (k = TEQUAL)) || equal_ok i m)
  | _ => false
  end.

Definition right_ok (i : nat) : bool :=
  let c := to (to i exp) binaryOperatorToken in
  leads binaryOperatorToken (to i exp) && leads exp c &&
  negb (leads statement c || behind_prefix c || behind_equal c) &&
  forallb (fun t => implb (ends i t) (ends c t && reduces_to (to c exp) binary_rule t)) terminals.

Definition operators_ok : bool :=
  forallb (fun i => negb (leads exp i) || behind_prefix i || (forallb (operator_ok i) binary && right_ok i))
    (seq 0 (length tables)).

Lemma operators_checked : operators_ok = true.
Proof. vm_compute. reflexivity. Qed.

(** The kinds of a list, one after the other. *)
Ltac each_kind H :=
  cbv in H; repeat (apply elem_of_cons in H as [->|H]); [.. | by apply elem_of_nil in H].

Section operator.
Context (i : nat) (Hlead : leads exp i = true) (Hprefix : behind_prefix i = false).

Lemma operator_states : right_ok i = true /\ forall k, k ∈ binary -> operator_ok i k = true.
Proof using Hlead Hprefix.
  pose proof operators_checked as H. unfold operators_ok in H. rewrite forallb_forall in H.
  assert (i < length tables) as Hi.
  { pose proof Hlead as [j Hj]%bool_decide_eq_true. unfold next_state in Hj.
    apply bind_Some in Hj as (row & Hrow & _). by eapply lookup_lt_Some. }
  specialize (H i (proj2 (in_seq _ _ _) (conj (Nat.le_0_l _) Hi))).
  rewrite Hlead, Hprefix in H. cbn [negb orb] in H. apply andb_true_iff in H as [H1 H2].
  rewrite forallb_forall in H1. split; [done |]. intros k Hk%list_elem_of_In. by apply H1.
Qed.

Lemma ends_terminal la : ends i la = true -> In la terminals.
Proof using Hlead Hprefix.
  intros H. apply (stands_bound (Operand Harmless) i). unfold stands. simpl. by rewrite Hlead, H.
Qed.

(** The state where the right operand stands. *)
Lemma right_state la (c := to (to i exp) binaryOperatorToken) : ends i la = true ->
  leads exp c = true /\ leads statement c = false /\ behind_prefix c = false /\ behind_equal c = false /\
  ends c la = true /\ reduces_to (to c exp) binary_rule la = true /\ is_Some (next (to i exp) (N binaryOperatorToken)).
Proof using Hlead Hprefix.
  intros Hla. pose proof (ends_terminal _ Hla) as Hin. destruct operator_states as [H _]. unfold right_ok in H. fold c in H.
  rewrite !andb_true_iff, negb_true_iff, !orb_false_iff, forallb_forall in H.
  destruct H as [[[H1%bool_decide_eq_true H2] [[H3 H4] H5]] H6]. specialize (H6 la Hin).
  rewrite Hla in H6. cbn [implb] in H6. apply andb_true_iff in H6 as [H6 H7]. by split_and!.
Qed.

Lemma right_goes k ts l txt e la (c := to (to i exp) binaryOperatorToken) :
  k ∈ binary -> (k = TEQUAL -> starts_with [TLNOT] txt = true) ->
  (behind_equal i = true -> token_of (Tok k) loose = false) -> starts_with operand_heads txt = true ->
  ends i la = true -> goes i (N exp) ts (Vexp l) (Tok k) (to i exp) ->
  goes c (N exp) txt (Vexp e) la (to c exp) ->
  goes i (N exp) (ts ++ sign k :: txt) (Vexp (BinaryOperator l (spelling k) e)) la (to i exp).
Proof using Hlead Hprefix.
  intros Hk Heq Hloose Htxt Hla Hl He. destruct (right_state la Hla) as (_ & _ & _ & _ & _ & Hred & Hc).
  destruct operator_states as [_ Hop]. specialize (Hop k Hk). unfold operator_ok in Hop.
  replace (behind_equal i && token_of (Tok k) loose) with false in Hop
    by (destruct (behind_equal i); [by rewrite Hloose | done]). cbn [orb] in Hop.
  destruct (at_token (to i exp) (Tok k)) as [[m|]|] eqn:Hm; [| done..].
  apply andb_true_iff in Hop as [[Hrule Hops]%andb_true_iff _]. rewrite forallb_forall in Hops.
  assert (class (sign k) = Tok k) as Hclass by (by destruct k).
  assert (reduces_to m (rule_of binaryOperatorToken [Term (Tok k)]) (first_class txt la) = true) as Hr.
  { destruct txt as [|t txt]; [done |]. cbn [starts_with] in Htxt. apply bool_decide_eq_true in Htxt.
    apply list_elem_of_fmap in Htxt as (k' & Hk' & Hin%list_elem_of_In). apply Hops in Hin. simpl. rewrite Hk'.
    case_bool_decide as E1; [| exact Hin]. case_bool_decide as E2; [exact Hin |]. exfalso. apply E2.
    specialize (Heq E1). cbn [starts_with] in Heq. apply bool_decide_eq_true in Heq.
    simpl in Heq. apply list_elem_of_singleton in Heq. congruence. }
  eapply (goes_by_rule exp [N exp; N binaryOperatorToken; N exp] i _ [Vexp l; Vstring (spelling k); Vexp e]);
    [vm_compute; reflexivity | | exact Hred | | exact (proj1 (bool_decide_eq_true _) Hlead)].
  - eapply goes_cons; [simpl; rewrite Hclass; exact Hl |].
    apply (goes_cons _ _ _ _ (to i exp) (N binaryOperatorToken) [N exp] [sign k] txt _ _ la c); [| by apply goes_last].
    eapply (goes_by_rule _ [Term (Tok k)]); [exact Hrule | | exact Hr | | exact Hc].
    + eapply goes_all_token; [exact Hclass | exact Hm | constructor].
    + each_kind Hk; vm_compute; reflexivity.
  - etrans; [apply (act_at _ _ _ binary_rule); vm_compute; reflexivity |]. cbn -[new_BinaryOperator]. 
    rewrite binary_some; [done |].
    each_kind Hk; vm_compute; reflexivity.
Qed.

(** Behind [==], unless [!] stands there. *)
Lemma equal_state la : behind_equal i = false -> exists m,
  at_token (to i exp) (Tok TEQUAL) = Some (Shift m) /\ leads exp m = true /\ leads statement m = false /\
  behind_equal m = true /\ behind_prefix m = false /\
  (loose_or_end i la = true -> In la terminals -> reduces_to (to m exp) equal_rule la = true) /\
  (ends i la = true -> ends m la = true).
Proof using Hlead Hprefix.
  intros Hbe. destruct operator_states as [_ Hop]. specialize (Hop TEQUAL ltac:(by left)). unfold operator_ok in Hop.
  rewrite Hbe in Hop. cbn [andb orb] in Hop. destruct (at_token (to i exp) (Tok TEQUAL)) as [[m|]|]; [| done..].
  exists m. split; [done |]. apply andb_true_iff in Hop as [_ H]. rewrite bool_decide_true in H by done.
  cbn [negb orb] in H. unfold equal_ok in H. rewrite !andb_true_iff, negb_true_iff, orb_false_iff, forallb_forall in H.
  destruct H as [[[H1 H2] [H3 H4]] H5]. split_and!; try done.
  - intros Hl Hin. specialize (H5 la Hin). rewrite Hl in H5. by apply andb_true_iff in H5 as [H5 _].
  - intros He. specialize (H5 la (ends_terminal _ He)). rewrite He in H5. apply andb_true_iff in H5 as [_ H5]. exact H5.
Qed.

Lemma equal_goes m ts l txt r la : at_token (to i exp) (Tok TEQUAL) = Some (Shift m) ->
  reduces_to (to m exp) equal_rule la = true -> goes i (N exp) ts (Vexp l) (Tok TEQUAL) (to i exp) ->
  goes m (N exp) txt (Vexp r) la (to m exp) ->
  goes i (N exp) (ts ++ sign TEQUAL :: txt) (Vexp (BinaryOperator l (spelling TEQUAL) r)) la (to i exp).
Proof using Hlead Hprefix.
  intros Hm Hred Hl Hr.
  eapply (goes_by_rule exp [N exp; Term (Tok TEQUAL); N exp] i _ [Vexp l; Vstring (spelling TEQUAL); Vexp r]);
    [vm_compute; reflexivity | | exact Hred | | exact (proj1 (bool_decide_eq_true _) Hlead)].
  - eapply goes_cons; [exact Hl |]. apply (goes_all_token _ m _ _ (sign TEQUAL)); [done | exact Hm |]. by apply goes_last.
  - etrans; [apply (act_at _ _ _ equal_rule); vm_compute; reflexivity |]. 
    transitivity (Vexp <$> new_BinaryOperator l (cstring (spelling TEQUAL)) r); [reflexivity |].
    by rewrite binary_some.
Qed.
End operator.

(** What continues an operand begins with an operator. *)
Lemma continues_head l rest e : continues l rest e -> rest = [] \/ starts_with binary rest = true.
Proof.
  destruct 1 as [|l k ts r rest e Hk|l ts r rest e]; [by left | right..].
  - rewrite starts_cons. replace (class (sign k)) with (Tok k) by (by destruct k). by apply token_of_kind.
  - done.
Qed.

Lemma starts_class l ts la : starts_with l ts = true -> token_of (first_class ts la) l = true.
Proof. by destruct ts. Qed.

Lemma operand_reads_at s i ts v rest la l e : reads (Operand s) ts v -> leads exp i = true -> ends i la = true ->
  leads statement i = false -> (behind_equal i = true -> s <> Negated) -> continues l rest e ->
  goes i (N exp) ts v (first_class rest la) (to i exp).
Proof.
  intros [_ H] Hlead Hla Hst Hneg [->|Hrest]%continues_head; apply H; unfold stands; simpl; rewrite Hlead.
  - destruct s; unfold is_star; rewrite ?Hst; simpl; rewrite ?Hla; try done.
    destruct (behind_equal i); [by destruct (Hneg eq_refl) | done].
  - apply (starts_class _ _ la) in Hrest. rewrite Hrest, orb_true_r.
    destruct s; unfold is_star; rewrite ?Hst; simpl; try done.
    destruct (behind_equal i); [by destruct (Hneg eq_refl) | done].
Qed.

Lemma goes_on_right l k ts r rest e : k ∈ binary ->
  (k = TEQUAL -> starts_with [TLNOT] ts || starts_with tight rest = true) ->
  reads (Operand (shape_of ts)) ts (Vexp r) -> continues r rest e -> goes_on r rest e ->
  goes_on l (sign k :: ts ++ rest) (BinaryOperator l (spelling k) e).
Proof.
  intros Hk Heq Hr Hcont IH i ts0 la Hlead Hprefix Hloose Hla Hl.
  assert (class (sign k) = Tok k) as Hclass by (by destruct k).
  simpl in Hl. rewrite Hclass in Hl.
  assert (starts_with operand_heads ts = true) as Hheads by (by apply (proj1 Hr)).
  assert (forall l, starts_with l (ts ++ rest) = starts_with l ts) as Happ by (by destruct ts).
  assert (behind_equal i = true -> token_of (Tok k) loose = false) as Hloose'.
  { intros H. specialize (Hloose H). simpl in Hloose. by rewrite Hclass in Hloose. }
  destruct (decide (k = TEQUAL /\ starts_with [TLNOT] ts = false)) as [[-> Hnot]|Hother].
  - assert (behind_equal i = false) as Hbe.
    { destruct (behind_equal i); [| done]. by specialize (Hloose' eq_refl). }
    destruct (equal_state i Hlead Hprefix la Hbe) as (m & Hm & H1 & H2 & H3 & H4 & H5 & H6).
    specialize (Heq eq_refl). rewrite Hnot in Heq. simpl in Heq.
    eapply (equal_goes i Hlead Hprefix m); [exact Hm | | exact Hl |].
    + apply H5; [unfold loose_or_end; by rewrite Hla | exact (ends_terminal i Hlead Hprefix la Hla)].
    + apply IH; [done | done | | by apply H6 |].
      * intros _. destruct rest as [|t rest]; [done |]. rewrite starts_cons in Heq |- *.
        destruct (token_of_Tok _ _ Heq) as [k' Hk']. rewrite Hk' in *. apply token_of_kind in Heq.
        each_kind Heq; by vm_compute.
      * eapply operand_reads_at; [exact Hr | done | by apply H6 | done | | exact Hcont].
        intros _. unfold shape_of. rewrite Hnot. by destruct (lone ts).
  - destruct (right_state i Hlead Hprefix la Hla) as (H1 & H2 & H3 & H4 & H5 & _).
    eapply (right_goes i Hlead Hprefix k); try done.
    + intros E. rewrite Happ. destruct (starts_with [TLNOT] ts); [done |]. by destruct Hother.
    + by rewrite Happ.
    + apply IH; [done | done | by rewrite H4 | done |].
      eapply operand_reads_at; [exact Hr | done.. | by rewrite H4 | exact Hcont].
Qed.

Lemma goes_on_left l ts r rest e : starts_with [TLNOT] ts || starts_with tight rest = false ->
  reads (Operand (shape_of ts)) ts (Vexp r) -> continues (BinaryOperator l (spelling TEQUAL) r) rest e ->
  goes_on (BinaryOperator l (spelling TEQUAL) r) rest e -> goes_on l (sign TEQUAL :: ts ++ rest) e.
Proof.
  intros [Hnot Htight]%orb_false_iff Hr Hcont IH i ts0 la Hlead Hprefix Hloose Hla Hl.
  assert (behind_equal i = false) as Hbe by (destruct (behind_equal i); [by specialize (Hloose eq_refl) | done]).
  destruct (equal_state i Hlead Hprefix (first_class rest la) Hbe) as (m & Hm & H1 & H2 & H3 & H4 & H5 & _).
  destruct (equal_state i Hlead Hprefix la Hbe) as (m' & Hm' & _ & _ & _ & _ & _ & H6).
  assert (m' = m) as -> by congruence.
  replace (ts0 ++ sign TEQUAL :: ts ++ rest) with ((ts0 ++ sign TEQUAL :: ts) ++ rest)
    by (by rewrite <- app_assoc).
  apply IH; [done | done | by rewrite Hbe | done |].
  apply (equal_goes i Hlead Hprefix m); [exact Hm | | exact Hl |].
  - destruct (continues_head _ _ _ Hcont) as [->|Hrest].
    + apply H5; [unfold loose_or_end; simpl; by rewrite Hla | exact (ends_terminal i Hlead Hprefix la Hla)].
    + destruct rest as [|t rest]; [done |]. rewrite starts_cons in Hrest, Htight. cbn [BisonFacts.first_class] in H5 |- *.
      destruct (token_of_Tok _ _ Hrest) as [k Hk]. rewrite Hk in *. apply token_of_kind in Hrest. apply H5.
      * unfold loose_or_end. apply orb_true_iff. right. apply token_of_kind.
        unfold binary in Hrest. apply elem_of_app in Hrest as [Hin|Hin]; [done |].
        apply token_of_kind in Hin. congruence.
      * apply in_or_app. left. apply in_map. destruct k; vm_compute; tauto.
  - eapply operand_reads_at; [exact Hr | done | by apply H6 | done | | exact Hcont].
    intros _. unfold shape_of. rewrite Hnot. by destruct (lone ts).
Qed.

Lemma operand_expression ts l rest e : reads (Operand (shape_of ts)) ts (Vexp l) -> continues l rest e ->
  goes_on l rest e -> reads (Expression (declares_pointer (ts ++ rest))) (ts ++ rest) (Vexp e).
Proof.
  intros [Hh Hr] Hcont Hon. assert (starts_with operand_heads ts = true) as Hheads by (by apply Hh).
  split; [intros heads [= <-]; by destruct ts |]. intros i la Hst. unfold stands in Hst.
  apply andb_true_iff in Hst as [Hlead [Hn Hla]%andb_true_iff]. simpl in Hlead.
  rewrite negb_true_iff, !orb_false_iff in Hn. destruct Hn as [[Hbe Hprefix] Hdecl].
  apply Hon; [done | done | by rewrite Hbe | done |]. apply Hr. unfold stands. simpl. rewrite Hlead.
  assert (ends i (first_class rest la) || token_of (first_class rest la) binary = true) as Hfollow.
  { destruct (continues_head _ _ _ Hcont) as [->|Hrest]; [cbn [BisonFacts.first_class]; by rewrite Hla |].
    by rewrite (starts_class _ _ la Hrest), orb_true_r. }
  unfold shape_of. destruct (lone ts) eqn:Hlone.
  - rewrite Hfollow. unfold is_star. rewrite !andb_true_r. apply negb_true_iff.
    destruct (leads statement i) eqn:Hs; [| done].
    destruct ts as [|[|[] x] []]; try done. simpl in Hdecl. destruct rest as [|t rest]; [| exact Hdecl].
    simpl. unfold ends in Hla. rewrite Hs in Hla. destruct (token_of_Tok _ _ Hla) as [k ->].
    apply token_of_kind in Hla. each_kind Hla; by vm_compute.
  - destruct (starts_with [TLNOT] ts); [by rewrite Hbe |]. exact Hfollow.
Qed.

(** ** The rules *)

Lemma prefix_reads k ts e : k ∈ prefix -> reads (Operand (shape_of ts)) ts (Vexp e) ->
  reads (Operand (shape_of (sign k :: ts))) (sign k :: ts) (Vexp (UnaryOperator (spelling k) e)).
Proof.
  intros Hk. generalize (shape_of ts). intros s H.
  each_kind Hk; [change (shape_of _) with Harmless | change (shape_of _) with Negated | change (shape_of _) with Harmless];
    destruct s;
    match goal with H : reads (Operand ?s) _ _ |- reads _ (sign ?k :: _) _ =>
      read_by [Only unaryOperatorToken k; Part (Operand s)] end.
Qed.

Lemma expressions_read :
  (forall ts e, place ts e -> reads (Place (lone ts)) ts (Vexp e) /\ starts_with [TLNOT] ts = false) /\
  (forall ts e, operand ts e -> reads (Operand (shape_of ts)) ts (Vexp e)) /\
  (forall ts l, call_arguments ts l -> reads Arguments ts (Vexpressions l)) /\
  (forall ts e, expression ts e -> reads (Expression (declares_pointer ts)) ts (Vexp e)) /\
  (forall l rest e, continues l rest e -> goes_on l rest e).
Proof.
  apply expressions_ind.
  - intros x Hx. split; [| done]. read_by [Name].
  - intros x Hx. split; [| done]. read_by [Sign TSTAR; Name].
  - intros x ts e Hx _ He%any_expression. split; [| done].
    change (lone _) with false. read_by [Name; Sign TLSBRACE; Part (Expression true); Sign TRSBRACE].
  - intros x f Hx Hf. split; [| done]. read_by [Name; Sign TDOT; Name].
  - intros x f Hx Hf. split; [| done]. read_by [Sign TSTAR; Name; Sign TDOT; Name].
  - intros ts e _ [H Hn]. unfold shape_of. rewrite Hn. destruct (lone ts).
    + read_by [Part (Place true)].
    + read_by [Part (Place false)].
  - intros s Hs. change (shape_of _) with Harmless. read_by [Only numeric TINTLIT].
  - intros s Hs. change (shape_of _) with Harmless. read_by [Only numeric TFLOATLIT].
  - change (shape_of _) with Harmless. read_by [Sign TNULL].
  - intros ts e _ He%any_expression. change (shape_of _) with Harmless.
    read_by [Sign TLPAREN; Part (Expression true); Sign TRPAREN].
  - intros f ts args Hf _ Ha. change (shape_of _) with Harmless.
    read_by [Name; Sign TLPAREN; Part Arguments; Sign TRPAREN].
  - intros x Hx. change (shape_of _) with Harmless. read_by [Sign TSAMPR; Name].
  - intros x ts e Hx _ He%any_expression. change (shape_of _) with Harmless.
    read_by [Sign TSAMPR; Name; Sign TLSBRACE; Part (Expression true); Sign TRSBRACE].
  - intros k ts e Hk _ H. by apply prefix_reads.
  - read_by (@nil piece).
  - intros ts e _ He%any_expression. read_by [Part (Expression true)].
  - intros ts l ts' e _ Hl _ He%any_expression. read_by [Part Arguments; Sign TCOMMA; Part (Expression true)].
  - intros ts l rest e _ Hr Hc Hon. by apply operand_expression with l.
  - intros e i ts la Hlead Hp _ Hla H. by rewrite app_nil_r.
  - intros l k ts r rest e Hk Heq _ Hr Hc IH. by eapply goes_on_right.
  - intros l ts r rest e Hn _ Hr Hc IH. by apply goes_on_left with r.
Qed.

Lemma place_reads ts e : place ts e -> reads (Place (lone ts)) ts (Vexp e).
Proof. intros H. by apply expressions_read. Qed.

Lemma expression_reads ts e : expression ts e -> reads (Expression (declares_pointer ts)) ts (Vexp e).
Proof. intros H. by apply expressions_read. Qed.

Lemma expression_reads_any ts e : expression ts e -> reads (Expression true) ts (Vexp e).
Proof. intros H. by eapply any_expression, expression_reads. Qed.

(** * Declarations *)

Lemma variable_reads ts v : variable ts v -> reads Variable_ ts (Vvariable v).
Proof.
  destruct 1 as [k x Hk Hx|k x Hk Hx|k x ts e Hk Hx He|k x ts e Hk Hx He|t x Ht Hx|t x Ht Hx].
  - each_kind Hk; match goal with |- reads _ (sign ?k :: _) _ => read_by [Only var_keyword k; Name] end.
  - each_kind Hk; match goal with |- reads _ (sign ?k :: _) _ => read_by [Only var_keyword k; Sign TSTAR; Name] end.
  - apply expression_reads_any in He. each_kind Hk; match goal with |- reads _ (sign ?k :: _) _ =>
      read_by [Only var_keyword k; Name; Sign TSET; Part (Expression true)] end.
  - apply expression_reads_any in He. each_kind Hk; match goal with |- reads _ (sign ?k :: _) _ =>
      read_by [Only var_keyword k; Sign TSTAR; Name; Sign TSET; Part (Expression true)] end.
  - read_by [Name; Name].
  - read_by [Name; Sign TSTAR; Name].
Qed.

Lemma parameters_read ts l : parameters ts l -> reads Parameters ts (Vvariables l).
Proof.
  induction 1 as [|ts v Hv%variable_reads|ts l ts' v _ IH Hv%variable_reads].
  - read_by (@nil piece).
  - read_by [Part Variable_].
  - read_by [Part Parameters; Sign TCOMMA; Part Variable_].
Qed.

(** * Statements *)

Lemma function_reads tt t p x ta args tb b : type_text tt t -> named x -> parameters ta args ->
  reads Block_ tb (Vblock b) ->
  reads Function_ (tt ++ star p ++ name x :: sign TLPAREN :: ta ++ sign TRPAREN :: tb)
    (Vstatement (FunctionDefinition t x args b p)).
Proof.
  intros Ht Hx Ha%parameters_read Hb. destruct Ht as [k Hk|t Ht], p; cbn [app star].
  - each_kind Hk; match goal with |- reads _ (sign ?k :: _) _ =>
      read_by [Only var_keyword k; Sign TSTAR; Name; Sign TLPAREN; Part Parameters; Sign TRPAREN; Part Block_] end.
  - each_kind Hk; match goal with |- reads _ (sign ?k :: _) _ =>
      read_by [Only var_keyword k; Name; Sign TLPAREN; Part Parameters; Sign TRPAREN; Part Block_] end.
  - read_by [Name; Sign TSTAR; Name; Sign TLPAREN; Part Parameters; Sign TRPAREN; Part Block_].
  - read_by [Name; Name; Sign TLPAREN; Part Parameters; Sign TRPAREN; Part Block_].
Qed.

Lemma extern_reads k p x ta args : k ∈ types -> named x -> parameters ta args ->
  reads Extern_ (sign TEXTERN :: sign k :: star p ++ name x :: sign TLPAREN :: ta ++ [sign TRPAREN; sign TSCOLON])
    (Vstatement (ExternStatement (spelling k) x args p)).
Proof.
  intros Hk Hx Ha%parameters_read. destruct p; cbn [app star].
  - each_kind Hk; match goal with |- reads _ (_ :: sign ?k :: _) _ =>
      read_by [Only externStatement_h TEXTERN; Only var_keyword k; Sign TSTAR; Name; Sign TLPAREN;
        Part Parameters; Sign TRPAREN; Sign TSCOLON] end.
  - each_kind Hk; match goal with |- reads _ (_ :: sign ?k :: _) _ =>
      read_by [Only externStatement_h TEXTERN; Only var_keyword k; Name; Sign TLPAREN;
        Part Parameters; Sign TRPAREN; Sign TSCOLON] end.
Qed.

Lemma statement_of_variable c ts v : variable ts v ->
  reads Statement (ts ++ semicolon c ++ [sign TENDL]) (Vstatement (setCommit (SVariable v) c)).
Proof.
  intros Hv%variable_reads. destruct c; cbn [app semicolon].
  - read_by [Part Variable_; Sign TSCOLON; Sign TENDL].
  - read_by [Part Variable_; Sign TENDL].
Qed.

Lemma statement_of_assignment c tp p ts e : place tp p -> expression ts e ->
  reads Statement (tp ++ sign TSET :: ts ++ semicolon c ++ [sign TENDL]) (Vstatement (AssignStatement c p e)).
Proof.
  intros Hp%place_reads He%expression_reads_any. revert Hp. generalize (lone tp). intros alone Hp.
  destruct c, alone; cbn [app semicolon];
    match goal with H : reads (Place ?b) _ _ |- reads _ (_ ++ _ :: _ ++ ?l) _ => match l with
      | [_; _] => read_by [Part (Place b); Sign TSET; Part (Expression true); Sign TSCOLON; Sign TENDL]
      | [_] => read_by [Part (Place b); Sign TSET; Part (Expression true); Sign TENDL]
      end end.
Qed.

Lemma statement_of_expression c ts e : expression ts e -> declares_pointer ts = false ->
  reads Statement (ts ++ semicolon c ++ [sign TENDL]) (Vstatement (ExpressionStatement c e)).
Proof.
  intros He%expression_reads Hd. rewrite Hd in He. destruct c; cbn [app semicolon].
  - read_by [Part (Expression false); Sign TSCOLON; Sign TENDL].
  - read_by [Part (Expression false); Sign TENDL].
Qed.

Lemma statement_of_part p xs ts v : reads p ts (Vstatement v) -> rule_passes Statement [Part p; Sign TENDL] = true ->
  act_of statement (symbol_at <$> [Part p; Sign TENDL]) [Vstatement v; Vtoken] = Some (Vstatement v) ->
  xs = ts ++ [sign TENDL] -> reads Statement xs (Vstatement v).
Proof. intros H Hr Ha ->. eapply rule_reads; [exact Hr | spell | exact Ha]. Qed.

Ltac of_part p H := apply (statement_of_part p _ _ _ H); [vm_compute; reflexivity | act |
  cbn [app semicolon star line]; by repeat (rewrite <- app_assoc || rewrite <- app_comm_cons)].

Lemma structure_reads x tb b : named x -> reads Block_ tb (Vblock b) ->
  reads Structure (sign TSTRUCT :: name x :: tb ++ [sign TSCOLON]) (Vstatement (StructureDefinition x b)).
Proof.
  intros Hx Hb.
  assert (reads Head [sign TSTRUCT; name x] (Vstructure x)) as Hh by (read_by [Only struct_keyword TSTRUCT; Name]).
  change (sign TSTRUCT :: name x :: tb ++ [sign TSCOLON]) with ([sign TSTRUCT; name x] ++ tb ++ [sign TSCOLON]).
  read_by [Part Head; Part Block_; Sign TSCOLON].
Qed.

Lemma statements_read :
  (forall ts s, statement_text ts s -> reads Statement ts (Vstatement s)) /\
  (forall b ts s, last_text b ts s -> reads (Last b) ts (Vstatement s)) /\
  (forall ts l, statements_text ts l -> reads Statements ts (Vblock (Some l))) /\
  (forall b ts l, body_text b ts l -> reads (Body b) ts (Vblock (Some l))) /\
  (forall ts b, block_text ts b -> reads Block_ ts (Vblock b)).
Proof.
  apply statements_ind.
  - intros c ts v. apply statement_of_variable.
  - intros c tp p ts e. apply statement_of_assignment.
  - intros c ts e. apply statement_of_expression.
  - intros []; cbn [app semicolon]; [read_by [Sign TRETURN; Sign TSCOLON; Sign TENDL] | read_by [Sign TRETURN; Sign TENDL]].
  - intros ts e He%expression_reads_any. read_by [Sign TRETURN; Part (Expression true); Sign TENDL].
  - intros tt t p x ta args tb b Ht Hx Ha _ Hb. of_part Function_ (function_reads _ _ p _ _ _ _ _ Ht Hx Ha Hb).
  - intros x tb b Hx _ Hb. of_part Structure (structure_reads _ _ _ Hx Hb).
  - intros ts e tb b He%expression_reads_any _ Hb.
    assert (reads If_ (sign TIF :: sign TLPAREN :: ts ++ sign TRPAREN :: tb)
      (Vstatement (IfStatement e (Some b) None))) as H
      by (read_by [Sign TIF; Sign TLPAREN; Part (Expression true); Sign TRPAREN; Part Block_]).
    of_part If_ H.
  - intros ts e tb b te be He%expression_reads_any _ Hb _ Hbe.
    assert (reads If_ (sign TIF :: sign TLPAREN :: ts ++ sign TRPAREN :: tb ++ sign TELSE :: te)
      (Vstatement (IfStatement e (Some b) (Some be)))) as H
      by (read_by [Sign TIF; Sign TLPAREN; Part (Expression true); Sign TRPAREN; Part Block_; Sign TELSE; Part Block_]).
    of_part If_ H.
  - intros k p x ta args Hk Hx Ha. of_part Extern_ (extern_reads _ p _ _ _ Hk Hx Ha).
  - read_by [Sign TRETURN].
  - intros ts e He%expression_reads_any. read_by [Sign TRETURN; Part (Expression true)].
  - intros ts e He%expression_reads_any. read_by [Sign TRETURN; Part (Expression true); Sign TSCOLON].
  - intros ts s _ Hs. read_by [Part Statement].
  - intros ts l ts' s _ Hl _ Hs. read_by [Part Statements; Part Statement].
  - intros ts l _. apply (reads_weaken Statements); [done | done |]. intros i t. unfold stands. cbn [symbol_of].
    destruct (leads statements i), (leads program_ i); try done. simpl. intros H.
    destruct (token_of_Tok _ _ H) as [k ->]. apply token_of_kind in H. each_kind H; by vm_compute.
  - intros b ts s _ Hs. destruct b; [read_by [Part (Last true)] | read_by [Part (Last false)]].
  - intros b ts l ts' s _ Hl _ Hs.
    destruct b; [read_by [Part Statements; Part (Last true)] | read_by [Part Statements; Part (Last false)]].
  - intros []; cbn [app line].
    + read_by [Only leftBraceToken TLBRACE; Sign TENDL; Only rightBraceToken TRBRACE].
    + read_by [Only leftBraceToken TLBRACE; Only rightBraceToken TRBRACE].
  - intros b ts l closing b' _ H Hb'. destruct b'; [specialize (Hb' eq_refl); subst closing |];
      destruct b; cbn [app line].
    + read_by [Only leftBraceToken TLBRACE; Sign TENDL; Part (Body true); Sign TENDL; Only rightBraceToken TRBRACE].
    + read_by [Only leftBraceToken TLBRACE; Part (Body true); Sign TENDL; Only rightBraceToken TRBRACE].
    + destruct closing; [
        read_by [Only leftBraceToken TLBRACE; Sign TENDL; Part (Body true); Only rightBraceToken TRBRACE]
      | read_by [Only leftBraceToken TLBRACE; Sign TENDL; Part (Body false); Only rightBraceToken TRBRACE]].
    + destruct closing; [
        read_by [Only leftBraceToken TLBRACE; Part (Body true); Only rightBraceToken TRBRACE]
      | read_by [Only leftBraceToken TLBRACE; Part (Body false); Only rightBraceToken TRBRACE]].
Qed.
