(* ===== verification/CodeGenExpr.v ===== *)
(** [CodeGenVisitor] on expressions.

    One definition per member function; a child node is passed as the action
    of visiting it ([acceptVisitor(this)]), and [visit] ties the knot.  A
    null [Value*] is what the literal NULL and every error return. *)

From Stdlib Require Import Ascii.
From S2P Require Import Prelude Ast IR State Builder CodeGenBase.

Definition visitNode : M (option value) :=
  ErrorV "Attempt to generate code for generic Node".
Definition visitExpression : M (option value) :=
  ErrorV "Attempt to generate code for generic Expression".
Definition visitStatement : M (option value) :=
  ErrorV "Attempt to generate code for generic Statement".
Definition visitKeyword : M (option value) :=
  ErrorV "Attempt to generate code for dangling keyword".

Definition visitInteger (v : int64) : M (option value) :=
  c <- getContext ;; mret (Some (VConstInt c 64 v)).

Definition visitFloat (d : double) : M (option value) :=
  c <- getContext ;; mret (Some (VConstFP c d)).

Definition visitNullLiteral : M (option value) := mret None.

Definition visitIdentifier (name : string) : M (option value) :=
  val <- namedValue name ;;
  match val with
  | None => ErrorV "Attempt to generate code for not previously defined variable"
  | Some val => v <- CreateLoad val ;; mret (Some v)
  end.

(** The result of a helper that never returns null. *)
Definition some (m : M value) : M (option value) := v <- m ;; mret (Some v).

(** Widen a boolean, or a value of the other context, to this builder's types. *)
Definition to_builder_int (v : value) : M value :=
  t <- getInt64Ty ;;
  if isIntegerTy (getType v) && negb (bool_decide (getType v = t)) then castBooleantoInt v
  else mret v.
Definition to_builder_double (v : value) : M value :=
  t <- getDoubleTy ;;
  if isDoubleTy (getType v) && negb (bool_decide (getType v = t)) then CreateZExtOrBitCast v t
  else mret v.

Definition visitUnaryOperator (op : string) (exp : M (option value)) : M (option value) :=
  expr <- exp ;;
  expr <- (match expr with Some e => mret e | None => getIntNullPointer end) ;;
  expr <- to_builder_int expr ;;
  expr <- to_builder_double expr ;;
  c <- getContext ;;
  (* [*u->op], the first character; it is the terminator when [op] is empty *)
  let first := String.get 0 op in
  if isVoidTy (getType expr) then ErrorV "Unary operator applied to void type"
  else if isPointerTy (getType expr) then
    expr <- castPointerToInt expr ;;
    if decide (first = Some "-"%char) then
      some (v <- CreateMul (VConstInt c 64 (-1)) expr ;; castIntToPointer v)
    else if decide (first = Some "!"%char) then
      some (b <- castIntToBoolean expr ;; n <- CreateNot b ;; i <- castBooleantoInt n ;;
            castIntToPointer i)
    else ErrorV "Invalid unary operator found applied to pointer type"
  else if isDoubleTy (getType expr) then
    if decide (first = Some "-"%char) then
      some (CreateFMul (VConstFP c (S754_finite true 4503599627370496 (-52))) expr)
    else if decide (first = Some "!"%char) then
      some (b <- castFloatToBoolean expr ;; n <- CreateNot b ;; castBooleantoInt n)
    else ErrorV "Invalid unary operator found applied to float type"
  else if isIntegerTy (getType expr) then
    if decide (first = Some "-"%char) then some (CreateMul (VConstInt c 64 (-1)) expr)
    else if decide (first = Some "!"%char) then
      some (b <- castIntToBoolean expr ;; n <- CreateNot b ;; castBooleantoInt n)
    else ErrorV "Invalid unary operator found applied to integer type"
  else if isStructTy (getType expr) then
    ErrorV "Unable to evaluate unary operator applied to struct type"
  else ErrorV "Unexpected type found for evaluated expression applied to unary operator".

(** ** Binary operators *)

(** Lines 380-397: a double and an integer become doubles, then both operands
    take the builder's types. *)
Definition unify_operands (left right : value) : M (value * value) :=
  left' <- (if isIntegerTy (getType left) && isDoubleTy (getType right)
            then castIntToFloat left else mret left) ;;
  right' <- (if negb (isIntegerTy (getType left) && isDoubleTy (getType right)) &&
                isDoubleTy (getType left) && isIntegerTy (getType right)
             then castIntToFloat right else mret right) ;;
  left' <- to_builder_int left' ;;
  right' <- to_builder_int right' ;;
  left' <- to_builder_double left' ;;
  right' <- to_builder_double right' ;;
  mret (left', right').

Definition pointer_operator (op : Binops) (left right : value) : M value :=
  match op with
  | BOP_PLUS => v <- CreateAdd left right ;; castIntToPointer v
  | BOP_MINUS => v <- CreateSub left right ;; castIntToPointer v
  | BOP_MULT => v <- CreateMul left right ;; castIntToPointer v
  | BOP_DIV => v <- CreateSDiv left right ;; castIntToPointer v
  | BOP_NEQ => b <- CreateICmp INE left right ;; v <- castBooleantoInt b ;; castIntToPointer v
  | BOP_EQ => b <- CreateICmp IEQ left right ;; v <- castBooleantoInt b ;; castIntToPointer v
  | BOP_GTE => b <- CreateICmp ISGE left right ;; v <- castBooleantoInt b ;; castIntToPointer v
  | BOP_LTE => b <- CreateICmp ISLE left right ;; v <- castBooleantoInt b ;; castIntToPointer v
  | BOP_GT => b <- CreateICmp ISGT left right ;; v <- castBooleantoInt b ;; castIntToPointer v
  | BOP_LT => b <- CreateICmp ISLT left right ;; v <- castBooleantoInt b ;; castIntToPointer v
  | BOP_OR => l <- castIntToBoolean left ;; r <- castIntToBoolean right ;;
              v <- CreateOr l r ;; castIntToPointer v
  | BOP_AND => l <- castIntToBoolean left ;; r <- castIntToBoolean right ;;
               v <- CreateAnd l r ;; castIntToPointer v
  end.

Definition float_operator (op : Binops) (left right : value) : M value :=
  match op with
  | BOP_PLUS => CreateFAdd left right
  | BOP_MINUS => CreateFSub left right
  | BOP_MULT => CreateFMul left right
  | BOP_DIV => CreateFDiv left right
  | BOP_NEQ => b <- CreateFCmp FONE left right ;; castBooleantoInt b
  | BOP_EQ => b <- CreateFCmp FOEQ left right ;; castBooleantoInt b
  | BOP_GTE => b <- CreateFCmp FOGE left right ;; castBooleantoInt b
  | BOP_LTE => b <- CreateFCmp FOLE left right ;; castBooleantoInt b
  | BOP_GT => b <- CreateFCmp FOGT left right ;; castBooleantoInt b
  | BOP_LT => b <- CreateFCmp FOLT left right ;; castBooleantoInt b
  | BOP_OR => l <- castFloatToBoolean left ;; r <- castFloatToBoolean right ;;
              v <- CreateOr l r ;; castBooleantoInt v
  | BOP_AND => l <- castFloatToBoolean left ;; r <- castFloatToBoolean right ;;
               v <- CreateAnd l r ;; castBooleantoInt v
  end.

(** [||] and [&&] on integers leave the [i1] as it is. *)
Definition int_operator (op : Binops) (left right : value) : M value :=
  match op with
  | BOP_PLUS => CreateAdd left right
  | BOP_MINUS => CreateSub left right
  | BOP_MULT => CreateMul left right
  | BOP_DIV => CreateSDiv left right
  | BOP_NEQ => b <- CreateICmp INE left right ;; castBooleantoInt b
  | BOP_EQ => b <- CreateICmp IEQ left right ;; castBooleantoInt b
  | BOP_GTE => b <- CreateICmp ISGE left right ;; castBooleantoInt b
  | BOP_LTE => b <- CreateICmp ISLE left right ;; castBooleantoInt b
  | BOP_GT => b <- CreateICmp ISGT left right ;; castBooleantoInt b
  | BOP_LT => b <- CreateICmp ISLT left right ;; castBooleantoInt b
  | BOP_OR => l <- castIntToBoolean left ;; r <- castIntToBoolean right ;; CreateOr l r
  | BOP_AND => l <- castIntToBoolean left ;; r <- castIntToBoolean right ;; CreateAnd l r
  end.

Definition pointer_to_int (v : value) : M value :=
  if isPointerTy (getType v) then castPointerToInt v else mret v.

(** The operands are visited both before either is looked at; C++ evaluates
    the arguments of a nested [Create] call in an order of its choice, taken
    here from left to right.  The two lines that the branch for pointers writes
    to the standard output are left out: the state keeps the messages of
    [ErrorV] only. *)
Definition visitBinaryOperator (l : M (option value)) (op : string) (r : M (option value)) :
    M (option value) :=
  left <- l ;;
  right <- r ;;
  left <- (match left with Some v => mret v | None => getIntNullPointer end) ;;
  right <- (match right with Some v => mret v | None => getIntNullPointer end) ;;
  if isVoidTy (getType left) || isVoidTy (getType right) then
    ErrorV "Binary operator applied to void type"
  else
    operands <- unify_operands left right ;;
    let left := operands.1 in
    let right := operands.2 in
    i64 <- getInt64Ty ;;
    dbl <- getDoubleTy ;;
    if isPointerTy (getType left) || isPointerTy (getType right) then
      left <- pointer_to_int left ;;
      right <- pointer_to_int right ;;
      if negb (bool_decide (getType left = getType right)) then
        ErrorV "Binary operator applied to pointer and incorrect non-integer type"
      else o <- find_op op ;; some (pointer_operator o left right)
    else if bool_decide (getType left = dbl) && bool_decide (getType right = dbl) then
      o <- find_op op ;; some (float_operator o left right)
    else if bool_decide (getType left = i64) && bool_decide (getType right = i64) then
      o <- find_op op ;; some (int_operator o left right)
    else if isStructTy (getType left) || isStructTy (getType right) then
      ErrorV "Unable to evaluate binary operator applied to struct type"
    else ErrorV "Unexpected type found for evaluated operand applied to binary operator".

(** ** Calls *)

(** A NULL argument, by the type of the parameter. *)
Definition null_argument (param : ty) : M (option value) :=
  match param with
  | TPointer t =>
      if isIntegerTy t then some getIntNullPointer
      else if isDoubleTy t then some getFloatNullPointer
      else if isStructTy t then name <- getStructName t ;; getNullPointer name
      else ErrorV "Attempt to input NULL to function argument of incorrect pointer type"
  | _ => ErrorV "Attempt to input NULL to function argument of incorrect type"
  end.

Definition convert_argument (argument : value) (param : ty) : M (option value) :=
  if bool_decide (getType argument = param) then mret (Some argument)
  else if isIntegerTy (getType argument) && isDoubleTy param then some (castIntToFloat argument)
  else if isIntegerTy (getType argument) && isIntegerTy param then
    some (CreateZExtOrBitCast argument param)
  else if isDoubleTy (getType argument) && isDoubleTy param then
    some (CreateZExtOrBitCast argument param)
  else ErrorV "Invalid type as input for function args".

(** The loop over the arguments, in order.  An error of [null_argument] ends
    the call; the null that an unknown struct gives goes on to [getType]. *)
Fixpoint visitArguments (args : list (M (option value))) (params : list ty) :
    M (option (list value)) :=
  match args, params with
  | arg :: args', param :: params' =>
      argument <- arg ;;
      argument <- (match argument with
                   | Some a => mret (Some a)
                   | None => null_argument param
                   end) ;;
      match argument with
      | None =>
          match param with
          | TPointer (TStruct _) => fail NullPointer
          | _ => mret None
          end
      | Some argument =>
          converted <- convert_argument argument param ;;
          match converted with
          | None => mret None
          | Some a => rest <- visitArguments args' params' ;; mret (cons a <$> rest)
          end
      end
  | _, _ => mret (Some [])
  end.

Definition visitFunctionCall (name : string) (args : list (M (option value))) :
    M (option value) :=
  found <- getFunction name ;;
  lambda <- gets insideLambda ;;
  func <- (match found with
           | Some f => mret (Some f)
           | None =>
               if lambda then
                 mainFunc <- gets_ir (fun i => main_module i !! name) ;;
                 mainFunc <- deref mainFunc ;;
                 f <- Function_Create (f_type mainFunc) name
                        (replicate (length (fparams (f_type mainFunc))) "") ;;
                 mret (Some f)
               else ErrorV "Unknown function reference"
           end) ;;
  match func with
  | None => mret None
  | Some func =>
      if negb (bool_decide (length (fparams (f_type func)) = length args)) then
        ErrorV "Wrong number of arguments passed to function"
      else
        argVector <- visitArguments args (fparams (f_type func)) ;;
        match argVector with
        | None => mret None
        | Some argVector => some (CreateCall name (f_type func) argVector)
        end
  end.

(** ** Pointers and structures *)

Definition visitPointerExpression (ident : string) (offsetExpression : option (M (option value)))
    (field : option string) : M (option value) :=
  var <- namedValue ident ;;
  match var with
  | None => ErrorV "Unable to evaluate variable"
  | Some var =>
      match offsetExpression with
      | None => visitIdentifier ident
      | Some offsetExpression =>
          offset <- offsetExpression ;;
          match offset with
          | None => ErrorV "Unable to evaluate offset for Pointer Expression"
          | Some offset =>
              if negb (isIntegerTy (getType offset)) then
                ErrorV "Unable to access relative address as a non-integer type"
              else
                varPtr <- CreateLoad var ;;
                pointer <- CreateGEP varPtr offset ;;
                derefVar <- CreateLoad pointer ;;
                match field with
                | None => mret (Some derefVar)
                | Some fieldName =>
                    type <- getPointedType pointer ;;
                    if isStructTy type then
                      typeString <- getStructName type ;;
                      f <- getStructField typeString fieldName pointer ;;
                      mret (field_value f)
                    else ErrorV "Unable to use dot operator on dereferenced non-struct type"
                end
          end
      end
  end.

Definition visitAddressOfExpression (ident : string) (offsetExpression : option (M (option value))) :
    M (option value) :=
  var <- namedValue ident ;;
  match var with
  | None => ErrorV "Unable to evaluate variable"
  | Some var =>
      match offsetExpression with
      | None => mret (Some var)
      | Some offsetExpression =>
          offset <- offsetExpression ;;
          match offset with
          | None => ErrorV "Unable to evaluate offset for Address Expression"
          | Some offset =>
              if negb (isIntegerTy (getType offset)) then
                ErrorV "Unable to access relative address as a non-integer type"
              else varPtr <- CreateLoad var ;; some (CreateGEP varPtr offset)
          end
      end
  end.

Definition visitStructureExpression (ident fieldName : string) : M (option value) :=
  var <- namedValue ident ;;
  match var with
  | None => ErrorV "Unable to evaluate variable"
  | Some var =>
      t <- getAllocaType var ;;
      if negb (isStructTy t) then ErrorV "Unable to use dot operator on non-struct type"
      else
        typeString <- getStructName t ;;
        f <- getStructField typeString fieldName var ;;
        mret (field_value f)
  end.

(** * [acceptVisitor(this)] on an expression *)

Fixpoint visit (e : expr) : M (option value) :=
  match e with
  | Integer v => visitInteger v
  | Float d => visitFloat d
  | Identifier name => visitIdentifier name
  | UnaryOperator op e => visitUnaryOperator op (visit e)
  | BinaryOperator l op r => visitBinaryOperator (visit l) op (visit r)
  | FunctionCall f args => visitFunctionCall f (visit <$> args)
  | NullLiteral => visitNullLiteral
  | PointerExpression ident off field =>
      visitPointerExpression ident (visit <$> off) field
  | AddressOfExpression ident off => visitAddressOfExpression ident (visit <$> off)
  | StructureExpression ident field => visitStructureExpression ident field
  end.
