(* ===== verification/CodeGenStmt.v ===== *)
(** [CodeGenVisitor] on statements, blocks apart: assignments with the
    visitor of their left side, declarations, functions, returns and
    conditionals. *)

From S2P Require Import Prelude Ast IR State Builder CodeGenBase CodeGenExpr.

(** * AssignmentLHSVisitor *)

(** The null pointer stored when the right side is NULL, from the type of the
    place assigned to.  The store that follows reads through the null an
    unknown struct gives. *)
Definition null_for (place : ty) (non_pointer : string) : M (option value) :=
  match place with
  | TPointer t =>
      if isDoubleTy t then some getFloatNullPointer
      else if isIntegerTy t then some getIntNullPointer
      else if isStructTy t then
        name <- getStructName t ;; v <- getNullPointer name ;; some (deref v)
      else ErrorV "Unable to assign to unknown pointer type"
  | _ => ErrorV non_pointer
  end.

(** [right] against the type of a field or of a dereferenced place. *)
Definition fit_right (right : value) (place : ty) (message : string) : M (option value) :=
  if bool_decide (getType right = place) then mret (Some right)
  else if isIntegerTy (getType right) && isDoubleTy place then some (castIntToFloat right)
  else ErrorV message.

Definition push_recon (ref : value) : M unit :=
  modify (fun s => set_reconVector (reconVector s ++ [(None, Some ref)]) s).

(** The store that ends an assignment; [None] when an error was reported. *)
Definition store_right (right : option value) (place : value) : M (option value) :=
  match right with
  | None => mret None
  | Some r => CreateStore r place ;; mret (Some r)
  end.

Definition lhs_visitIdentifier (right : option value) (name : string) : M (option value) :=
  var <- namedValue name ;;
  match var with
  | None => ErrorV "Unable to evaluate identifier left operand in assignment statement"
  | Some var =>
      t <- getAllocaType var ;;
      r <- gets recon ;;
      if r then right <- makeSched t ;; push_recon var ;; mret right
      else
        right <- (match right with
          | None => null_for t "Unable to assign evaluated null right operand to non pointer type"
          | Some r =>
              if isDoubleTy t && isIntegerTy (getType r) then some (castIntToFloat r)
              else if negb (bool_decide (t = getType r)) then
                ErrorV "Unable to assign evaluated right operand of bad type to left operand"
              else mret (Some r)
          end) ;;
        store_right right var
  end.

Definition lhs_visitPointerExpression (right : option value) (ident : string)
    (offsetExpression : option (M (option value))) (field : option string) : M (option value) :=
  var <- namedValue ident ;;
  match var with
  | None => ErrorV "Unable to evaluate dereferenced identifier left operand in assignment statement"
  | Some var =>
      visit_offset <- deref offsetExpression ;;
      offset <- visit_offset ;;
      varPtr <- CreateLoad var ;;
      offset <- deref offset ;;
      refVar <- CreateGEP varPtr offset ;;
      CreateLoad refVar ;;
      r <- gets recon ;;
      match field with
      | Some fieldName =>
          type <- getPointedType refVar ;;
          if isStructTy type then
            typeString <- getStructName type ;;
            f <- getStructField typeString fieldName refVar ;;
            refVar <- field_pointer f ;;
            place <- getPointedType refVar ;;
            if r then right <- makeSched place ;; push_recon refVar ;; mret right
            else
              right <- (match right with
                | None => null_for place
                    "Unable to assign evaluated null right operand to non pointer type"
                | Some r => fit_right r place
                    "Dereferenced left operand field is assigned to right operand of incorrect type"
                end) ;;
              store_right right refVar
          else ErrorV "Unable to use dot operator on dereferenced non-struct type"
      | None =>
          place <- getPointedType refVar ;;
          if r then right <- makeSched place ;; push_recon refVar ;; mret right
          else
            right <- (match right with
              | None => ErrorV "Unable to assign NULL pointer to left operand of non-pointer type"
              | Some r => fit_right r place
                  "Dereferenced left operand is assigned to right operand of incorrect type"
              end) ;;
            store_right right refVar
      end
  end.

Definition lhs_visitAddressOfExpression : M (option value) :=
  ErrorV "Unable to assign a value to the reference of an identifier".

Definition lhs_visitExpression : M (option value) :=
  ErrorV "Unable to assign to left operand as general expression".

Definition lhs_visitStructureExpression (right : option value) (ident fieldName : string) :
    M (option value) :=
  var <- namedValue ident ;;
  match var with
  | None => ErrorV "Unable to evaluate accessed field of struct for left operand in assignment statement"
  | Some var =>
      t <- getAllocaType var ;;
      if negb (isStructTy t) then ErrorV "Unable to use dot operator on non-struct type"
      else
        typeString <- getStructName t ;;
        f <- getStructField typeString fieldName var ;;
        structFieldRef <- field_pointer f ;;
        place <- getPointedType structFieldRef ;;
        r <- gets recon ;;
        if r then right <- makeSched place ;; push_recon structFieldRef ;; mret right
        else
          right <- (match right with
            | None => null_for place
                "Unable to assign evaluated null right operand to non pointer type"
            | Some r => fit_right r place
                "Dereferenced left operand is assigned to right operand of incorrect type"
            end) ;;
          store_right right structFieldRef
  end.

(** [target->acceptVisitor(leftVisitor)]: the other overrides return null. *)
Definition visit_lhs (right : option value) (target : expr) : M (option value) :=
  match target with
  | Identifier name => lhs_visitIdentifier right name
  | PointerExpression ident off field =>
      lhs_visitPointerExpression right ident (visit <$> off) field
  | AddressOfExpression _ _ => lhs_visitAddressOfExpression
  | StructureExpression ident field => lhs_visitStructureExpression right ident field
  | _ => mret None
  end.

Definition visitAssignStatement (target valxp : expr) : M (option value) :=
  r <- gets recon ;;
  right <- (if r then mret None else visit valxp) ;;
  retVal <- visit_lhs right target ;;
  r <- gets recon ;;
  match retVal with
  | None => if r then mret None else ErrorV "Unable to evaluate assignment statement"
  | Some v => mret (Some v)
  end.

(** * Variables *)

(** The initial value of a pointer variable. *)
Definition pointer_initial (type : string) (exp : option expr) : M (option value) :=
  let null :=
    if decide (type = "int") then some getIntNullPointer
    else if decide (type = "float") then some getFloatNullPointer
    else ErrorV "Attempt to create variable of incorrect pointer type" in
  match exp with
  | None => null
  | Some e =>
      val <- visit e ;;
      match val with
      | None => null
      | Some val =>
          match getType val with
          | TPointer t =>
              if isIntegerTy t && negb (bool_decide (type = "int")) then
                ErrorV "Attempt to assign incorrect pointer type to int*"
              else if isDoubleTy t && negb (bool_decide (type = "float")) then
                ErrorV "Attempt to assign incorrect pointer type to float*"
              else mret (Some val)
          | _ => ErrorV "Attempt to assign non-pointer type to pointer type"
          end
      end
  end.

(** The initial value of a variable that is not a pointer. *)
Definition plain_initial (type : string) (exp : option expr) : M (option value) :=
  c <- getContext ;;
  match exp with
  | None =>
      if decide (type = "int") then mret (Some (VConstInt c 64 0))
      else if decide (type = "float") then mret (Some (VConstFP c double_zero))
      else ErrorV "Attempt to declare variable of an incorrect type"
  | Some e =>
      val <- visit e ;;
      match val with
      | None => ErrorV "Unable to assign expression evaluated to null"
      | Some val =>
          if isPointerTy (getType val) then
            ErrorV "Attempt to assign pointer type to non-pointer type"
          else if bool_decide (type = "int") && isDoubleTy (getType val) then
            ErrorV "Attempt to assign float to int type"
          else if bool_decide (type = "float") && isIntegerTy (getType val) then
            some (castIntToFloat val)
          else mret (Some val)
      end
  end.

Definition visitVariableDefinition (type name : string) (exp : option expr)
    (hasPointerType : bool) : M (option value) :=
  m <- gets namedValues ;;
  if bool_decide (is_Some (m !! name)) then ErrorV "Attempt to redefine variable"
  else
    func <- getParent ;;
    val <- (if hasPointerType then pointer_initial type exp else plain_initial type exp) ;;
    match val with
    | None => mret None
    | Some val =>
        alloca <- createAlloca func (getType val) ;;
        namedValues_insert name alloca ;;
        CreateStore val alloca ;;
        mret (Some val)
    end.

Definition visitStructureDeclaration (type name : string) (hasPointerType : bool) :
    M (option value) :=
  func <- getParent ;;
  types <- gets structTypes ;;
  match types !! type with
  | None => ErrorV "Unable to instantiate struct that is not previously declared"
  | Some (currStruct, _) =>
      if hasPointerType then
        let structPtrDec := VConstNull (TPointer (TStruct currStruct)) in
        alloca <- createAlloca func (getType structPtrDec) ;;
        namedValues_insert name alloca ;;
        some (CreateStore structPtrDec alloca)
      else
        alloca <- createAlloca func (TStruct currStruct) ;;
        namedValues_insert name alloca ;;
        some (CreateStore (VAggregateZero (TStruct currStruct)) alloca)
  end.

(** * Structure definitions *)

(** The types and names of the plain fields, in order. *)
Fixpoint struct_variables (vars : list vardef) : M (option (list (ty * string))) :=
  match vars with
  | [] => mret (Some [])
  | var :: vars' =>
      match vardef_exp var with
      | Some _ => ErrorV "Attempt to instantiate types within structs that can only be declared"
      | None =>
          type <- getTypeFromString (stringType var) (vardef_hasPointerType var) false ;;
          match type with
          | None => ErrorV "Invalid type for struct definition"
          | Some t => rest <- struct_variables vars' ;; mret (cons (t, vardef_ident var) <$> rest)
          end
      end
  end.

(** The types and names of the fields that are structures. *)
Fixpoint struct_structs (self : string) (currStruct : nat) (structs : list vardef) :
    M (option (list (ty * string))) :=
  match structs with
  | [] => mret (Some [])
  | strct :: structs' =>
      types <- gets structTypes ;;
      let typeName := stringType strct in
      t <- (if negb (vardef_hasPointerType strct) then
              if decide (typeName = self) then
                ErrorV "Attempt to evaluate recursive struct with no pointer"
              else match types !! typeName with
                   | Some (tempStruct, _) => mret (Some (TStruct tempStruct))
                   | None => ErrorV "Attempt to create struct pointer type within struct that is not previously declared"
                   end
            else if decide (typeName = self) then mret (Some (TPointer (TStruct currStruct)))
            else match types !! typeName with
                 | Some (tempStruct, _) => mret (Some (TPointer (TStruct tempStruct)))
                 | None => ErrorV "Attempt to create struct type within struct that is not previously declared"
                 end) ;;
      match t with
      | None => mret None
      | Some t =>
          rest <- struct_structs self currStruct structs' ;;
          mret (cons (t, vardef_ident strct) <$> rest)
      end
  end.

Definition lift_res {A} (r : res crash A) : M A :=
  match r with Ok a => mret a | Err e => fail e end.

Definition visitStructureDefinition (ident : string) (b : block) : M (option value) :=
  vars <- lift_res (getVariables b) ;;
  structs <- lift_res (getStructs b) ;;
  currStruct <- StructType_create ident ;;
  fields <- struct_variables vars ;;
  match fields with
  | None => mret None
  | Some fields =>
      more <- struct_structs ident currStruct structs ;;
      match more with
      | None => mret None
      | Some more =>
          setBody currStruct ((fields ++ more).*1) ;;
          structTypes_insert ident currStruct ((fields ++ more).*2) ;;
          getVoidValue
      end
  end.

(** * Functions *)

(** Copy each argument into a stack variable of its name. *)
Fixpoint bind_arguments (p : ctx * string) (i : nat) (params : list ty) (names : list string) :
    M unit :=
  match params, names with
  | t :: params', name :: names' =>
      alloca <- createAlloca p t ;;
      CreateStore (VArgument p.2 i t) alloca ;;
      namedValues_insert name alloca ;;
      bind_arguments p (S i) params' names'
  | _, _ => mret tt
  end.

(** Copy each field of the environment into a stack variable of its name. *)
Fixpoint bind_environment (p : ctx * string) (envAlloca : value) (varList : list string) :
    M unit :=
  match varList with
  | [] => mret tt
  | x :: varList' =>
      env <- CreateLoad envAlloca ;;
      f <- getStructField "env" x env ;;
      val <- deref (field_value f) ;;
      alloca <- createAlloca p (getType val) ;;
      CreateStore val alloca ;;
      namedValues_insert x alloca ;;
      bind_environment p envAlloca varList'
  end.

(** The prologue of a closure: lines 950-965. *)
Definition closure_prologue (p : ctx * string) (f : func) : M unit :=
  envType <- deref (head (fparams (f_type f))) ;;
  envName <- deref (head (f_argnames f)) ;;
  types <- gets structTypes ;;
  structTuple <- (match types !! "env" with Some t => mret t | None => fail BadIndex end) ;;
  let envPtr := TPointer (TStruct structTuple.1) in
  envAlloca <- createAlloca p envPtr ;;
  environ <- CreateBitOrPointerCast (VArgument p.2 0 envType) envPtr ;;
  CreateStore environ envAlloca ;;
  namedValues_insert envName envAlloca ;;
  bind_environment p envAlloca structTuple.2.

(** [body] is the visit of the function's block. *)
Definition visitFunctionDefinition (type : rettype) (name : string) (args : list vardef)
    (body : M (option value)) (hasPointerType : bool) : M (option value) :=
  found <- getFunction name ;;
  func <- (match found with
           | Some f => mret (Some f)
           | None => generateFunction hasPointerType
                       (match type with KeywordType t => t | UserType t => t end) name args
           end) ;;
  match func with
  | None => ErrorV "Invalid function signature"
  | Some func =>
      if negb (func_empty func) then ErrorV "Function is already defined"
      else
        c <- getContext ;;
        b <- new_block_in c name ;;
        SetInsertPoint b ;;
        modify (set_namedValues ∅) ;;
        lambda <- gets insideLambda ;;
        (if lambda then closure_prologue (c, name) func
         else bind_arguments (c, name) 0 (fparams (f_type func)) (f_argnames func)) ;;
        body
  end.

Definition visitExternStatement (type name : string) (args : list vardef)
    (hasPointerType : bool) : M (option value) :=
  found <- getFunction name ;;
  func <- (match found with
           | Some f => mret (Some f)
           | None => generateFunction hasPointerType type name args
           end) ;;
  match func with
  | None => ErrorV "Invalid extern function signature"
  | Some _ => getVoidValue
  end.

(** * Expression, return and if statements *)

Definition visitExpressionStatement (e : expr) : M (option value) := visit e.

(** The NULL a pointer function returns; [CreateRet] of a null value is a
    [ret void]. *)
Definition return_null (t : ty) : M (option value) :=
  match t with
  | TPointer t' =>
      if isIntegerTy t' then v <- getIntNullPointer ;; some (CreateRet v)
      else if isDoubleTy t' then v <- getFloatNullPointer ;; some (CreateRet v)
      else if isStructTy t' then
        name <- getStructName t' ;;
        v <- getNullPointer name ;;
        match v with Some v => some (CreateRet v) | None => some CreateRetVoid end
      else ErrorV "Unable to return bad pointer type from function"
  | _ => ErrorV "Unable to return incorrect NULL type from function"
  end.

Definition visitReturnStatement (exp : option expr) : M (option value) :=
  p <- getParent ;;
  modify (set_justReturned true) ;;
  func <- getFunc p ;;
  let ret := getFuncRetType func in
  match exp with
  | Some e =>
      retVal <- visit e ;;
      match retVal with
      | Some retVal =>
          if isVoidTy (getType retVal) && isVoidTy ret then some CreateRetVoid
          else if bool_decide (ret = getType retVal) then
            CreateRet retVal ;; mret (Some retVal)
          else if isIntegerTy (getType retVal) && isDoubleTy ret then
            v <- castIntToFloat retVal ;; CreateRet v ;; mret (Some retVal)
          else ErrorV "Unable to return bad type from function"
      | None => return_null ret
      end
  | None =>
      if isVoidTy ret then some CreateRetVoid
      else ErrorV "Unable to return bad void type from function"
  end.

(** One arm: [block] is the visit of its block, absent when the pointer is
    null; a branch to [merge] unless the arm just returned. *)
Definition visit_arm (block : option (M (option value))) (merge : nat) : M unit :=
  (match block with
   | Some b => modify (set_justReturned false) ;; b ;; mret tt
   | None => mret tt
   end) ;;
  returned <- gets justReturned ;;
  if returned then modify (set_justReturned false) else CreateBr merge ;; mret tt.

Definition visitIfStatement (e : expr) (block else_block : option (M (option value))) :
    M (option value) :=
  condition <- visit e ;;
  condition <- (match condition with
                | None => n <- getIntNullPointer ;; castPointerToInt n
                | Some v => if isPointerTy (getType v) then castPointerToInt v else mret v
                end) ;;
  condition <- (if isDoubleTy (getType condition) then some (castFloatToBoolean condition)
                else if isIntegerTy (getType condition) then some (castIntToBoolean condition)
                else ErrorV "Unable to determine condition type") ;;
  match condition with
  | None => mret None
  | Some condition =>
      func <- getParent ;;
      thenIf <- new_block_in func.1 func.2 ;;
      elseIf <- new_block ;;
      mergeIf <- new_block ;;
      CreateCondBr condition thenIf elseIf ;;
      SetInsertPoint thenIf ;;
      visit_arm block mergeIf ;;
      push_block func.1 func.2 elseIf ;;
      SetInsertPoint elseIf ;;
      visit_arm else_block mergeIf ;;
      push_block func.1 func.2 mergeIf ;;
      SetInsertPoint mergeIf ;;
      getVoidValue
  end.
