(* ===== verification/CodeGenBlock.v ===== *)
(** [CodeGenVisitor::visitBlock]: commit groups, the closures that run the
    statements of a group, and their reconciliation; then [acceptVisitor] on
    statements and the whole program.

    A statement comes with the action of visiting it, as a virtual call does.
    Two things the source leaves to its environment are parameters: the
    address the JIT gives a closure, and the order in which an
    [unordered_map] is iterated. *)

From S2P Require Import Prelude Ast IR State Builder CodeGenBase CodeGenExpr CodeGenStmt.

(** * The commit vector *)

(** The second loop of [visitBlock]: the first committing statement after
    statements that do not commit joins their group. *)
Fixpoint adjust_commits (prev : bool) (commitVector : list bool) : list bool :=
  match commitVector with
  | [] => []
  | commit :: rest =>
      if negb commit then commit :: adjust_commits commit rest
      else if negb prev then false :: adjust_commits true rest
      else commit :: adjust_commits prev rest
  end.

Definition commit_vector (statements : list stmt) : list bool :=
  adjust_commits true (statementCommits <$> statements).

Section codegen.
Context (jit_address : string -> Z).
Context (hash_order : gmap string (option value) -> list (string * option value)).

(** ** The start of a group: lines 538-551 *)
Definition begin_group : M unit :=
  e <- gets executeCommit ;;
  if e then
    modify (set_executeCommit false) ;;
    cid <- visitVariableDefinition "int" "cid" (Some (FunctionCall "__make_context" [])) false ;;
    modify (set_currCid cid) ;;
    modify (set_currId 0)
  else mret tt.

(** ** The environment: lines 553-574 *)

(** Load every variable in scope, with its name and type. *)
Fixpoint load_variables (entries : list (string * option value)) :
    M (list (string * ty * value)) :=
  match entries with
  | [] => mret []
  | (name, alloca) :: entries' =>
      alloca <- deref alloca ;;
      t <- getAllocaType alloca ;;
      v <- CreateLoad alloca ;;
      rest <- load_variables entries' ;;
      mret ((name, t, v) :: rest)
  end.

Fixpoint store_environment (alloca : value) (vars : list (string * ty * value)) : M unit :=
  match vars with
  | [] => mret tt
  | (name, _, v) :: vars' =>
      f <- getStructField "env" name alloca ;;
      structFieldRef <- field_pointer f ;;
      CreateStore v structFieldRef ;;
      store_environment alloca vars'
  end.

Definition make_environment : M unit :=
  currStruct <- StructType_create "env" ;;
  m <- gets namedValues ;;
  vars <- load_variables (hash_order m) ;;
  setBody currStruct ((fun v => v.1.2) <$> vars) ;;
  structTypes_insert "env" currStruct ((fun v => v.1.1) <$> vars) ;;
  p <- getParent ;;
  alloca <- createAlloca p (TStruct currStruct) ;;
  CreateStore (VAggregateZero (TStruct currStruct)) alloca ;;
  namedValues_insert "e0" alloca ;;
  CreateLoad alloca ;;
  store_environment alloca vars.

(** ** The closure: lines 585-622 *)

(** What is pushed on [reconVector] and the return type of the closure. *)
Definition plan_recon (exprLHS exprRHS : option expr) : M unit :=
  modify (set_lambdaKeyword None) ;;
  match exprLHS with
  | None =>
      modify (set_lambdaKeyword (Some "void")) ;;
      modify (fun s => set_reconVector (reconVector s ++ [(None, None)]) s)
  | Some lhs =>
      modify (set_recon true) ;;
      rhs <- deref exprRHS ;;
      visitAssignStatement lhs rhs ;;
      modify (set_recon false)
  end.

(** [visit_block] visits the block of the closure; [insideLambda] is set
    meanwhile. *)
Definition compile_closure (identifier : string) (visit_block : M (option value)) : M unit :=
  modify (set_insideLambda true) ;;
  modify_ir (fun r => ir_set_ip (main_ip r) None (ir_set_modules (main_module r) (Some ∅) r)) ;;
  k <- gets lambdaKeyword ;;
  keyword <- (match k with Some k => mret k | None => fail Uninitialized end) ;;
  visitFunctionDefinition (KeywordType keyword) identifier
    [StructureDeclaration "void" "e0" true] visit_block false ;;
  modify (set_insideLambda false).

(** ** The call that schedules it: lines 623-652 *)
Definition schedule_closure (identifier : string) (lastVisited : option value) :
    M (option value) :=
  modify_ir (fun r => ir_set_jitted (jitted r ++ [identifier])
                        (ir_set_modules (main_module r) None r)) ;;
  lamPtr <- castIntToPointer (VConstInt MainCtx 64 (jit_address identifier)) ;;
  env <- visitAddressOfExpression "e0" None ;;
  env <- deref env ;;
  envPtr <- CreateBitOrPointerCast env (TPointer (TInt MainCtx 64)) ;;
  id <- gets currId ;;
  modify (set_currId (id + 1)) ;;
  cid <- gets currCid ;;
  k <- gets lambdaKeyword ;;
  lambdaCall <-
    (if decide (k = Some "int") then
       f <- getFunction "__fork_sched_int" ;; mret (pair "__fork_sched_int" <$> f)
     else if decide (k = Some "float") then
       f <- getFunction "__fork_sched_float" ;; mret (pair "__fork_sched_float" <$> f)
     else if decide (k = Some "void") then
       f <- getFunction "__fork_sched_void" ;; mret (pair "__fork_sched_void" <$> f)
     else ErrorV "Not yet implemented closure assignment to pointer or struct types") ;;
  match lambdaCall with
  | None => mret lastVisited
  | Some (name, f) =>
      cid <- deref cid ;;
      some (CreateCall name (f_type f) [lamPtr; envPtr; VConstInt MainCtx 64 id; cid])
  end.

(** ** One statement of a group: lines 537-653 *)
Definition make_closure
    (visitBlock : option (list (stmt * M (option value))) -> M (option value))
    (statement : stmt) (visit_statement : M (option value)) (lastVisited : option value) :
    M (option value) :=
  begin_group ;;
  let statement := setCommit statement true in
  make_environment ;;
  copyValues <- gets namedValues ;;
  ip <- saveAndClearIP ;;
  n <- gets lambdaNum ;;
  modify (set_lambdaNum (n + 1)) ;;
  let identifier := "lambda" +:+ pretty n in
  let lambdaVisitor := (LambdaReconVisitor.accept statement LambdaReconVisitor.new).2 in
  let exprLHS := LambdaReconVisitor.getLHS lambdaVisitor in
  let exprRHS := LambdaReconVisitor.getRHS lambdaVisitor in
  let lambdaStatements :=
    (match exprLHS with None => [(statement, visit_statement)] | Some _ => [] end) ++
    [(ReturnStatement exprRHS, visitReturnStatement exprRHS)] in
  plan_recon exprLHS exprRHS ;;
  compile_closure identifier (visitBlock (Some lambdaStatements)) ;;
  restoreIP ip ;;
  modify (set_namedValues copyValues) ;;
  last <- schedule_closure identifier lastVisited ;;
  modify (fun s => set_structTypes (delete "env" (structTypes s)) s) ;;
  modify (fun s => set_namedValues (delete "e0" (namedValues s)) s) ;;
  mret last.

(** ** The end of a group: lines 655-700 *)

(** The loop over [reconVector], from index [i]; a value that is neither an
    integer nor a double ends it. *)
Fixpoint reconcile (i : Z) (l : list (option value * option value)) : M unit :=
  match l with
  | [] => mret tt
  | (_, Some refVar) :: l' =>
      var <- CreateLoad refVar ;;
      let call reconName :=
        max <- gets currId ;;
        cid <- gets currCid ;;
        reconFun <- getFunction reconName ;;
        reconFun <- deref reconFun ;;
        cid <- deref cid ;;
        reconCall <- CreateCall reconName (f_type reconFun)
          [var; VConstInt MainCtx 64 1; VConstInt MainCtx 64 i; VConstInt MainCtx 64 max; cid] ;;
        CreateStore reconCall refVar ;;
        reconcile (i + 1) l' in
      if isIntegerTy (getType var) then call "__recon_int"
      else if isDoubleTy (getType var) then call "__recon_float"
      else mret tt
  | (_, None) :: l' =>
      max <- gets currId ;;
      cid <- gets currCid ;;
      reconFun <- getFunction "__recon_void" ;;
      reconFun <- deref reconFun ;;
      cid <- deref cid ;;
      CreateCall "__recon_void" (f_type reconFun)
        [VConstInt MainCtx 64 i; VConstInt MainCtx 64 max; cid] ;;
      reconcile (i + 1) l'
  end.

Definition end_group : M unit :=
  modify (set_executeCommit true) ;;
  modify (fun s => set_currId (currId s - 1) s) ;;
  l <- gets reconVector ;;
  reconcile 0 l ;;
  visitFunctionCall "__destroy_context" [visitIdentifier "cid"] ;;
  modify (fun s => set_namedValues (delete "cid" (namedValues s)) s).

(** ** The loop over the statements *)

Section block.
Context (visitClosureBlock : option (list (stmt * M (option value))) -> M (option value)).

Fixpoint visit_statements (commitVector : list bool) (i : nat)
    (statements : list (stmt * M (option value))) (lastVisited : option value) :
    M (option value) :=
  match statements with
  | [] => mret lastVisited
  | (statement, visit_statement) :: rest =>
      lambda <- gets insideLambda ;;
      commits <- (if lambda then mret true
                  else match commitVector !! i with
                       | Some b => mret b
                       | None => fail OutOfRange
                       end) ;;
      last <- (if negb commits
               then make_closure visitClosureBlock statement visit_statement lastVisited
               else
                 e <- gets executeCommit ;;
                 (if negb e && negb lambda then end_group else mret tt) ;;
                 visit_statement) ;;
      visit_statements commitVector (S i) rest last
  end.

Definition visitBlock_with (b : option (list (stmt * M (option value)))) :
    M (option value) :=
  match b with
  | None => mret None
  | Some statements =>
      lambda <- gets insideLambda ;;
      if lambda then visit_statements [] 0 statements None
      else
        modify (set_executeCommit true) ;;
        visit_statements (commit_vector statements.*1) 0 statements None
  end.
End block.

(** The block of a closure is visited with [insideLambda] set, and then
    makes no closure itself. *)
Definition visitClosureBlock : option (list (stmt * M (option value))) -> M (option value) :=
  visitBlock_with (fun _ => fail (Assertion "a closure inside a closure")).

Definition visitBlock : option (list (stmt * M (option value))) -> M (option value) :=
  visitBlock_with visitClosureBlock.

(** * [acceptVisitor(this)] on a statement *)

Fixpoint accept (s : stmt) : M (option value) :=
  let visits (b : option (list stmt)) : option (list (stmt * M (option value))) :=
    fmap (M := option) (fun l => fmap (M := list) (fun s => (s, accept s)) l) b in
  match s with
  | SVariable (VariableDefinition _ type ident exp ptr) =>
      visitVariableDefinition type ident exp ptr
  | SVariable (StructureDeclaration user_type ident ptr) =>
      visitStructureDeclaration user_type ident ptr
  | StructureDefinition ident b => visitStructureDefinition ident b
  | FunctionDefinition type ident args b ptr =>
      visitFunctionDefinition type ident args (visitBlock (visits b)) ptr
  | ExpressionStatement _ e => visitExpressionStatement e
  | ReturnStatement e => visitReturnStatement e
  | AssignStatement _ target valxp => visitAssignStatement target valxp
  | IfStatement e b eb =>
      visitIfStatement e (fmap (M := option) (fun b => visitBlock (visits b)) b)
        (fmap (M := option) (fun b => visitBlock (visits b)) eb)
  | ExternStatement type ident args ptr => visitExternStatement type ident args ptr
  end.

Definition with_visits (l : list stmt) : list (stmt * M (option value)) :=
  (fun s => (s, accept s)) <$> l.

(** [ast_root->acceptVisitor(&c)]. *)
Definition visit_program (statements : list stmt) : M (option value) :=
  visitBlock (Some (with_visits statements)).
End codegen.

(** * What the driver does with the visitor *)

(** [printModule]: the IR is dumped, or the message printed. *)
Inductive dump : Type := DumpedIR | DumpPrevented.
Definition printModule (s : cg) : dump := if error s then DumpPrevented else DumpedIR.

(** [executeMain]: [main] runs only when no error was reported, and has to be
    there. *)
Inductive execution : Type := Executed | Halted.
Definition executeMain : M execution :=
  e <- gets error ;;
  if e then mret Halted
  else
    main <- gets_ir (fun r => main_module r !! "main") ;;
    assert (match main with Some f => negb (func_empty f) | None => false end)
      "No code to execute, include a main function" ;;
    mret Executed.
