(* ===== verification/Injections.v ===== *)
(** What the front end hands to the code generator: [buildInjections] of
    [yy_overrides.h], the external declarations put in front of every
    program, and [main] of [main.cpp], which runs the visitor over the tree. *)

From S2P Require Import Prelude Bison Grammar Lexer Ast IR State Builder CodeGenBase CodeGenExpr CodeGenStmt.
From S2P Require Import CodeGenBlock.

(** * [buildInjections] *)

Definition kvoid : string := "void".
Definition kint : string := "int".
Definition kfloat : string := "float".

Definition vfunc : vardef := VariableDefinition false kvoid "func" None true.
Definition venv : vardef := VariableDefinition false kvoid "env" None true.
Definition vid : vardef := VariableDefinition false kint "id" None false.
Definition vcid : vardef := VariableDefinition false kint "cid" None false.
Definition vmax : vardef := VariableDefinition false kint "max" None false.
Definition vknownint : vardef := VariableDefinition false kint "known" None false.
Definition vknownintptr : vardef := VariableDefinition false kint "known" None true.
Definition vknownfloat : vardef := VariableDefinition false kfloat "known" None false.
Definition vknownfloatptr : vardef := VariableDefinition false kfloat "known" None true.
Definition voriginalint : vardef := VariableDefinition false kint "original" None false.
Definition voriginalintptr : vardef := VariableDefinition false kint "original" None true.
Definition voriginalfloat : vardef := VariableDefinition false kfloat "original" None false.
Definition voriginalfloatptr : vardef := VariableDefinition false kfloat "original" None true.

Definition buildInjections : list stmt := [
  new_ExternStatement5 kint "malloc_int" [vid] true true;
  new_ExternStatement5 kfloat "malloc_float" [vid] true true;
  new_ExternStatement5 kint "calloc_int" [vid] true true;
  new_ExternStatement5 kfloat "calloc_float" [vid] true true;
  new_ExternStatement5 kvoid "free_int" [voriginalintptr] false true;
  new_ExternStatement5 kvoid "free_float" [voriginalfloatptr] false true;
  new_ExternStatement5 kint "__make_context" [] false true;
  new_ExternStatement5 kvoid "__fork_sched_int" [vfunc; venv; vid; vcid] false true;
  new_ExternStatement5 kvoid "__fork_sched_float" [vfunc; venv; vid; vcid] false true;
  new_ExternStatement5 kvoid "__fork_sched_intptr" [vfunc; venv; vid; vcid] false true;
  new_ExternStatement5 kvoid "__fork_sched_floatptr" [vfunc; venv; vid; vcid] false true;
  new_ExternStatement5 kvoid "__fork_sched_void" [vfunc; venv; vid; vcid] false true;
  new_ExternStatement5 kint "__recon_int" [voriginalint; vknownint; vid; vmax; vcid] false true;
  new_ExternStatement5 kfloat "__recon_float"
    [voriginalfloat; vknownfloat; vid; vmax; vcid] false true;
  new_ExternStatement5 kint "__recon_intptr"
    [voriginalintptr; vknownintptr; vid; vmax; vcid] true true;
  new_ExternStatement5 kfloat "__recon_floatptr"
    [voriginalfloatptr; vknownfloatptr; vid; vmax; vcid] true true;
  new_ExternStatement5 kvoid "__recon_void" [vid; vmax; vcid] false true;
  new_ExternStatement5 kvoid "__destroy_context" [vcid] false true
].

(** The action of the start symbol of [parser.y]: the injections go in front
    of the statements of the program. *)
Definition program (statements : list stmt) : list stmt := buildInjections ++ statements.

(** * [main] *)

(** What [main] does.  [yyparse] leaves the statements of the program block, or
    nothing when [ast_root] stays null.  A crash comes before the module is
    printed or behind it. *)
Inductive outcome : Type :=
  | NeedFileInput
  | TooManyInputs
  | OpenFailed (file : string)
  | NoAst
  | Compiled (d : dump) (e : execution)
  | Crashed (d : option dump) (c : crash).

Section main.
Context (jit_address : string -> Z).
Context (hash_order : gmap string (option value) -> list (string * option value)).
Context (fopen : string -> option string).          (* the text of a readable file *)

(** The visitor on a program, and the state it leaves. *)
Definition compile (sts : list stmt) : res crash (option value) * cg :=
  visit_program jit_address hash_order (program sts) new_CodeGenVisitor.

Definition run_visitor (sts : list stmt) : outcome :=
  match compile sts with
  | (Err c, _) => Crashed None c
  | (Ok _, s) =>
      let d := printModule s in
      match executeMain s with
      | (Ok e, _) => Compiled d e
      | (Err c, _) => Crashed (Some d) c
      end
  end.

(** The parser, on what the lexer gives it. *)
Definition yyparse (text : string) : option (list stmt) :=
  match (lex (String.list_ascii_of_string text)).1 with Ok ts => grammar ts | Err _ => None end.

(** [argv] with the name of the program. *)
Definition main (argv : list string) : outcome :=
  match argv with
  | [_; file] =>
      match fopen file with
      | Some text =>
          match yyparse text with
          | Some sts => run_visitor sts
          | None => NoAst
          end
      | None => OpenFailed file
      end
  | _ :: _ :: _ :: _ => TooManyInputs
  | _ => NeedFileInput
  end.
End main.
