(* ===== verification/CodeGenLogic.v ===== *)
(** A program logic for the code generator: the well-formedness invariant of
    its state, the order in which states follow each other, and the rules
    with which both are carried through every member function. *)

From S2P Require Import Prelude Ast IR State Builder CodeGenBase CodeGenExpr.

(** * Well-formed states *)

Definition pointer_typed (v : value) : Prop := exists t, getType v = TPointer t.

Definition named_wf (m : gmap string (option value)) : Prop :=
  forall x v, m !! x = Some (Some v) -> pointer_typed v.

Definition ip_wf (i : ir) (ip : option nat) : Prop := forall b, ip = Some b -> b < next_block i.

Definition module_wf (i : ir) (m : gmap string func) : Prop :=
  forall n f, m !! n = Some f -> Forall (fun b => b < next_block i) (f_blocks f).

(** Instruction [id] stands in block [b]. *)
Definition placed (i : ir) (id b : nat) : Prop :=
  exists l, blocks i !! b = Some l /\ id ∈ l.*1.

(** The body of a struct type that has as many fields as [names]. *)
Definition fields_wf (i : ir) (id : nat) (names : list string) : Prop :=
  exists info l, structs i !! id = Some info /\ st_body info = Some l /\ length l = length names.

(** What the builder asserts of the types of the operands of an instruction,
    calls apart, whose functions are not part of the instruction; of a return
    and of the index of [IGEP] it asserts nothing. *)
Definition typed_operands (i : inst) : bool :=
  match i with
  | IAlloca t => negb (isVoidTy t)
  | ILoad p | IGEP p _ => isPointerTy (getType p)
  | IStore v p => bool_decide (getType p = TPointer (getType v))
  | IBinary op l r => bool_decide (getType l = getType r) && binaryIsValid op (getType l)
  | IICmp _ l r =>
      bool_decide (getType l = getType r) && (isIntegerTy (getType l) || isPointerTy (getType l))
  | IFCmp _ l r => bool_decide (getType l = getType r) && isDoubleTy (getType l)
  | ICast op v t => castIsValid op (getType v) t
  | IStructGEP t p _ => isStructTy t && bool_decide (getType p = TPointer t)
  | ICall _ _ | IRet _ | IBr _ => true
  | ICondBr v _ _ => match getType v with TInt _ w => bool_decide (w = 1)%Z | _ => false end
  end.

Definition typed_code (l : list (nat * inst)) : Prop := Forall (fun p => typed_operands p.2 = true) l.

(** The modules, blocks and struct types: blocks and instructions are
    numbered below the counters, every such number is a block, an instruction stands in one place, once, and
    its operands have types it takes. *)
Record ir_wf (i : ir) : Prop := {
  wf_blocks : forall b l, blocks i !! b = Some l -> b < next_block i;
  wf_made : forall b, b < next_block i -> is_Some (blocks i !! b);
  wf_ids : forall id b, placed i id b -> id < next_inst i;
  wf_detached : forall id, id ∈ (detached i).*1 -> id < next_inst i;
  wf_once : forall id b b', placed i id b -> placed i id b' -> b = b';
  wf_nodup : forall b l, blocks i !! b = Some l -> NoDup l.*1;
  wf_main : module_wf i (main_module i);
  wf_lambda : forall m, lambda_module i = Some m -> module_wf i m;
  wf_main_ip : ip_wf i (main_ip i);
  wf_lambda_ip : ip_wf i (lambda_ip i);
  wf_typed : forall b l, blocks i !! b = Some l -> typed_code l;
  wf_typed_detached : typed_code (detached i)
}.

(** A block that is there, and that every block of a function and every
    insertion point is. *)
Definition block_made (i : ir) (b : nat) : Prop := is_Some (blocks i !! b).

Definition blocks_exist (i : ir) : Prop :=
  (forall name f, main_module i !! name = Some f -> Forall (block_made i) (f_blocks f)) /\
  (forall m name f, lambda_module i = Some m -> m !! name = Some f -> Forall (block_made i) (f_blocks f)) /\
  (forall b, main_ip i = Some b -> block_made i b) /\
  (forall b, lambda_ip i = Some b -> block_made i b).

Lemma wf_blocks_exist i : ir_wf i -> blocks_exist i.
Proof.
  intros []. split_and!.
  - intros name f Hf. eapply Forall_impl; [by eapply wf_main0 | apply wf_made0].
  - intros m name f Hm Hf. eapply Forall_impl; [by eapply wf_lambda0 | apply wf_made0].
  - intros b Hb. by apply wf_made0, wf_main_ip0.
  - intros b Hb. by apply wf_made0, wf_lambda_ip0.
Qed.

(** The visitor: the flag tells whether a message was printed, a variable is
    a pointer to its slot, a struct type of the program has a body that its
    field names fit. *)
Record wf (s : cg) : Prop := {
  wf_error : error s = bool_decide (errors s <> []);
  wf_named : named_wf (namedValues s);
  wf_structs : forall x id names,
    structTypes s !! x = Some (id, names) -> fields_wf (theIR s) id names;
  wf_ir : ir_wf (theIR s)
}.

(** * The order of states

    Nothing that was built is unmade: messages, reconciliation entries,
    instructions, function signatures and struct bodies stay. *)

Record ir_later (i i' : ir) : Prop := {
  later_inst : next_inst i <= next_inst i';
  later_block : next_block i <= next_block i';
  later_code : forall b l, blocks i !! b = Some l ->
    exists l', blocks i' !! b = Some l' /\ l `sublist_of` l';
  later_detached : detached i `prefix_of` detached i';
  later_structs : forall id info, structs i !! id = Some info ->
    exists info', structs i' !! id = Some info' /\ st_ctx info' = st_ctx info /\
      st_name info' = st_name info /\
      (forall l, st_body info = Some l -> st_body info' = Some l);
  later_main : forall n f, main_module i !! n = Some f ->
    exists f', main_module i' !! n = Some f' /\ f_type f' = f_type f /\
      f_argnames f' = f_argnames f /\ f_blocks f `prefix_of` f_blocks f';
  later_jitted : jitted i `prefix_of` jitted i'
}.

Record later (s s' : cg) : Prop := {
  later_errors : errors s `prefix_of` errors s';
  later_lambdaNum : (lambdaNum s <= lambdaNum s')%Z;
  later_recon : reconVector s `prefix_of` reconVector s';
  later_ir : ir_later (theIR s) (theIR s')
}.

#[export] Instance ir_later_preorder : PreOrder ir_later.
Proof.
  split.
  - intros i. split; try done; eauto 6.
  - intros i1 i2 i3 H1 H2. destruct H1 as [a1 a2 a3 a4 a5 a6 a7], H2 as [b1 b2 b3 b4 b5 b6 b7].
    split; [lia | lia | | by etrans | | | by etrans].
    + intros b l H. apply a3 in H as (l1 & H & S1). apply b3 in H as (l2 & H & S2).
      exists l2. split; [done | by etrans].
    + intros id info H. apply a5 in H as (i' & H & ? & ? & ?). apply b5 in H as (i'' & H & ? & ? & ?).
      exists i''. split_and!; [done | congruence | congruence | eauto].
    + intros n f H. apply a6 in H as (f' & H & ? & ? & ?). apply b6 in H as (f'' & H & ? & ? & ?).
      exists f''. split_and!; [done | congruence | congruence | by etrans].
Qed.

#[export] Instance later_preorder : PreOrder later.
Proof.
  split.
  - intros s. split; done.
  - intros s1 s2 s3 [] []. split; [by etrans | lia | by etrans | by etrans].
Qed.

(** What a member function that returns leaves as it found. *)
Definition mode (s : cg) : bool * bool := (insideLambda s, recon s).

(** * The logic

    [wp m Q s]: from a well-formed [s], [m] ends in a well-formed state that
    is later than [s], whether it returns or stops; when it returns [a], the
    mode is the one of [s] and [Q a] holds. *)
Definition wp {A} (m : M A) (Q : A -> cg -> Prop) (s : cg) : Prop :=
  wf s -> wf (m s).2 /\ later s (m s).2 /\
    forall a, (m s).1 = Ok a -> mode (m s).2 = mode s /\ Q a (m s).2.

(** The same from every state, with nothing said of the result. *)
Definition safe {A} (m : M A) : Prop := forall s, wp m (fun _ _ => True) s.

Lemma wp_ret {A} (a : A) Q s : (wf s -> Q a s) -> wp (mret a) Q s.
Proof. intros HQ Hs. simpl. split_and!; [done | done |]. intros ? [= <-]. auto. Qed.

Lemma wp_fail {A} e Q s : wp (@fail cg crash A e) Q s.
Proof. intros Hs. simpl. split_and!; done. Qed.

Lemma wp_gets {A} (f : cg -> A) Q s : (wf s -> Q (f s) s) -> wp (gets f) Q s.
Proof. intros HQ Hs. simpl. split_and!; [done | done |]. intros ? [= <-]. auto. Qed.

Lemma wp_modify f Q s :
  (wf s -> wf (f s) /\ later s (f s) /\ mode (f s) = mode s /\ Q tt (f s)) -> wp (modify f) Q s.
Proof.
  intros H Hs. destruct (H Hs) as (? & ? & ? & ?). simpl. split_and!; try done.
  intros [] _. done.
Qed.

Lemma wp_bind {A B} (m : M A) (f : A -> M B) Q s :
  wp m (fun a s' => wp (f a) Q s') s -> wp (bind m f) Q s.
Proof.
  intros Hm Hs. destruct (Hm Hs) as (H1 & H2 & H3). unfold bind.
  destruct (m s) as [[a|e] s1]; simpl in *; [| split_and!; done].
  destruct (H3 a eq_refl) as [Hmode Hf]. destruct (Hf H1) as (H4 & H5 & H6).
  split_and!; [done | by etrans |]. intros b Hb. destruct (H6 b Hb). split; [congruence | done].
Qed.

(** After [m] the caller knows what [m] promises and that the state grew. *)
Lemma wp_mono {A} (m : M A) (P Q : A -> cg -> Prop) s :
  wp m P s ->
  (forall a s', wf s' -> later s s' -> mode s' = mode s -> P a s' -> Q a s') -> wp m Q s.
Proof.
  intros Hm HQ Hs. destruct (Hm Hs) as (H1 & H2 & H3). split_and!; [done.. |].
  intros a Ha. destruct (H3 a Ha). auto.
Qed.

Lemma wp_safe {A} (m : M A) Q s :
  safe m -> (forall a s', wf s' -> later s s' -> mode s' = mode s -> Q a s') -> wp m Q s.
Proof. intros Hm HQ. eapply wp_mono; [apply Hm | auto]. Qed.

Lemma wp_assuming {A} (m : M A) Q s : (wf s -> wp m Q s) -> wp m Q s.
Proof. intros H Hs. by apply H. Qed.

Lemma wp_gets_ir {A} (f : ir -> A) Q s : (wf s -> Q (f (theIR s)) s) -> wp (gets_ir f) Q s.
Proof. apply (wp_gets (fun s => f (theIR s))). Qed.

Lemma wp_deref {A} (p : option A) Q s : (forall a, p = Some a -> Q a s) -> wp (deref p) Q s.
Proof. intros H. destruct p; [by apply wp_ret; auto | apply wp_fail]. Qed.

Lemma wp_assert b what Q s : (b = true -> Q tt s) -> wp (assert b what) Q s.
Proof. intros H. destruct b; [by apply wp_ret; auto | apply wp_fail]. Qed.

Create HintDb wp.

(** [wp_tac] follows the text of a member function; [wp] holds the lemmas of
    the functions it calls, which leave [safe] or a [wp] behind. *)
Ltac wp_step :=
  match goal with
  | |- safe _ => let s := fresh "s" in intros s
  | |- wp (bind _ _) _ _ => apply wp_bind
  | |- wp (mret _) _ _ => apply wp_ret; intros ?
  | |- wp (fail _) _ _ => apply wp_fail
  | |- wp (some _) _ _ => unfold some
  | |- wp (gets _) _ _ => apply wp_gets; intros ?
  | |- wp (gets_ir _) _ _ => apply wp_gets_ir; intros ?
  | |- wp (assert _ _) _ _ => apply wp_assert; intros ?
  | |- wp (deref _) _ _ => apply wp_deref; intros ? ?
  | |- wp (match ?x with _ => _ end) _ _ => destruct x eqn:?
  | |- wp (let _ := _ in _) _ _ => cbv zeta
  | |- wp _ _ _ => solve [ eauto 2 with wp ]
  | |- wp _ _ _ => eapply wp_mono; [ solve [ eauto 2 with wp ] | cbv beta; intros ? ? ? ? ? ?; cbv beta in * ]
  | |- wp _ _ _ => apply wp_safe; [ solve [ eauto 3 with wp ] | intros ? ? ? ? ? ]
  | |- True => exact I
  end.
Ltac wp_tac := repeat wp_step.

(** * Changes of the state outside of the modules *)

(** A change of a field that the invariant does not read. *)
Lemma wf_frame s s' :
  wf s -> theIR s' = theIR s -> errors s' = errors s -> error s' = error s ->
  namedValues s' = namedValues s -> structTypes s' = structTypes s -> wf s'.
Proof.
  intros [] E1 E2 E3 E4 E5. split; rewrite ?E1, ?E2, ?E3, ?E4, ?E5; done.
Qed.

Lemma later_frame s s' :
  theIR s' = theIR s -> errors s' = errors s -> (lambdaNum s <= lambdaNum s')%Z ->
  reconVector s `prefix_of` reconVector s' -> later s s'.
Proof. intros E1 E2 E3 E4. split; rewrite ?E1, ?E2; done. Qed.

Ltac frame_tac :=
  let s := fresh "s" in let Hs := fresh "Hs" in
  intros s; apply wp_modify; intros Hs; split_and!;
  [ by apply (wf_frame s) | by apply later_frame | done | done ].

Lemma safe_currCid v : safe (modify (set_currCid v)).
Proof. frame_tac. Qed.
Lemma safe_currId n : safe (modify (set_currId n)).
Proof. frame_tac. Qed.
Lemma safe_currId_pred : safe (modify (fun s => set_currId (currId s - 1) s)).
Proof. frame_tac. Qed.
Lemma safe_executeCommit b : safe (modify (set_executeCommit b)).
Proof. frame_tac. Qed.
Lemma safe_lambdaKeyword k : safe (modify (set_lambdaKeyword k)).
Proof. frame_tac. Qed.
Lemma safe_justReturned b : safe (modify (set_justReturned b)).
Proof. frame_tac. Qed.

Lemma safe_reconVector l : safe (modify (fun s => set_reconVector (reconVector s ++ l) s)).
Proof.
  intros s. apply wp_modify. intros Hs. split_and!; [by apply (wf_frame s) | | done | done].
  apply later_frame; [done | done | simpl; lia | simpl; by apply prefix_app_r].
Qed.

Lemma wp_lambdaNum n s :
  lambdaNum s = n -> wp (modify (set_lambdaNum (n + 1)%Z)) (fun _ _ => True) s.
Proof.
  intros <-. apply wp_modify. intros Hs. split_and!; [by apply (wf_frame s) | | done | done].
  apply later_frame; simpl; done || lia.
Qed.

Lemma safe_ErrorV {A} str : safe (@ErrorV A str).
Proof.
  unfold ErrorV. intros s. apply wp_bind, wp_modify. intros []. split_and!.
  - split; try done. simpl. symmetry. apply bool_decide_eq_true. by destruct (errors s).
  - split; simpl; try done. by apply prefix_app_r.
  - done.
  - by apply wp_ret.
Qed.

Lemma wp_ErrorV {A} str s : wp (@ErrorV A str) (fun r s' => r = None /\ error s' = true) s.
Proof.
  intros Hs. destruct (safe_ErrorV (A := A) str s Hs) as (H1 & H2 & H3).
  split_and!; [done.. |]. intros a Ha. destruct (H3 a Ha). split; [done |]. by injection Ha as <-.
Qed.

Lemma wp_namedValues m Q s :
  named_wf m -> (forall s', namedValues s' = m -> theIR s' = theIR s -> mode s' = mode s -> Q tt s') ->
  wp (modify (set_namedValues m)) Q s.
Proof.
  intros Hm HQ. apply wp_modify. intros []. split_and!; [by split | | done | by apply HQ].
  by apply later_frame.
Qed.

Lemma safe_namedValues_delete x :
  safe (modify (fun s => set_namedValues (delete x (namedValues s)) s)).
Proof.
  intros s. apply wp_modify. intros []. split_and!; [split; try done | | done | done].
  - intros y v H. simpl in H. apply lookup_delete_Some in H as [_ H]. eauto.
  - by apply later_frame.
Qed.

Lemma safe_structTypes_delete x :
  safe (modify (fun s => set_structTypes (delete x (structTypes s)) s)).
Proof.
  intros s. apply wp_modify. intros []. split_and!; [split; try done | | done | done].
  - intros y id names H. simpl in H. apply lookup_delete_Some in H as [_ H]. eauto.
  - by apply later_frame.
Qed.

Lemma safe_namedValues_insert x v : pointer_typed v -> safe (namedValues_insert x v).
Proof.
  intros Hv s. unfold namedValues_insert. apply wp_modify. intros Hs.
  destruct (namedValues s !! x) eqn:E; [by split_and! |].
  split_and!; [| by apply later_frame | done | done]. destruct Hs. split; try done.
  intros y w. simpl. rewrite lookup_insert_Some. intros [[-> [= <-]]|[_ H]]; eauto.
Qed.

Lemma safe_structTypes_insert x id names s :
  fields_wf (theIR s) id names -> wp (structTypes_insert x id names) (fun _ _ => True) s.
Proof.
  intros Hf. unfold structTypes_insert. apply wp_modify. intros Hs.
  destruct (structTypes s !! x) eqn:E; [by split_and! |].
  split_and!; [| by apply later_frame | done | done]. destruct Hs. split; try done.
  intros y id' names'. simpl. rewrite lookup_insert_Some. intros [[-> [= <- <-]]|[_ H]]; eauto.
Qed.

Lemma safe_namedValue x : forall s,
  wp (namedValue x) (fun r s' => (forall v, r = Some v -> pointer_typed v) /\ theIR s' = theIR s) s.
Proof.
  intros s. unfold namedValue. apply wp_bind, wp_gets. intros Hs.
  destruct (namedValues s !! x) as [v|] eqn:E.
  - apply wp_ret. intros _. split; [| done]. intros w ->. by eapply wf_named.
  - apply wp_bind, wp_namedValues.
    + intros y w. rewrite lookup_insert_Some. intros [[_ H]|[_ H]]; [done |]. by eapply wf_named.
    + intros s' _ E' _. apply wp_ret. done.
Qed.

#[export] Hint Resolve safe_currCid safe_currId safe_currId_pred safe_executeCommit
  safe_lambdaKeyword safe_justReturned safe_reconVector safe_ErrorV safe_namedValues_delete
  safe_structTypes_delete safe_namedValues_insert safe_namedValue wp_lambdaNum : wp.
