(* ===== verification/BuilderFacts.v ===== *)
(** The rules of the program logic for the builder: each of its functions
    keeps the modules well formed and only adds to them. *)

From S2P Require Import Prelude Ast IR State Builder CodeGenBase CodeGenLogic.

(** * Changes of the modules *)

Lemma fields_wf_later i i' id names :
  ir_later i i' -> fields_wf i id names -> fields_wf i' id names.
Proof.
  intros L (info & l & H1 & H2 & H3).
  destruct (later_structs _ _ L _ _ H1) as (info' & H4 & _ & _ & H5). exists info', l. auto.
Qed.

Lemma module_wf_later i i' m : next_block i <= next_block i' -> module_wf i m -> module_wf i' m.
Proof.
  intros Hle Hm n f Hf. eapply Forall_impl; [by eapply Hm |]. simpl. intros. lia.
Qed.

Lemma ip_wf_later i i' ip : next_block i <= next_block i' -> ip_wf i ip -> ip_wf i' ip.
Proof. intros Hle Hip b Hb. specialize (Hip b Hb). lia. Qed.

Lemma wp_modify_ir f Q s :
  (ir_wf (theIR s) -> ir_wf (f (theIR s)) /\ ir_later (theIR s) (f (theIR s))) ->
  Q tt (set_ir (f (theIR s)) s) -> wp (modify_ir f) Q s.
Proof.
  intros Hf HQ. apply wp_modify. intros Hs. destruct (Hf (wf_ir _ Hs)) as [H1 H2].
  split_and!; [| by split | done | done]. destruct Hs. split; simpl; try done.
  intros x id names H. eapply fields_wf_later; eauto.
Qed.

(** ** Code *)

(** [id] is put in block [b], in front or at the end. *)
Lemma ir_wf_code i b (l' : list (nat * inst)) x :
  ir_wf i -> b < next_block i -> typed_operands x = true ->
  l' ≡ₚ (next_inst i, x) :: default [] (blocks i !! b) ->
  default [] (blocks i !! b) `sublist_of` l' ->
  ir_wf (ir_set_code (<[b := l']> (blocks i)) (detached i) (S (next_inst i)) i) /\
  ir_later i (ir_set_code (<[b := l']> (blocks i)) (detached i) (S (next_inst i)) i).
Proof.
  intros W Hb Hx Hp Hsub. destruct W as [w1 w1' w2 w3 w4 w5 w6 w7 w8 w9 w10 w11].
  assert (forall id b', placed (ir_set_code (<[b := l']> (blocks i)) (detached i) (S (next_inst i)) i) id b'
    -> placed i id b' \/ (id = next_inst i /\ b' = b)) as Hpl.
  { intros id b' (l & H1 & H2). simpl in H1. apply lookup_insert_Some in H1 as [[<- <-]|[Hne H1]].
    - rewrite Hp in H2. simpl in H2. apply elem_of_cons in H2 as [->|H2]; [by right |].
      left. destruct (blocks i !! b) as [l0|] eqn:E; simpl in H2; [by exists l0 | by apply elem_of_nil in H2].
    - left. by exists l. }
  split; [split; simpl; try done |].
  - intros b' l. rewrite lookup_insert_Some. intros [[-> _]|[_ H]]; [done | by eapply w1].
  - intros b' H. apply lookup_insert_is_Some'. right. by apply w1'.
  - intros id b' H. apply Hpl in H as [H|[-> _]]; [| lia]. apply w2 in H. lia.
  - intros id H. apply w3 in H. lia.
  - intros id b1 b2 H1 H2. apply Hpl in H1 as [H1|[-> ->]], H2 as [H2|[E ->]]; [by eapply w4 | | | done].
    + subst. apply w2 in H1. lia.
    + apply w2 in H2. lia.
  - intros b' l. rewrite lookup_insert_Some. intros [[-> <-]|[_ H]]; [| by eapply w5].
    rewrite Hp. simpl. apply NoDup_cons. destruct (blocks i !! b') as [l0|] eqn:E; simpl.
    + split; [| by eapply w5]. intros H. enough (next_inst i < next_inst i) by lia.
      apply (w2 _ b'). by exists l0.
    + split; [apply not_elem_of_nil | constructor].
  - intros b' l. rewrite lookup_insert_Some. intros [[-> <-]|[_ H]]; [| by eapply w10].
    unfold typed_code. rewrite Hp. constructor; [done |].
    destruct (blocks i !! b') as [l0|] eqn:E; [by eapply w10 | constructor].
  - split; simpl; try done; try lia; eauto 6.
    intros b' l H. destruct (decide (b = b')) as [<-|Hne].
    + exists l'. rewrite lookup_insert_eq. rewrite H in Hsub. done.
    + exists l. by rewrite lookup_insert_ne.
Qed.

Lemma safe_Insert x t : typed_operands x = true -> safe (Insert x t).
Proof.
  unfold Insert. intros Hx s. apply wp_bind. unfold getInsertBlock. apply wp_gets. intros Hs.
  apply wp_bind, wp_gets_ir. intros _.
  assert (ip_wf (theIR s) (if insideLambda s then lambda_ip (theIR s) else main_ip (theIR s))) as Hip
    by (destruct Hs as [_ _ _ []]; by destruct (insideLambda s)).
  destruct (if insideLambda s then _ else _) as [b|].
  - apply wp_bind, wp_modify_ir; [| by apply wp_ret]. intros W.
    apply (ir_wf_code _ _ _ x); [done | by apply Hip | done | | by apply sublist_inserts_r].
    by rewrite Permutation_app_comm.
  - apply wp_bind, wp_modify_ir; [| by apply wp_ret]. intros W. pose proof W as []. split.
    + split; simpl; try done.
      * intros id b H. enough (id < next_inst (theIR s)) by lia. by eapply wf_ids.
      * intros id H. rewrite fmap_app in H. apply elem_of_app in H as [H|H].
        -- apply wf_detached in H. lia.
        -- simpl in H. apply list_elem_of_singleton in H as ->. lia.
      * apply Forall_app. split; [done | by constructor].
    + split; simpl; try lia; eauto 6. by apply prefix_app_r.
Qed.

(** The types of the operands, from what the builder asserted before. *)
Ltac typed_tac :=
  cbn [typed_operands];
  repeat match goal with H : bool_decide _ = true |- _ => apply bool_decide_eq_true in H end;
  rewrite ?andb_true_iff; split_and?;
  first [ assumption | done | apply bool_decide_eq_true; congruence
        | match goal with H : getType ?p = _ |- context [getType ?p] => rewrite H; done end ].
#[export] Hint Extern 1 (typed_operands _ = true) => typed_tac : wp.

(** What an instruction inserted by the builder is called. *)
Lemma wp_Insert x t s : typed_operands x = true ->
  wp (Insert x t) (fun v _ => exists id, v = VInst id t) s.
Proof.
  intros Hx Hs. destruct (safe_Insert x t Hx s Hs) as (H1 & H2 & H3). split_and!; [done.. |].
  intros a Ha. destruct (H3 a Ha). split; [done |]. unfold Insert, bind, getInsertBlock, gets,
    gets_ir, modify_ir, modify, mret, SE_ret in Ha. simpl in Ha. simplify_eq. by eexists.
Qed.

(** ** Blocks and functions *)

Lemma wp_new_block s : wp new_block (fun b s' => b < next_block (theIR s')) s.
Proof.
  unfold new_block. apply wp_bind, wp_gets_ir. intros _. apply wp_bind, wp_modify_ir.
  - intros W. destruct W as [w1 w1' w2 w3 w4 w5 w6 w7 w8 w9 w10 w11].
    assert (forall id b', placed (ir_set_blocks (<[next_block (theIR s):=[]]> (blocks (theIR s)))
      (block_parent (theIR s)) (S (next_block (theIR s))) (theIR s)) id b' -> placed (theIR s) id b') as Hpl.
    { intros id b' (l & H1 & H2). simpl in H1.
      apply lookup_insert_Some in H1 as [[<- <-]|[Hne H1]]; [by apply elem_of_nil in H2 | by exists l]. }
    split; [split; simpl |].
    + intros b l. rewrite lookup_insert_Some. intros [[<- _]|[_ H]]; [lia |]. apply w1 in H. lia.
    + intros b H. apply lookup_insert_is_Some'.
      destruct (decide (b = next_block (theIR s))) as [->|Hne]; [by left | right]. apply w1'. lia.
    + intros id b H. eauto.
    + done.
    + intros id b b' H1 H2. apply Hpl in H1, H2. by eapply w4.
    + intros b l. rewrite lookup_insert_Some. intros [[_ <-]|[_ H]]; [constructor | eauto].
    + eapply module_wf_later, w6. simpl. lia.
    + intros m Hm. eapply module_wf_later; [| eauto]. simpl. lia.
    + eapply ip_wf_later, w8. simpl. lia.
    + eapply ip_wf_later, w9. simpl. lia.
    + intros b l. rewrite lookup_insert_Some. intros [[_ <-]|[_ H]]; [constructor | eauto].
    + done.
    + split; simpl; try done; try lia; eauto 6. intros b l H. exists l. split; [| done].
      rewrite lookup_insert_ne; [done |]. intros <-. apply w1 in H. lia.
  - apply wp_ret. intros _. simpl. lia.
Qed.

Lemma wp_push_block c name b s :
  b < next_block (theIR s) -> wp (push_block c name b) (fun _ _ => True) s.
Proof.
  intros Hb. unfold push_block. apply wp_modify_ir; [| done].
  set (add := fun f : func => mk_func (f_type f) (f_argnames f) (f_blocks f ++ [b])).
  assert (forall m, module_wf (theIR s) m -> module_wf (theIR s) (alter add name m)) as Hadd.
  { intros m Hm n f H. destruct (decide (n = name)) as [->|Hne].
    - rewrite lookup_alter_eq, fmap_Some in H. destruct H as (f0 & H & ->). simpl.
      apply Forall_app. split; [by eapply Hm | by constructor].
    - rewrite lookup_alter_ne in H by done. by eapply Hm. }
  assert (forall (m : gmap string func) n f, m !! n = Some f -> exists f', alter add name m !! n = Some f' /\
    f_type f' = f_type f /\ f_argnames f' = f_argnames f /\ f_blocks f `prefix_of` f_blocks f') as Hext.
  { intros m n f Hf. destruct (decide (n = name)) as [->|Hne].
    - rewrite lookup_alter_eq, Hf. simpl. eexists. split_and!; [done.. |]. simpl. by apply prefix_app_r.
    - rewrite lookup_alter_ne by done. eauto 6. }
  intros W. pose proof W as [].
  destruct c; (split; [split | split]); simpl; try done; eauto 6.
  intros m Hm. apply fmap_Some in Hm as (m0 & Hm & ->). apply (Hadd m0). by apply wf_lambda.
Qed.

Lemma wp_new_block_in c name s : wp (new_block_in c name) (fun b s' => b < next_block (theIR s')) s.
Proof.
  unfold new_block_in. apply wp_bind. eapply wp_mono; [apply wp_new_block |].
  intros b s1 _ _ _ Hb. apply wp_bind. eapply wp_mono; [by apply wp_push_block |].
  intros _ s2 _ L _ _. apply wp_ret. intros _. destruct L as [_ _ _ []]. simpl in *. lia.
Qed.

(** The insertion points of the two builders. *)
Lemma wp_set_ip m l Q s :
  (wf s -> ip_wf (theIR s) m) -> (wf s -> ip_wf (theIR s) l) ->
  Q tt (set_ir (ir_set_ip m l (theIR s)) s) -> wp (modify_ir (ir_set_ip m l)) Q s.
Proof.
  intros Hm Hl HQ. apply wp_assuming. intros Hs. apply wp_modify_ir; [| done].
  intros []. split; split; simpl; eauto 6.
Qed.

Lemma wp_restoreIP ip s : ip_wf (theIR s) ip -> wp (restoreIP ip) (fun _ _ => True) s.
Proof.
  intros Hip. unfold restoreIP. apply wp_bind, wp_gets. intros Hs.
  destruct Hs as [_ _ _ []]. simpl. destruct (insideLambda s);
    (apply wp_modify_ir; [| done]); intros []; split; split; simpl; eauto 6.
Qed.

Lemma wp_SetInsertPoint b s : b < next_block (theIR s) -> wp (SetInsertPoint b) (fun _ _ => True) s.
Proof. intros Hb. apply (wp_restoreIP (Some b)). by intros ? [= <-]. Qed.

Lemma wp_saveAndClearIP s : wp saveAndClearIP (fun ip s' => ip_wf (theIR s') ip) s.
Proof.
  unfold saveAndClearIP. apply wp_bind, wp_gets. intros Hs. apply wp_bind, wp_gets. intros _.
  assert (ip_wf (theIR s) (if insideLambda s then lambda_ip (theIR s) else main_ip (theIR s))) as Hip
    by (destruct Hs as [_ _ _ []]; by destruct (insideLambda s)).
  apply wp_bind. simpl. destruct (insideLambda s);
    (apply wp_modify_ir; [intros []; split; split; simpl; eauto 6; done | by apply wp_ret]).
Qed.

Lemma safe_getParent : safe getParent.
Proof.
  unfold getParent, getInsertBlock. intros s. apply wp_bind, wp_gets. intros _.
  apply wp_bind, wp_deref. intros b _. apply wp_bind, wp_gets_ir. intros _. by apply wp_deref.
Qed.

Lemma wp_getFunc p s : wp (getFunc p)
  (fun f s' => s' = s /\ Forall (fun b => b < next_block (theIR s)) (f_blocks f)) s.
Proof.
  unfold getFunc. apply wp_bind, wp_gets_ir. intros Hs. apply wp_deref. intros f Hf. split; [done |].
  destruct Hs as [_ _ _ []]. destruct p as [[] n]; simpl in *; [by eapply wf_main |].
  destruct (lambda_module (theIR s)) as [m|] eqn:E; simpl in Hf; [| done]. by eapply wf_lambda.
Qed.

Lemma wp_createAlloca p t s :
  wp (createAlloca p t) (fun v _ => getType v = TPointer t /\ isVoidTy t = false) s.
Proof.
  unfold createAlloca. apply wp_bind. eapply wp_mono; [apply wp_getFunc |].
  intros f _ _ _ _ [-> Hf]. apply wp_bind, wp_deref. intros b Hb.
  apply wp_bind, wp_assert. intros Ht. apply negb_true_iff in Ht. apply wp_bind, wp_gets_ir. intros _.
  apply wp_bind, wp_modify_ir; [| by apply wp_ret]. intros W. apply (ir_wf_code _ _ _ (IAlloca t)).
  - done.
  - destruct (f_blocks f); simplify_eq/=. by inversion Hf.
  - simpl. by rewrite Ht.
  - done.
  - by apply sublist_cons.
Qed.

(** ** Modules and struct types *)

Lemma safe_getModule : safe getModule.
Proof.
  intros s. unfold getModule. apply wp_bind, wp_gets. intros _. simpl.
  destruct (insideLambda s); [by apply wp_deref | by apply wp_ret].
Qed.

Lemma wp_getFunction name s :
  wp (getFunction name) (fun r s' => s' = s /\
    r = (if insideLambda s then m ← lambda_module (theIR s); m !! name
         else main_module (theIR s) !! name)) s.
Proof.
  unfold getFunction, getModule. apply wp_bind, wp_bind, wp_gets. intros _. simpl.
  destruct (insideLambda s).
  - apply wp_deref. intros m ->. by apply wp_ret.
  - apply wp_ret. intros _. by apply wp_ret.
Qed.

(** A new function, under a name the current module does not have. *)
Definition unknown_function (name : string) (s : cg) : Prop :=
  insideLambda s = false -> main_module (theIR s) !! name = None.

Lemma wp_Function_Create ft name argnames s :
  unknown_function name s ->
  wp (Function_Create ft name argnames) (fun f _ => f_type f = ft) s.
Proof.
  intros Hn. unfold Function_Create, getModule, setModule, unknown_function in *.
  apply wp_bind, wp_bind, wp_gets. intros Hs. simpl.
  assert (forall m, module_wf (theIR s) m ->
    module_wf (theIR s) (<[name := mk_func ft argnames []]> m)) as Hins.
  { intros m Hm n f. rewrite lookup_insert_Some. intros [[_ <-]|[_ H]]; [constructor | eauto]. }
  destruct (insideLambda s) eqn:E.
  - apply wp_deref. intros m Hm. apply wp_bind, wp_bind, wp_gets. intros _. simpl. rewrite E.
    apply wp_modify_ir; [| by apply wp_ret]. intros W. pose proof W as []. split; split; simpl; try done; eauto 6.
    intros m' [= <-]. apply (Hins m). by apply wf_lambda.
  - apply wp_ret. intros _. apply wp_bind, wp_bind, wp_gets. intros _. simpl. rewrite E.
    apply wp_modify_ir; [| by apply wp_ret]. intros W. pose proof W as []. split; split; simpl; try done; eauto 6.
    intros n f H. exists f. rewrite lookup_insert_ne; [done |]. intros <-.
      rewrite Hn in H; done.
Qed.

Lemma safe_struct_of id : safe (struct_of id).
Proof. intros s. unfold struct_of. apply wp_bind, wp_gets_ir. intros _. by apply wp_deref. Qed.

Lemma wp_StructType_create name s :
  wp (StructType_create name)
    (fun id s' => exists info, structs (theIR s') !! id = Some info /\ st_body info = None) s.
Proof.
  unfold StructType_create, getContext. apply wp_bind, wp_gets. intros _.
  apply wp_bind, wp_gets_ir. intros _. simpl.
  match goal with |- wp (let '(_, _) := ?x in _) _ _ => destruct x as [n' i'] end.
  apply wp_bind, wp_modify_ir.
  - intros []. split; split; simpl; try done; eauto 6.
    intros id info H. exists info. split; [| done]. by apply lookup_app_l_Some.
  - apply wp_ret. intros _. simpl. eexists. by rewrite lookup_app_r, Nat.sub_diag by done.
Qed.

Lemma wp_setBody id l s info :
  structs (theIR s) !! id = Some info -> st_body info = None ->
  wp (setBody id l) (fun _ s' => exists info', structs (theIR s') !! id = Some info' /\
    st_body info' = Some l) s.
Proof.
  intros Hi Hb. unfold setBody, struct_of. apply wp_bind, wp_bind, wp_gets_ir. intros _. simpl.
  apply wp_deref. intros info' Hi'. simpl in Hi'. simplify_eq.
  apply wp_bind, wp_assert. intros _.
  assert (id < length (structs (theIR s))) as Hlt by by eapply lookup_lt_Some.
  apply wp_modify_ir.
  - intros []. split; split; simpl; try done; eauto 6.
    intros id' i' H. destruct (decide (id = id')) as [<-|Hne].
    + eexists. rewrite list_lookup_insert_eq by done. simplify_eq. by rewrite Hb.
    + exists i'. by rewrite list_lookup_insert_ne.
  - simpl. eexists. by rewrite list_lookup_insert_eq.
Qed.

#[export] Hint Resolve safe_Insert wp_new_block wp_push_block wp_new_block_in wp_restoreIP
  wp_SetInsertPoint wp_saveAndClearIP safe_getParent wp_getFunc wp_createAlloca
  wp_getFunction safe_struct_of wp_StructType_create safe_getModule : wp.
