(* ===== verification/CodeGenWf.v ===== *)
(** The generator keeps its state well formed: the rules of the program logic
    for the helpers of [CodeGenBase] and for every visitor. *)

From S2P Require Import Prelude Ast IR State Builder CodeGenBase CodeGenExpr CodeGenLogic.
From S2P Require Import BuilderFacts.

(** * Builder and helpers *)

Lemma safe_getContext : safe getContext.
Proof. unfold getContext. wp_tac. Qed.
Lemma safe_getInt64Ty : safe getInt64Ty.
Proof. unfold getInt64Ty, getContext. wp_tac. Qed.
Lemma safe_getDoubleTy : safe getDoubleTy.
Proof. unfold getDoubleTy, getContext. wp_tac. Qed.
Lemma safe_getVoidValue : safe getVoidValue.
Proof. unfold getVoidValue, getContext. wp_tac. Qed.
Lemma safe_getIntNullPointer : safe getIntNullPointer.
Proof. unfold getIntNullPointer, getContext. wp_tac. Qed.
Lemma safe_getFloatNullPointer : safe getFloatNullPointer.
Proof. unfold getFloatNullPointer, getContext. wp_tac. Qed.
Lemma safe_i1_like t : safe (i1_like t).
Proof. unfold i1_like, getContext. wp_tac. Qed.
Lemma safe_pointee t : safe (pointee t).
Proof. unfold pointee. wp_tac. Qed.
Lemma safe_find_op op : safe (find_op op).
Proof. unfold find_op. wp_tac. Qed.
Lemma safe_lift_res {A} (r : res crash A) : safe (match r with Ok a => mret a | Err e => fail e end : M A).
Proof. wp_tac. Qed.

#[export] Hint Resolve safe_getContext safe_getInt64Ty safe_getDoubleTy safe_getVoidValue
  safe_getIntNullPointer safe_getFloatNullPointer safe_i1_like safe_pointee safe_find_op
  safe_lift_res : wp.

Lemma safe_isSized t : safe (isSized t).
Proof. unfold isSized. wp_tac. Qed.
Lemma safe_getStructName t : safe (getStructName t).
Proof. unfold getStructName. wp_tac. Qed.
Lemma safe_CreateBinary op l r : safe (CreateBinary op l r).
Proof. unfold CreateBinary. wp_tac. Qed.
#[export] Hint Resolve safe_isSized safe_getStructName safe_CreateBinary : wp.

Lemma safe_CreateOr l r : safe (CreateOr l r).
Proof. unfold CreateOr. wp_tac. Qed.
Lemma safe_CreateAnd l r : safe (CreateAnd l r).
Proof. unfold CreateAnd. wp_tac. Qed.
Lemma safe_CreateNot v : safe (CreateNot v).
Proof. unfold CreateNot. wp_tac. Qed.
Lemma safe_CreateICmp p l r : safe (CreateICmp p l r).
Proof. unfold CreateICmp. wp_tac. Qed.
Lemma safe_CreateFCmp p l r : safe (CreateFCmp p l r).
Proof. unfold CreateFCmp. wp_tac. Qed.
Lemma safe_CreateCast op v t : safe (CreateCast op v t).
Proof. unfold CreateCast. wp_tac. Qed.
#[export] Hint Resolve safe_CreateOr safe_CreateAnd safe_CreateNot safe_CreateICmp
  safe_CreateFCmp safe_CreateCast : wp.

Lemma safe_CreateZExtOrBitCast v t : safe (CreateZExtOrBitCast v t).
Proof. unfold CreateZExtOrBitCast. wp_tac. Qed.
Lemma safe_CreateBitOrPointerCast v t : safe (CreateBitOrPointerCast v t).
Proof. unfold CreateBitOrPointerCast, CreatePtrToInt, CreateIntToPtr. wp_tac. Qed.
Lemma safe_CreateLoad p : safe (CreateLoad p).
Proof. unfold CreateLoad. wp_tac. Qed.
Lemma safe_CreateStore v p : safe (CreateStore v p).
Proof. unfold CreateStore. wp_tac. Qed.
Lemma safe_CreateGEP p i : safe (CreateGEP p i).
Proof. unfold CreateGEP. wp_tac. Qed.
Lemma safe_CreateStructGEP t p i : safe (CreateStructGEP t p i).
Proof. unfold CreateStructGEP. wp_tac. Qed.
Lemma safe_CreateCall f ft args : safe (CreateCall f ft args).
Proof. unfold CreateCall. wp_tac. Qed.
Lemma safe_CreateRetVoid : safe CreateRetVoid.
Proof. unfold CreateRetVoid. wp_tac. Qed.
Lemma safe_CreateRet v : safe (CreateRet v).
Proof. unfold CreateRet. wp_tac. Qed.
Lemma safe_CreateBr b : safe (CreateBr b).
Proof. unfold CreateBr. wp_tac. Qed.
Lemma safe_CreateCondBr v t e : safe (CreateCondBr v t e).
Proof. unfold CreateCondBr. wp_tac. Qed.
#[export] Hint Resolve safe_CreateZExtOrBitCast safe_CreateBitOrPointerCast safe_CreateLoad
  safe_CreateStore safe_CreateGEP safe_CreateStructGEP safe_CreateCall safe_CreateRetVoid
  safe_CreateRet safe_CreateBr safe_CreateCondBr : wp.

Lemma safe_castIntToFloat v : safe (castIntToFloat v).
Proof. unfold castIntToFloat, CreateSIToFP. wp_tac. Qed.
Lemma safe_castIntToBoolean v : safe (castIntToBoolean v).
Proof. unfold castIntToBoolean. wp_tac. Qed.
Lemma safe_castFloatToBoolean v : safe (castFloatToBoolean v).
Proof. unfold castFloatToBoolean. wp_tac. Qed.
Lemma safe_castBooleantoInt v : safe (castBooleantoInt v).
Proof. unfold castBooleantoInt. wp_tac. Qed.
Lemma safe_castPointerToInt v : safe (castPointerToInt v).
Proof. unfold castPointerToInt, CreatePtrToInt. wp_tac. Qed.
Lemma safe_castIntToPointer v : safe (castIntToPointer v).
Proof. unfold castIntToPointer, CreateIntToPtr. wp_tac. Qed.
#[export] Hint Resolve safe_castIntToFloat safe_castIntToBoolean safe_castFloatToBoolean
  safe_castBooleantoInt safe_castPointerToInt safe_castIntToPointer : wp.

Lemma safe_getNullPointer n : safe (getNullPointer n).
Proof. unfold getNullPointer. wp_tac. Qed.
Lemma safe_getStructField t f v : safe (getStructField t f v).
Proof. unfold getStructField. wp_tac. Qed.
Lemma safe_field_pointer r : safe (field_pointer r).
Proof. unfold field_pointer. wp_tac. Qed.
Lemma safe_getTypeFromString n p v : safe (getTypeFromString n p v).
Proof. unfold getTypeFromString. wp_tac. Qed.
Lemma safe_makeSched t : safe (makeSched t).
Proof. unfold makeSched. wp_tac. Qed.
Lemma safe_some m : safe m -> safe (some m).
Proof. unfold some. intros. wp_tac. Qed.
Lemma safe_getPointedType v : safe (getPointedType v).
Proof. unfold getPointedType. wp_tac. Qed.
Lemma safe_getAllocaType v : safe (getAllocaType v).
Proof. unfold getAllocaType. wp_tac. Qed.
#[export] Hint Resolve safe_getNullPointer safe_getStructField safe_field_pointer
  safe_getTypeFromString safe_makeSched safe_some safe_getPointedType safe_getAllocaType : wp.

(** * Expressions *)

Lemma safe_visitIdentifier n : safe (visitIdentifier n).
Proof. unfold visitIdentifier. wp_tac. Qed.
Lemma safe_to_builder_int v : safe (to_builder_int v).
Proof. unfold to_builder_int. wp_tac. Qed.
Lemma safe_to_builder_double v : safe (to_builder_double v).
Proof. unfold to_builder_double. wp_tac. Qed.
Lemma safe_pointer_to_int v : safe (pointer_to_int v).
Proof. unfold pointer_to_int. wp_tac. Qed.
#[export] Hint Resolve safe_visitIdentifier safe_to_builder_int safe_to_builder_double
  safe_pointer_to_int : wp.

Lemma safe_unify_operands l r : safe (unify_operands l r).
Proof. unfold unify_operands. wp_tac. Qed.

Lemma safe_pointer_operator o l r : safe (pointer_operator o l r).
Proof. unfold pointer_operator, CreateAdd, CreateSub, CreateMul, CreateSDiv. wp_tac. Qed.
Lemma safe_float_operator o l r : safe (float_operator o l r).
Proof. unfold float_operator, CreateFAdd, CreateFSub, CreateFMul, CreateFDiv. wp_tac. Qed.
Lemma safe_int_operator o l r : safe (int_operator o l r).
Proof. unfold int_operator, CreateAdd, CreateSub, CreateMul, CreateSDiv. wp_tac. Qed.
#[export] Hint Resolve safe_unify_operands safe_pointer_operator safe_float_operator
  safe_int_operator : wp.

Lemma safe_visitUnaryOperator op e : safe e -> safe (visitUnaryOperator op e).
Proof. intros He. unfold visitUnaryOperator, CreateMul, CreateFMul. cbv zeta. wp_tac. Qed.

Lemma safe_visitBinaryOperator l op r : safe l -> safe r -> safe (visitBinaryOperator l op r).
Proof. intros Hl Hr. unfold visitBinaryOperator. cbv zeta. wp_tac. Qed.

Lemma safe_null_argument t : safe (null_argument t).
Proof. unfold null_argument. wp_tac. Qed.
Lemma safe_convert_argument a t : safe (convert_argument a t).
Proof. unfold convert_argument. wp_tac. Qed.
#[export] Hint Resolve safe_null_argument safe_convert_argument : wp.

Lemma safe_visitArguments args params : Forall safe args -> safe (visitArguments args params).
Proof.
  intros H. revert params. induction H as [|m args Hm Hargs IH]; intros params;
    [simpl; wp_tac |]. destruct params; simpl; wp_tac.
Qed.

Lemma safe_visitFunctionCall name args : Forall safe args -> safe (visitFunctionCall name args).
Proof.
  intros Hargs s. pose proof (fun p => safe_visitArguments args p Hargs) as HA.
  unfold visitFunctionCall. apply wp_bind. eapply wp_mono; [apply wp_getFunction |].
  intros found _ _ _ _ [-> Hfound]. apply wp_bind, wp_gets. intros _.
  apply wp_bind. eapply (wp_mono _ (fun _ _ => True)).
  - destruct found as [f|]; [wp_tac |]. destruct (insideLambda s) eqn:E; [| wp_tac].
    apply wp_bind, wp_gets_ir. intros _. apply wp_bind, wp_deref. intros f _.
    apply wp_bind. eapply wp_mono; [apply wp_Function_Create; congruence |]. intros. wp_tac.
  - intros func s1 _ _ _ _. wp_tac.
Qed.


Lemma safe_visitPointerExpression x off fld :
  (forall m, off = Some m -> safe m) -> safe (visitPointerExpression x off fld).
Proof.
  intros Hoff. unfold visitPointerExpression.
  destruct off as [m|]; [specialize (Hoff m eq_refl) |]; wp_tac.
Qed.

Lemma safe_visitAddressOfExpression x off :
  (forall m, off = Some m -> safe m) -> safe (visitAddressOfExpression x off).
Proof.
  intros Hoff. unfold visitAddressOfExpression.
  destruct off as [m|]; [specialize (Hoff m eq_refl) |]; wp_tac.
Qed.

Lemma safe_visitStructureExpression x f : safe (visitStructureExpression x f).
Proof. unfold visitStructureExpression. wp_tac. Qed.

Lemma safe_visit e : safe (visit e).
Proof.
  induction e as [v|d|n|op e IH|l op r IHl IHr|f args IH| |x off fld IH|x off IH|x f]
    using expr_nested_ind; simpl.
  - unfold visitInteger. wp_tac.
  - unfold visitFloat. wp_tac.
  - apply safe_visitIdentifier.
  - by apply safe_visitUnaryOperator.
  - by apply safe_visitBinaryOperator.
  - apply safe_visitFunctionCall. by apply Forall_fmap.
  - unfold visitNullLiteral. wp_tac.
  - apply safe_visitPointerExpression. intros m Hm. apply fmap_Some in Hm as (e & He & ->). by apply IH.
  - apply safe_visitAddressOfExpression. intros m Hm. apply fmap_Some in Hm as (e & He & ->). by apply IH.
  - apply safe_visitStructureExpression.
Qed.
#[export] Hint Resolve safe_visit : wp.
