(* ===== verification/CodeGenStmtWf.v ===== *)
(** The generator keeps its state well formed, continued: the statements. *)

From S2P Require Import Prelude Ast IR State Builder CodeGenBase CodeGenExpr CodeGenStmt.
From S2P Require Import CodeGenLogic BuilderFacts CodeGenWf.

(** [calm m]: [m] is safe while assignments are compiled as assignments. *)
Definition calm {A} (m : M A) : Prop := forall s, recon s = false -> wp m (fun _ _ => True) s.

Lemma safe_calm {A} (m : M A) : safe m -> calm m.
Proof. intros H s _. apply H. Qed.

Lemma calm_wp {A} (m : M A) s : calm m -> recon s = false -> wp m (fun _ _ => True) s.
Proof. intros H. apply H. Qed.

(** What a computation leaves alone, whatever its result. *)
Lemma wp_along {A} (R : relation cg) (m : M A) Q s :
  along R m -> wp m Q s -> wp m (fun a s' => Q a s' /\ R s s') s.
Proof.
  intros HR Hm Hs. destruct (Hm Hs) as (H1 & H2 & H3). split_and!; [done.. |].
  intros a Ha. destruct (H3 a Ha). auto.
Qed.

Ltac mode_tac := unfold mode in *; simpl in *; congruence.

(** A block that was there is still there. *)
Ltac bound_tac :=
  repeat match goal with
  | H : later ?a ?b |- _ => pose proof (later_block _ _ (later_ir _ _ H)); clear H
  end; lia.

#[export] Hint Extern 2 (_ < next_block _) => bound_tac : wp.
#[export] Hint Extern 1 (pointer_typed _) => destruct_and?; eexists; eassumption : wp.
#[export] Hint Extern 2 (recon _ = false) => mode_tac : wp.
#[export] Hint Resolve calm_wp : wp.

(** * Assignments *)

Lemma safe_null_for t m : safe (null_for t m).
Proof. unfold null_for. wp_tac. Qed.
Lemma safe_fit_right r t m : safe (fit_right r t m).
Proof. unfold fit_right. wp_tac. Qed.
Lemma safe_push_recon v : safe (push_recon v).
Proof. unfold push_recon. wp_tac. Qed.
Lemma safe_store_right r p : safe (store_right r p).
Proof. unfold store_right. wp_tac. Qed.
#[export] Hint Resolve safe_null_for safe_fit_right safe_push_recon safe_store_right : wp.

Lemma safe_lhs_visitIdentifier r n : safe (lhs_visitIdentifier r n).
Proof. unfold lhs_visitIdentifier. wp_tac. Qed.

Lemma safe_lhs_visitPointerExpression r x off f :
  (forall m, off = Some m -> safe m) -> safe (lhs_visitPointerExpression r x off f).
Proof.
  intros Hoff. unfold lhs_visitPointerExpression.
  destruct off as [m|]; [specialize (Hoff m eq_refl) |]; simpl; wp_tac.
Qed.

Lemma safe_lhs_visitStructureExpression r x f : safe (lhs_visitStructureExpression r x f).
Proof. unfold lhs_visitStructureExpression. wp_tac. Qed.

Lemma safe_visit_lhs r t : safe (visit_lhs r t).
Proof.
  destruct t; simpl; try solve [unfold lhs_visitAddressOfExpression; wp_tac].
  - apply safe_lhs_visitIdentifier.
  - apply safe_lhs_visitPointerExpression. intros m Hm. apply fmap_Some in Hm as (e & _ & ->).
    apply safe_visit.
  - apply safe_lhs_visitStructureExpression.
Qed.
#[export] Hint Resolve safe_visit_lhs : wp.

Lemma safe_visitAssignStatement t e : safe (visitAssignStatement t e).
Proof. unfold visitAssignStatement. wp_tac. Qed.

(** * Declarations *)

Lemma safe_pointer_initial t e : safe (pointer_initial t e).
Proof. unfold pointer_initial. cbv zeta. wp_tac. Qed.
Lemma safe_plain_initial t e : safe (plain_initial t e).
Proof. unfold plain_initial. wp_tac. Qed.
#[export] Hint Resolve safe_visitAssignStatement safe_pointer_initial safe_plain_initial : wp.

Lemma safe_visitVariableDefinition t n e p : safe (visitVariableDefinition t n e p).
Proof. unfold visitVariableDefinition. wp_tac. Qed.

Lemma safe_visitStructureDeclaration t n p : safe (visitStructureDeclaration t n p).
Proof. unfold visitStructureDeclaration. cbv zeta. wp_tac. Qed.

(** ** Structures *)

Definition same_ir (s s' : cg) : Prop := theIR s' = theIR s.
#[export] Instance same_ir_preorder : PreOrder same_ir.
Proof. split; [done |]. intros s1 s2 s3 H1 H2. unfold same_ir in *. congruence. Qed.

Lemma same_ir_ErrorV {A} m : along same_ir (@ErrorV A m).
Proof. intros s. reflexivity. Qed.
#[export] Hint Resolve same_ir_ErrorV : fork.

Lemma same_ir_getTypeFromString t p v : along same_ir (getTypeFromString t p v).
Proof. unfold getTypeFromString, getContext. along_tac. Qed.
#[export] Hint Resolve same_ir_getTypeFromString : fork.

Lemma same_ir_struct_variables l : along same_ir (struct_variables l).
Proof. induction l; simpl; along_tac. Qed.
Lemma same_ir_struct_structs n c l : along same_ir (struct_structs n c l).
Proof. induction l; simpl; along_tac. Qed.
Lemma same_ir_inputArgs l : along same_ir (inputArgs l).
Proof. induction l; simpl; along_tac. Qed.

Lemma safe_struct_variables l : safe (struct_variables l).
Proof. induction l; simpl; wp_tac. Qed.
Lemma safe_struct_structs n c l : safe (struct_structs n c l).
Proof. induction l; simpl; wp_tac. Qed.
Lemma safe_inputArgs l : safe (inputArgs l).
Proof. induction l; simpl; wp_tac. Qed.

Lemma safe_visitStructureDefinition n b : safe (visitStructureDefinition n b).
Proof.
  intros s. unfold visitStructureDefinition, lift_res. apply wp_bind. apply wp_safe; [wp_tac |].
  intros vars s1 _ _ _. apply wp_bind. apply wp_safe; [wp_tac |]. intros strs s2 _ _ _.
  apply wp_bind. eapply wp_mono; [apply wp_StructType_create |].
  intros id s3 _ _ _ (info & Hinfo & Hbody).
  apply wp_bind. eapply wp_mono; [apply wp_along; [apply same_ir_struct_variables | apply safe_struct_variables] |].
  intros [fields|] s4 _ _ _ [_ E4]; [| wp_tac].
  apply wp_bind. eapply wp_mono; [apply wp_along; [apply same_ir_struct_structs | apply safe_struct_structs] |].
  intros [more|] s5 _ _ _ [_ E5]; [| wp_tac]. unfold same_ir in *.
  apply wp_bind. eapply wp_mono; [eapply wp_setBody; [rewrite E5, E4; exact Hinfo | done] |].
  intros _ s6 _ _ _ (info' & Hi & Hb). apply wp_bind.
  eapply wp_mono; [apply safe_structTypes_insert; exists info', ((fields ++ more).*1); split_and!; try done |].
  - by rewrite !length_fmap.
  - intros. wp_tac.
Qed.

(** * Functions *)

Lemma wp_generateFunction p t n args s :
  unknown_function n s -> wp (generateFunction p t n args) (fun _ _ => True) s.
Proof.
  intros Hn. unfold generateFunction. apply wp_bind.
  eapply wp_mono; [apply wp_along; [apply same_ir_inputArgs | apply safe_inputArgs] |].
  intros [l|] s1 _ _ M1 [_ E1]; [| wp_tac]. apply wp_bind.
  eapply wp_mono; [apply wp_along; [apply same_ir_getTypeFromString | apply safe_getTypeFromString] |].
  intros [r|] s2 _ _ M2 [_ E2]; [| wp_tac]. apply wp_bind.
  eapply wp_mono; [apply wp_Function_Create | intros; wp_tac].
  unfold unknown_function, same_ir in *. rewrite E2, E1. intros H. apply Hn. mode_tac.
Qed.

(** Look a function up, and declare it when the module does not have it. *)
Lemma wp_find_or_generate n p t args s :
  wp (found <- getFunction n ;;
      match found with Some f => mret (Some f) | None => generateFunction p t n args end)
    (fun _ _ => True) s.
Proof.
  apply wp_bind. eapply wp_mono; [apply wp_getFunction |]. intros found _ _ _ _ [-> Hf].
  destruct found; [wp_tac |]. apply wp_generateFunction. intros E. rewrite E in Hf. done.
Qed.

Lemma safe_bind_arguments p i params names : safe (bind_arguments p i params names).
Proof.
  revert i names. induction params as [|t params IH]; intros i [|n names]; simpl; wp_tac.
Qed.

Lemma safe_bind_environment p a l : safe (bind_environment p a l).
Proof. induction l; simpl; wp_tac. Qed.
#[export] Hint Resolve safe_bind_arguments safe_bind_environment safe_visitVariableDefinition
  safe_visitStructureDeclaration safe_visitStructureDefinition : wp.

Lemma safe_closure_prologue p f : safe (closure_prologue p f).
Proof. unfold closure_prologue. wp_tac. Qed.
#[export] Hint Resolve safe_closure_prologue : wp.

Lemma wp_bind_assoc {A B C} (m : M A) (f : A -> M B) (g : B -> M C) Q s :
  wp (bind (bind m f) g) Q s -> wp (bind m (fun a => bind (f a) g)) Q s.
Proof.
  intros H Hs. pose proof (bind_assoc m f g s) as E. specialize (H Hs). by rewrite E in H.
Qed.

Lemma calm_visitFunctionDefinition type n args body p :
  calm body -> calm (visitFunctionDefinition type n args body p).
Proof.
  intros Hbody s Hr. unfold visitFunctionDefinition. apply wp_bind_assoc, wp_bind.
  eapply wp_mono; [apply wp_find_or_generate |]. intros [f|] s1 _ _ M1 _; [| wp_tac].
  destruct (negb (func_empty f)); [wp_tac |]. apply wp_bind, wp_gets. intros _. apply wp_bind.
  eapply wp_mono; [apply wp_new_block_in |]. intros b s2 _ _ M2 Hb. apply wp_bind.
  eapply wp_mono; [by apply wp_SetInsertPoint |]. intros _ s3 _ _ M3 _.
  apply wp_bind, wp_namedValues; [done |]. intros s4 _ _ M4.
  wp_tac.
Qed.

Lemma safe_visitExternStatement t n args p : safe (visitExternStatement t n args p).
Proof.
  intros s. unfold visitExternStatement. apply wp_bind_assoc, wp_bind.
  eapply wp_mono; [apply wp_find_or_generate |]. intros [f|] s1 _ _ _ _; wp_tac.
Qed.

(** * Returns and conditionals *)

Lemma safe_return_null t : safe (return_null t).
Proof. unfold return_null. wp_tac. Qed.
#[export] Hint Resolve safe_return_null safe_visitExternStatement : wp.

Lemma safe_visitReturnStatement e : safe (visitReturnStatement e).
Proof. unfold visitReturnStatement. cbv zeta. wp_tac. Qed.

Lemma calm_visit_arm b merge : (forall m, b = Some m -> calm m) -> calm (visit_arm b merge).
Proof.
  intros Hb s Hr. unfold visit_arm. destruct b as [m|]; [specialize (Hb m eq_refl) |]; wp_tac.
Qed.

(** The condition of an [if]. *)
Lemma calm_visitIfStatement e b eb :
  (forall m, b = Some m -> calm m) -> (forall m, eb = Some m -> calm m) ->
  calm (visitIfStatement e b eb).
Proof.
  intros Hb Heb s Hr.
  pose proof (fun m => calm_visit_arm b m Hb) as Hthen.
  pose proof (fun m => calm_visit_arm eb m Heb) as Helse.
  unfold visitIfStatement. wp_tac.
Qed.
