(* ===== verification/CodeGenBlockWf.v ===== *)
(** The generator keeps its state well formed, concluded: commit groups,
    closures, blocks, and with them every statement. *)

From S2P Require Import Prelude Ast IR State Builder CodeGenBase CodeGenExpr CodeGenStmt.
From S2P Require Import CodeGenBlock CodeGenLogic BuilderFacts CodeGenWf CodeGenStmtWf.

(** * Computations that change the mode on their way *)

Definition wpo {A} (m : M A) (Q : A -> cg -> Prop) (s : cg) : Prop :=
  wf s -> wf (m s).2 /\ later s (m s).2 /\ forall a, (m s).1 = Ok a -> Q a (m s).2.

Lemma wpo_bind {A B} (m : M A) (f : A -> M B) Q s :
  wpo m (fun a s' => wpo (f a) Q s') s -> wpo (bind m f) Q s.
Proof.
  intros Hm Hs. destruct (Hm Hs) as (H1 & H2 & H3). unfold bind.
  destruct (m s) as [[a|e] s1]; simpl in *; [| split_and!; done].
  destruct (H3 a eq_refl H1) as (H4 & H5 & H6). split_and!; [done | by etrans | done].
Qed.

Lemma wpo_modify f Q s : (wf s -> wf (f s) /\ later s (f s) /\ Q tt (f s)) -> wpo (modify f) Q s.
Proof. intros H Hs. destruct (H Hs) as (? & ? & ?). split_and!; try done. by intros [] _. Qed.

Lemma wp_wpo {A} (m : M A) (P Q : A -> cg -> Prop) s :
  wp m P s ->
  (forall a s', wf s' -> later s s' -> mode s' = mode s -> P a s' -> Q a s') -> wpo m Q s.
Proof.
  intros Hm HQ Hs. destruct (Hm Hs) as (H1 & H2 & H3). split_and!; [done.. |].
  intros a Ha. destruct (H3 a Ha). auto.
Qed.

Lemma wpo_wp {A} (m : M A) Q s :
  wpo m (fun a s' => mode s' = mode s /\ Q a s') s -> wp m Q s.
Proof. intros Hm Hs. destruct (Hm Hs) as (? & ? & ?). done. Qed.

Lemma wpo_recon b Q s : Q tt (set_recon b s) -> wpo (modify (set_recon b)) Q s.
Proof.
  intros HQ. apply wpo_modify. intros Hs. split_and!; [by apply (wf_frame s) | by apply later_frame | done].
Qed.

Lemma wpo_insideLambda b Q s : Q tt (set_insideLambda b s) -> wpo (modify (set_insideLambda b)) Q s.
Proof.
  intros HQ. apply wpo_modify. intros Hs. split_and!; [by apply (wf_frame s) | by apply later_frame | done].
Qed.

(** * The environment of a closure *)

Definition same_structs (s s' : cg) : Prop := structs (theIR s') = structs (theIR s).
#[export] Instance same_structs_preorder : PreOrder same_structs.
Proof. split; [done |]. intros s1 s2 s3 H1 H2. unfold same_structs in *. congruence. Qed.

Lemma same_structs_Insert x t : along same_structs (Insert x t).
Proof.
  intros s. unfold Insert, bind, getInsertBlock, gets, gets_ir, modify_ir, modify, mret, SE_ret.
  simpl. by destruct (if insideLambda s then _ else _).
Qed.
#[export] Hint Resolve same_structs_Insert : fork.

Lemma same_structs_load_variables l : along same_structs (load_variables l).
Proof.
  induction l as [|[n a] l IH]; simpl; unfold getAllocaType, pointee, CreateLoad; along_tac.
Qed.

Lemma safe_load_variables l : safe (load_variables l).
Proof. induction l; simpl; wp_tac. Qed.
Lemma safe_store_environment a l : safe (store_environment a l).
Proof. induction l as [|[[x t] v] l IH]; simpl; wp_tac. Qed.
#[export] Hint Resolve safe_load_variables safe_store_environment : wp.

Section codegen.
Context (jit_address : string -> Z).
Context (hash_order : gmap string (option value) -> list (string * option value)).

Lemma safe_make_environment : safe (make_environment hash_order).
Proof.
  intros s. unfold make_environment. apply wp_bind. eapply wp_mono; [apply wp_StructType_create |].
  intros id s1 _ _ _ (info & Hi & Hb). apply wp_bind, wp_gets. intros _. apply wp_bind.
  eapply wp_mono; [apply wp_along; [apply same_structs_load_variables | apply safe_load_variables] |].
  intros vars s2 _ _ _ [_ E]. unfold same_structs in E. apply wp_bind.
  eapply wp_mono; [eapply wp_setBody; [by rewrite E | done] |].
  intros _ s3 _ _ _ (info' & Hi' & Hb'). apply wp_bind.
  eapply wp_mono; [apply safe_structTypes_insert; eexists info', _; split_and!; [done.. |] |].
  - by rewrite !length_fmap.
  - intros _ s4 _ _ _ _. wp_tac.
Qed.

Lemma safe_begin_group : safe begin_group.
Proof. unfold begin_group. wp_tac. Qed.

Lemma wp_plan_recon l r s : recon s = false -> wp (plan_recon l r) (fun _ _ => True) s.
Proof.
  intros Hr. unfold plan_recon. apply wp_bind, wp_safe; [wp_tac |]. intros _ s1 _ _ M1.
  destruct l as [lhs|]; [| wp_tac].
  apply wpo_wp, wpo_bind, wpo_recon, wpo_bind.
  eapply wp_wpo; [apply (wp_deref _ (fun _ _ => True)); done |].
  intros rhs s2 _ _ M2 _. apply wpo_bind. eapply wp_wpo; [apply safe_visitAssignStatement |].
  intros _ s3 _ _ M3 _. apply wpo_recon. split; [| done]. mode_tac.
Qed.

Lemma wp_compile_closure n body s :
  calm body -> recon s = false -> insideLambda s = false ->
  wp (compile_closure n body) (fun _ _ => True) s.
Proof.
  intros Hbody Hr Hl. unfold compile_closure. apply wpo_wp, wpo_bind, wpo_insideLambda, wpo_bind.
  eapply (wp_wpo _ (fun _ _ => True)).
  { apply wp_modify_ir; [| done]. intros []. split; split; simpl; try done; eauto 6.
    by intros m [= <-]. }
  intros _ s1 _ _ M1 _. apply wpo_bind.
  eapply (wp_wpo _ (fun _ _ => True)); [by apply wp_gets |]. intros k s2 _ _ M2 _. apply wpo_bind.
  eapply (wp_wpo _ (fun _ _ => True)); [wp_tac |]. intros key s3 _ _ M3 _. apply wpo_bind.
  eapply wp_wpo; [apply calm_visitFunctionDefinition; [done |] |].
  { mode_tac. }
  intros _ s4 _ _ M4 _. apply wpo_insideLambda. split; [| done]. mode_tac.
Qed.

Lemma safe_visitAddressOf x : safe (visitAddressOfExpression x None).
Proof. by apply safe_visitAddressOfExpression. Qed.

Lemma safe_schedule_closure n v : safe (schedule_closure jit_address n v).
Proof.
  pose proof safe_visitAddressOf. unfold schedule_closure. intros s. apply wp_bind.
  apply wp_modify_ir.
  - intros []. split; split; simpl; try done; eauto 6. by apply prefix_app_r.
  - wp_tac.
Qed.
#[local] Hint Resolve safe_make_environment safe_begin_group wp_plan_recon wp_compile_closure
  safe_schedule_closure safe_visitReturnStatement : wp.

(** * Groups *)

Lemma safe_reconcile i l : safe (reconcile i l).
Proof.
  revert i. induction l as [|[a [r|]] l IH]; intros i; simpl; wp_tac.
Qed.

Lemma safe_end_group : safe end_group.
Proof.
  pose proof safe_reconcile. unfold end_group.
  assert (safe (visitFunctionCall "__destroy_context" [visitIdentifier "cid"])).
  { apply safe_visitFunctionCall, Forall_singleton, safe_visitIdentifier. }
  wp_tac.
Qed.
#[local] Hint Resolve safe_end_group : wp.

(** Statements that come with calm actions. *)
Definition calm_statements (l : list (stmt * M (option value))) : Prop :=
  Forall (fun p => calm p.2) l.

Definition calm_block (V : option (list (stmt * M (option value))) -> M (option value)) : Prop :=
  forall l, calm_statements l -> calm (V (Some l)).

Lemma wp_make_closure V st m v s :
  calm_block V -> calm m -> recon s = false -> insideLambda s = false ->
  wp (make_closure jit_address hash_order V st m v) (fun _ _ => True) s.
Proof.
  intros HV Hm Hr Hl. unfold make_closure. cbv zeta.
  apply wp_bind, wp_safe; [wp_tac |]. intros _ s1 _ _ M1.
  apply wp_bind, wp_safe; [wp_tac |]. intros _ s2 _ _ M2.
  apply wp_bind, wp_gets. intros Hs2. pose proof (wf_named _ Hs2) as Hcopy.
  apply wp_bind. eapply wp_mono; [apply wp_saveAndClearIP |]. intros ip s3 _ L3 M3 Hip.
  apply wp_bind, wp_gets. intros _. apply wp_bind.
  eapply wp_mono; [by apply wp_lambdaNum |]. intros _ s4 _ L4 M4 _.
  apply wp_bind. eapply wp_mono; [apply wp_plan_recon; mode_tac |]. intros _ s5 _ L5 M5 _.
  apply wp_bind. eapply wp_mono; [apply wp_compile_closure |].
  - apply HV. apply Forall_app. split; [destruct (LambdaReconVisitor.getLHS _); [by apply Forall_nil | by apply Forall_singleton] |].
    apply Forall_singleton, safe_calm, safe_visitReturnStatement.
  - mode_tac.
  - mode_tac.
  - intros _ s6 _ L6 M6 _. apply wp_bind. eapply wp_mono; [apply wp_restoreIP |].
    + eapply ip_wf_later; [| exact Hip].
      etrans; [apply (later_block _ _ (later_ir _ _ L4)) |].
      etrans; [apply (later_block _ _ (later_ir _ _ L5)) |].
      apply (later_block _ _ (later_ir _ _ L6)).
    + intros _ s7 _ _ M7 _. apply wp_bind, wp_namedValues; [done |]. intros s8 _ _ M8. wp_tac.
Qed.

Lemma wp_visit_statements V cv i l v s :
  calm_block V -> calm_statements l -> recon s = false ->
  wp (visit_statements jit_address hash_order V cv i l v) (fun _ _ => True) s.
Proof.
  intros HV Hl. revert i v s. induction Hl as [|[st m] l Hm Hl IH]; intros i v s Hr;
    [simpl; wp_tac |]. simpl in Hm |- *.
  apply wp_bind, wp_gets. intros _. apply wp_bind.
  assert (wp (if insideLambda s then mret true else
    match cv !! i with Some b => mret b | None => fail OutOfRange end)
    (fun b s' => s' = s /\ (insideLambda s = true -> b = true)) s) as Hc.
  { destruct (insideLambda s); [by apply wp_ret |]. destruct (cv !! i); [by apply wp_ret | apply wp_fail]. }
  eapply wp_mono; [apply Hc |]. intros b s' _ _ _ [-> Hb]. apply wp_bind.
  eapply (wp_mono _ (fun _ _ => True)).
  - destruct b; simpl; [wp_tac |]. apply wp_make_closure; try done.
    destruct (insideLambda s); [by specialize (Hb eq_refl) | done].
  - intros last s1 _ _ M1 _. apply IH. mode_tac.
Qed.

Lemma calm_visitBlock_with V b :
  calm_block V -> (forall l, b = Some l -> calm_statements l) ->
  calm (visitBlock_with jit_address hash_order V b).
Proof.
  intros HV Hb s Hr. unfold visitBlock_with. destruct b as [l|]; [| wp_tac].
  specialize (Hb l eq_refl). apply wp_bind, wp_gets. intros _.
  destruct (insideLambda s).
  - by apply wp_visit_statements.
  - apply wp_bind, wp_safe; [wp_tac |]. intros _ s1 _ _ M1. apply wp_visit_statements; [done.. |].
    mode_tac.
Qed.

Lemma calm_visitBlock b :
  (forall l, b = Some l -> calm_statements l) -> calm (visitBlock jit_address hash_order b).
Proof.
  apply calm_visitBlock_with. intros l Hl. apply calm_visitBlock_with; [| by intros ? [= <-]].
  intros l' _ s _. apply wp_fail.
Qed.

(** * Every statement *)

Lemma calm_accept st : calm (accept jit_address hash_order st).
Proof.
  induction st as [v|n b IH|ty n args b p IH|c e|e|c t v|e b eb IHb IHeb|t n args p]
    using stmt_nested_ind; simpl.
  - destruct v; apply safe_calm; [apply safe_visitVariableDefinition | apply safe_visitStructureDeclaration].
  - apply safe_calm, safe_visitStructureDefinition.
  - apply calm_visitFunctionDefinition, calm_visitBlock. intros l Hl.
    apply fmap_Some in Hl as (l0 & Hl & ->). apply Forall_fmap. simpl.
    eapply Forall_impl; [by apply IH | done].
  - apply safe_calm, safe_visit.
  - apply safe_calm, safe_visitReturnStatement.
  - apply safe_calm, safe_visitAssignStatement.
  - apply calm_visitIfStatement; intros m Hm; apply fmap_Some in Hm as (b' & Hb' & ->);
      apply calm_visitBlock; intros l Hl; apply fmap_Some in Hl as (l0 & Hl & ->);
      apply Forall_fmap; simpl.
    + eapply Forall_impl; [by eapply IHb | done].
    + eapply Forall_impl; [by eapply IHeb | done].
  - apply safe_calm, safe_visitExternStatement.
Qed.

Lemma calm_visit_program l : calm (visit_program jit_address hash_order l).
Proof.
  apply calm_visitBlock. intros l' [= <-]. apply Forall_fmap. apply Forall_true. intros st.
  apply calm_accept.
Qed.
End codegen.

Lemma wf_new : wf new_CodeGenVisitor.
Proof.
  split; try done. split; try done.
  - intros b Hb. simpl in Hb. lia.
  - by intros id b (l & Hl & _).
  - intros id H. by apply elem_of_nil in H.
  - by intros id b b' (l & Hl & _).
  - constructor.
Qed.

(** ** The statements of a block in two parts *)

Lemma visit_statements_app jit_address hash_order V cv l1 l2 : forall i last s,
  visit_statements jit_address hash_order V cv i (l1 ++ l2) last s =
  (v <- visit_statements jit_address hash_order V cv i l1 last ;;
   visit_statements jit_address hash_order V cv (length l1 + i) l2 v) s.
Proof.
  induction l1 as [|[st m] l1 IH]; intros i last s; [done |]. simpl.
  rewrite bind_assoc_at. apply bind_ext_at. intros lambda s1.
  rewrite bind_assoc_at. apply bind_ext_at. intros commits s2.
  rewrite bind_assoc_at. apply bind_ext_at. intros v s3. by rewrite IH, Nat.add_succ_r.
Qed.
