(* ===== verification/CodeGenLoud.v ===== *)
(** Errors are reported: a member function that returns null has set the
    error flag, but for the literal NULL and what merely passes it on. *)

From S2P Require Import Prelude Ast IR State Builder CodeGenBase CodeGenExpr CodeGenStmt.
From S2P Require Import CodeGenBlock CodeGenLogic BuilderFacts CodeGenWf CodeGenStmtWf.
From S2P Require Import CodeGenBlockWf.

(** [loud m]: a null result comes with the flag. *)
Definition loud_at {A} (m : M (option A)) (s : cg) : Prop :=
  wp m (fun r s' => r = None -> error s' = true) s.
Definition loud {A} (m : M (option A)) : Prop := forall s, loud_at m s.

Lemma loud_wp {A} (m : M (option A)) s :
  loud m -> wp m (fun r s' => r = None -> error s' = true) s.
Proof. intros H. apply H. Qed.

Lemma loud_ErrorV {A} str : loud (@ErrorV A str).
Proof. intros s. eapply wp_mono; [apply wp_ErrorV |]. intros r s' _ _ _ H _. exact (proj2 H). Qed.

(** The flag stays. *)
Lemma error_later s s' : wf s -> wf s' -> later s s' -> error s = true -> error s' = true.
Proof.
  intros W W' L. rewrite (wf_error _ W), (wf_error _ W'), !bool_decide_eq_true.
  destruct (later_errors _ _ L) as [l E]. rewrite E. intros H1 H2. by apply app_eq_nil in H2 as [? _].
Qed.

Create HintDb loud.

Ltac loud_step :=
  match goal with
  | |- loud _ => let s := fresh "s" in intros s; unfold loud_at
  | |- wp (mret (Some _)) _ _ => apply wp_ret; by intros ? [=]
  | |- wp (some _) _ _ => unfold some
  | |- wp (ErrorV _) _ _ => apply loud_ErrorV
  | |- wp _ _ _ => apply loud_wp; solve [ eauto 2 with loud ]
  | |- wp (match ?x with _ => _ end) _ _ => destruct x eqn:?
  | |- _ => wp_step
  end.
Ltac loud_tac := repeat loud_step.

(** A binding whose null is passed on. *)
Lemma loud_pass {A B} (m : M (option A)) (f : option A -> M (option B)) s :
  loud m ->
  (forall a s', wf s' -> later s s' -> mode s' = mode s -> loud_at (f (Some a)) s') ->
  (forall s', wf s' -> later s s' -> error s' = true -> loud_at (f None) s') ->
  loud_at (bind m f) s.
Proof.
  intros Hm HS HN. apply wp_bind. eapply wp_mono; [apply Hm |].
  intros [a|] s' W L M H; [by apply HS | by apply HN; auto].
Qed.

(** * Expressions *)

Lemma loud_getNullPointer n : loud (getNullPointer n).
Proof. unfold getNullPointer. loud_tac. Qed.
Lemma loud_getStructField t f v : loud (getStructField t f v).
Proof. unfold getStructField. loud_tac. Qed.
Lemma loud_getTypeFromString n p v : loud (getTypeFromString n p v).
Proof. unfold getTypeFromString. loud_tac. Qed.
Lemma loud_visitIdentifier n : loud (visitIdentifier n).
Proof. unfold visitIdentifier. loud_tac. Qed.
#[export] Hint Resolve loud_getNullPointer loud_getStructField loud_getTypeFromString
  loud_visitIdentifier : loud.

Lemma loud_visitUnaryOperator op e : safe e -> loud (visitUnaryOperator op e).
Proof. intros He. unfold visitUnaryOperator, CreateMul, CreateFMul. cbv zeta. loud_tac. Qed.

Lemma loud_visitBinaryOperator l op r : safe l -> safe r -> loud (visitBinaryOperator l op r).
Proof. intros Hl Hr. unfold visitBinaryOperator. cbv zeta. loud_tac. Qed.

Lemma loud_null_argument t : loud (null_argument t).
Proof. unfold null_argument. loud_tac. Qed.
Lemma loud_convert_argument a t : loud (convert_argument a t).
Proof. unfold convert_argument. loud_tac. Qed.

Lemma loud_mret_error {A} s : error s = true -> loud_at (mret (@None A)) s.
Proof. intros H. by apply wp_ret. Qed.

Lemma loud_visitArguments args params : Forall safe args -> loud (visitArguments args params).
Proof.
  intros H. revert params. induction H as [|m args Hm Hargs IH]; intros params s;
    [by apply wp_ret; intros ? [=] |]. destruct params as [|param params]; [by apply wp_ret; intros ? [=] |].
  simpl. apply wp_bind, wp_safe; [done |]. intros a s1 _ _ _.
  apply loud_pass.
  - destruct a; [| apply loud_null_argument]. intros s'. apply wp_ret. by intros ? [=].
  - intros a' s2 _ _ _. apply loud_pass; [apply loud_convert_argument | | intros; by apply loud_mret_error].
    intros a'' s3 _ _ _. apply loud_pass; [apply IH | |]; intros; apply wp_ret; [by intros ? [=] | done].
  - intros s2 _ _ He. destruct param as [| | |[]|]; try by apply loud_mret_error. apply wp_fail.
Qed.

Lemma loud_visitFunctionCall name args : Forall safe args -> loud (visitFunctionCall name args).
Proof.
  intros Hargs s. pose proof (fun p => loud_visitArguments args p Hargs) as HA.
  unfold visitFunctionCall. apply wp_bind. eapply wp_mono; [apply wp_getFunction |].
  intros found _ _ _ _ [-> Hfound]. apply wp_bind, wp_gets. intros _.
  apply wp_bind. eapply (wp_mono _ (fun r s' => r = None -> error s' = true)).
  - destruct found as [f|]; [loud_tac |]. destruct (insideLambda s) eqn:E; [| loud_tac].
    apply wp_bind, wp_gets_ir. intros _. apply wp_bind, wp_deref. intros f _.
    apply wp_bind. eapply wp_mono; [apply wp_Function_Create; congruence |]. intros. loud_tac.
  - intros func s1 _ _ _ Hf. destruct func as [func|]; [| by apply wp_ret; auto].
    destruct (negb _); [loud_tac |]. apply loud_pass; [apply HA | | intros; by apply loud_mret_error].
    intros a s2 _ _ _. unfold loud_at. loud_tac.
Qed.

(** [getStructField] and then its value. *)
Lemma loud_field t f v s :
  wp (r <- getStructField t f v ;; mret (field_value r)) (fun r s' => r = None -> error s' = true) s.
Proof.
  apply loud_pass; [apply loud_getStructField | |]; intros; apply wp_ret; [by intros ? [=] | done].
Qed.
#[export] Hint Resolve loud_field : loud.

Lemma loud_visitPointerExpression x off fld :
  (forall m, off = Some m -> safe m) -> loud (visitPointerExpression x off fld).
Proof.
  intros Hoff. unfold visitPointerExpression.
  destruct off as [m|]; [specialize (Hoff m eq_refl) |]; repeat (apply loud_field || loud_step).
Qed.

Lemma loud_visitAddressOfExpression x off :
  (forall m, off = Some m -> safe m) -> loud (visitAddressOfExpression x off).
Proof.
  intros Hoff. unfold visitAddressOfExpression.
  destruct off as [m|]; [specialize (Hoff m eq_refl) |]; loud_tac.
Qed.

Lemma loud_visitStructureExpression x f : loud (visitStructureExpression x f).
Proof. unfold visitStructureExpression. repeat (apply loud_field || loud_step). Qed.

Lemma loud_visit e : e <> NullLiteral -> loud (visit e).
Proof.
  intros He. destruct e; simpl; try done.
  - intros s. unfold visitInteger, loud_at. loud_tac.
  - intros s. unfold visitFloat, loud_at. loud_tac.
  - apply loud_visitIdentifier.
  - apply loud_visitUnaryOperator, safe_visit.
  - apply loud_visitBinaryOperator; apply safe_visit.
  - apply loud_visitFunctionCall, Forall_fmap, Forall_true. intros. apply safe_visit.
  - apply loud_visitPointerExpression. intros m Hm. apply fmap_Some in Hm as (? & _ & ->). apply safe_visit.
  - apply loud_visitAddressOfExpression. intros m Hm. apply fmap_Some in Hm as (? & _ & ->). apply safe_visit.
  - apply loud_visitStructureExpression.
Qed.

(** * Statements *)

Lemma loud_visitVariableDefinition t n e p : loud (visitVariableDefinition t n e p).
Proof.
  intros s. unfold visitVariableDefinition. apply wp_bind, wp_gets. intros _.
  destruct (bool_decide _); [apply loud_ErrorV |].
  apply wp_bind, wp_safe; [apply safe_getParent |]. intros f s1 _ _ _. apply loud_pass.
  - destruct p; intros s2; unfold loud_at, pointer_initial, plain_initial; cbv zeta; loud_tac.
  - intros v s2 _ _ _. unfold loud_at. loud_tac.
  - intros s2 _ _ He. by apply loud_mret_error.
Qed.

Lemma loud_visitStructureDeclaration t n p : loud (visitStructureDeclaration t n p).
Proof. unfold visitStructureDeclaration. cbv zeta. loud_tac. Qed.

Lemma loud_struct_variables l : loud (struct_variables l).
Proof.
  induction l as [|v l IH]; intros s; simpl; [by apply wp_ret; intros ? [=] |].
  destruct (vardef_exp v); [apply loud_ErrorV |]. apply loud_pass; [apply loud_getTypeFromString | |].
  - intros t s1 _ _ _. apply loud_pass; [apply IH | |]; intros; apply wp_ret; [by intros ? [=] | done].
  - intros s1 _ _ _. apply loud_ErrorV.
Qed.

Lemma loud_struct_structs n c l : loud (struct_structs n c l).
Proof.
  induction l as [|v l IH]; intros s; simpl; [by apply wp_ret; intros ? [=] |].
  apply wp_bind, wp_gets. intros _. apply loud_pass; [loud_tac | |].
  - intros t s1 _ _ _. apply loud_pass; [apply IH | |]; intros; apply wp_ret; [by intros ? [=] | done].
  - intros s1 _ _ He. by apply loud_mret_error.
Qed.

Lemma loud_visitIfStatement e b eb s :
  (forall m, b = Some m -> calm m) -> (forall m, eb = Some m -> calm m) -> recon s = false ->
  loud_at (visitIfStatement e b eb) s.
Proof.
  intros Hb Heb Hr. pose proof (fun m => calm_visit_arm b m Hb) as Hthen.
  pose proof (fun m => calm_visit_arm eb m Heb) as Helse.
  unfold visitIfStatement. apply wp_bind, wp_safe; [apply safe_visit |]. intros c s1 _ _ M1.
  apply wp_bind, wp_safe; [wp_tac |]. intros c' s2 _ _ M2.
  apply loud_pass; [loud_tac | | intros; by apply loud_mret_error].
  intros c'' s3 _ _ M3. unfold loud_at, getVoidValue. loud_tac.
Qed.

Lemma loud_visitReturnStatement e : loud (visitReturnStatement e).
Proof. unfold visitReturnStatement, return_null. cbv zeta. loud_tac. Qed.

Lemma loud_visitAssignStatement t e s : recon s = false -> loud_at (visitAssignStatement t e) s.
Proof.
  intros Hr. unfold visitAssignStatement. apply wp_bind, wp_gets. intros _. rewrite Hr.
  apply wp_bind, wp_safe; [apply safe_visit |]. intros r s1 _ _ M1.
  apply wp_bind, wp_safe; [apply safe_visit_lhs |]. intros v s2 _ _ M2.
  apply wp_bind, wp_gets. intros _. destruct v; [loud_tac |].
  replace (recon s2) with false by mode_tac. apply loud_ErrorV.
Qed.

Lemma loud_visitStructureDefinition n b : loud (visitStructureDefinition n b).
Proof.
  intros s. unfold visitStructureDefinition, lift_res, getVoidValue.
  apply wp_bind, wp_safe; [wp_tac |]. intros vars s1 _ _ _.
  apply wp_bind, wp_safe; [wp_tac |]. intros strs s2 _ _ _.
  apply wp_bind. eapply wp_mono; [apply wp_StructType_create |].
  intros id s3 _ _ _ (info & Hinfo & Hbody).
  apply wp_bind. eapply wp_mono; [apply wp_along; [apply same_ir_struct_variables | apply loud_struct_variables] |].
  intros [fields|] s4 _ _ _ [He E4]; [| apply loud_mret_error; auto].
  apply wp_bind. eapply wp_mono; [apply wp_along; [apply same_ir_struct_structs | apply loud_struct_structs] |].
  intros [more|] s5 _ _ _ [He5 E5]; [| apply loud_mret_error; auto]. unfold same_ir in *.
  apply wp_bind. eapply wp_mono; [eapply wp_setBody; [rewrite E5, E4; exact Hinfo | done] |].
  intros _ s6 _ _ _ (info' & Hi & Hb). apply wp_bind.
  eapply wp_mono; [apply safe_structTypes_insert; exists info', ((fields ++ more).*1); split_and!; try done |].
  - by rewrite !length_fmap.
  - intros. loud_tac.
Qed.

Lemma loud_visitExternStatement t n args p : loud (visitExternStatement t n args p).
Proof.
  intros s. unfold visitExternStatement, getVoidValue. apply wp_bind_assoc, wp_bind.
  eapply wp_mono; [apply wp_find_or_generate |]. intros [f|] s1 _ _ _ _; loud_tac.
Qed.
