(* ===== verification/Machine.v ===== *)
(** What the instructions of a block do: the part of LLVM's semantics that
    expressions need, the meaning of Fork expressions it is compared to, and
    the worlds in which both live.

    Registers are numbered by the instructions that define them; memory is
    the stack slots, each holding one value, which may be a structure.  Integers of [w] bits are in
    two's complement, a comparison gives the [i1] all of whose bits are the
    answer, and doubles are IEEE 754 binary64 rounded to nearest even.  A call
    may change what is outside of the program - what is printed, the heap of
    the runtime library - so that the order of the calls is part of what code
    does. *)

From stdpp Require Import functions.
From S2P Require Import Prelude Ast IR State Builder CodeGenBase CodeGenExpr.

Local Open Scope Z_scope.

(** * Running instructions *)

(** A pointer is to a slot, to a field of the structure in a slot, or an
    address that is a number.  A structure is the fields that were stored since
    it was zero.  [RVoid] is what a call of a void function leaves. *)
Inductive rv : Type :=
  | RInt (w : Z) (n : Z)
  | RFloat (d : double)
  | RPtr (slot : option nat)
  | RField (slot i : nat)
  | RAddr (n : Z)
  | RStruct (fields : nat -> option rv)
  | RVoid.

(** All bits zero. *)
Definition zero (t : ty) : option rv :=
  match t with
  | TVoid _ => None
  | TInt _ w => Some (RInt w 0)
  | TDouble _ => Some (RFloat double_zero)
  | TPointer _ => Some (RPtr None)
  | TStruct _ => Some (RStruct (fun _ => None))
  end.

(** The [t] that a pointer points to, and memory with something else there. *)
Definition read (t : ty) (me : gmap nat rv) (a : rv) : option rv :=
  match a with
  | RPtr (Some slot) => me !! slot
  | RField slot i =>
      match me !! slot with
      | Some (RStruct fields) => match fields i with Some r => Some r | None => zero t end
      | _ => None
      end
  | _ => None
  end.

Definition write (x : rv) (a : rv) (me : gmap nat rv) : option (gmap nat rv) :=
  match a with
  | RPtr (Some slot) => Some (<[slot := x]> me)
  | RField slot i =>
      match me !! slot with
      | Some (RStruct fields) => Some (<[slot := RStruct (<[i := Some x]> fields)]> me)
      | _ => None
      end
  | _ => None
  end.

(** What calls act on outside of the program. *)
Class Outside := outside : Type.

Record machine {out : Outside} : Type := mk_machine {
  regs : gmap nat rv;
  mem : gmap nat rv;
  around : outside
}.
Arguments machine {out}.
Arguments mk_machine {out} _ _ _.

(** What is fixed while code runs: the arguments of the function it is part
    of, what a call returns and leaves outside, and the result of an undefined
    division, which LLVM does not have. *)
Class Running {out : Outside} := {
  arguments : list rv;
  called : string -> list rv -> outside -> option (rv * outside);
  undefined_division : option Z
}.

(** The value of an expression, and its type; [FkBool] is the [i1] that [||]
    and [&&] of integers give, and a call of a void function has the value
    [VU]. *)
Inductive fval : Type := VI (z : Z) | VF (d : double) | VU.

Inductive fty : Type := FkInt | FkBool | FkFloat | FkVoid.

#[export] Instance fty_eq_dec : EqDecision fty.
Proof. solve_decision. Defined.

(** The functions that may be called: the types of the parameters and of the
    result. *)
Class Signatures := signature_of : string -> option (list fty * fty).

(** What is fixed for the meaning of statements: what a call gives, and an
    undefined division. *)
Class Meaning {out : Outside} := {
  fk_called : string -> list fval -> outside -> option (fval * outside);
  fk_undefined : option Z
}.

Section machine.
Context {out : Outside} {running : Running}.

Definition eval_value (r : gmap nat rv) (v : value) : option rv :=
  match v with
  | VConstInt _ w n => Some (RInt w (wrap w n))
  | VConstFP _ d => Some (RFloat d)
  | VConstNull _ => Some (RPtr None)
  | VAggregateZero t => if isStructTy t then zero t else None
  | VInst id _ => r !! id
  | VArgument _ i _ => arguments !! i
  | _ => None
  end.

(** Division by zero, and of the least integer by -1, is undefined. *)
Definition int_binop (op : binop) (w a b : Z) : option Z :=
  match op with
  | Add => Some (wrap w (a + b))
  | Sub => Some (wrap w (a - b))
  | Mul => Some (wrap w (a * b))
  | SDiv =>
      if (b =? 0) || ((a =? - 2 ^ (w - 1)) && (b =? -1)) then undefined_division
      else Some (Z.quot a b)
  | And => Some (Z.land a b)
  | Or => Some (Z.lor a b)
  | Xor => Some (Z.lxor a b)
  | _ => None
  end.

Definition float_binop (op : binop) (a b : double) : option double :=
  match op with
  | FAdd => Some (fadd a b)
  | FSub => Some (fsub a b)
  | FMul => Some (fmul a b)
  | FDiv => Some (fdiv a b)
  | _ => None
  end.

Definition icmp (p : ipred) (a b : Z) : bool :=
  match p with
  | INE => negb (a =? b)
  | IEQ => a =? b
  | ISGE => b <=? a
  | ISLE => a <=? b
  | ISGT => b <? a
  | ISLT => a <? b
  end.

(** The ordered comparisons are false when an operand is not a number. *)
Definition fcmp (p : fpred) (a b : double) : bool :=
  match p, SFcompare a b with
  | FONE, Some (Lt | Gt) | FOEQ, Some Eq | FOGE, Some (Gt | Eq) | FOLE, Some (Lt | Eq)
  | FOGT, Some Gt | FOLT, Some Lt => true
  | _, _ => false
  end.

Definition i1 (b : bool) : rv := RInt 1 (if b then -1 else 0).

Definition exec_cast (op : castop) (r : rv) (t : ty) : option rv :=
  match op, r, t with
  | ZExt, RInt w n, TInt _ w' => if w <? w' then Some (RInt w' (n `mod` 2 ^ w)) else None
  | BitCast, RInt w n, TInt _ w' => if w =? w' then Some (RInt w n) else None
  | BitCast, RFloat d, TDouble _ => Some (RFloat d)
  | BitCast, RPtr a, TPointer _ => Some (RPtr a)
  | IntToPtr, RInt _ n, TPointer _ => Some (RAddr n)
  | SIToFP, RInt _ n, TDouble _ => Some (RFloat (of_int n))
  | _, _, _ => None
  end.

(** The result of an instruction that only writes its register and is no
    call. *)
Definition result (m : machine) (i : inst) : option rv :=
  match i with
  | ILoad p =>
      a ← eval_value (regs m) p;
      match getType p with TPointer t => read t (mem m) a | _ => None end
  | IStructGEP _ p field =>
      a ← eval_value (regs m) p;
      match a with RPtr (Some slot) => Some (RField slot field) | _ => None end
  | IBinary op l r =>
      a ← eval_value (regs m) l; b ← eval_value (regs m) r;
      match a, b with
      | RInt w x, RInt w' y => if w =? w' then RInt w <$> int_binop op w x y else None
      | RFloat x, RFloat y => RFloat <$> float_binop op x y
      | _, _ => None
      end
  | IICmp p l r =>
      a ← eval_value (regs m) l; b ← eval_value (regs m) r;
      match a, b with
      | RInt w x, RInt w' y => if w =? w' then Some (i1 (icmp p x y)) else None
      | _, _ => None
      end
  | IFCmp p l r =>
      a ← eval_value (regs m) l; b ← eval_value (regs m) r;
      match a, b with RFloat x, RFloat y => Some (i1 (fcmp p x y)) | _, _ => None end
  | ICast op v t => a ← eval_value (regs m) v; exec_cast op a t
  | _ => None
  end.

(** The result of an instruction, and what it leaves outside. *)
Definition effect (m : machine) (i : inst) : option (rv * outside) :=
  match i with
  | ICall f args => rs ← mapM (eval_value (regs m)) args; called f rs (around m)
  | _ => r ← result m i; Some (r, around m)
  end.

Definition exec (m : machine) (i : nat * inst) : option machine :=
  match i.2 with
  | IStore v p =>
      a ← eval_value (regs m) p; x ← eval_value (regs m) v;
      me ← write x a (mem m); Some (mk_machine (regs m) me (around m))
  | IAlloca _ => Some (mk_machine (<[i.1 := RPtr (Some i.1)]> (regs m)) (mem m) (around m))
  | _ => '(r, w) ← effect m i.2; Some (mk_machine (<[i.1 := r]> (regs m)) (mem m) w)
  end.

Fixpoint run (m : machine) (l : list (nat * inst)) : option machine :=
  match l with
  | [] => Some m
  | i :: l' => m' ← exec m i; run m' l'
  end.

Lemma run_app m l1 l2 : run m (l1 ++ l2) = (m' ← run m l1; run m' l2).
Proof.
  revert m. induction l1 as [|i l1 IH]; intros m; [done |]. simpl.
  destruct (exec m i); [apply IH | done].
Qed.

End machine.

(** * What expressions mean *)

Section meaning.
Context {out : Outside} {meaning : Meaning} {sigs : Signatures}.

Definition b2z (b : bool) : Z := if b then 1 else 0.
Definition truth_int (z : Z) : bool := negb (z =? 0).
Definition truth_float (d : double) : bool := fcmp FONE d double_zero.

Definition minus_one : double := S754_finite true 4503599627370496 (-52).

Definition is_compare (o : Binops) : bool :=
  match o with BOP_GTE | BOP_LTE | BOP_LT | BOP_GT | BOP_NEQ | BOP_EQ => true | _ => false end.
Definition is_logical (o : Binops) : bool :=
  match o with BOP_OR | BOP_AND => true | _ => false end.

Definition fk_int (o : Binops) (a b : Z) : option Z :=
  match o with
  | BOP_PLUS => Some (wrap64 (a + b))
  | BOP_MINUS => Some (wrap64 (a - b))
  | BOP_MULT => Some (wrap64 (a * b))
  | BOP_DIV =>
      if (b =? 0) || ((a =? - two63) && (b =? -1)) then fk_undefined
      else Some (Z.quot a b)
  | BOP_GTE => Some (b2z (b <=? a))
  | BOP_LTE => Some (b2z (a <=? b))
  | BOP_LT => Some (b2z (a <? b))
  | BOP_GT => Some (b2z (b <? a))
  | BOP_NEQ => Some (b2z (negb (a =? b)))
  | BOP_EQ => Some (b2z (a =? b))
  | BOP_OR => Some (b2z (truth_int a || truth_int b))
  | BOP_AND => Some (b2z (truth_int a && truth_int b))
  end.

Definition fk_float (o : Binops) (a b : double) : fval :=
  match o with
  | BOP_PLUS => VF (fadd a b)
  | BOP_MINUS => VF (fsub a b)
  | BOP_MULT => VF (fmul a b)
  | BOP_DIV => VF (fdiv a b)
  | BOP_GTE => VI (b2z (fcmp FOGE a b))
  | BOP_LTE => VI (b2z (fcmp FOLE a b))
  | BOP_LT => VI (b2z (fcmp FOLT a b))
  | BOP_GT => VI (b2z (fcmp FOGT a b))
  | BOP_NEQ => VI (b2z (fcmp FONE a b))
  | BOP_EQ => VI (b2z (fcmp FOEQ a b))
  | BOP_OR => VI (b2z (truth_float a || truth_float b))
  | BOP_AND => VI (b2z (truth_float a && truth_float b))
  end.

(** An integer next to a double becomes a double. *)
Definition fk_binary (o : Binops) (a b : fval) : option fval :=
  match a, b with
  | VI x, VI y => VI <$> fk_int o x y
  | VF x, VF y => Some (fk_float o x y)
  | VI x, VF y => Some (fk_float o (of_int x) y)
  | VF x, VI y => Some (fk_float o x (of_int y))
  | _, _ => None
  end.

Definition fk_unary (op : string) (a : fval) : option fval :=
  if decide (op = "-") then
    match a with VI x => Some (VI (wrap64 (- x))) | VF d => Some (VF (fmul minus_one d)) | VU => None end
  else if decide (op = "!") then
    match a with
    | VI x => Some (VI (b2z (negb (truth_int x))))
    | VF d => Some (VI (b2z (negb (truth_float d))))
    | VU => None
    end
  else None.

(** A value as it is stored or passed where a [t] is. *)
Definition conv (t : fty) (z : fval) : fval :=
  match t, z with FkFloat, VI n => VF (of_int n) | _, _ => z end.

(** Expressions from left to right. *)
Definition eval_list (eval : expr -> outside -> option (fval * outside)) :
    list expr -> outside -> option (list fval * outside) :=
  fix go es w :=
    match es with
    | [] => Some ([], w)
    | e :: es' => '(z, w1) ← eval e w; '(zs, w2) ← go es' w1; Some (z :: zs, w2)
    end.

(** Both operands are evaluated, also of [||] and [&&]. *)
Fixpoint fk_eval (env : string -> option fval) (e : expr) (w : outside) : option (fval * outside) :=
  match e with
  | Integer z => Some (VI (wrap64 z), w)
  | Float d => Some (VF d, w)
  | Identifier x => z ← env x; Some (z, w)
  | UnaryOperator op e => '(a, w1) ← fk_eval env e w; z ← fk_unary op a; Some (z, w1)
  | BinaryOperator l op r =>
      o ← switchMap !! op; '(a, w1) ← fk_eval env l w; '(b, w2) ← fk_eval env r w1;
      z ← fk_binary o a b; Some (z, w2)
  | FunctionCall f args =>
      '(zs, w1) ← eval_list (fk_eval env) args w; sg ← signature_of f;
      fk_called f (zip_with conv sg.1 zs) w1
  | _ => None
  end.

Definition type_binary (o : Binops) (a b : fty) : option fty :=
  match a, b with
  | FkFloat, FkFloat | FkInt, FkFloat | FkFloat, FkInt =>
      Some (if is_compare o || is_logical o then FkInt else FkFloat)
  | (FkInt | FkBool), (FkInt | FkBool) => Some (if is_logical o then FkBool else FkInt)
  | _, _ => None
  end.

Definition type_unary (op : string) (t : fty) : option fty :=
  match t with
  | FkVoid => None
  | _ =>
      if decide (op = "-") then Some (match t with FkFloat => FkFloat | _ => FkInt end)
      else if decide (op = "!") then Some FkInt
      else None
  end.

Definition is_int (t : fty) : Prop := t = FkInt \/ t = FkBool.

(** The operands of a binary operator are two integers, or a double is among
    them. *)
Lemma type_binary_cases o tl tr t : type_binary o tl tr = Some t ->
  tl <> FkVoid /\ tr <> FkVoid /\
  ((is_int tl /\ is_int tr /\ t = (if is_logical o then FkBool else FkInt)) \/
  ((tl = FkFloat /\ tr = FkFloat \/ tl = FkInt /\ tr = FkFloat \/ tl = FkFloat /\ tr = FkInt) /\
   t = (if is_compare o || is_logical o then FkInt else FkFloat))).
Proof. unfold is_int. destruct tl, tr; simpl; intros [= <-]; split_and!; eauto 10. Qed.

Lemma type_unary_Some op te t : type_unary op te = Some t ->
  te <> FkVoid /\
  (op = "-" /\ t = (match te with FkFloat => FkFloat | _ => FkInt end) \/ op = "!" /\ t = FkInt).
Proof. unfold type_unary. destruct te; try done; repeat case_decide; naive_solver. Qed.

Lemma fk_unary_minus a :
  fk_unary "-" a = match a with
    | VI x => Some (VI (wrap64 (- x)))
    | VF d => Some (VF (fmul minus_one d))
    | VU => None end.
Proof. reflexivity. Qed.
Lemma fk_unary_not a :
  fk_unary "!" a = match a with
    | VI x => Some (VI (b2z (negb (truth_int x))))
    | VF d => Some (VI (b2z (negb (truth_float d))))
    | VU => None end.
Proof. reflexivity. Qed.

(** An expression of type [te] may be passed to a parameter of type [t]. *)
Definition passes (t te : fty) : bool :=
  match t, te with
  | FkInt, (FkInt | FkBool) | FkFloat, (FkFloat | FkInt) => true
  | _, _ => false
  end.

Fixpoint pass_all (ts tes : list fty) : bool :=
  match ts, tes with
  | [], [] => true
  | t :: ts, te :: tes => passes t te && pass_all ts tes
  | _, _ => false
  end.

(** The expressions of int and float variables, constants, operators and
    calls; a double next to an [i1] is left out. *)
Fixpoint type_of (G : string -> option fty) (e : expr) : option fty :=
  match e with
  | Integer _ => Some FkInt
  | Float _ => Some FkFloat
  | Identifier x => G x
  | UnaryOperator op e =>
      t ← type_of G e; type_unary op t
  | BinaryOperator l op r =>
      o ← switchMap !! op; a ← type_of G l; b ← type_of G r; type_binary o a b
  | FunctionCall f args =>
      tes ← mapM (type_of G) args; sg ← signature_of f;
      if pass_all sg.1 tes then Some sg.2 else None
  | _ => None
  end.

(** How a value of each type stands in a register, and its LLVM type. *)
Definition encodes (t : fty) (v : fval) (r : rv) : Prop :=
  match t, v with
  | FkInt, VI z => r = RInt 64 z /\ in_int64 z
  | FkBool, VI z => exists b, z = b2z b /\ r = i1 b
  | FkFloat, VF d => r = RFloat d
  | FkVoid, VU => r = RVoid
  | _, _ => False
  end.

Definition llvm_type (t : fty) (c : ctx) : ty :=
  match t with FkInt => TInt c 64 | FkBool => TInt c 1 | FkFloat => TDouble c | FkVoid => TVoid c end.

End meaning.

(** * Code and meaning side by side *)

(** Both have the same undefined divisions, and a call of registers that stand
    for values returns what stands for the result and leaves the same outside. *)
Class World {sigs : Signatures} {out : Outside} := {
  world_running :: Running;
  world_meaning :: Meaning;
  same_undefined : fk_undefined = undefined_division;
  undefined_fits : forall z, undefined_division = Some z -> in_int64 z;
  called_agrees : forall f sg zs rs z w w',
    signature_of f = Some sg -> Forall3 encodes sg.1 zs rs -> fk_called f zs w = Some (z, w') ->
    exists r, called f rs w = Some (r, w') /\ encodes sg.2 z r
}.

(** LLVM, for code that calls no function. *)
Definition no_functions : Signatures := fun _ => None.

(** Nothing outside. *)
Definition nothing : Outside := unit.

Section llvm.
Context {out : Outside}.

Definition running_with (args : list rv) : Running :=
  {| arguments := args; called := fun _ _ _ => None; undefined_division := None |}.

Definition meaning_alone : Meaning := {| fk_called := fun _ _ _ => None; fk_undefined := None |}.

Definition llvm (args : list rv) : World (sigs := no_functions).
Proof.
  refine {| world_running := running_with args; world_meaning := meaning_alone |}; done.
Defined.
End llvm.

(** A world in which every division and every call has a result; it is there
    to follow code that need not run, as the compiler does. *)
Definition some_value (t : fty) : fval :=
  match t with FkFloat => VF double_zero | FkVoid => VU | _ => VI 0 end.

Definition some_register (t : fty) : rv :=
  match t with
  | FkInt => RInt 64 0
  | FkBool => i1 false
  | FkFloat => RFloat double_zero
  | FkVoid => RVoid
  end.

Lemma zero_in_int64 : in_int64 0.
Proof. unfold in_int64, two63. lia. Qed.

Lemma some_encodes t : encodes t (some_value t) (some_register t).
Proof. destruct t; simpl; [split; [done | apply zero_in_int64] | by exists false | done..]. Qed.

Section unrun.
Context {sigs : Signatures} {out : Outside}.

Definition unrun_running (args : list rv) : Running :=
  {| arguments := args; undefined_division := Some 0;
     called := fun f _ w => sg ← signature_of f; Some (some_register sg.2, w) |}.

Definition unrun_meaning : Meaning :=
  {| fk_undefined := Some 0;
     fk_called := fun f _ w => sg ← signature_of f; Some (some_value sg.2, w) |}.

Definition unrun_with (args : list rv) : World.
Proof.
  refine {| world_running := unrun_running args; world_meaning := unrun_meaning |}; simpl.
  - done.
  - intros z [= <-]. apply zero_in_int64.
  - intros f sg zs rs z w w' -> _ [= <- <-]. exists (some_register sg.2).
    split; [done | apply some_encodes].
Defined.

Definition unrun : World := unrun_with [].
End unrun.
