(* ===== verification/ExprLogic.v ===== *)
(** Total correctness of code generation: a computation of the generator
    returns, adds code to the current block only, and the code, when it is
    run, gives the registers that the postcondition speaks of. *)

From S2P Require Import Prelude Ast IR State Builder CodeGenBase CodeGenExpr Machine.

(** The functions that may be called are in a module, with the types they have
    in the context [c]. *)
Definition fun_type (sg : list fty * fty) (c : ctx) : fun_ty :=
  mk_fun_ty (llvm_type sg.2 c) ((fun t => llvm_type t c) <$> sg.1).

Definition declares {sigs : Signatures} (c : ctx) (funs : gmap string func) : Prop :=
  forall f sg, signature_of f = Some sg -> exists fn, funs !! f = Some fn /\ f_type fn = fun_type sg c.

Lemma declares_alter {sigs : Signatures} c funs f g :
  (forall fn, f_type (g fn) = f_type fn) -> declares c funs -> declares c (alter g f funs).
Proof.
  intros Hg H h sg Hh. destruct (H h sg Hh) as (fn & E & Ht). destruct (decide (h = f)) as [->|Hne].
  - exists (g fn). split; [| by rewrite Hg]. unfold alter, map_alter. by rewrite lookup_partial_alter_eq, E.
  - exists fn. split; [| done]. unfold alter, map_alter. by rewrite lookup_partial_alter_ne by done.
Qed.

(** The functions of the module that the visitor builds. *)
Definition functions_of (s : cg) : gmap string func :=
  if insideLambda s then default ∅ (lambda_module (theIR s)) else main_module (theIR s).

Section logic.
Context {sigs : Signatures} {out : Outside} {world : World}.
(** The context of the builder, the block it inserts into, the code that
    was there, and the machine that starts the new code. *)
Context (c : ctx) (b : nat) (l0 : list (nat * inst)) (m0 : machine).

Record at_block (s : cg) (rg : gmap nat rv) (w : outside) : Prop := {
  ab_ctx : context_of s = c;
  ab_ip : (if insideLambda s then lambda_ip (theIR s) else main_ip (theIR s)) = Some b;
  ab_code : exists l, blocks (theIR s) !! b = Some (l0 ++ l) /\
    run m0 l = Some (mk_machine rg (mem m0) w) /\ Forall (fun id => id < next_inst (theIR s)) l.*1;
  ab_dom : forall id r, rg !! id = Some r -> id < next_inst (theIR s);
  ab_funs : declares c (functions_of s)
}.

(** [s'] is [s] with more code in block [b]. *)
Definition code_only (s s' : cg) : Prop :=
  s' = set_ir (ir_set_code (blocks (theIR s')) (detached (theIR s)) (next_inst (theIR s')) (theIR s)) s /\
  (forall b', b' <> b -> blocks (theIR s') !! b' = blocks (theIR s) !! b') /\
  next_inst (theIR s) <= next_inst (theIR s').

#[export] Instance code_only_preorder : PreOrder code_only.
Proof.
  split.
  - intros []. split; [| done]. by destruct theIR.
  - intros s1 s2 s3 (E1 & H1 & N1) (E2 & H2 & N2). split; [rewrite E2, E1; done |].
    split; [| by etrans]. intros b' Hb. rewrite H2, H1; done.
Qed.

(** The code of [m] takes the outside from [w] to [w']. *)
Definition does {A} (w w' : outside) (m : M A) (Q : A -> gmap nat rv -> Prop) (s : cg) (rg : gmap nat rv) :
    Prop :=
  at_block s rg w -> exists a s' rg',
    m s = (Ok a, s') /\ at_block s' rg' w' /\ rg ⊆ rg' /\ code_only s s' /\ Q a rg'.

(** [v] has type [t] and, in the registers [rg], the value [r]. *)
Definition holds (rg : gmap nat rv) (v : value) (t : ty) (r : rv) : Prop :=
  getType v = t /\ eval_value rg v = Some r.

Lemma holds_mono rg rg' v t r : rg ⊆ rg' -> holds rg v t r -> holds rg' v t r.
Proof.
  intros Hs [Ht Hv]. split; [done |]. destruct v; simpl in *; try done. by eapply lookup_weaken.
Qed.

(** ** Rules *)

Lemma total_ret {A} w (a : A) (Q : A -> gmap nat rv -> Prop) s rg : Q a rg -> does w w (mret a) Q s rg.
Proof. intros HQ Hs. exists a, s, rg. done. Qed.

Lemma total_bind {A B} w w1 w2 (m : M A) (f : A -> M B) P Q s rg :
  does w w1 m P s rg ->
  (forall a s' rg', rg ⊆ rg' -> code_only s s' -> P a rg' -> does w1 w2 (f a) Q s' rg') ->
  does w w2 (bind m f) Q s rg.
Proof.
  intros Hm Hf Hs. destruct (Hm Hs) as (a & s1 & r1 & E1 & A1 & S1 & C1 & P1).
  destruct (Hf a s1 r1 S1 C1 P1 A1) as (v & s2 & r2 & E2 & A2 & S2 & C2 & Q2).
  exists v, s2, r2. split_and!; [| done | by etrans | by etrans | done].
  by rewrite (bind_eq _ _ _ _ _ E1).
Qed.

Lemma total_mono {A} w w' (m : M A) (P Q : A -> gmap nat rv -> Prop) s rg :
  does w w' m P s rg -> (forall a rg', rg ⊆ rg' -> P a rg' -> Q a rg') -> does w w' m Q s rg.
Proof.
  intros Hm HQ Hs. destruct (Hm Hs) as (a & s1 & r1 & ? & ? & ? & ? & ?).
  exists a, s1, r1. auto 6.
Qed.

(** Steps that only read leave the state to the rest as it is. *)
Section reads.
Context {w w' : outside}.

Lemma total_ret_bind {A B} (a : A) (f : A -> M B) Q s rg :
  does w w' (f a) Q s rg -> does w w' (bind (mret a) f) Q s rg.
Proof. done. Qed.

Lemma total_gets_bind {A B} (g : cg -> A) (f : A -> M B) Q s rg :
  does w w' (f (g s)) Q s rg -> does w w' (bind (gets g) f) Q s rg.
Proof. done. Qed.

Lemma total_assert_bind {A} q what (k : M A) Q s rg :
  q = true -> does w w' k Q s rg -> does w w' (bind (assert q what) (fun _ => k)) Q s rg.
Proof. by intros ->. Qed.

Lemma total_getContext_bind {A} (f : ctx -> M A) Q s rg :
  does w w' (f c) Q s rg -> does w w' (bind getContext f) Q s rg.
Proof. intros H Hs. rewrite <- (ab_ctx _ _ _ Hs) in H. by apply H. Qed.

Lemma total_getInt64Ty_bind {A} (f : ty -> M A) Q s rg :
  does w w' (f (TInt c 64)) Q s rg -> does w w' (bind getInt64Ty f) Q s rg.
Proof. intros H Hs. rewrite <- (ab_ctx _ _ _ Hs) in H. by apply H. Qed.

Lemma total_getDoubleTy_bind {A} (f : ty -> M A) Q s rg :
  does w w' (f (TDouble c)) Q s rg -> does w w' (bind getDoubleTy f) Q s rg.
Proof. intros H Hs. rewrite <- (ab_ctx _ _ _ Hs) in H. by apply H. Qed.

Lemma total_i1_like {A} t (k : ty -> M A) n Q s rg :
  t = TInt c n \/ t = TDouble c -> does w w' (k (TInt c 1)) Q s rg -> does w w' (bind (i1_like t) k) Q s rg.
Proof. intros [-> | ->] H Hs; rewrite <- (ab_ctx _ _ _ Hs) in *; by apply H. Qed.
End reads.

(** An instruction that is no store. *)
Lemma total_effect w w' i t r s rg :
  match i with IStore _ _ | IAlloca _ => False | _ => True end ->
  effect (mk_machine rg (mem m0) w) i = Some (r, w') ->
  does w w' (Insert i t) (fun v rg' => holds rg' v t r) s rg.
Proof.
  intros Hi Hr Hs. destruct Hs as [Hc Hip (l & Hl & Hrun & Hids) Hd Hfn].
  set (id := next_inst (theIR s)). set (rg' := <[id := r]> rg).
  assert (Hex : exec (mk_machine rg (mem m0) w) (id, i) = Some (mk_machine rg' (mem m0) w')).
  { unfold exec. destruct i; try done; cbn [snd]; rewrite Hr; done. }
  assert (Hid : rg !! id = None).
  { apply eq_None_not_Some. intros [x Hx]. apply Hd in Hx. unfold id in Hx. lia. }
  eexists (VInst id t), (set_ir (ir_set_code (<[b := (l0 ++ l) ++ [(id, i)]]> (blocks (theIR s)))
    (detached (theIR s)) (S id) (theIR s)) s), rg'.
  split_and!.
  - unfold Insert, bind, getInsertBlock, gets, gets_ir, modify_ir, modify, mret, SE_ret. simpl.
    rewrite Hip. simpl. by rewrite Hl.
  - split; simpl; [done | done | | | done].
    + exists (l ++ [(id, i)]). rewrite lookup_insert_eq, app_assoc. split_and!; [done | |].
      * rewrite run_app, Hrun. simpl. by rewrite Hex.
      * rewrite fmap_app. apply Forall_app. split; [| repeat constructor; unfold id; lia].
        eapply Forall_impl; [exact Hids |]. unfold id. simpl. lia.
    + intros id' x. unfold rg'. rewrite lookup_insert_Some. intros [[<- _]|[_ H]]; [unfold id; lia |].
      apply Hd in H. unfold id. lia.
  - by apply insert_subseteq.
  - split; [done |]. simpl. split; [intros b' Hb; by rewrite lookup_insert_ne | unfold id; lia].
  - split; [done |]. simpl. apply lookup_insert_eq.
Qed.

(** ** The builder: code that leaves the outside alone *)
Section builder.
Context {u : outside}.
Local Abbreviation total := (does u u).

Lemma total_Insert i t r s rg :
  result (mk_machine rg (mem m0) u) i = Some r ->
  total (Insert i t) (fun v rg' => holds rg' v t r) s rg.
Proof.
  intros Hr. apply total_effect; [by destruct i |].
  unfold effect. destruct i; try (rewrite Hr; done). done.
Qed.

Lemma total_CreateICmp p l r w x y s rg :
  holds rg l (TInt c w) (RInt w x) -> holds rg r (TInt c w) (RInt w y) ->
  total (CreateICmp p l r) (fun v rg' => holds rg' v (TInt c 1) (i1 (icmp p x y))) s rg.
Proof.
  intros [Tl Vl] [Tr Vr]. unfold CreateICmp. rewrite Tl, Tr.
  apply total_assert_bind; [by apply bool_decide_eq_true |].
  apply total_assert_bind; [done |]. eapply total_i1_like; [by left |].
  apply total_Insert. simpl. rewrite Vl, Vr. simpl. by rewrite Z.eqb_refl.
Qed.

Lemma total_CreateFCmp p l r x y s rg :
  holds rg l (TDouble c) (RFloat x) -> holds rg r (TDouble c) (RFloat y) ->
  total (CreateFCmp p l r) (fun v rg' => holds rg' v (TInt c 1) (i1 (fcmp p x y))) s rg.
Proof.
  intros [Tl Vl] [Tr Vr]. unfold CreateFCmp. rewrite Tl, Tr.
  apply total_assert_bind; [by apply bool_decide_eq_true |].
  apply total_assert_bind; [done |]. eapply (total_i1_like _ _ 1); [by right |].
  apply total_Insert. simpl. by rewrite Vl, Vr.
Qed.

Lemma total_int_binop op l r w x y z s rg :
  holds rg l (TInt c w) (RInt w x) -> holds rg r (TInt c w) (RInt w y) ->
  match op with FAdd | FSub | FMul | FDiv => False | _ => True end ->
  int_binop op w x y = Some z ->
  total (CreateBinary op l r) (fun v rg' => holds rg' v (TInt c w) (RInt w z)) s rg.
Proof.
  intros [Tl Vl] [Tr Vr] Hop Hz. unfold CreateBinary. rewrite Tl, Tr.
  apply total_assert_bind; [by apply bool_decide_eq_true |]. apply total_assert_bind.
  - by destruct op.
  - apply total_Insert. simpl. rewrite Vl, Vr. simpl. by rewrite Z.eqb_refl, Hz.
Qed.

Lemma total_float_binop op l r x y z s rg :
  holds rg l (TDouble c) (RFloat x) -> holds rg r (TDouble c) (RFloat y) ->
  match op with FAdd | FSub | FMul | FDiv => True | _ => False end ->
  float_binop op x y = Some z ->
  total (CreateBinary op l r) (fun v rg' => holds rg' v (TDouble c) (RFloat z)) s rg.
Proof.
  intros [Tl Vl] [Tr Vr] Hop Hz. unfold CreateBinary. rewrite Tl, Tr.
  apply total_assert_bind; [by apply bool_decide_eq_true |]. apply total_assert_bind.
  - by destruct op.
  - apply total_Insert. simpl. rewrite Vl, Vr. simpl. by rewrite Hz.
Qed.

Lemma total_CreateCast op v t t' r r' s rg :
  holds rg v t r -> t <> t' -> castIsValid op t t' = true -> exec_cast op r t' = Some r' ->
  total (CreateCast op v t') (fun v' rg' => holds rg' v' t' r') s rg.
Proof.
  intros [Tv Vv] Hne Hval Hr. unfold CreateCast. rewrite Tv, bool_decide_false by done.
  apply total_assert_bind; [done |]. apply total_Insert. simpl. by rewrite Vv.
Qed.

Lemma total_CreateLoad p t slot r s rg :
  holds rg p (TPointer t) (RPtr (Some slot)) -> mem m0 !! slot = Some r ->
  total (CreateLoad p) (fun v rg' => holds rg' v t r) s rg.
Proof.
  intros [Tp Vp] Hm. unfold CreateLoad. rewrite Tp. apply total_Insert. simpl. by rewrite Vp, Tp.
Qed.

(** An integer to [w'] bits, of its own width or a smaller one. *)
Lemma total_CreateZExtOrBitCast v c' w n n' c2 s rg :
  holds rg v (TInt c' w) (RInt w n) ->
  (w = 64 /\ n' = n \/ w = 1 /\ n' = n `mod` 2)%Z ->
  total (CreateZExtOrBitCast v (TInt c2 64)) (fun v' rg' => holds rg' v' (TInt c2 64) (RInt 64 n')) s rg.
Proof.
  intros Hv Hw. pose proof Hv as [Tv _]. unfold CreateZExtOrBitCast. rewrite Tv.
  destruct (decide (TInt c' w = TInt c2 64)) as [E|Hne].
  - rewrite bool_decide_true by done. apply total_ret. simplify_eq.
    destruct Hw as [[_ ->]|[? _]]; [done | discriminate].
  - rewrite bool_decide_false by done. destruct Hw as [[-> ->]|[-> ->]]; simpl.
    + eapply total_CreateCast; [exact Hv | done | done | done].
    + eapply total_CreateCast; [exact Hv | done | done | done].
Qed.

Lemma total_double_cast v c' d c2 s rg :
  holds rg v (TDouble c') (RFloat d) ->
  total (CreateZExtOrBitCast v (TDouble c2)) (fun v' rg' => holds rg' v' (TDouble c2) (RFloat d)) s rg.
Proof.
  intros Hv. pose proof Hv as [Tv _]. unfold CreateZExtOrBitCast. rewrite Tv.
  destruct (decide (TDouble c' = TDouble c2)) as [E|Hne].
  - rewrite bool_decide_true by done. apply total_ret. by simplify_eq.
  - rewrite bool_decide_false by done. eapply total_CreateCast; [exact Hv | done | done | done].
Qed.

(** ** The casts of the visitor *)

Lemma total_castBooleantoInt v c' q s rg :
  holds rg v (TInt c' 1) (i1 q) ->
  total (castBooleantoInt v) (fun v' rg' => holds rg' v' (TInt c 64) (RInt 64 (b2z q))) s rg.
Proof.
  intros Hv. unfold castBooleantoInt. apply total_getInt64Ty_bind.
  eapply total_CreateZExtOrBitCast; [exact Hv |]. right. by destruct q.
Qed.

Lemma total_castIntToFloat v c' w n s rg :
  holds rg v (TInt c' w) (RInt w n) ->
  total (castIntToFloat v) (fun v' rg' => holds rg' v' (TDouble c) (RFloat (of_int n))) s rg.
Proof.
  intros Hv. unfold castIntToFloat, CreateSIToFP. apply total_getDoubleTy_bind.
  by eapply total_CreateCast.
Qed.

Lemma total_castIntToBoolean v n s rg :
  holds rg v (TInt c 64) (RInt 64 n) ->
  total (castIntToBoolean v) (fun v' rg' => holds rg' v' (TInt c 1) (i1 (truth_int n))) s rg.
Proof.
  intros Hv. unfold castIntToBoolean. apply total_getContext_bind.
  by apply (total_CreateICmp INE _ _ 64 n 0).
Qed.

Lemma total_castFloatToBoolean v d s rg :
  holds rg v (TDouble c) (RFloat d) ->
  total (castFloatToBoolean v) (fun v' rg' => holds rg' v' (TInt c 1) (i1 (truth_float d))) s rg.
Proof.
  intros Hv. unfold castFloatToBoolean. apply total_getContext_bind.
  by apply (total_CreateFCmp FONE _ _ d double_zero).
Qed.
End builder.

(** ** Calls *)

Lemma total_getFunction_bind {A} {w w'} f sg (k : option func -> M A) Q s rg :
  signature_of f = Some sg ->
  (forall fn, f_type fn = fun_type sg c -> does w w' (k (Some fn)) Q s rg) ->
  does w w' (bind (getFunction f) k) Q s rg.
Proof.
  intros Hf Hk Hs. destruct (ab_funs _ _ _ Hs _ _ Hf) as (fn & E & Ht).
  assert (getFunction f s = (Ok (Some fn), s)) as Eg.
  { unfold getFunction, getModule, bind, gets. unfold functions_of in E. simpl.
    destruct (insideLambda s); [| by rewrite <- E].
    destruct (lambda_module (theIR s)) as [m|]; [by rewrite <- E | done]. }
  unfold bind. rewrite Eg. by apply Hk.
Qed.

(** A call of registers that stand for values. *)
Lemma total_CreateCall w w' f sg vs rs zs z s rg :
  signature_of f = Some sg -> Forall3 (fun t v r => holds rg v (llvm_type t c) r) sg.1 vs rs ->
  Forall3 encodes sg.1 zs rs -> fk_called f zs w = Some (z, w') ->
  does w w' (CreateCall f (fun_type sg c) vs)
    (fun v rg' => exists r, holds rg' v (llvm_type sg.2 c) r /\ encodes sg.2 z r) s rg.
Proof.
  intros Hf Hv Hz Hc. destruct (called_agrees f sg zs rs z w w' Hf Hz Hc) as (r & Hr & He).
  assert (getType <$> vs = (fun t => llvm_type t c) <$> sg.1 /\ mapM (eval_value rg) vs = Some rs) as [Ht Hm].
  { clear -Hv. induction Hv as [|t v r ts vs rs [Ht Hr] _ [IH1 IH2]]; [done |]. simpl.
    split; [by f_equal | by rewrite Hr; simpl; rewrite IH2]. }
  unfold CreateCall. apply total_assert_bind; [by apply bool_decide_eq_true |].
  eapply total_mono.
  - apply (total_effect _ _ _ _ r); [done |]. simpl. by rewrite Hm.
  - intros v rg' _ Hh. by exists r.
Qed.
End logic.
