(* ===== verification/ExprCorrect.v ===== *)
(** The code of an expression computes its meaning: [visit] on the
    expressions of [Machine.type_of], against [Machine.fk_eval]. *)

From Stdlib Require Import Ascii.
From S2P Require Import Prelude Ast IR State Builder CodeGenBase CodeGenExpr Machine ExprLogic.

Lemma wrap1_0 : wrap 1 0 = 0%Z. Proof. reflexivity. Qed.
Lemma wrap1_m1 : wrap 1 (-1) = (-1)%Z. Proof. reflexivity. Qed.

Lemma b2z_in_int64 q : in_int64 (b2z q).
Proof. destruct q; unfold in_int64, two63; simpl; lia. Qed.

Section correct.
Context {sigs : Signatures} {out : Outside} {world : World}.
(** The contexts that types may come from, the builder's own among them. *)
Context {C : Type} (contexts : C -> ctx) (c0 : C).
Context (b : nat) (l0 : list (nat * inst)) (m0 : machine).
Local Abbreviation c := (contexts c0).
Local Abbreviation does := (does c b l0 m0).

(** [v] stands for the value [x] of type [t], in the types of one of them. *)
Definition typed (rg : gmap nat rv) (v : value) (t : fty) (x : fval) : Prop :=
  exists c' r, holds rg v (llvm_type t (contexts c')) r /\ encodes t x r.

Lemma typed_mono rg rg' v t x : rg ⊆ rg' -> typed rg v t x -> typed rg' v t x.
Proof. intros Hs (c' & r & H & E). exists c', r. split; [by eapply holds_mono | done]. Qed.

(** The same in the types of the builder. *)
Definition built (rg : gmap nat rv) (v : value) (t : fty) (x : fval) : Prop :=
  exists r, holds rg v (llvm_type t c) r /\ encodes t x r.

Lemma built_typed rg v t x : built rg v t x -> typed rg v t x.
Proof. by exists c0. Qed.

Lemma built_int rg v z : holds rg v (TInt c 64) (RInt 64 z) -> in_int64 z -> built rg v FkInt (VI z).
Proof. intros H Hz. by exists (RInt 64 z). Qed.

Lemma built_bool rg v q : holds rg v (TInt c 1) (i1 q) -> built rg v FkBool (VI (b2z q)).
Proof. intros H. exists (i1 q). split; [done |]. by exists q. Qed.

Lemma built_float rg v d : holds rg v (TDouble c) (RFloat d) -> built rg v FkFloat (VF d).
Proof. intros H. by exists (RFloat d). Qed.

(** ** To the types of the builder *)

Section builder.
Context {u : outside}.
Local Abbreviation total := (does u u).

Lemma total_to_builder_int t v z s rg :
  is_int t -> typed rg v t (VI z) ->
  total (to_builder_int v) (fun v' rg' => holds rg' v' (TInt c 64) (RInt 64 z) /\ in_int64 z) s rg.
Proof.
  intros Ht (c' & r & Hv & He). pose proof Hv as [Tv _]. unfold to_builder_int.
  apply total_getInt64Ty_bind. rewrite Tv. destruct Ht as [-> | ->]; simpl in *.
  - destruct He as [-> Hz]. destruct (decide (TInt (contexts c') 64 = TInt c 64)) as [E|Hne].
    + rewrite bool_decide_true by done. apply total_ret. by rewrite <- E.
    + rewrite bool_decide_false by done. simpl. unfold castBooleantoInt.
      apply total_getInt64Ty_bind. eapply total_mono; [eapply total_CreateZExtOrBitCast; [exact Hv | by left] |].
      done.
  - destruct He as (q & -> & ->). rewrite bool_decide_false by congruence. simpl.
    eapply total_mono; [by eapply total_castBooleantoInt |].
    intros v' rg' _ Hv'. split; [done | apply b2z_in_int64].
Qed.

Lemma total_to_builder_int_float v d s rg :
  typed rg v FkFloat (VF d) ->
  total (to_builder_int v) (fun v' rg' => typed rg' v' FkFloat (VF d)) s rg.
Proof.
  intros Hv. pose proof Hv as (c' & r & [Tv _] & _). unfold to_builder_int.
  apply total_getInt64Ty_bind. rewrite Tv. simpl. by apply total_ret.
Qed.

Lemma total_to_builder_double v d s rg :
  typed rg v FkFloat (VF d) ->
  total (to_builder_double v) (fun v' rg' => holds rg' v' (TDouble c) (RFloat d)) s rg.
Proof.
  intros (c' & r & Hv & He). simpl in He, Hv. subst r. pose proof Hv as [Tv _].
  unfold to_builder_double. apply total_getDoubleTy_bind. rewrite Tv. simpl.
  destruct (decide (TDouble (contexts c') = TDouble c)) as [E|Hne].
  - rewrite bool_decide_true by done. apply total_ret. by rewrite <- E.
  - rewrite bool_decide_false by done. by eapply total_double_cast.
Qed.

Lemma total_to_builder_double_int v z s rg :
  holds rg v (TInt c 64) (RInt 64 z) ->
  total (to_builder_double v) (fun v' rg' => holds rg' v' (TInt c 64) (RInt 64 z)) s rg.
Proof.
  intros Hv. pose proof Hv as [Tv _]. unfold to_builder_double. apply total_getDoubleTy_bind.
  rewrite Tv. simpl. by apply total_ret.
Qed.

(** ** Operators *)

Lemma total_CreateOr l r p q s rg :
  holds rg l (TInt c 1) (i1 p) -> holds rg r (TInt c 1) (i1 q) ->
  total (CreateOr l r) (fun v rg' => holds rg' v (TInt c 1) (i1 (p || q))) s rg.
Proof.
  intros Hl Hr. unfold CreateOr. destruct (isConstant r && isNullValue r) eqn:E.
  - apply total_ret. destruct Hr as [Tr Vr].
    destruct r; simpl in E; try discriminate; simpl in Tr, Vr; simplify_eq.
    apply bool_decide_eq_true in E as ->. rewrite wrap1_0 in Vr. destruct q; [discriminate |].
    by rewrite orb_false_r.
  - eapply total_mono; [eapply total_int_binop; [exact Hl | exact Hr | done | reflexivity] |].
    intros v rg' _ Hv. by destruct p, q.
Qed.

Lemma total_CreateAnd l r p q s rg :
  holds rg l (TInt c 1) (i1 p) -> holds rg r (TInt c 1) (i1 q) ->
  total (CreateAnd l r) (fun v rg' => holds rg' v (TInt c 1) (i1 (p && q))) s rg.
Proof.
  intros Hl Hr. unfold CreateAnd. destruct (isConstant r && isAllOnesInt r) eqn:E.
  - apply total_ret. destruct Hr as [Tr Vr].
    destruct r; simpl in E; try discriminate; simpl in Tr, Vr; simplify_eq.
    apply bool_decide_eq_true in E as ->. rewrite wrap1_m1 in Vr. destruct q; [| discriminate].
    by rewrite andb_true_r.
  - eapply total_mono; [eapply total_int_binop; [exact Hl | exact Hr | done | reflexivity] |].
    intros v rg' _ Hv. by destruct p, q.
Qed.

Lemma total_CreateNot v q s rg :
  holds rg v (TInt c 1) (i1 q) ->
  total (CreateNot v) (fun v' rg' => holds rg' v' (TInt c 1) (i1 (negb q))) s rg.
Proof.
  intros Hv. pose proof Hv as [Tv _]. unfold CreateNot. rewrite Tv.
  eapply total_mono; [eapply total_int_binop; [exact Hv | by split | done | reflexivity] |].
  intros v' rg' _ Hv'. by destruct q.
Qed.

(** A comparison, widened. *)
Lemma total_compare m q s rg :
  total m (fun v rg' => holds rg' v (TInt c 1) (i1 q)) s rg ->
  total (bind m castBooleantoInt) (fun v rg' => built rg' v FkInt (VI (b2z q))) s rg.
Proof.
  intros Hm. eapply total_bind; [exact Hm | cbv beta]. intros v s' rg' _ _ Hv.
  eapply total_mono; [by eapply total_castBooleantoInt |].
  intros v' rg'' _ Hv'. apply built_int; [done | apply b2z_in_int64].
Qed.

Lemma total_int_arith op l r x y z s rg :
  holds rg l (TInt c 64) (RInt 64 x) -> holds rg r (TInt c 64) (RInt 64 y) ->
  match op with FAdd | FSub | FMul | FDiv => False | _ => True end ->
  int_binop op 64 x y = Some z -> in_int64 z ->
  total (CreateBinary op l r) (fun v rg' => built rg' v FkInt (VI z)) s rg.
Proof.
  intros Hl Hr Hop Hz Hr'. eapply total_mono; [by eapply total_int_binop |].
  intros v rg' _ Hv. by apply built_int.
Qed.

Lemma total_int_operator o l r x y z s rg :
  holds rg l (TInt c 64) (RInt 64 x) -> holds rg r (TInt c 64) (RInt 64 y) ->
  in_int64 x -> in_int64 y -> fk_int o x y = Some z ->
  total (int_operator o l r)
    (fun v rg' => built rg' v (if is_logical o then FkBool else FkInt) (VI z)) s rg.
Proof.
  intros Hl Hr Hx Hy Hz. unfold fk_int in Hz. rewrite same_undefined in Hz.
  destruct o; simpl in Hz |- *; simplify_eq;
    try match goal with |- context [CreateICmp ?p _ _] =>
          apply (total_compare _ (icmp p x y)); by apply (total_CreateICmp c b l0 m0 p _ _ 64 x y)
        end.
  - eapply total_int_arith; [done.. | apply wrap64_range].
  - eapply total_int_arith; [done.. | apply wrap64_range].
  - eapply total_int_arith; [done.. | apply wrap64_range].
  - eapply total_int_arith; [done.. | |]; [simpl; change (- 2 ^ (64 - 1))%Z with (- two63)%Z; exact Hz |].
    destruct ((y =? 0) || ((x =? - two63) && (y =? -1)))%Z eqn:E.
    { by apply undefined_fits. }
    simplify_eq. apply orb_false_iff in E as [E1 E2]. apply quot_in_int64; [done.. | lia |].
    intros [-> ->]. done.
  - eapply total_bind; [by apply total_castIntToBoolean | cbv beta]. intros a s1 rg1 S1 _ Ha.
    eapply total_bind; [eapply total_castIntToBoolean, holds_mono; [exact S1 | done] | cbv beta].
    intros d s2 rg2 S2 _ Hd.
    eapply total_mono; [eapply total_CreateOr; [by eapply holds_mono | done] |].
    intros v rg3 _ Hv. by apply built_bool.
  - eapply total_bind; [by apply total_castIntToBoolean | cbv beta]. intros a s1 rg1 S1 _ Ha.
    eapply total_bind; [eapply total_castIntToBoolean, holds_mono; [exact S1 | done] | cbv beta].
    intros d s2 rg2 S2 _ Hd.
    eapply total_mono; [eapply total_CreateAnd; [by eapply holds_mono | done] |].
    intros v rg3 _ Hv. by apply built_bool.
Qed.

Lemma total_float_arith op l r x y z s rg :
  holds rg l (TDouble c) (RFloat x) -> holds rg r (TDouble c) (RFloat y) ->
  match op with FAdd | FSub | FMul | FDiv => True | _ => False end ->
  float_binop op x y = Some z ->
  total (CreateBinary op l r) (fun v rg' => built rg' v FkFloat (VF z)) s rg.
Proof.
  intros Hl Hr Hop Hz. eapply total_mono; [by eapply total_float_binop |].
  intros v rg' _ Hv. by apply built_float.
Qed.

(** [||] and [&&] of doubles are widened. *)
Lemma total_float_logical (K : value -> value -> M value) (f : bool -> bool -> bool) l r x y s rg :
  (forall l' r' p q s' rg', holds rg' l' (TInt c 1) (i1 p) -> holds rg' r' (TInt c 1) (i1 q) ->
    total (K l' r') (fun v rg' => holds rg' v (TInt c 1) (i1 (f p q))) s' rg') ->
  holds rg l (TDouble c) (RFloat x) -> holds rg r (TDouble c) (RFloat y) ->
  total (a <- castFloatToBoolean l ;; d <- castFloatToBoolean r ;; v <- K a d ;; castBooleantoInt v)
    (fun v rg' => built rg' v FkInt (VI (b2z (f (truth_float x) (truth_float y))))) s rg.
Proof.
  intros HK Hl Hr. eapply total_bind; [by apply total_castFloatToBoolean | cbv beta]. intros a s1 rg1 S1 _ Ha.
  eapply total_bind; [eapply total_castFloatToBoolean, holds_mono; [exact S1 | done] | cbv beta].
  intros d s2 rg2 S2 _ Hd. apply total_compare. apply HK; [by eapply holds_mono | done].
Qed.

Lemma total_float_operator o l r x y s rg :
  holds rg l (TDouble c) (RFloat x) -> holds rg r (TDouble c) (RFloat y) ->
  total (float_operator o l r)
    (fun v rg' => built rg' v (if is_compare o || is_logical o then FkInt else FkFloat)
                    (fk_float o x y)) s rg.
Proof.
  intros Hl Hr. destruct o; simpl;
    try match goal with |- context [CreateFCmp ?p _ _] =>
          apply (total_compare _ (fcmp p x y)); by apply (total_CreateFCmp c b l0 m0 p _ _ x y)
        end;
    try by eapply total_float_arith.
  - apply (total_float_logical CreateOr orb); [intros; by apply total_CreateOr | done..].
  - apply (total_float_logical CreateAnd andb); [intros; by apply total_CreateAnd | done..].
Qed.

(** ** Both operands in one type *)

Lemma typed_getType rg v t x : typed rg v t x -> exists c', getType v = llvm_type t (contexts c').
Proof. intros (c' & r & [T _] & _). by exists c'. Qed.

Lemma total_int_to_float t v z s rg :
  is_int t -> typed rg v t (VI z) -> t = FkInt ->
  total (castIntToFloat v) (fun v' rg' => typed rg' v' FkFloat (VF (of_int z))) s rg.
Proof.
  intros Ht (c' & r & Hv & He) ->. destruct He as [-> _].
  eapply total_mono; [by eapply total_castIntToFloat |]. intros v' rg' _ Hv'. by apply built_typed, built_float.
Qed.

Lemma total_unify_int tl tr l r x y s rg :
  is_int tl -> is_int tr -> typed rg l tl (VI x) -> typed rg r tr (VI y) ->
  total (unify_operands l r) (fun p rg' => holds rg' p.1 (TInt c 64) (RInt 64 x) /\ in_int64 x /\
    holds rg' p.2 (TInt c 64) (RInt 64 y) /\ in_int64 y) s rg.
Proof.
  intros Hl Hr Vl Vr.
  assert (forall t v z rg, is_int t -> typed rg v t (VI z) -> isDoubleTy (getType v) = false) as Hd.
  { intros t v z rg0 Ht Hv. destruct (typed_getType _ _ _ _ Hv) as (c' & ->). by destruct Ht as [-> | ->]. }
  unfold unify_operands. rewrite (Hd _ _ _ _ Hl Vl), (Hd _ _ _ _ Hr Vr), !andb_false_r. simpl.
  apply total_ret_bind, total_ret_bind.
  eapply total_bind; [by apply (total_to_builder_int tl) | cbv beta]. intros l1 s1 rg1 S1 _ [L1 Hx].
  eapply total_bind; [apply (total_to_builder_int tr); [done | by eapply typed_mono] | cbv beta].
  intros r1 s2 rg2 S2 _ [R1 Hy].
  eapply total_bind; [apply total_to_builder_double_int; eapply holds_mono; [exact S2 | done] | cbv beta].
  intros l2 s3 rg3 S3 _ L2.
  eapply total_bind; [apply total_to_builder_double_int; eapply holds_mono; [exact S3 | done] | cbv beta].
  intros r2 s4 rg4 S4 _ R2. apply total_ret. split_and!; try done. by eapply holds_mono.
Qed.

(** The casts at the end of [unify_operands] on two doubles. *)
Lemma total_unify_doubles l r x y s rg :
  typed rg l FkFloat (VF x) -> typed rg r FkFloat (VF y) ->
  total (left' <- to_builder_int l ;; right' <- to_builder_int r ;;
         left' <- to_builder_double left' ;; right' <- to_builder_double right' ;;
         mret (left', right'))
    (fun p rg' => holds rg' p.1 (TDouble c) (RFloat x) /\ holds rg' p.2 (TDouble c) (RFloat y)) s rg.
Proof.
  intros Vl Vr. eapply total_bind; [by apply total_to_builder_int_float | cbv beta].
  intros l1 s1 rg1 S1 _ L1.
  eapply total_bind; [eapply total_to_builder_int_float, typed_mono; [exact S1 | done] | cbv beta].
  intros r1 s2 rg2 S2 _ R1.
  eapply total_bind; [eapply total_to_builder_double, typed_mono; [exact S2 | done] | cbv beta].
  intros l2 s3 rg3 S3 _ L2.
  eapply total_bind; [eapply total_to_builder_double, typed_mono; [exact S3 | done] | cbv beta].
  intros r2 s4 rg4 S4 _ R2. apply total_ret. split; [by eapply holds_mono | done].
Qed.

Definition as_double (x : fval) : double :=
  match x with VI z => of_int z | VF d => d | VU => double_zero end.

Lemma total_unify_float tl tr l r x y s rg :
  (tl = FkFloat /\ tr = FkFloat \/ tl = FkInt /\ tr = FkFloat \/ tl = FkFloat /\ tr = FkInt) ->
  typed rg l tl x -> typed rg r tr y ->
  total (unify_operands l r) (fun p rg' => holds rg' p.1 (TDouble c) (RFloat (as_double x)) /\
    holds rg' p.2 (TDouble c) (RFloat (as_double y))) s rg.
Proof.
  intros Ht Vl Vr. unfold unify_operands.
  destruct (typed_getType _ _ _ _ Vl) as (cl & Tl). destruct (typed_getType _ _ _ _ Vr) as (cr & Tr).
  rewrite Tl, Tr. destruct Ht as [[-> ->]|[[-> ->]|[-> ->]]]; simpl;
    destruct x as [x|x|], y as [y|y|];
    try (by destruct Vl as (? & ? & _ & []); simpl in *); try (by destruct Vr as (? & ? & _ & []); simpl in *).
  - apply total_ret_bind, total_ret_bind. by apply total_unify_doubles.
  - eapply total_bind; [by apply (total_int_to_float FkInt); [left | |] | cbv beta]. intros l1 s1 rg1 S1 _ L1.
    apply total_ret_bind. apply total_unify_doubles; [done | by eapply typed_mono].
  - apply total_ret_bind. eapply total_bind; [by apply (total_int_to_float FkInt); [left | |] | cbv beta].
    intros r1 s1 rg1 S1 _ R1. apply total_unify_doubles; [by eapply typed_mono | done].
Qed.

End builder.

(** ** The visitors *)

Definition some_typed (t : fty) (x : fval) (r : option value) (rg : gmap nat rv) : Prop :=
  exists v, r = Some v /\ typed rg v t x.

Definition some_built (t : fty) (x : fval) (r : option value) (rg : gmap nat rv) : Prop :=
  exists v, r = Some v /\ built rg v t x.

Lemma some_built_typed {w w'} m t x s rg :
  does w w' m (some_built t x) s rg -> does w w' m (some_typed t x) s rg.
Proof.
  intros H. eapply total_mono; [exact H |]. intros r rg' _ (v & -> & Hv). exists v.
  split; [done | by apply built_typed].
Qed.

Lemma total_some {w w'} m t x s rg :
  does w w' m (fun v rg' => built rg' v t x) s rg -> does w w' (some m) (some_built t x) s rg.
Proof.
  intros Hm. unfold some. eapply total_bind; [exact Hm | cbv beta]. intros v s1 rg1 _ _ Hv.
  apply total_ret. by exists v.
Qed.

Lemma total_find_op_bind {A} {w w'} op o (f : Binops -> M A) Q s rg :
  switchMap !! op = Some o -> does w w' (f o) Q s rg -> does w w' (bind (find_op op) f) Q s rg.
Proof. intros E H. unfold find_op. rewrite E. by apply total_ret_bind. Qed.

Lemma typed_not_void rg v t x : typed rg v t x -> t <> FkVoid ->
  isVoidTy (getType v) = false /\ isPointerTy (getType v) = false.
Proof. intros H Ht. destruct (typed_getType _ _ _ _ H) as (c' & ->). by destruct t. Qed.

Lemma typed_int_fval rg v t x : typed rg v t x -> is_int t -> exists z, x = VI z.
Proof. intros (? & ? & _ & He) [-> | ->]; destruct x; try done; by eexists. Qed.

Lemma typed_float_fval rg v x : typed rg v FkFloat x -> exists d, x = VF d.
Proof. intros (? & ? & _ & He). destruct x; try done; by eexists. Qed.

Lemma total_visitBinaryOperator w w1 w2 ml mr op o tl tr t x y z s rg :
  switchMap !! op = Some o -> type_binary o tl tr = Some t -> fk_binary o x y = Some z ->
  does w w1 ml (some_typed tl x) s rg ->
  (forall s' rg', rg ⊆ rg' -> code_only b s s' -> does w1 w2 mr (some_typed tr y) s' rg') ->
  does w w2 (visitBinaryOperator ml op mr) (some_built t z) s rg.
Proof.
  intros Ho Ht Hz Hl Hr. unfold visitBinaryOperator. apply type_binary_cases in Ht as (Nl & Nr & Ht).
  eapply total_bind; [exact Hl | cbv beta]. intros ? s1 rg1 S1 C1 (l & -> & Vl).
  eapply total_bind; [by apply Hr | cbv beta]. intros ? s2 rg2 S2 _ (r & -> & Vr).
  apply (typed_mono _ _ _ _ _ S2) in Vl. do 2 apply total_ret_bind.
  rewrite (proj1 (typed_not_void _ _ _ _ Vl Nl)), (proj1 (typed_not_void _ _ _ _ Vr Nr)). simpl.
  destruct Ht as [(Il & Ir & ->)|[Hc ->]].
  - destruct (typed_int_fval _ _ _ _ Vl Il) as (x' & ->), (typed_int_fval _ _ _ _ Vr Ir) as (y' & ->).
    simpl in Hz. apply fmap_Some in Hz as (z' & Hz & ->).
    eapply total_bind; [by apply (total_unify_int tl tr) | cbv beta].
    intros [l1 r1] s3 rg3 S3 _ (L & Hx & R & Hy). simpl in L, R |- *.
    pose proof (proj1 L) as TL. pose proof (proj1 R) as TR.
    apply total_getInt64Ty_bind, total_getDoubleTy_bind. rewrite TL, TR. simpl.
    rewrite !bool_decide_true by done. simpl. eapply total_find_op_bind; [done |].
    apply total_some. by eapply total_int_operator.
  - eapply total_bind; [by eapply total_unify_float | cbv beta].
    intros [l1 r1] s3 rg3 S3 _ [L R]. simpl in L, R |- *.
    pose proof (proj1 L) as TL. pose proof (proj1 R) as TR.
    apply total_getInt64Ty_bind, total_getDoubleTy_bind. rewrite TL, TR. simpl.
    rewrite !bool_decide_true by done. simpl. eapply total_find_op_bind; [done |].
    assert (z = fk_float o (as_double x) (as_double y)) as ->.
    { assert (forall v te a rg, typed rg v te a -> te = FkInt \/ te = FkFloat -> a <> VU) as Hn
        by (intros v te a rg' (? & ? & _ & He) [-> | ->]; by destruct a).
      destruct x, y; simpl in Hz |- *; simplify_eq; try done;
        destruct Hc as [[-> ->]|[[-> ->]|[-> ->]]];
        try (by destruct Vl as (? & ? & _ & [])); by destruct Vr as (? & ? & _ & []). }
    apply total_some. by apply total_float_operator.
Qed.

(** A negated truth value, widened. *)
Lemma total_not w m q s rg :
  does w w m (fun v rg' => holds rg' v (TInt c 1) (i1 q)) s rg ->
  does w w (some (b <- m ;; n <- CreateNot b ;; castBooleantoInt n))
    (some_built FkInt (VI (b2z (negb q)))) s rg.
Proof.
  intros Hm. apply total_some. eapply total_bind; [exact Hm | cbv beta]. intros v s1 rg1 S1 _ Hv.
  apply (total_compare (CreateNot v)). by apply total_CreateNot.
Qed.

Lemma total_visitUnaryOperator w w' m op te t x z s rg :
  type_unary op te = Some t -> fk_unary op x = Some z ->
  does w w' m (some_typed te x) s rg -> does w w' (visitUnaryOperator op m) (some_built t z) s rg.
Proof.
  intros Hop Hz Hm. apply type_unary_Some in Hop as [Hv Hop]. unfold visitUnaryOperator.
  eapply total_bind; [exact Hm | cbv beta]. intros ? s1 rg1 S1 C1 (v & -> & Vv). apply total_ret_bind.
  destruct (decide (te = FkFloat)) as [->|Ht].
  - destruct (typed_float_fval _ _ _ Vv) as (d & ->).
    eapply total_bind; [by apply total_to_builder_int_float | cbv beta]. intros v1 s2 rg2 S2 _ V1.
    eapply total_bind; [by apply total_to_builder_double | cbv beta]. intros v2 s3 rg3 S3 _ V2.
    apply total_getContext_bind. cbv zeta. rewrite (proj1 V2). simpl.
    destruct Hop as [[-> ->]|[-> ->]]; rewrite ?fk_unary_minus, ?fk_unary_not in Hz; simplify_eq; simpl.
    + apply total_some. by eapply total_float_arith.
    + apply total_not. by apply total_castFloatToBoolean.
  - assert (is_int te) as Hi by (unfold is_int; destruct te; auto; done).
    destruct (typed_int_fval _ _ _ _ Vv Hi) as (n & ->).
    eapply total_bind; [by eapply total_to_builder_int | cbv beta]. intros v1 s2 rg2 S2 _ [V1 Hn].
    eapply total_bind; [by apply total_to_builder_double_int | cbv beta]. intros v2 s3 rg3 S3 _ V2.
    apply total_getContext_bind. cbv zeta. rewrite (proj1 V2). simpl.
    destruct Hop as [[-> ->]|[-> ->]]; rewrite ?fk_unary_minus, ?fk_unary_not in Hz; simplify_eq; simpl.
    + apply total_some. replace (match te with FkFloat => FkFloat | _ => FkInt end) with FkInt by by destruct te.
      eapply (total_int_arith _ _ _ (-1)); [by split | done | done | | apply wrap64_range].
      change (Some (wrap64 (-1 * n)) = Some (wrap64 (- n))). do 2 f_equal.
    + apply total_not. by apply total_castIntToBoolean.
Qed.

(** ** Expressions

    The variables of [G] are slots that hold the values of [env]. *)
Context (G : string -> option fty) (env : string -> option fval).

Definition variables_hold (s : cg) (rg : gmap nat rv) : Prop :=
  forall y t, G y = Some t -> exists a c' slot r z,
    namedValues s !! y = Some (Some a) /\
    holds rg a (TPointer (llvm_type t (contexts c'))) (RPtr (Some slot)) /\
    mem m0 !! slot = Some r /\ env y = Some z /\ encodes t z r.

Lemma variables_hold_mono s s' rg rg' :
  rg ⊆ rg' -> code_only b s s' -> variables_hold s rg -> variables_hold s' rg'.
Proof.
  intros Hs [E _] H y t Hy. destruct (H y t Hy) as (a & c' & slot & r & z & Hn & Ha & ?).
  exists a, c', slot, r, z. rewrite E. simpl. split_and!; try done; [by eapply holds_mono | tauto..].
Qed.

Lemma total_visitIdentifier w y t z s rg :
  variables_hold s rg -> G y = Some t -> env y = Some z ->
  does w w (visitIdentifier y) (some_typed t z) s rg.
Proof.
  intros H Ht Hz. destruct (H y t Ht) as (a & c' & slot & r & z' & Hn & Ha & Hm & Hz' & He).
  simplify_eq. unfold visitIdentifier. intros Hs.
  assert (namedValue y s = (Ok (Some a), s)) as E.
  { unfold namedValue, bind, gets. by rewrite Hn. }
  unfold bind at 1. rewrite E. revert Hs.
  change (does w w (v <- CreateLoad a ;; mret (Some v)) (some_typed t z) s rg).
  eapply total_bind; [by eapply total_CreateLoad | cbv beta]. intros v s1 rg1 _ _ Hv.
  apply total_ret. exists v. split; [done |]. by exists c', r.
Qed.

(** ** Calls *)

Lemma passes_cases p te v z rg :
  passes p te = true -> typed rg v te z ->
  (p = te /\ te <> FkBool /\ conv p z = z) \/
  (p = FkInt /\ te = FkBool /\ exists q, z = VI (b2z q)) \/
  (p = FkFloat /\ te = FkInt /\ exists n, z = VI n).
Proof.
  intros Hp (c' & r & _ & He). destruct p, te; try discriminate; destruct z; try done.
  - by left.
  - right. left. destruct He as (q & -> & _). eauto.
  - right. right. eauto.
  - by left.
Qed.

(** Of the contexts, the one the parameters of a function have their types
    from; only in the builder's own does an integer become a double. *)
Definition converts (cp : ctx) (p te : fty) : Prop := cp = c \/ (p = FkFloat -> te = FkFloat).

Lemma total_convert_argument cp w v p te z s rg :
  converts cp p te -> passes p te = true -> typed rg v te z ->
  does w w (convert_argument v (llvm_type p cp)) (fun o rg' => exists v' r, o = Some v' /\
    holds rg' v' (llvm_type p cp) r /\ encodes p (conv p z) r) s rg.
Proof.
  intros Hcp Hp Hv. pose proof Hv as (c' & r & Hh & He). pose proof Hh as [Tv _]. unfold convert_argument.
  rewrite Tv. destruct (decide (llvm_type te (contexts c') = llvm_type p cp)) as [E|Hne].
  - rewrite bool_decide_true by done. apply total_ret. exists v, r. rewrite <- E. split_and!; [done | done |].
    destruct (passes_cases _ _ _ _ _ Hp Hv) as [(-> & _ & ->)|[(-> & -> & _)|(-> & -> & _)]]; done.
  - rewrite bool_decide_false by done.
    destruct (passes_cases _ _ _ _ _ Hp Hv) as [(-> & Hb & Ec)|[(-> & -> & q & ->)|(-> & -> & n & ->)]].
    + rewrite Ec. destruct te; [| done | | done]; simpl in *.
      * destruct z as [n| |]; [| done..]. destruct He as [-> Hn].
        unfold some. eapply total_bind; [eapply total_CreateZExtOrBitCast; [exact Hh | by left] |].
        intros v' s' rg' _ _ Hv'. apply total_ret. by exists v', (RInt 64 n).
      * destruct z as [|d|]; [done | | done]. subst r.
        unfold some. eapply total_bind; [by eapply total_double_cast |].
        intros v' s' rg' _ _ Hv'. apply total_ret. by exists v', (RFloat d).
    + destruct He as (q' & Eq & ->). assert (q' = q) as -> by (by destruct q, q').
      simpl in *. unfold some. eapply total_bind.
      * eapply total_CreateZExtOrBitCast; [exact Hh |]. right. split; [done | reflexivity].
      * intros v' s' rg' _ _ Hv'. apply total_ret. exists v', (RInt 64 (b2z q)).
        split_and!; [done | by destruct q | done | apply b2z_in_int64].
    + destruct He as [-> Hn]. destruct Hcp as [-> |Hcp]; [| by discriminate Hcp]. simpl in *. unfold some. eapply total_bind; [by eapply total_castIntToFloat |].
      intros v' s' rg' _ _ Hv'. apply total_ret. by exists v', (RFloat (of_int n)).
Qed.

Lemma pass_all_length ts tes : pass_all ts tes = true -> length tes = length ts.
Proof.
  revert tes. induction ts as [|t ts IH]; intros [|te tes]; simpl; try done.
  intros [_ H]%andb_true_iff. by rewrite (IH _ H).
Qed.

(** The arguments of a call, from the visits of their expressions. *)
Lemma total_visitArguments es :
  Forall (fun e => forall t z w w' s rg, type_of G e = Some t -> fk_eval env e w = Some (z, w') ->
    variables_hold s rg -> does w w' (visit e) (some_typed t z) s rg) es ->
  forall cp ts tes zs w w' s rg, Forall2 (converts cp) ts tes ->
    mapM (type_of G) es = Some tes -> eval_list (fk_eval env) es w = Some (zs, w') ->
    pass_all ts tes = true -> variables_hold s rg ->
    does w w' (visitArguments (visit <$> es) ((fun t => llvm_type t cp) <$> ts)) (fun o rg' => exists vs rs,
      o = Some vs /\ Forall3 (fun t v r => holds rg' v (llvm_type t cp) r) ts vs rs /\
      Forall3 encodes ts (zip_with conv ts zs) rs) s rg.
Proof.
  induction 1 as [|e es He _ IH]; intros cp ts tes zs w w' s rg Hcp Ht Hz Hp Hv.
  { simpl in Ht, Hz. injection Ht as <-. injection Hz as <- <-. destruct ts; [| discriminate]. simpl. apply total_ret.
    exists [], []. split_and!; [done | constructor..]. }
  simpl in Ht, Hz. apply bind_Some in Ht as (te & Hte & Ht). apply bind_Some in Ht as (tes' & Ht & [= <-]).
  apply bind_Some in Hz as ([z w1] & Hez & Hz). apply bind_Some in Hz as ([zs' w2] & Hz & [= <- <-]).
  destruct ts as [|t ts]; [done |]. apply Forall2_cons_1 in Hcp as [Hct Hcp]. simpl in Hp. apply andb_true_iff in Hp as [Hpt Hp]. simpl.
  eapply total_bind; [by apply He | cbv beta]. intros ? s1 rg1 S1 C1 (v & -> & Hv1). apply total_ret_bind.
  eapply total_bind; [by eapply total_convert_argument | cbv beta]. intros ? s2 rg2 S2 C2 (v' & r & -> & Hh & Hr).
  assert (variables_hold s2 rg2) as Hv2.
  { eapply variables_hold_mono; [exact S2 | exact C2 |]. by eapply variables_hold_mono. }
  eapply total_bind; [by eapply IH | cbv beta]. intros ? s3 rg3 S3 C3 (vs & rs & -> & Hvs & Hrs).
  apply total_ret. exists (v' :: vs), (r :: rs). split_and!; [done | | by constructor].
  constructor; [by eapply holds_mono | done].
Qed.

Lemma total_visit e t z w w' s rg :
  type_of G e = Some t -> fk_eval env e w = Some (z, w') -> variables_hold s rg ->
  does w w' (visit e) (some_typed t z) s rg.
Proof.
  revert t z w w' s rg. induction e as [v|d|n|op e IH|l op r IHl IHr|f args IH| |x off fld _|x off _|x f]
    using expr_nested_ind; intros t z w w' s rg Ht Hz Hv; simpl in Ht, Hz; simplify_eq; simpl.
  - unfold visitInteger. apply total_getContext_bind, total_ret. eexists. split; [done |].
    apply built_typed, built_int; [| apply wrap64_range]. split; [done |]. reflexivity.
  - unfold visitFloat. apply total_getContext_bind, total_ret. eexists. split; [done |].
    by apply built_typed, built_float.
  - apply bind_Some in Hz as (z' & Hz & [= <- <-]). by apply total_visitIdentifier.
  - apply bind_Some in Ht as (te & Hte & Ht). apply bind_Some in Hz as ([x w1] & Hx & Hz).
    apply bind_Some in Hz as (z' & Hz & [= <- <-]).
    eapply some_built_typed, total_visitUnaryOperator; [exact Ht | exact Hz | by apply IH].
  - apply bind_Some in Ht as (o & Ho & Ht). apply bind_Some in Ht as (tl & Htl & Ht).
    apply bind_Some in Ht as (tr & Htr & Ht).
    apply bind_Some in Hz as (o' & Ho' & Hz). apply bind_Some in Hz as ([x w1] & Hx & Hz).
    apply bind_Some in Hz as ([y w2] & Hy & Hz). apply bind_Some in Hz as (z' & Hz & [= <- <-]). simplify_eq.
    eapply some_built_typed, total_visitBinaryOperator; [done.. | by apply IHl |].
    intros s' rg' S D. apply IHr; [done.. |]. by eapply variables_hold_mono.
  - apply bind_Some in Ht as (tes & Hts & Ht). apply bind_Some in Ht as (sg & Hf & Ht).
    destruct (pass_all sg.1 tes) eqn:Hp; [| done]. simplify_eq.
    apply bind_Some in Hz as ([zs w1] & Hzs & Hz). apply bind_Some in Hz as (sg' & Hf' & Hz). simplify_eq.
    unfold visitFunctionCall. eapply total_getFunction_bind; [exact Hf |]. intros fn Hfn.
    apply total_gets_bind, total_ret_bind. rewrite Hfn. cbn [fun_type fparams].
    rewrite bool_decide_true.
    2: { rewrite !length_fmap, <- (pass_all_length _ _ Hp). symmetry. by apply length_mapM in Hts. }
    simpl. eapply total_bind; [eapply total_visitArguments; [exact IH | | done..] | cbv beta];
      [apply Forall2_true; [by left | symmetry; by apply pass_all_length] |].
    intros ? s1 rg1 S1 C1 (vs & rs & -> & Hvs & Hrs). unfold some.
    eapply total_bind; [by eapply total_CreateCall | cbv beta]. intros v s2 rg2 S2 C2 (r & Hh & He).
    apply total_ret. exists v. split; [done |]. by exists c0, r.
Qed.

(** What is no variable and no call has the builder's own types, wherever its
    operands have theirs from. *)
Definition owned (e : expr) : bool :=
  match e with Identifier _ | FunctionCall _ _ => false | _ => true end.

Lemma total_visit_built e t z w w' s rg :
  owned e = true ->
  type_of G e = Some t -> fk_eval env e w = Some (z, w') -> variables_hold s rg ->
  does w w' (visit e) (some_built t z) s rg.
Proof.
  intros Ho Ht Hz Hv. destruct e as [v|d|x|op e|l op r|f args| |x off fld|x off|x f];
    simpl in Ho, Ht, Hz; simplify_eq; simpl.
  - unfold visitInteger. apply total_getContext_bind, total_ret. eexists. split; [done |].
    apply built_int; [| apply wrap64_range]. split; [done |]. reflexivity.
  - unfold visitFloat. apply total_getContext_bind, total_ret. eexists. split; [done |].
    by apply built_float.
  - apply bind_Some in Ht as (te & Hte & Ht). apply bind_Some in Hz as ([x w1] & Hx & Hz).
    apply bind_Some in Hz as (z' & Hz & [= <- <-]).
    eapply total_visitUnaryOperator; [exact Ht | exact Hz | by eapply total_visit].
  - apply bind_Some in Ht as (o & Hop & Ht). apply bind_Some in Ht as (tl & Htl & Ht).
    apply bind_Some in Ht as (tr & Htr & Ht).
    apply bind_Some in Hz as (o' & Hop' & Hz). apply bind_Some in Hz as ([x w1] & Hx & Hz).
    apply bind_Some in Hz as ([y w2] & Hy & Hz). apply bind_Some in Hz as (z' & Hz & [= <- <-]). simplify_eq.
    eapply total_visitBinaryOperator; [done.. | by eapply total_visit |].
    intros s' rg' S D. eapply total_visit; [done.. |]. by eapply variables_hold_mono.
Qed.
End correct.
