(* ===== verification/Source.v ===== *)
(** What statements mean and which of them the correctness of the generated
    code is stated for: definitions and assignments of int and float
    variables, expressions, calls among them that print, conditionals and
    returns. *)

From stdpp Require Import functions.
From S2P Require Import Prelude Ast IR State Builder CodeGenBase CodeGenExpr Machine ExprCorrect.

(** The variables, and what is outside of the program. *)
Record fk_state {out : Outside} : Type := mk_fk_state {
  fk_vars : string -> option fval;
  fk_around : outside
}.
Arguments fk_state {out}.
Arguments mk_fk_state {out} _ _.

Section source.
Context {out : Outside} {meaning : Meaning} {sigs : Signatures}.

(** * Meaning *)

Definition set_var (x : string) (z : fval) (env : fk_state) : fk_state :=
  mk_fk_state (<[x := Some z]> (fk_vars env)) (fk_around env).

Definition set_around (w : outside) (env : fk_state) : fk_state := mk_fk_state (fk_vars env) w.

Definition evaluate (env : fk_state) (e : expr) : option (fval * fk_state) :=
  '(z, w) ← fk_eval (fk_vars env) e (fk_around env); Some (z, set_around w env).

(** An integer that is stored where a double is. *)
Definition like (old new : fval) : fval :=
  match old, new with VF _, VI z => VF (of_int z) | _, _ => new end.

Definition initial_value (type : string) : fval :=
  if decide (type = "float") then VF double_zero else VI 0.

Definition truth (v : fval) : bool :=
  match v with VI z => truth_int z | VF d => truth_float d | VU => false end.

(** A statement leaves a state, or returns from the function. *)
Inductive outcome : Type := Next (env : fk_state) | Return (v : fval) (w : outside).

Section list.
Context (exec_stmt : fk_state -> stmt -> option outcome).

Fixpoint fk_list (env : fk_state) (l : list stmt) : option outcome :=
  match l with
  | [] => Some (Next env)
  | s :: l' =>
      o ← exec_stmt env s;
      match o with Next env' => fk_list env' l' | Return v w => Some (Return v w) end
  end.
End list.

Fixpoint fk_exec (env : fk_state) (s : stmt) : option outcome :=
  match s with
  | SVariable (VariableDefinition _ type x None false) =>
      Some (Next (set_var x (initial_value type) env))
  | SVariable (VariableDefinition _ type x (Some e) false) =>
      '(v, env1) ← evaluate env e; Some (Next (set_var x (like (initial_value type) v) env1))
  | AssignStatement _ (Identifier x) e =>
      old ← fk_vars env x; '(v, env1) ← evaluate env e; Some (Next (set_var x (like old v) env1))
  | ExpressionStatement _ e => '(v, env1) ← evaluate env e; Some (Next env1)
  | ReturnStatement None => Some (Return VU (fk_around env))
  | ReturnStatement (Some e) => '(v, env1) ← evaluate env e; Some (Return v (fk_around env1))
  | IfStatement e b eb =>
      '(v, env1) ← evaluate env e;
      if truth v then
        match b with Some (Some l) => fk_list fk_exec env1 l | _ => Some (Next env1) end
      else
        match eb with Some (Some l) => fk_list fk_exec env1 l | _ => Some (Next env1) end
  | _ => None
  end.

Definition fk_run : fk_state -> list stmt -> option outcome := fk_list fk_exec.

(** * Types *)

(** An expression of type [te] may be stored where a [t] is. *)
Definition fits (t te : fty) : bool :=
  match t, te with
  | FkInt, FkInt | FkBool, FkBool | FkFloat, FkFloat | FkFloat, FkInt | FkVoid, FkVoid => true
  | _, _ => false
  end.

(** The type a variable gets: [int x = a || b] makes it an [i1]. *)
Definition declared_type (type : string) (te : option fty) : option fty :=
  if decide (type = "int") then
    match te with None => Some FkInt | Some (FkFloat | FkVoid) => None | Some t => Some t end
  else if decide (type = "float") then
    match te with None | Some FkFloat | Some FkInt => Some FkFloat | Some (FkBool | FkVoid) => None end
  else None.

(** The type a function returns. *)
Definition return_type (type : string) : option fty :=
  if decide (type = "void") then Some FkVoid else declared_type type None.

(** What an [if] may be decided by. *)
Definition decides (te : fty) : bool := match te with FkInt | FkFloat => true | _ => false end.

Definition is_return (s : stmt) : bool :=
  match s with ReturnStatement _ => true | _ => false end.

(** The last statement of a list is a return. *)
Fixpoint closes (l : list stmt) : bool :=
  match l with [] => false | [s] => is_return s | _ :: l' => closes l' end.

Section types.
Context (tr : fty).

Section list.
Context (type_stmt : (string -> option fty) -> stmt -> option (string -> option fty)).

(** Every statement commits, and nothing follows a return. *)
Fixpoint type_list (G : string -> option fty) (l : list stmt) : option (string -> option fty) :=
  match l with
  | [] => Some G
  | s :: l' =>
      if statementCommits s && (negb (is_return s) || bool_decide (l' = [])) then
        G' ← type_stmt G s; type_list G' l'
      else None
  end.
End list.

(** A function that returns a [tr]; an arm of a conditional defines no
    variable, and its condition is an int or a float. *)
Fixpoint type_stmt (arm : bool) (G : string -> option fty) (s : stmt) :
    option (string -> option fty) :=
  match s with
  | SVariable (VariableDefinition _ type x exp false) =>
      if arm then None else
      match G x with
      | Some _ => None
      | None =>
          te ← match exp with None => Some None | Some e => Some <$> type_of G e end;
          t ← declared_type type te; Some (<[x := Some t]> G)
      end
  | AssignStatement _ (Identifier x) e =>
      t ← G x; te ← type_of G e; if fits t te then Some G else None
  | ExpressionStatement _ e => te ← type_of G e; Some G
  | ReturnStatement None => if decide (tr = FkVoid) then Some G else None
  | ReturnStatement (Some e) => te ← type_of G e; if fits tr te then Some G else None
  | IfStatement e b eb =>
      te ← type_of G e;
      if negb (decides te) then None else
      _ ← match b with
          | Some (Some l) => type_list (type_stmt true) G l
          | Some None => Some G
          | None => None
          end;
      _ ← match eb with Some (Some l) => type_list (type_stmt true) G l | _ => Some G end;
      Some G
  | _ => None
  end.

Definition type_stmts (arm : bool) : (string -> option fty) -> list stmt -> option (string -> option fty) :=
  type_list (type_stmt arm).
End types.

Lemma like_conv t old z r : encodes t old r -> like old z = conv t z.
Proof. destruct t, old, z; simpl; try done. Qed.

(** * Typed programs have typed values *)

Definition has_type (t : fty) (z : fval) : Prop := exists r, encodes t z r.

Definition env_typed (G : string -> option fty) (env : string -> option fval) : Prop :=
  forall x t, G x = Some t -> exists z, env x = Some z /\ has_type t z.

Lemma has_type_int z : in_int64 z -> has_type FkInt (VI z).
Proof. intros H. by exists (RInt 64 z). Qed.

Lemma has_type_bool q : has_type FkBool (VI (b2z q)).
Proof. by exists (i1 q), q. Qed.

Lemma has_type_float d : has_type FkFloat (VF d).
Proof. by exists (RFloat d). Qed.

Lemma has_type_in_int64 t z : has_type t (VI z) -> in_int64 z.
Proof.
  intros (r & H). destruct t; simpl in H; [tauto | | done..].
  destruct H as (q & -> & _). apply b2z_in_int64.
Qed.
End source.
