(* ===== verification/SourceFacts.v ===== *)
(** Typed statements have a meaning in the world [unrun], where every division
    has a result, and keep the variables typed. *)

From stdpp Require Import functions.
From S2P Require Import Prelude Ast IR State Builder CodeGenBase CodeGenExpr Machine ExprCorrect Source.

Section unrun.
Context {sigs : Signatures} {out : Outside}.
Local Existing Instance unrun_meaning.

Lemma unrun_int o x y :
  in_int64 x -> in_int64 y -> exists z, fk_int o x y = Some z /\ in_int64 z /\
    (is_logical o = true -> exists q, z = b2z q).
Proof.
  intros Hx Hy.
  destruct o; simpl; try (eexists; split_and!; [done | apply wrap64_range | done]);
    try (eexists; split_and!; [done | apply b2z_in_int64 | eauto]).
  destruct ((y =? 0) || ((x =? - two63) && (y =? -1)))%Z eqn:E.
  - exists 0%Z. split_and!; [done | unfold in_int64, two63; lia | done].
  - eexists. split_and!; [done | | done]. apply orb_false_iff in E as [E1 E2].
    apply quot_in_int64; [done.. | lia |]. intros [-> ->]. done.
Qed.

Lemma has_type_VI t z : has_type t z -> is_int t -> exists n, z = VI n /\ in_int64 n.
Proof.
  intros Hz Ht. destruct z as [n| |].
  - exists n. split; [done |]. by eapply has_type_in_int64.
  - destruct Hz as [r Hr]. by destruct Ht as [-> | ->].
  - destruct Hz as [r Hr]. by destruct Ht as [-> | ->].
Qed.

Lemma has_type_VF z : has_type FkFloat z -> exists d, z = VF d.
Proof. intros [r Hr]. destruct z; try done. by eexists. Qed.

Lemma fk_float_typed o a b :
  has_type (if is_compare o || is_logical o then FkInt else FkFloat) (fk_float o a b).
Proof.
  destruct o; simpl; first [apply has_type_float | apply has_type_int, b2z_in_int64].
Qed.

Lemma unrun_binary o ta tb t a b :
  type_binary o ta tb = Some t -> has_type ta a -> has_type tb b ->
  exists z, fk_binary o a b = Some z /\ has_type t z.
Proof.
  intros Ht Ha Hb. destruct (type_binary_cases _ _ _ _ Ht) as (_ & _ & [(Ta & Tb & ->)|[Hc ->]]).
  - destruct (has_type_VI _ _ Ha Ta) as (x & -> & Hx), (has_type_VI _ _ Hb Tb) as (y & -> & Hy).
    destruct (unrun_int o x y Hx Hy) as (z & Hz & Hr & Hl). exists (VI z). simpl. rewrite Hz.
    split; [done |]. destruct (is_logical o); [| by apply has_type_int].
    destruct Hl as [q ->]; [done |]. apply has_type_bool.
  - destruct Hc as [[-> ->]|[[-> ->]|[-> ->]]];
      try (apply has_type_VF in Ha as [? ->]); try (apply has_type_VF in Hb as [? ->]);
      try (destruct (has_type_VI _ _ Ha) as (? & -> & _); [by left |]);
      try (destruct (has_type_VI _ _ Hb) as (? & -> & _); [by left |]);
      eexists; (split; [reflexivity | apply fk_float_typed]).
Qed.

Lemma fk_unary_typed op t t' a :
  type_unary op t = Some t' -> has_type t a -> exists z, fk_unary op a = Some z /\ has_type t' z.
Proof.
  intros Ht Ha. apply type_unary_Some in Ht as [Hv Ht].
  assert (is_int t /\ (exists n, a = VI n) \/ t = FkFloat /\ exists d, a = VF d) as Hc.
  { destruct (decide (t = FkFloat)) as [->|]; [right; split; [done | by apply has_type_VF] | left].
    assert (is_int t) as Hi by (unfold is_int; destruct t; auto; done). split; [done |].
    destruct (has_type_VI _ _ Ha Hi) as (k & -> & _). by exists k. }
  destruct Ht as [[-> ->]|[-> ->]]; rewrite ?fk_unary_minus, ?fk_unary_not;
    destruct Hc as [[Hi [n ->]]|[-> [d ->]]]; (eexists; split; [reflexivity |]).
  - destruct Hi as [-> | ->]; apply has_type_int, wrap64_range.
  - apply has_type_float.
  - apply has_type_int, b2z_in_int64.
  - apply has_type_int, b2z_in_int64.
Qed.

Lemma unrun_args G env es :
  Forall (fun e => forall t w, type_of G e = Some t ->
    exists z, fk_eval env e w = Some (z, w) /\ has_type t z) es ->
  forall tes w, mapM (type_of G) es = Some tes -> exists zs, eval_list (fk_eval env) es w = Some (zs, w).
Proof.
  induction 1 as [|e es He _ IH]; intros tes w Ht; [by eexists |]. simpl in Ht.
  apply bind_Some in Ht as (te & Hte & Ht). apply bind_Some in Ht as (tes' & Ht & _).
  destruct (He _ w Hte) as (z & Hz & _), (IH _ w Ht) as (zs & Hzs).
  exists (z :: zs). simpl. by rewrite Hz; simpl; rewrite Hzs.
Qed.

Lemma unrun_eval G env e t w :
  env_typed G env -> type_of G e = Some t -> exists z, fk_eval env e w = Some (z, w) /\ has_type t z.
Proof.
  intros HG. revert t w.
  induction e as [v|d|n|op e IH|l op r IHl IHr|f args IH| |x off fld _|x off _|x f]
    using expr_nested_ind; intros t w Ht; simpl in Ht |- *; simplify_eq.
  - eexists. split; [done |]. apply has_type_int, wrap64_range.
  - eexists. split; [done |]. apply has_type_float.
  - destruct (HG _ _ Ht) as (z & Hz & Hz'). exists z. by rewrite Hz.
  - apply bind_Some in Ht as (te & Hte & Ht). destruct (IH _ w Hte) as (z & Hz & Hz'). rewrite Hz. simpl.
    destruct (fk_unary_typed _ _ _ _ Ht Hz') as (z' & Hu & Hz2). exists z'. by rewrite Hu.
  - apply bind_Some in Ht as (o & Ho & Ht). apply bind_Some in Ht as (tl & Htl & Ht).
    apply bind_Some in Ht as (tr & Htr & Ht). rewrite Ho. simpl.
    destruct (IHl _ w Htl) as (a & Ea & Ha), (IHr _ w Htr) as (b & Eb & Hb). rewrite Ea. simpl.
    rewrite Eb. simpl. destruct (unrun_binary _ _ _ _ _ _ Ht Ha Hb) as (z & Hz & Hz'). exists z. by rewrite Hz.
  - apply bind_Some in Ht as (tes & Hts & Ht). apply bind_Some in Ht as (sg & Hf & Ht).
    destruct (pass_all sg.1 tes); [| done]. simplify_eq.
    destruct (unrun_args G env args IH _ w Hts) as [zs Hzs]. rewrite Hzs. simpl. rewrite Hf.
    eexists. split; [done |]. eexists. apply some_encodes.
Qed.

Lemma unrun_evaluate G env e t :
  env_typed G (fk_vars env) -> type_of G e = Some t ->
  exists z, evaluate env e = Some (z, env) /\ has_type t z.
Proof.
  intros HG Ht. destruct (unrun_eval _ _ _ _ (fk_around env) HG Ht) as (z & Hz & Hz').
  exists z. split; [| done]. unfold evaluate. rewrite Hz. by destruct env.
Qed.

Lemma conv_typed t te z : has_type te z -> fits t te = true -> has_type t (conv t z).
Proof.
  intros Hz Hf. destruct t, te; try discriminate; simpl; try done.
  - destruct (has_type_VI _ _ Hz) as (n & -> & _); [by left |]. apply has_type_float.
  - apply has_type_VF in Hz as [d ->]. apply has_type_float.
Qed.

Lemma env_typed_insert G env x t z :
  env_typed G env -> has_type t z -> env_typed (<[x := Some t]> G) (<[x := Some z]> env).
Proof.
  intros HG Hz y t' Hy. destruct (decide (y = x)) as [->|Hne].
  - rewrite fn_lookup_insert in Hy. rewrite fn_lookup_insert. simplify_eq. eauto.
  - rewrite fn_lookup_insert_ne in Hy by done. rewrite fn_lookup_insert_ne by done. by apply HG.
Qed.

Lemma env_typed_update G env x t z :
  env_typed G env -> G x = Some t -> has_type t z -> env_typed G (<[x := Some z]> env).
Proof.
  intros HG Hx Hz y t' Hy. destruct (decide (y = x)) as [->|Hne].
  - rewrite fn_lookup_insert. simplify_eq. eauto.
  - rewrite fn_lookup_insert_ne by done. by apply HG.
Qed.

Lemma like_typed t te old z :
  has_type t old -> has_type te z -> fits t te = true -> like old z = conv t z.
Proof.
  intros [r Hr] Hz Hf. by eapply like_conv.
Qed.

(** What holds of the result of a statement that is typed. *)
Definition outcome_typed (G : string -> option fty) (o : outcome) : Prop :=
  match o with Next env => env_typed G (fk_vars env) | Return _ _ => True end.

Lemma initial_typed type t : declared_type type None = Some t -> has_type t (initial_value type).
Proof.
  unfold declared_type, initial_value. intros Ht.
  destruct (decide (type = "int")) as [->|]; simplify_eq; simpl.
  - apply has_type_int. unfold in_int64, two63. lia.
  - destruct (decide (type = "float")) as [->|]; simplify_eq. apply has_type_float.
Qed.

Lemma declared_typed type t te z :
  declared_type type (Some te) = Some t -> has_type te z ->
  has_type t (like (initial_value type) z).
Proof.
  unfold declared_type, initial_value. intros Ht Hz.
  destruct (decide (type = "int")) as [->|]; simpl; [by destruct te; simplify_eq |].
  destruct (decide (type = "float")) as [->|]; [| done].
  destruct te; simplify_eq; destruct Hz as [r Hz]; destruct z; try done; apply has_type_float.
Qed.

Section total.
Context (tr : fty).

(** An arm leaves the types of the variables as they are. *)
Lemma type_arm G s G' : type_stmt tr true G s = Some G' -> G' = G.
Proof.
  destruct s as [[? ? ? ? []|]| | |c e|[e|]|c [] e|e b eb|]; simpl; try done; intros H;
    repeat (apply bind_Some in H as (? & _ & H)); repeat case_match; try done;
    repeat (apply bind_Some in H as (? & _ & H)); by simplify_eq.
Qed.

Lemma type_arms G l G' : type_stmts tr true G l = Some G' -> G' = G.
Proof.
  revert G. induction l as [|s l IH]; intros G; simpl; [by intros [= ->] |].
  destruct (statementCommits s && _); [| done]. intros H. apply bind_Some in H as (G1 & H1 & H).
  apply type_arm in H1 as ->. by apply IH.
Qed.

Lemma unrun_list_of arm l G G' env :
  Forall (fun s => forall arm G G' env, env_typed G (fk_vars env) -> type_stmt tr arm G s = Some G' ->
    exists o, fk_exec env s = Some o /\ outcome_typed G' o) l ->
  env_typed G (fk_vars env) -> type_stmts tr arm G l = Some G' ->
  exists o, fk_run env l = Some o /\ outcome_typed G' o.
Proof.
  intros Hl. revert G env. induction Hl as [|s l Hs _ IH]; intros G env HG Ht; simpl in Ht |- *.
  - simplify_eq. by eexists.
  - destruct (statementCommits s && _); [| done]. apply bind_Some in Ht as (G1 & Ht1 & Ht).
    destruct (Hs _ _ _ _ HG Ht1) as (o & Ho & Hto). rewrite Ho. simpl.
    destruct o as [env1|v]; [by eapply IH | by eexists].
Qed.

Lemma unrun_exec s : forall arm G G' env,
  env_typed G (fk_vars env) -> type_stmt tr arm G s = Some G' ->
  exists o, fk_exec env s = Some o /\ outcome_typed G' o.
Proof.
  induction s as [v|i b _|ty i a b p _|c e|e|c target e|e b eb Hb Heb|ty i a p] using stmt_nested_ind;
    intros arm G G' env HG Ht; try done.
  - destruct v as [c type x exp [|]|]; try done. simpl in Ht. destruct arm; [done |].
    destruct (G x) eqn:Hx; [done |]. apply bind_Some in Ht as (te & Hte & Ht).
    apply bind_Some in Ht as (t & Ht & [= <-]). destruct exp as [e|]; simpl in *.
    + apply fmap_Some in Hte as (te' & Hte & ->). destruct (unrun_evaluate _ env _ _ HG Hte) as (z & Hz & Hz').
      rewrite Hz. simpl. eexists. split; [done |]. apply env_typed_insert; [done |]. by eapply declared_typed.
    + simplify_eq. eexists. split; [done |]. apply env_typed_insert; [done |]. by apply initial_typed.
  - simpl in Ht |- *. apply bind_Some in Ht as (te & Hte & [= <-]).
    destruct (unrun_evaluate _ env _ _ HG Hte) as (z & Hz & _). rewrite Hz. by eexists.
  - destruct e as [e|]; [| by eexists]. simpl in Ht |- *. apply bind_Some in Ht as (te & Hte & Ht).
    destruct (unrun_evaluate _ env _ _ HG Hte) as (z & Hz & _). rewrite Hz. by eexists.
  - destruct target as [| |x| | | | | | |]; try done. simpl in Ht |- *.
    apply bind_Some in Ht as (t & Hx & Ht). apply bind_Some in Ht as (te & Hte & Ht).
    destruct (fits t te) eqn:Hf; [| done]. simplify_eq.
    destruct (HG _ _ Hx) as (old & Ho & Hto), (unrun_evaluate _ env _ _ HG Hte) as (z & Hz & Htz).
    rewrite Ho, Hz. simpl. eexists. split; [done |]. rewrite (like_typed _ _ _ _ Hto Htz Hf).
    eapply env_typed_update; [done | done |]. by eapply conv_typed.
  - simpl in Ht |- *. apply bind_Some in Ht as (te & Hte & Ht).
    destruct (negb (decides te)); [done |].
    apply bind_Some in Ht as (G1 & H1 & Ht). apply bind_Some in Ht as (G2 & H2 & [= <-]).
    destruct (unrun_evaluate _ env _ _ HG Hte) as (z & Hz & _). rewrite Hz. simpl.
    assert (forall (b : option (option (list stmt))) G1,
      (forall b', b = Some b' -> forall l, b' = Some l -> Forall (fun s => forall arm G G' env,
        env_typed G (fk_vars env) -> type_stmt tr arm G s = Some G' ->
        exists o, fk_exec env s = Some o /\ outcome_typed G' o) l) ->
      match b with Some (Some l) => type_list (type_stmt tr true) G l = Some G1 | _ => True end ->
      exists o, match b with Some (Some l) => fk_list fk_exec env l | _ => Some (Next env) end = Some o /\
        outcome_typed G o) as Harm.
    { intros b0 G0 H0 T0. destruct b0 as [[l|]|]; [| by eexists..].
      destruct (unrun_list_of true l G G0 env (H0 _ eq_refl _ eq_refl) HG T0) as (o & Ho & Hto).
      apply type_arms in T0 as ->. by exists o. }
    destruct (truth z).
    + apply (Harm b G1); [done |]. by destruct b as [[l|]|].
    + apply (Harm eb G2); [done |]. by destruct eb as [[l|]|].
Qed.

Lemma unrun_run arm G G' env l :
  env_typed G (fk_vars env) -> type_stmts tr arm G l = Some G' ->
  exists o, fk_run env l = Some o /\ outcome_typed G' o.
Proof. apply unrun_list_of, Forall_forall. intros s _ arm' G1 G1' env1. apply unrun_exec. Qed.
End total.
End unrun.

(** * More results of calls *)

Section more.
Context {sigs : Signatures} {out : Outside}.
Context (M M' : Meaning).
Context (Hdiv : fk_undefined (Meaning := M') = fk_undefined (Meaning := M)).
Context (Hcall : forall f zs w z, fk_called (Meaning := M) f zs w = Some z ->
  fk_called (Meaning := M') f zs w = Some z).

Lemma more_binary o a b z :
  fk_binary (meaning := M) o a b = Some z -> fk_binary (meaning := M') o a b = Some z.
Proof using Hdiv. destruct a, b; simpl; try done. destruct o; simpl; try done. by rewrite Hdiv. Qed.

Lemma more_eval env e : forall w z,
  fk_eval (meaning := M) env e w = Some z -> fk_eval (meaning := M') env e w = Some z.
Proof using Hdiv Hcall.
  induction e as [v|d|n|op e IH|l op r IHl IHr|f args IH| |x off fld _|x off _|x f]
    using expr_nested_ind; intros w z Hz; simpl in Hz |- *; try done.
  - apply bind_Some in Hz as ([a w1] & Ha & Hz). by rewrite (IH _ _ Ha).
  - apply bind_Some in Hz as (o & Ho & Hz). apply bind_Some in Hz as ([a w1] & Ha & Hz).
    apply bind_Some in Hz as ([b w2] & Hb & Hz). apply bind_Some in Hz as (x & Hx & Hz).
    rewrite Ho. simpl. rewrite (IHl _ _ Ha). simpl. rewrite (IHr _ _ Hb). simpl.
    by rewrite (more_binary _ _ _ _ Hx).
  - apply bind_Some in Hz as ([zs w1] & Hzs & Hz). apply bind_Some in Hz as (sg & Hf & Hz).
    assert (eval_list (fk_eval (meaning := M') env) args w = Some (zs, w1)) as ->.
    { clear - IH Hzs. revert w zs w1 Hzs. induction IH as [|e es He _ IHes]; intros w zs w1 H; [done |].
      simpl in H |- *. apply bind_Some in H as ([a w2] & Ha & H). apply bind_Some in H as ([as' w3] & Has & H).
      by rewrite (He _ _ Ha); simpl; rewrite (IHes _ _ _ Has). }
    simpl. rewrite Hf. simpl. by apply Hcall.
Qed.

Lemma more_evaluate env e z :
  evaluate (meaning := M) env e = Some z -> evaluate (meaning := M') env e = Some z.
Proof using Hdiv Hcall.
  unfold evaluate. intros H. apply bind_Some in H as ([v w] & Hv & H). by rewrite (more_eval _ _ _ _ Hv).
Qed.

Lemma more_list l :
  Forall (fun s => forall env o,
    fk_exec (meaning := M) env s = Some o -> fk_exec (meaning := M') env s = Some o) l ->
  forall env o, fk_run (meaning := M) env l = Some o -> fk_run (meaning := M') env l = Some o.
Proof using Type.
  unfold fk_run. induction 1 as [|s l Hs _ IH]; intros env o H; simpl in H |- *; [done |].
  apply bind_Some in H as (o1 & Ho & H). rewrite (Hs _ _ Ho). simpl. destruct o1; [by apply IH | done].
Qed.

Lemma more_exec s : forall env o,
  fk_exec (meaning := M) env s = Some o -> fk_exec (meaning := M') env s = Some o.
Proof using Hdiv Hcall.
  induction s as [v|i b _|ty i a b p _|c e|e|c target e|e b eb Hb Heb|ty i a p] using stmt_nested_ind;
    intros env o H; try done.
  - destruct v as [c type x [e|] [|]|]; try done. simpl in H |- *.
    apply bind_Some in H as (v & Hv & H). by rewrite (more_evaluate _ _ _ Hv).
  - simpl in H |- *. apply bind_Some in H as (v & Hv & H). by rewrite (more_evaluate _ _ _ Hv).
  - destruct e as [e|]; [| done]. simpl in H |- *. apply bind_Some in H as (v & Hv & H).
    by rewrite (more_evaluate _ _ _ Hv).
  - destruct target; try done. simpl in H |- *. apply bind_Some in H as (old & Ho & H).
    apply bind_Some in H as (v & Hv & H). by rewrite Ho; simpl; rewrite (more_evaluate _ _ _ Hv).
  - simpl in H |- *. apply bind_Some in H as ([v env1] & Hv & H). rewrite (more_evaluate _ _ _ Hv). simpl.
    destruct (truth v).
    + destruct b as [[l|]|]; try done. by apply (more_list l (Hb _ eq_refl _ eq_refl)).
    + destruct eb as [[l|]|]; try done. by apply (more_list l (Heb _ eq_refl _ eq_refl)).
Qed.

Lemma more_run l env o : fk_run (meaning := M) env l = Some o -> fk_run (meaning := M') env l = Some o.
Proof using Hdiv Hcall. apply more_list, Forall_forall. intros s _. apply more_exec. Qed.
End more.
