(* ===== verification/Flow.v ===== *)
(** Blocks that branch: the code of a function runs from block to block until
    a return, and what a generator does to a function under construction -
    code at the end of a block, a stack variable at the front of the entry
    block - leaves the runs that are already complete as they are. *)

From S2P Require Import Prelude Ast IR State Builder CodeGenBase CodeGenExpr Machine.

Section flow.
Context {out : Outside} {running : Running}.

(** * Running blocks *)

(** To the first terminator. *)
Fixpoint run_block (m : machine) (l : list (nat * inst)) : option (machine * inst) :=
  match l with
  | [] => None
  | i :: l' => if isTerminator i.2 then Some (m, i.2) else m' ← exec m i; run_block m' l'
  end.

(** Where a branch goes. *)
Definition target (m : machine) (i : inst) : option nat :=
  match i with
  | IBr b => Some b
  | ICondBr v t e =>
      r ← eval_value (regs m) v;
      match r with RInt _ k => Some (if (k =? 0)%Z then e else t) | _ => None end
  | _ => None
  end.

Abbreviation code := (gmap nat (list (nat * inst))).

(** The value returned from block [b], and the outside then; [fuel] bounds the
    number of blocks. *)
Fixpoint call_block (bl : code) (fuel : nat) (b : nat) (m : machine) : option (rv * outside) :=
  match fuel with
  | O => None
  | S fuel =>
      l ← bl !! b;
      '(m', i) ← run_block m l;
      match i with
      | IRet (Some v) => r ← eval_value (regs m') v; Some (r, around m')
      | IRet None => Some (RVoid, around m')
      | _ => b' ← target m' i; call_block bl fuel b' m'
      end
  end.

(** A block with a branch. *)
Lemma call_block_jump bl n b m l m1 i b1 :
  bl !! b = Some l -> run_block m l = Some (m1, i) -> target m1 i = Some b1 ->
  call_block bl (S n) b m = call_block bl n b1 m1.
Proof.
  intros Hl Hr Ht. simpl. rewrite Hl. simpl. rewrite Hr. simpl.
  destruct i as [| | | | | | | | | |[]| |]; try (by rewrite Ht); done.
Qed.

(** From the start of one block to the start of another, with at most [n]
    jumps. *)
Inductive reach (bl : code) : nat -> nat -> machine -> nat -> machine -> Prop :=
  | reach_here n b m : reach bl n b m b m
  | reach_jump n b m l m1 i b1 b' m' :
      bl !! b = Some l -> run_block m l = Some (m1, i) -> target m1 i = Some b1 ->
      reach bl n b1 m1 b' m' -> reach bl (S n) b m b' m'.

Lemma reach_more bl n n' b m b' m' : reach bl n b m b' m' -> n <= n' -> reach bl n' b m b' m'.
Proof.
  intros H. revert n'. induction H as [|n b m l m1 i b1 b' m' Hl Hr Ht _ IH]; intros n' Hn; [constructor |].
  destruct n' as [|n']; [lia |]. eapply reach_jump; [done.. |]. apply IH. lia.
Qed.

Lemma reach_trans bl n n' b m b1 m1 b' m' :
  reach bl n b m b1 m1 -> reach bl n' b1 m1 b' m' -> reach bl (n + n') b m b' m'.
Proof.
  induction 1; intros H'; [eapply reach_more; [exact H' | lia] |]. eapply reach_jump; eauto.
Qed.

(** More blocks than needed do no harm. *)
Lemma call_block_more bl n n' b m r :
  call_block bl n b m = Some r -> n <= n' -> call_block bl n' b m = Some r.
Proof.
  revert n' b m. induction n as [|n IH]; intros n' b m H Hn; [done |].
  destruct n' as [|n']; [lia |]. simpl in H |- *.
  apply bind_Some in H as (l & Hl & H). apply bind_Some in H as ([m1 i] & Hr & H).
  rewrite Hl. simpl. rewrite Hr. simpl.
  destruct i as [| | | | | | | | | |[]| |]; try done;
    apply bind_Some in H as (b1 & Ht & H); rewrite Ht; apply IH; (done || lia).
Qed.

Lemma reach_returns bl n n' b m b' m' r :
  reach bl n b m b' m' -> call_block bl n' b' m' = Some r -> call_block bl (n + n') b m = Some r.
Proof.
  induction 1 as [n b m|n b m l m1 i b1 b' m' Hl Hr Ht _ IH]; intros Hv.
  - eapply call_block_more; [exact Hv | lia].
  - rewrite Nat.add_succ_l, (call_block_jump _ _ _ _ _ _ _ _ Hl Hr Ht). by apply IH.
Qed.

(** ** Code of a block *)

Lemma exec_no_terminator m i m' : exec m i = Some m' -> isTerminator i.2 = false.
Proof. destruct i as [id []]; simpl; done. Qed.

Lemma run_block_app m l m' l' : run m l = Some m' -> run_block m (l ++ l') = run_block m' l'.
Proof.
  revert m. induction l as [|i l IH]; intros m; simpl; [by intros [= <-] |].
  intros H. apply bind_Some in H as (m1 & He & H).
  rewrite (exec_no_terminator _ _ _ He), He. simpl. by apply IH.
Qed.

Lemma run_block_post m l x post : run_block m l = Some x -> run_block m (l ++ post) = Some x.
Proof.
  revert m. induction l as [|i l IH]; intros m; simpl; [done |].
  destruct (isTerminator i.2); [done |]. intros H. apply bind_Some in H as (m1 & He & H).
  rewrite He. simpl. by apply IH.
Qed.

(** * Code added to blocks *)

Definition appended (bl bl' : code) : Prop :=
  forall b l, bl !! b = Some l -> exists post, bl' !! b = Some (l ++ post).

#[export] Instance appended_preorder : PreOrder appended.
Proof.
  split.
  - intros bl b l H. exists []. by rewrite app_nil_r.
  - intros bl1 bl2 bl3 H1 H2 b l H. destruct (H1 _ _ H) as [p1 E1], (H2 _ _ E1) as [p2 E2].
    exists (p1 ++ p2). by rewrite app_assoc.
Qed.

Lemma reach_appended bl bl' n b m b' m' :
  appended bl bl' -> reach bl n b m b' m' -> reach bl' n b m b' m'.
Proof.
  intros Ha. induction 1; [constructor |]. destruct (Ha _ _ H) as [post E].
  eapply reach_jump; [exact E | by apply run_block_post | done | done].
Qed.

Lemma returns_appended bl bl' n b m r :
  appended bl bl' -> call_block bl n b m = Some r -> call_block bl' n b m = Some r.
Proof.
  intros Ha. revert b m. induction n as [|n IH]; intros b m; [done |].
  simpl. intros H. apply bind_Some in H as (l & Hl & H). apply bind_Some in H as ([m1 i] & Hr & H).
  destruct (Ha _ _ Hl) as [post E]. rewrite E. simpl. rewrite (run_block_post _ _ _ post Hr). simpl.
  destruct i as [| | | | | | | | | |[]| |]; try done;
    apply bind_Some in H as (b1 & Ht & H); rewrite Ht; by apply IH.
Qed.

(** * A stack variable at the front of the entry block *)

Lemma eval_value_mono r r' v x : r ⊆ r' -> eval_value r v = Some x -> eval_value r' v = Some x.
Proof. intros Hs. destruct v; simpl; try done. intros H. by eapply lookup_weaken. Qed.

Lemma eval_value_bind_mono {B} r r' v (k : rv -> option B) (y : B) :
  r ⊆ r' -> (a ← eval_value r v; k a) = Some y -> (a ← eval_value r' v; k a) = Some y.
Proof.
  intros Hs H. apply bind_Some in H as (a & Ha & Hk). apply bind_Some.
  exists a. split; [by eapply eval_value_mono | done].
Qed.

Lemma eval_values_mono r r' vs xs :
  r ⊆ r' -> mapM (eval_value r) vs = Some xs -> mapM (eval_value r') vs = Some xs.
Proof.
  intros Hs. rewrite !mapM_Some. intros H. eapply Forall2_impl; [exact H |].
  intros v x. by apply eval_value_mono.
Qed.

Lemma result_mono r r' me w i x :
  r ⊆ r' -> result (mk_machine r me w) i = Some x -> result (mk_machine r' me w) i = Some x.
Proof.
  intros Hs. destruct i; simpl; try done;
    try (by apply eval_value_bind_mono);
    intros H; apply bind_Some in H as (a & Ha & H); apply bind_Some in H as (a' & Ha' & H);
    rewrite (eval_value_mono _ _ _ _ Hs Ha); simpl; rewrite (eval_value_mono _ _ _ _ Hs Ha'); done.
Qed.

Lemma effect_mono r r' me w i x :
  r ⊆ r' -> effect (mk_machine r me w) i = Some x -> effect (mk_machine r' me w) i = Some x.
Proof.
  intros Hs. destruct i; try (intros H; apply bind_Some in H as (y & Hy & [= <-]);
    unfold effect; by rewrite (result_mono _ _ _ _ _ _ Hs Hy)).
  simpl. intros H. apply bind_Some in H as (xs & Hxs & H). by rewrite (eval_values_mono _ _ _ _ Hs Hxs).
Qed.

(** ** More memory

    Code that runs does the same where there is more in the memory. *)

Definition with_memory (me : gmap nat rv) (m : machine) : machine := mk_machine (regs m) me (around m).

Lemma read_more t me me' a r : me ⊆ me' -> read t me a = Some r -> read t me' a = Some r.
Proof.
  intros H. destruct a as [| |[slot|]|slot i| | |]; try done; simpl; [intros E; by eapply lookup_weaken |].
  destruct (me !! slot) as [x|] eqn:E; [| done]. by rewrite (lookup_weaken _ _ _ _ E H).
Qed.

Lemma write_more x a me me' me1 :
  me ⊆ me' -> write x a me = Some me1 -> exists me1', write x a me' = Some me1' /\ me1 ⊆ me1'.
Proof.
  intros H. destruct a as [| |[slot|]|slot i| | |]; try done; simpl.
  - intros [= <-]. eexists. split; [done |]. by apply insert_mono.
  - destruct (me !! slot) as [x0|] eqn:E; [| done]. rewrite (lookup_weaken _ _ _ _ E H).
    destruct x0; try done. intros [= <-]. eexists. split; [done |]. by apply insert_mono.
Qed.

Lemma effect_more me' m i x :
  mem m ⊆ me' -> effect m i = Some x -> effect (with_memory me' m) i = Some x.
Proof.
  intros H. destruct i as [|p| | | | | | | | | | |]; try done.
  unfold effect, result, with_memory. cbn [regs mem around]. destruct (eval_value (regs m) p) as [a|]; [| done].
  simpl. destruct (getType p) as [| | |t|]; try done.
  destruct (read t (mem m) a) as [r|] eqn:E; [| done]. by rewrite (read_more _ _ _ _ _ H E).
Qed.

Lemma exec_more me' m i m1 :
  mem m ⊆ me' -> exec m i = Some m1 ->
  exists me1, exec (with_memory me' m) i = Some (with_memory me1 m1) /\ mem m1 ⊆ me1.
Proof.
  intros H. destruct i as [n i]. unfold exec. cbn [fst snd].
  assert (('(r, w) ← effect m i; Some (mk_machine (<[n:=r]> (regs m)) (mem m) w)) = Some m1 ->
    exists me1, ('(r, w) ← effect (with_memory me' m) i; Some (mk_machine (<[n:=r]> (regs m)) me' w)) =
      Some (with_memory me1 m1) /\ mem m1 ⊆ me1) as Hres.
  { intros ([r w] & E & [= <-])%bind_Some. rewrite (effect_more _ _ _ _ H E). by exists me'. }
  destruct i; try exact Hres; clear Hres.
  - intros [= <-]. by exists me'.
  - unfold with_memory. cbn [regs mem around]. intros (a & -> & E)%bind_Some. simpl.
    apply bind_Some in E as (x & -> & E). simpl. apply bind_Some in E as (me1 & Ew & [= <-]).
    destruct (write_more _ _ _ _ _ H Ew) as (me2 & -> & H2). by exists me2.
Qed.

Lemma run_block_more me' m l m1 i :
  mem m ⊆ me' -> run_block m l = Some (m1, i) ->
  exists me1, run_block (with_memory me' m) l = Some (with_memory me1 m1, i) /\ mem m1 ⊆ me1.
Proof.
  revert m me'. induction l as [|j l IH]; intros m me' H; simpl; [done |].
  destruct (isTerminator j.2); [intros [= <- <-]; by exists me' |].
  intros (m2 & E & Hl)%bind_Some. destruct (exec_more _ _ _ _ H E) as (me2 & -> & H2). simpl. by apply IH.
Qed.

Lemma call_block_memory bl n b me' m r :
  mem m ⊆ me' -> call_block bl n b m = Some r -> call_block bl n b (with_memory me' m) = Some r.
Proof.
  revert b m me'. induction n as [|n IH]; intros b m me' H; [done |]. simpl.
  intros (l & -> & E)%bind_Some. simpl. apply bind_Some in E as ([m1 i] & Hr & E).
  destruct (run_block_more _ _ _ _ _ H Hr) as (me1 & -> & H1). simpl.
  destruct i as [| | | | | | | | | |[]| |]; try exact E;
    apply bind_Some in E as (b' & Ht & E); unfold target in Ht |- *; cbn [regs with_memory];
    rewrite ?Ht; try (by apply IH). 
Qed.

(** The machine [m] with a stack variable behind the register [id]. *)
Definition with_slot (id : nat) (m : machine) : machine :=
  mk_machine (<[id := RPtr (Some id)]> (regs m)) (mem m) (around m).

Lemma exec_with_slot id m i m' :
  regs m !! id = None -> i.1 <> id -> exec m i = Some m' ->
  exec (with_slot id m) i = Some (with_slot id m') /\ regs m' !! id = None.
Proof.
  destruct m as [r me w]. intros Hid Hi. simpl in Hid.
  pose proof (insert_subseteq r id (RPtr (Some id)) Hid) as Hs.
  destruct i as [n i]. simpl in Hi. unfold exec, with_slot. cbn [fst snd regs mem around].
  assert (forall y w', effect (mk_machine r me w) i = Some (y, w') -> m' = mk_machine (<[n := y]> r) me w' ->
    ('(a, w1) ← effect (mk_machine (<[id := RPtr (Some id)]> r) me w) i;
     Some (mk_machine (<[n := a]> (<[id := RPtr (Some id)]> r)) me w1)) =
      Some (mk_machine (<[id := RPtr (Some id)]> (regs m')) (mem m') (around m')) /\
    regs m' !! id = None) as Hres.
  { intros y w' Hy ->. rewrite (effect_mono _ _ _ _ _ _ Hs Hy). simpl.
    rewrite insert_insert_ne by done. by rewrite lookup_insert_ne. }
  destruct i; try (intros H; apply bind_Some in H as ([y w'] & Hy & [= <-]); by eapply Hres).
  - intros [= <-]. simpl. rewrite insert_insert_ne by done. by rewrite lookup_insert_ne.
  - intros H. apply bind_Some in H as (a & Ha & H). apply bind_Some in H as (a' & Ha' & H).
    rewrite (eval_value_mono _ _ _ _ Hs Ha). simpl. rewrite (eval_value_mono _ _ _ _ Hs Ha'). simpl.
    apply bind_Some in H as (me' & Hw & [= <-]). by rewrite Hw.
Qed.

Lemma run_with_slot id m l m' :
  regs m !! id = None -> id ∉ l.*1 -> run m l = Some m' ->
  run (with_slot id m) l = Some (with_slot id m') /\ regs m' !! id = None.
Proof.
  revert m. induction l as [|i l IH]; intros m Hid Hl; simpl; [by intros [= <-] |].
  rewrite fmap_cons, not_elem_of_cons in Hl. destruct Hl as [Hi Hl].
  intros H. apply bind_Some in H as (m1 & He & H).
  destruct (exec_with_slot id _ _ _ Hid (not_eq_sym Hi) He) as [E Hid1]. rewrite E. by apply IH.
Qed.

Lemma run_block_with_slot id m l m' i :
  regs m !! id = None -> id ∉ l.*1 -> run_block m l = Some (m', i) ->
  run_block (with_slot id m) l = Some (with_slot id m', i) /\ regs m' !! id = None.
Proof.
  revert m. induction l as [|j l IH]; intros m Hid Hl; simpl; [done |].
  rewrite fmap_cons, not_elem_of_cons in Hl. destruct Hl as [Hj Hl].
  destruct (isTerminator j.2); [by intros [= <- <-] |].
  intros H. apply bind_Some in H as (m1 & He & H).
  destruct (exec_with_slot id _ _ _ Hid (not_eq_sym Hj) He) as [E Hid1]. rewrite E. by apply IH.
Qed.

(** A second slot of the same register is the first one. *)
Lemma run_block_slot id t m l :
  run_block m ((id, IAlloca t) :: l) = run_block (with_slot id m) l.
Proof. done. Qed.

Lemma with_slot_twice id m : with_slot id (with_slot id m) = with_slot id m.
Proof. unfold with_slot. simpl. by rewrite insert_insert_eq. Qed.

Lemma target_with_slot id m i b :
  regs m !! id = None -> target m i = Some b -> target (with_slot id m) i = Some b.
Proof.
  intros Hid. destruct i; simpl; try done. apply eval_value_bind_mono. by apply insert_subseteq.
Qed.

Section slot.
Context (bl : code) (entry id : nat) (t : ty) (l0 : list (nat * inst)).
Context (Hentry : bl !! entry = Some l0).
Context (Hfresh : forall b l, bl !! b = Some l -> id ∉ l.*1).

Local Abbreviation bl' := (<[entry := (id, IAlloca t) :: l0]> bl).

Lemma slot_block b l m m' i :
  bl !! b = Some l -> regs m !! id = None -> run_block m l = Some (m', i) ->
  exists l', bl' !! b = Some l' /\ run_block (with_slot id m) l' = Some (with_slot id m', i) /\
    (b = entry -> run_block m l' = Some (with_slot id m', i)) /\ regs m' !! id = None.
Proof using Hentry Hfresh.
  intros Hl Hid Hr.
  destruct (run_block_with_slot id _ _ _ _ Hid (Hfresh _ _ Hl) Hr) as [E Hid'].
  destruct (decide (b = entry)) as [->|Hne].
  - simplify_eq. exists ((id, IAlloca t) :: l0). rewrite lookup_insert_eq, !run_block_slot, with_slot_twice.
    done.
  - exists l. by rewrite lookup_insert_ne.
Qed.

Lemma call_block_slot fuel b m r :
  regs m !! id = None -> call_block bl fuel b m = Some r ->
  call_block bl' fuel b (with_slot id m) = Some r /\
  (b = entry -> call_block bl' fuel b m = Some r).
Proof using Hentry Hfresh.
  revert b m. induction fuel as [|fuel IH]; intros b m Hid; [done |]. simpl.
  intros H. apply bind_Some in H as (l & Hl & H). apply bind_Some in H as ([m1 i] & Hr & H).
  destruct (slot_block _ _ _ _ _ Hl Hid Hr) as (l' & Hl' & Hr' & Hr2 & Hid1).
  assert (match i with
          | IRet (Some v) => r ← eval_value (regs (with_slot id m1)) v; Some (r, around m1)
          | IRet None => Some (RVoid, around m1)
          | _ => b' ← target (with_slot id m1) i; call_block bl' fuel b' (with_slot id m1)
          end = Some r) as Hfin.
  { destruct i as [| | | | | | | | | |[v|]| |]; try done.
    - apply bind_Some in H as (y & Hy & H).
      apply bind_Some. exists y. split; [| exact H].
      eapply eval_value_mono; [by apply insert_subseteq | exact Hy].
    - apply bind_Some in H as (b1 & Ht & H). simpl in Ht. simplify_eq. simpl. exact (proj1 (IH _ _ Hid1 H)).
    - apply bind_Some in H as (b1 & Ht & H). rewrite (target_with_slot id _ _ _ Hid1 Ht).
      exact (proj1 (IH _ _ Hid1 H)). }
  rewrite Hl'. simpl. rewrite Hr'. simpl. split; [done |]. intros Hb. rewrite (Hr2 Hb). done.
Qed.

Lemma returns_slot n m r :
  regs m !! id = None -> call_block bl n entry m = Some r -> call_block bl' n entry m = Some r.
Proof using Hentry Hfresh. intros Hid H. by apply (call_block_slot _ _ _ _ Hid H). Qed.

Lemma reach_with_slot n b m b' m' :
  regs m !! id = None -> reach bl n b m b' m' ->
  reach bl' n b (with_slot id m) b' (with_slot id m') /\ regs m' !! id = None.
Proof using Hentry Hfresh.
  intros Hid H. induction H as [|n b m l m1 i b1 b' m' Hl Hr Ht _ IH]; [by split; [constructor |] |].
  destruct (slot_block _ _ _ _ _ Hl Hid Hr) as (l' & Hl' & Hr' & _ & Hid1).
  destruct (IH Hid1) as [Hreach Hid']. split; [| done].
  eapply reach_jump; [exact Hl' | exact Hr' | by apply target_with_slot | done].
Qed.

Lemma reach_slot n m b' m' :
  regs m !! id = None -> reach bl n entry m b' m' ->
  b' = entry /\ m' = m \/ reach bl' n entry m b' (with_slot id m').
Proof using Hentry Hfresh.
  intros Hid H. inversion H as [|? ? ? l m1 i b1 ? ? Hl Hr Ht Hreach]; subst; [by left | right].
  destruct (slot_block _ _ _ _ _ Hl Hid Hr) as (l' & Hl' & _ & Hr' & Hid1).
  eapply reach_jump; [exact Hl' | by apply Hr' | by apply target_with_slot |].
  exact (proj1 (reach_with_slot _ _ _ _ _ Hid1 Hreach)).
Qed.
End slot.
End flow.
