(* ===== verification/EntryCode.v ===== *)
(** Code at the end of a function's first block, in the program's module or in
    a closure's: each step of the generator with what the code it makes does,
    and stack variables that appear at the front of the same block. *)

From S2P Require Import Prelude Ast IR State Builder CodeGenBase CodeGenExpr CodeGenStmt.
From S2P Require Import Machine ExprLogic ExprCorrect Flow.

(** No function is called from inside of expressions here. *)
#[local] Existing Instance no_functions.

Lemma declares_nothing c funs : declares (sigs := no_functions) c funs.
Proof. by intros f sg. Qed.

(** The function [fname] of a module, of type [funt], whose first block the builder stands
    in; [m0] is the machine at the start of the block. *)
Section entry.
Context {out : Outside} {world : World}.
Context (k : ctx) (fname : string) (funt : fun_ty) (b : nat) (m0 : machine).

Record standing (m : machine) (s : cg) : Prop := {
  sd_ctx : context_of s = k;
  sd_ip : (if insideLambda s then lambda_ip (theIR s) else main_ip (theIR s)) = Some b;
  sd_parent : block_parent (theIR s) !! b = Some (k, fname);
  sd_func : exists f, functions_of s !! fname = Some f /\ head (f_blocks f) = Some b /\ f_type f = funt;
  sd_code : exists l, blocks (theIR s) !! b = Some l /\ run m0 l = Some m /\
    Forall (fun id => id < next_inst (theIR s)) l.*1;
  sd_start : forall id r, regs m0 !! id = Some r -> id < next_inst (theIR s);
  sd_regs : forall id r, regs m !! id = Some r -> id < next_inst (theIR s);
  sd_mem : forall slot r, mem m !! slot = Some r -> slot < next_inst (theIR s)
}.

(** The module of a closure declares more of the program's functions. *)
Definition borrows (s s' : cg) : Prop := forall f g,
  default ∅ (lambda_module (theIR s')) !! f = Some g ->
  default ∅ (lambda_module (theIR s)) !! f = Some g \/
  exists mg, main_module (theIR s) !! f = Some mg /\ f_type g = f_type mg.

Lemma borrows_nothing s s' : lambda_module (theIR s') = lambda_module (theIR s) -> borrows s s'.
Proof. intros E f g. rewrite E. by left. Qed.

(** Only the code of [b], the names of variables and the declarations of a
    closure's module have changed. *)
Definition extends (s s' : cg) : Prop :=
  s' = set_namedValues (namedValues s')
    (set_ir (ir_set_modules (main_module (theIR s)) (lambda_module (theIR s'))
      (ir_set_code (blocks (theIR s')) (detached (theIR s)) (next_inst (theIR s')) (theIR s))) s) /\
  (forall b', b' <> b -> blocks (theIR s') !! b' = blocks (theIR s) !! b') /\
  next_inst (theIR s) <= next_inst (theIR s') /\ borrows s s'.

#[export] Instance extends_preorder : PreOrder extends.
Proof.
  split.
  - intros s. split_and!; [by destruct s as [? ? ? ? ? ? ? ? ? ? ? ? ? []] | done | done | by apply borrows_nothing].
  - intros s1 s2 s3 (E1 & H1 & N1 & B1) (E2 & H2 & N2 & B2). split_and!; [rewrite E2, E1; done | | by etrans |].
    + intros b' Hb. rewrite H2, H1; done.
    + intros f g Hg. destruct (B2 _ _ Hg) as [H|(mg & Hm & Ht)]; [by apply B1 |]. right. exists mg.
      split; [| done]. rewrite E1 in Hm. exact Hm.
Qed.

(** A computation of the generator and the machine that has run its code. *)
Definition steps {A} (c : M A) (Q : A -> machine -> cg -> Prop) (m : machine) (s : cg) : Prop :=
  standing m s -> exists a s' m',
    c s = (Ok a, s') /\ standing m' s' /\ extends s s' /\ regs m ⊆ regs m' /\ Q a m' s'.

(** ** Rules *)

Lemma steps_ret {A} (a : A) (Q : A -> machine -> cg -> Prop) m s : Q a m s -> steps (mret a) Q m s.
Proof. intros HQ Hs. exists a, s, m. done. Qed.

Lemma steps_bind {A B} (c : M A) (f : A -> M B) P Q m s :
  steps c P m s ->
  (forall a m' s', regs m ⊆ regs m' -> extends s s' -> P a m' s' -> steps (f a) Q m' s') ->
  steps (bind c f) Q m s.
Proof.
  intros Hc Hf Hs. destruct (Hc Hs) as (a & s1 & m1 & E1 & S1 & X1 & R1 & P1).
  destruct (Hf a m1 s1 R1 X1 P1 S1) as (v & s2 & m2 & E2 & S2 & X2 & R2 & Q2).
  exists v, s2, m2. split_and!; [| done | by etrans | by etrans | done].
  by rewrite (bind_eq _ _ _ _ _ E1).
Qed.

Lemma steps_mono {A} (c : M A) (P Q : A -> machine -> cg -> Prop) m s :
  steps c P m s -> (forall a m' s', extends s s' -> regs m ⊆ regs m' -> P a m' s' -> Q a m' s') -> steps c Q m s.
Proof.
  intros Hc HQ Hs. destruct (Hc Hs) as (a & s1 & m1 & E & S & X & R & HP). exists a, s1, m1. auto 6.
Qed.

(** What only reads the state. *)
Lemma steps_read {A B} (c : M A) (f : A -> M B) a Q m s :
  (standing m s -> c s = (Ok a, s)) -> steps (f a) Q m s -> steps (bind c f) Q m s.
Proof. intros Hc Hf Hs. unfold steps in Hf. rewrite (bind_eq _ _ _ _ _ (Hc Hs)). by apply Hf. Qed.

Lemma steps_getContext {B} (f : ctx -> M B) Q m s : steps (f k) Q m s -> steps (bind getContext f) Q m s.
Proof.
  apply steps_read. intros H. unfold getContext, gets. by rewrite (sd_ctx _ _ H).
Qed.

Lemma getParent_at m s : standing m s -> getParent s = (Ok (k, fname), s).
Proof.
  intros H. unfold getParent, getInsertBlock, bind, gets, gets_ir. cbv beta.
  rewrite (sd_ip _ _ H). simpl. unfold gets. by rewrite (sd_parent _ _ H).
Qed.

Lemma getFunc_at f s :
  context_of s = k -> functions_of s !! fname = Some f -> getFunc (k, fname) s = (Ok f, s).
Proof.
  unfold context_of, functions_of, getFunc, bind, gets_ir, gets. simpl.
  destruct (insideLambda s); intros <- Hf; [| by rewrite Hf].
  destruct (lambda_module (theIR s)) as [mo|]; simpl in *; [by rewrite Hf | done].
Qed.

Lemma getFunc_standing m s : standing m s -> exists fn, getFunc (k, fname) s = (Ok fn, s) /\ f_type fn = funt.
Proof.
  intros Hs. destruct (sd_func _ _ Hs) as (fn & Hfn & _ & Hft). exists fn.
  split; [| done]. by apply getFunc_at; [apply (sd_ctx _ _ Hs) |].
Qed.

(** The code that was added writes registers only. *)
Definition quiet (m : machine) (s : cg) (m' : machine) (s' : cg) : Prop :=
  mem m' = mem m /\ around m' = around m /\ namedValues s' = namedValues s.

Lemma quiet_trans m s m1 s1 m2 s2 : quiet m s m1 s1 -> quiet m1 s1 m2 s2 -> quiet m s m2 s2.
Proof. unfold quiet. intuition congruence. Qed.

(** ** Expressions *)

Lemma steps_pure {A} (c : M A) (Q : A -> gmap nat rv -> Prop) m s :
  (forall l0, does k b l0 m (around m) (around m) c Q s (regs m)) ->
  steps c (fun a m' s' => quiet m s m' s' /\ Q a (regs m')) m s.
Proof.
  intros Hc []. destruct sd_code0 as (l0 & Hl & Hr & Hf).
  destruct (Hc l0) as (a & s' & rg & E & A' & R & C & HQ).
  { split; [done | done | | done | apply declares_nothing].
    exists []. rewrite app_nil_r. split_and!; [done | by destruct m | constructor]. }
  destruct (ab_code _ _ _ _ _ _ _ A') as (l & Hl' & Hr' & Hf'). destruct C as (E' & Hother & Hn).
  exists a, s', (mk_machine rg (mem m) (around m)). split_and!; try done; [| | by rewrite E'].
  - split; try (rewrite E'; done); simpl.
    + exists (l0 ++ l). split_and!; [done | by rewrite run_app, Hr |]. rewrite fmap_app. apply Forall_app.
      split; [| done]. eapply Forall_impl; [exact Hf |]. simpl. lia.
    + intros id r Hid. apply sd_start0 in Hid. lia.
    + apply (ab_dom _ _ _ _ _ _ _ A').
    + intros slot r Hs. apply sd_mem0 in Hs. lia.
  - split_and!; [by rewrite E' | done | done | apply borrows_nothing; by rewrite E'].
Qed.

(** ** Instructions *)

Lemma steps_Insert i t m m1 s :
  exec m (next_inst (theIR s), i) = Some m1 -> regs m ⊆ regs m1 ->
  (forall id r, regs m1 !! id = Some r -> id <= next_inst (theIR s)) ->
  (forall slot r, mem m1 !! slot = Some r -> slot <= next_inst (theIR s)) ->
  steps (Insert i t) (fun v m' s' => v = VInst (next_inst (theIR s)) t /\ m' = m1 /\
    namedValues s' = namedValues s) m s.
Proof.
  intros He Hs Hr Hm []. destruct sd_code0 as (l & Hl & Hrun & Hf).
  eexists _, (set_ir (ir_set_code (<[b := l ++ [(next_inst (theIR s), i)]]> (blocks (theIR s)))
    (detached (theIR s)) (S (next_inst (theIR s))) (theIR s)) s), m1.
  split_and!; [| | | done..].
  - unfold Insert, bind, getInsertBlock, gets, gets_ir, modify_ir, modify, mret, SE_ret. cbv beta.
    rewrite sd_ip0. simpl. by rewrite Hl.
  - split; simpl; try done.
    + eexists. rewrite lookup_insert_eq. split_and!; [done | |].
      * rewrite run_app, Hrun. simpl. by rewrite He.
      * rewrite fmap_app. apply Forall_app. split; [| repeat constructor; simpl; lia].
        eapply Forall_impl; [exact Hf |]. simpl. lia.
    + intros id r Hid. apply sd_start0 in Hid. lia.
    + intros id r Hid. apply Hr in Hid. lia.
    + intros slot r Hid. apply Hm in Hid. lia.
  - split_and!; [by destruct s | simpl; intros b' Hb; by rewrite lookup_insert_ne | simpl; lia | by apply borrows_nothing].
Qed.

(** A store, to a slot or to a field of a structure in one. *)
Lemma steps_CreateStore v p t x a me m s :
  holds (regs m) v t x -> holds (regs m) p (TPointer t) a -> write x a (mem m) = Some me ->
  (forall slot, a = RPtr (Some slot) -> is_Some (regs m !! slot) \/ is_Some (mem m !! slot)) ->
  steps (CreateStore v p) (fun _ m' s' => m' = mk_machine (regs m) me (around m) /\
    namedValues s' = namedValues s) m s.
Proof.
  intros [Tv Vv] [Tp Vp] Hw Ha Hs. revert Hs. unfold CreateStore. apply steps_getContext. rewrite Tp, Tv.
  apply (steps_read _ _ tt); [intros _; unfold assert; by rewrite (bool_decide_true (t = t)) |]. intros Hs.
  assert (forall slot r, me !! slot = Some r -> slot <= next_inst (theIR s)) as Hb.
  { intros slot r. destruct a as [| |[slot'|]|slot' i| | |]; simpl in Hw; simplify_eq.
    - intros [[<- _]|[_ H]]%lookup_insert_Some.
      + destruct (Ha _ eq_refl) as [[y Hy]|[y Hy]]; [apply (sd_regs _ _ Hs) in Hy | apply (sd_mem _ _ Hs) in Hy]; lia.
      + apply (sd_mem _ _ Hs) in H. lia.
    - destruct (mem m !! slot') as [[]|] eqn:E; simplify_eq. intros [[<- _]|[_ H]]%lookup_insert_Some.
      + apply (sd_mem _ _ Hs) in E. lia.
      + apply (sd_mem _ _ Hs) in H. lia. }
  revert Hs. intros Hs. eapply steps_mono; [| | exact Hs].
  - apply (steps_Insert _ _ _ (mk_machine (regs m) me (around m))); [| done | | exact Hb].
    + unfold exec. simpl. rewrite Vp. simpl. rewrite Vv. simpl. by rewrite Hw.
    + simpl. intros id r H. apply (sd_regs _ _ Hs) in H. lia.
  - by intros v' m' s' _ _ (_ & -> & ->).
Qed.

(** A call, with what the function leaves outside. *)
Lemma steps_CreateCall f ft args rs r w m s :
  getType <$> args = fparams ft -> mapM (eval_value (regs m)) args = Some rs ->
  called f rs (around m) = Some (r, w) ->
  steps (CreateCall f ft args) (fun v m' s' => namedValues s' = namedValues s /\ mem m' = mem m /\
    around m' = w /\ holds (regs m') v (fret ft) r) m s.
Proof.
  intros Ht Hargs Hr. unfold CreateCall.
  apply (steps_read _ _ tt); [intros _; unfold assert; by rewrite bool_decide_true |]. intros Hs.
  assert (regs m !! next_inst (theIR s) = None) as Hn.
  { apply eq_None_not_Some. intros [x Hx]. apply (sd_regs _ _ Hs) in Hx. lia. }
  eapply steps_mono; [| | exact Hs].
  - apply (steps_Insert _ _ _ (mk_machine (<[next_inst (theIR s) := r]> (regs m)) (mem m) w)).
    + unfold exec, effect. cbn [fst snd]. rewrite Hargs. simpl. by rewrite Hr.
    + simpl. by apply insert_subseteq.
    + simpl. intros id x [[<- _]|[_ H]]%lookup_insert_Some; [lia |]. apply (sd_regs _ _ Hs) in H. lia.
    + simpl. intros slot x H. apply (sd_mem _ _ Hs) in H. lia.
  - intros v m' s' _ _ (-> & -> & N). split_and!; [done | done | done |]. split; [done |].
    simpl. apply lookup_insert_eq.
Qed.

(** A stack variable. *)
Lemma steps_createAlloca t m s :
  isVoidTy t = false ->
  steps (createAlloca (k, fname) t) (fun a m' s' => exists n, a = VInst n (TPointer t) /\
    m' = with_slot n m /\ regs m !! n = None /\ mem m !! n = None /\
    namedValues s' = namedValues s) m s.
Proof.
  intros Ht []. destruct sd_code0 as (l & Hl & Hrun & Hf). destruct sd_func0 as (f & Hfn & Hb & Hft).
  set (n := next_inst (theIR s)).
  assert (forall (g : gmap nat rv), (forall id r, g !! id = Some r -> id < n) -> g !! n = None) as Hfresh.
  { intros g H. apply eq_None_not_Some. intros [x Hx]. apply H in Hx. lia. }
  assert (n ∉ l.*1) as Hn.
  { intros Hin. rewrite Forall_forall in Hf. apply Hf in Hin. unfold n in Hin. lia. }
  destruct (run_with_slot n _ _ _ (Hfresh _ sd_start0) Hn Hrun) as [Hrun' _].
  eexists _, (set_ir (ir_set_code (<[b := (n, IAlloca t) :: l]> (blocks (theIR s)))
    (detached (theIR s)) (S n) (theIR s)) s), (with_slot n m).
  split_and!; [| | | by apply insert_subseteq, Hfresh | by exists n; rewrite !Hfresh].
  - unfold createAlloca. rewrite (bind_eq _ _ s f s) by by apply getFunc_at. rewrite Hb. rewrite (bind_eq _ _ s b s) by done.
    rewrite (bind_eq _ _ s tt s) by (unfold assert; by rewrite Ht).
    unfold bind, gets_ir, gets, modify_ir, modify, mret, SE_ret. simpl. rewrite Hl. reflexivity.
  - split; simpl; try done.
    + by exists f.
    + eexists. rewrite lookup_insert_eq. split_and!; [done | exact Hrun' |]. simpl.
      constructor; [unfold n; lia |]. eapply Forall_impl; [exact Hf |]. simpl. unfold n. lia.
    + intros id r Hid. apply sd_start0 in Hid. unfold n. lia.
    + intros id r [[<- _]|[_ Hid]]%lookup_insert_Some; [lia |]. apply sd_regs0 in Hid. unfold n. lia.
    + intros slot r Hid. apply sd_mem0 in Hid. unfold n. lia.
  - split_and!; [by destruct s | simpl; intros b' Hb'; by rewrite lookup_insert_ne | simpl; unfold n; lia | by apply borrows_nothing].
Qed.

(** What a pointer points to, also a field of a structure. *)
Lemma steps_CreateLoad p t a r m s :
  holds (regs m) p (TPointer t) a -> read t (mem m) a = Some r ->
  steps (CreateLoad p) (fun v m' s' => quiet m s m' s' /\ holds (regs m') v t r) m s.
Proof.
  intros [Tp Vp] Hr. apply (steps_pure _ (fun v rg => holds rg v t r)). intros l0. unfold CreateLoad. rewrite Tp.
  apply total_Insert. simpl. rewrite Vp. simpl. by rewrite Tp.
Qed.

(** The pointer to a structure and the place of a field in it. *)
Record field_at (s : cg) (name x : string) (st i : nat) (ft : ty) : Prop := {
  fa_struct : exists names, structTypes s !! name = Some (st, names) /\ index_of x names = Some i;
  fa_body : exists info tys, structs (theIR s) !! st = Some info /\ st_body info = Some tys /\
    tys !! i = Some ft
}.

Lemma field_at_extends s s' name x st i ft :
  extends s s' -> field_at s name x st i ft -> field_at s' name x st i ft.
Proof. intros [E _] []. rewrite E. by split. Qed.

Lemma steps_getStructField name x var st i ft e fields m s :
  field_at s name x st i ft -> holds (regs m) var (TPointer (TStruct st)) (RPtr (Some e)) ->
  mem m !! e = Some (RStruct fields) -> isVoidTy ft = false ->
  steps (getStructField name x var) (fun o m' s' => quiet m s m' s' /\ exists ld gep,
    o = Some (ld, gep) /\ holds (regs m') gep (TPointer ft) (RField e i) /\ getType ld = ft /\
    forall r, fields i = Some r -> holds (regs m') ld ft r) m s.
Proof.
  intros [(names & Hst & Hi) (info & tys & Hinfo & Hb & Hty)] Hv Hm Hft.
  assert (exists r, read ft (mem m) (RField e i) = Some r /\ forall r', fields i = Some r' -> r = r') as (r & Hr & Hr').
  { simpl. rewrite Hm. destruct (fields i) as [r|]; [exists r; split; [done | congruence] |].
    destruct ft; simpl in *; try done; by eexists. }
  unfold getStructField.
  apply (steps_read _ _ (structTypes s)); [done |]. rewrite Hst, Hi.
  eapply steps_bind; [by apply (steps_CreateLoad _ _ _ (RStruct fields) _ _ Hv) |]. intros v m1 s1 R1 X1 [Q1 _].
  eapply steps_bind.
  { apply (steps_pure _ (fun v rg => holds rg v (TPointer ft) (RField e i))). intros l0. unfold CreateStructGEP. destruct Hv as [Tv Vv]. rewrite Tv.
    apply total_assert_bind; [by apply bool_decide_eq_true |].
    assert (struct_of st s1 = (Ok info, s1)) as Es.
    { unfold struct_of, bind, gets_ir, gets, deref. rewrite (proj1 X1). simpl. by rewrite Hinfo. }
    intros Ha. rewrite (bind_eq _ _ _ _ _ Es). revert Ha. rewrite Hb. simpl. rewrite Hty.
    apply (total_Insert _ _ _ _ _ _ (RField e i)). simpl. by rewrite (eval_value_mono _ _ _ _ R1 Vv). }
  cbv beta. intros gep m2 s2 R2 X2 [Q2 Hg].
  eapply steps_bind.
  { apply (steps_CreateLoad _ _ _ r _ _ Hg). destruct Q1 as [E1 _], Q2 as [E2 _]. by rewrite E2, E1. }
  cbv beta. intros ld m3 s3 R3 X3 [Q3 Hl]. apply steps_ret. split.
  - eapply quiet_trans; [exact Q1 |]. by eapply quiet_trans.
  - exists ld, gep. split_and!; [done | by eapply holds_mono | apply Hl |]. intros r0 Hr0. by rewrite <- (Hr' _ Hr0).
Qed.

(** A terminator ends the block. *)
Lemma standing_terminated i t m s :
  standing m s -> isTerminator i = true -> exists l' s',
    Insert i t s = (Ok (VInst (next_inst (theIR s)) t), s') /\ extends s s' /\
    namedValues s' = namedValues s /\
    blocks (theIR s') !! b = Some l' /\ run_block m0 l' = Some (m, i).
Proof.
  intros [] Hi. destruct sd_code0 as (l & Hl & Hrun & _).
  exists (l ++ [(next_inst (theIR s), i)]), (set_ir (ir_set_code
    (<[b := l ++ [(next_inst (theIR s), i)]]> (blocks (theIR s))) (detached (theIR s))
    (S (next_inst (theIR s))) (theIR s)) s). split_and!.
  - unfold Insert, bind, getInsertBlock, gets, gets_ir, modify_ir, modify, mret, SE_ret. cbv beta.
    rewrite sd_ip0. simpl. by rewrite Hl.
  - split_and!; [by destruct s as [? ? ? ? ? ? ? ? ? ? ? ? ? []] | | simpl; lia | by apply borrows_nothing].
    simpl. intros b' Hb. by rewrite lookup_insert_ne.
  - done.
  - simpl. apply lookup_insert_eq.
  - rewrite (run_block_app _ _ _ _ Hrun). simpl. by rewrite Hi.
Qed.

(** ** Up to a return *)

Lemma standing_justReturned q m s : standing m s -> standing m (set_justReturned q s).
Proof. by intros []. Qed.

Lemma extends_justReturned q s s' : extends s s' -> extends (set_justReturned q s) (set_justReturned q s').
Proof. intros (E & H & N). split; [| done]. exact (f_equal (set_justReturned q) E). Qed.

(** The rest of the code of the block returns an [r], with [w] outside. *)
Definition finishes {A} (c : M A) (P : rv -> Prop) (w : outside) (s : cg) : Prop :=
  exists a s', c s = (Ok a, s') /\ extends (set_justReturned (justReturned s') s) s' /\
    exists r, call_block (blocks (theIR s')) 1 b m0 = Some (r, w) /\ P r.

Lemma finishes_bind {A B} (c : M A) (f : A -> M B) Q P w m s :
  standing m s -> steps c Q m s ->
  (forall a m' s', standing m' s' -> regs m ⊆ regs m' -> extends s s' -> Q a m' s' -> finishes (f a) P w s') ->
  finishes (bind c f) P w s.
Proof.
  intros Hs Hc Hf. destruct (Hc Hs) as (a & s1 & m1 & E1 & S1 & X1 & R1 & P1).
  destruct (Hf a m1 s1 S1 R1 X1 P1) as (v & s2 & E2 & X2 & HR). exists v, s2.
  split_and!; [by rewrite (bind_eq _ _ _ _ _ E1) | | done].
  etrans; [| exact X2]. by apply extends_justReturned.
Qed.

Lemma finishes_read {A B} (c : M A) (f : A -> M B) a P w s :
  c s = (Ok a, s) -> finishes (f a) P w s -> finishes (bind c f) P w s.
Proof. intros Hc. unfold finishes. by rewrite (bind_eq _ _ _ _ _ Hc). Qed.

Lemma finishes_justReturned {B} q (f : unit -> M B) P w s :
  finishes (f tt) P w (set_justReturned q s) -> finishes (bind (modify (set_justReturned q)) f) P w s.
Proof. intros (a & s' & E & X & HR). exists a, s'. by split_and!. Qed.

(** The return itself, before the visitor gives its own result. *)
Lemma finishes_return {B} (c : M value) (g : value -> B) v x P w m s :
  c s = Insert (IRet v) (TVoid k) s ->
  standing m s -> match v with Some v => eval_value (regs m) v = Some x | None => x = RVoid end ->
  around m = w -> P x -> finishes (bind c (fun a => mret (g a))) P w s.
Proof.
  intros Hc Hs Hv Hw HP.
  destruct (standing_terminated (IRet v) (TVoid k) m s Hs eq_refl) as (l' & s' & E & X & _ & Hl & Hr).
  rewrite <- Hc in E. eexists _, s'. split_and!; [by rewrite (bind_eq _ _ _ _ _ E) | | exists x].
  - by rewrite (proj1 X) at 1.
  - simpl. rewrite Hl. simpl. rewrite Hr. simpl. destruct v as [v|]; simpl; [by rewrite Hv, Hw | by subst].
Qed.

Lemma CreateRet_standing v m s : standing m s -> CreateRet v s = Insert (IRet (Some v)) (TVoid k) s.
Proof.
  intros Hs. unfold CreateRet. rewrite (bind_eq _ _ s k s); [done |].
  unfold getContext, gets. by rewrite (sd_ctx _ _ Hs).
Qed.

Lemma CreateRetVoid_standing m s : standing m s -> CreateRetVoid s = Insert (IRet None) (TVoid k) s.
Proof.
  intros Hs. unfold CreateRetVoid. rewrite (bind_eq _ _ s k s); [done |].
  unfold getContext, gets. by rewrite (sd_ctx _ _ Hs).
Qed.
End entry.
