(* ===== verification/Closure.v ===== *)
(** The closure of a statement in a commit group: its code copies the
    environment it is given into stack variables of its own, evaluates the
    right side of the statement, or makes the call that the statement is, and
    returns. *)

From S2P Require Import Prelude Ast IR State Builder CodeGenBase CodeGenExpr CodeGenStmt.
From S2P Require Import CodeGenBlock Machine ExprLogic ExprCorrect Flow EntryCode.

#[local] Existing Instance no_functions.

(** A variable of an environment: its name, its type, the register it was
    stored from. *)
Abbreviation captured := (string * (ty * rv))%type.

Definition names_of (vars : list captured) : list string := vars.*1.
Definition types_of (vars : list captured) : list ty := (fun p => p.2.1) <$> vars.

Definition capturable (p : captured) : Prop := isVoidTy p.2.1 = false.

(** The struct type of an environment. *)
Record environment_type (s : cg) (st : nat) (vars : list captured) : Prop := {
  et_struct : structTypes s !! "env" = Some (st, names_of vars);
  et_body : exists info, structs (theIR s) !! st = Some info /\ st_body info = Some (types_of vars);
  et_names : NoDup (names_of vars);
  et_types : Forall capturable vars
}.

(** The structure holds the variables. *)
Definition filled (fields : nat -> option rv) (vars : list captured) : Prop :=
  forall i p, vars !! i = Some p -> fields i = Some p.2.2.

Lemma environment_field s st vars i p :
  environment_type s st vars -> vars !! i = Some p -> field_at s "env" p.1 st i p.2.1.
Proof.
  intros [] Hp. destruct et_body0 as (info & Hi & Hb). split.
  - exists (names_of vars). split; [done |]. apply index_of_Some. unfold names_of in *.
    assert (vars.*1 !! i = Some p.1) as Hx by by rewrite list_lookup_fmap, Hp.
    split; [done |]. intros j Hj Hxj. pose proof (proj1 (NoDup_alt _) et_names0 _ _ _ Hx Hxj). lia.
  - exists info, (types_of vars). split_and!; [done | done |]. unfold types_of. by rewrite list_lookup_fmap, Hp.
Qed.

Lemma environment_type_extends b s s' st vars :
  extends b s s' -> environment_type s st vars -> environment_type s' st vars.
Proof. intros [E _] []. rewrite E. by split. Qed.

Section closure.
Context {out : Outside} {world : World}.
Context (k : ctx) (fname : string) (funt : fun_ty) (b : nat) (m0 : machine).
Local Abbreviation steps := (steps k fname funt b m0).
Local Abbreviation extends := (extends b).

(** The variable [x] is a slot that holds [r]. *)
Definition variable_at (m : machine) (s : cg) (x : string) (t : ty) (r : rv) : Prop :=
  exists n, namedValues s !! x = Some (Some (VInst n (TPointer t))) /\
    regs m !! n = Some (RPtr (Some n)) /\ mem m !! n = Some r.

Lemma variable_at_mono m s m' s' x t r :
  regs m ⊆ regs m' -> mem m ⊆ mem m' -> namedValues s' !! x = namedValues s !! x ->
  variable_at m s x t r -> variable_at m' s' x t r.
Proof.
  intros Hr Hm Hn (n & H1 & H2 & H3). exists n. rewrite Hn. split_and!; [done | |]; by eapply lookup_weaken.
Qed.

Lemma steps_named x v m s :
  namedValues s !! x = None ->
  steps (namedValues_insert x v) (fun _ m' s' => m' = m /\
    namedValues s' = <[x := Some v]> (namedValues s)) m s.
Proof.
  intros Hx []. exists tt, (set_namedValues (<[x := Some v]> (namedValues s)) s), m.
  split_and!; try done; [by unfold namedValues_insert, modify; rewrite Hx |].
  split_and!; [by destruct s as [? ? ? ? ? ? ? ? ? ? ? ? ? []] | done | done | by apply borrows_nothing].
Qed.

(** A new stack variable, its value and its name. *)
Lemma steps_local x v t r m s {B} (c : M B) Q :
  holds (regs m) v t r -> isVoidTy t = false -> namedValues s !! x = None ->
  (forall m' s', extends s s' -> mem m ⊆ mem m' -> regs m ⊆ regs m' -> around m' = around m ->
    (forall y, y <> x -> namedValues s' !! y = namedValues s !! y) -> variable_at m' s' x t r ->
    steps c Q m' s') ->
  steps (a <- createAlloca (k, fname) (getType v) ;; CreateStore v a ;; namedValues_insert x a ;; c) Q m s.
Proof.
  intros Hv Ht Hx Hf. destruct Hv as [Tv Vv]. rewrite Tv.
  eapply steps_bind; [by apply steps_createAlloca |].
  intros a m1 s1 R1 X1 (n & -> & -> & Hn & Hm & N1).
  eapply steps_bind.
  { eapply (steps_CreateStore _ _ _ _ _ v (VInst n (TPointer t)) t r (RPtr (Some n)) (<[n := r]> (mem m))).
    - split; [done | by eapply eval_value_mono].
    - split; [done |]. simpl. apply lookup_insert_eq.
    - done.
    - intros slot [= <-]. left. simpl. rewrite lookup_insert_eq. by eexists. }
  intros ? m2 s2 R2 X2 [-> N2].
  eapply steps_bind; [apply steps_named; by rewrite N2, N1 |]. intros [] m3 s3 R3 X3 [-> N3].
  apply Hf.
  - etrans; [exact X1 |]. by etrans.
  - simpl. by apply insert_subseteq.
  - done.
  - done.
  - intros y Hy. by rewrite N3, lookup_insert_ne, N2, N1.
  - exists n. rewrite N3. simpl. by rewrite !lookup_insert_eq.
Qed.

(** * The copies of the environment *)

Lemma steps_bind_environment st e ea fields vars envAlloca :
  filled fields vars ->
  forall rest pre m s, vars = pre ++ rest -> environment_type s st vars ->
  holds (regs m) envAlloca (TPointer (TPointer (TStruct st))) (RPtr (Some ea)) ->
  mem m !! ea = Some (RPtr (Some e)) -> mem m !! e = Some (RStruct fields) ->
  Forall (fun x => namedValues s !! x = None) (names_of rest) ->
  steps (bind_environment (k, fname) envAlloca (names_of rest)) (fun _ m' s' =>
    mem m ⊆ mem m' /\ around m' = around m /\
    (forall y, y ∉ names_of rest -> namedValues s' !! y = namedValues s !! y) /\
    Forall (fun p => variable_at m' s' p.1 p.2.1 p.2.2) rest) m s.
Proof.
  intros Hf rest. induction rest as [|[x [t r]] rest IH]; intros pre m s -> Het Ha Hea He Hfree.
  { apply steps_ret. done. }
  assert ((pre ++ (x, (t, r)) :: rest) !! length pre = Some (x, (t, r))) as Hi by by apply list_lookup_middle.
  pose proof (environment_field _ _ _ _ _ Het Hi) as Hfield. simpl in Hfield.
  pose proof (et_types _ _ _ Het) as Hty. rewrite Forall_forall in Hty.
  specialize (Hty _ (list_elem_of_lookup_2 _ _ _ Hi)). unfold capturable in Hty. simpl in Hty.
  simpl in Hfree. apply Forall_cons in Hfree as [Hx Hfree]. simpl.
  eapply steps_bind; [by eapply (steps_CreateLoad _ _ _ _ _ _ _ (RPtr (Some ea)) (RPtr (Some e))) |].
  intros env m1 s1 R1 X1 [(M1 & A1 & N1) Henv].
  eapply steps_bind.
  { eapply steps_getStructField; [by eapply field_at_extends | exact Henv | by rewrite M1 | done]. }
  intros o m2 s2 R2 X2 [(M2 & A2 & N2) (ld & gep & -> & _ & Tl & Hl)].
  specialize (Hl _ (Hf _ _ Hi)). simpl in Hl.
  apply (steps_read _ _ _ _ _ _ _ ld); [done |].
  eapply steps_local; [exact Hl | done | by rewrite N2, N1 |].
  intros m3 s3 X3 M3 R3 A3 N3 V3.
  assert (extends s s3) as X by (etrans; [exact X1 |]; by etrans).
  assert (mem m ⊆ mem m3) as M by (rewrite <- M1, <- M2; done).
  assert (regs m ⊆ regs m3) as R by (etrans; [exact R1 |]; by etrans).
  assert (NoDup (x :: names_of rest)) as [Hx' _]%NoDup_cons.
  { pose proof (et_names _ _ _ Het) as H. unfold names_of in *. rewrite fmap_app in H.
    by apply NoDup_app in H as (_ & _ & H). }
  eapply steps_mono.
  { eapply (IH (pre ++ [(x, (t, r))])).
    - by rewrite <- app_assoc.
    - by eapply environment_type_extends.
    - by eapply holds_mono.
    - by eapply lookup_weaken.
    - by eapply lookup_weaken.
    - rewrite Forall_forall in Hfree |- *. intros y Hy. rewrite N3, N2, N1; [by apply Hfree |]. by intros ->. }
  intros [] m' s' X' R' (M' & A' & N' & V'). split_and!.
  - by etrans.
  - congruence.
  - intros y [Hy Hy']%not_elem_of_cons. rewrite N' by done. by rewrite N3, N2, N1.
  - constructor; [| done]. simpl. eapply variable_at_mono; [exact R' | exact M' | by apply N' | exact V3].
Qed.
End closure.

(** * Inside the function of a closure *)

Definition env_argument : ty := TPointer (TInt LambdaCtx 64).

Definition closure_type (tr : fty) : fun_ty := mk_fun_ty (llvm_type tr LambdaCtx) [env_argument].

(** The state in which the body of the closure is begun. *)
Definition opened (fname : string) (tr : fty) (s : cg) : cg :=
  let i := theIR s in
  let b := next_block i in
  set_namedValues ∅ (set_insideLambda true (set_ir
    (mk_ir (main_module i) (Some (<[fname := mk_func (closure_type tr) ["e0"] [b]]> ∅))
      (structs i) (struct_rename i) (<[b := []]> (blocks i)) (<[b := (LambdaCtx, fname)]> (block_parent i))
      (detached i) (S b) (next_inst i) (main_ip i) (Some b) (jitted i)) s)).

Definition keyword_of (tr : fty) : string :=
  match tr with FkFloat => "float" | FkVoid => "void" | _ => "int" end.

Definition closure_returns (tr : fty) : bool := match tr with FkBool => false | _ => true end.

Lemma compile_closure_opened fname tr visit_block s :
  closure_returns tr = true -> insideLambda s = false -> lambdaKeyword s = Some (keyword_of tr) ->
  compile_closure fname visit_block s =
    bind (bind (closure_prologue (LambdaCtx, fname) (mk_func (closure_type tr) ["e0"] []))
      (fun _ => visit_block)) (fun _ => modify (set_insideLambda false)) (opened fname tr s).
Proof.
  intros Htr Hl Hk. unfold compile_closure. set (i := theIR s).
  set (s1 := set_insideLambda true s). set (s2 := set_ir (ir_set_ip (main_ip i) None (ir_set_modules (main_module i) (Some ∅) i)) s1).
  rewrite (bind_eq _ _ s tt s1), (bind_eq _ _ s1 tt s2), (bind_eq _ _ s2 (Some (keyword_of tr)) s2)
    by (unfold gets; simpl; by rewrite ?Hk).
  rewrite (bind_eq _ _ s2 (keyword_of tr) s2) by done.
  apply bind_at. unfold visitFunctionDefinition. rewrite (bind_eq _ _ s2 None s2) by done.
  set (f := mk_func (closure_type tr) ["e0"] []).
  set (s3 := set_ir (ir_set_modules (main_module i) (Some (<[fname := f]> ∅)) (theIR s2)) s2).
  rewrite (bind_eq _ _ s2 (Some f) s3) by (by destruct tr). simpl.
  rewrite (bind_eq _ _ s3 LambdaCtx s3) by done.
  set (s4 := opened fname tr s).
  set (s5 := set_namedValues (namedValues s) (set_ir (ir_set_ip (main_ip i) None (theIR s4)) s4)).
  set (s6 := set_namedValues (namedValues s) s4).
  rewrite (bind_eq _ _ s3 (next_block i) s5).
  2: { unfold new_block_in, new_block, push_block, bind, gets_ir, gets, modify_ir, modify, mret, SE_ret. simpl.
       unfold s5, s4, opened, set_namedValues, set_insideLambda, set_ir, ir_set_modules, ir_set_ip. simpl.
       unfold alter, map_alter. by rewrite partial_alter_insert, decide_True by done. }
  rewrite (bind_eq _ _ s5 tt s6), (bind_eq _ _ s6 tt s4), (bind_eq _ _ s4 true s4) by done.
  done.
Qed.


Section inside.
Context {out : Outside} {world : World}.
Context (fname : string) (tr : fty) (b : nat) (m0 : machine).
Local Abbreviation standing := (standing LambdaCtx fname (closure_type tr) b m0).
Local Abbreviation steps := (steps LambdaCtx fname (closure_type tr) b m0).
Local Abbreviation finishes := (finishes b m0).

Lemma opened_standing s w me :
  (forall slot r, me !! slot = Some r -> slot < next_inst (theIR s)) ->
  b = next_block (theIR s) -> m0 = mk_machine ∅ me w ->
  standing m0 (opened fname tr s).
Proof.
  intros Hme -> ->. split; simpl; try done.
  - by rewrite lookup_insert_eq.
  - eexists. unfold functions_of. simpl. rewrite lookup_insert_eq. by split_and!.
  - exists []. rewrite lookup_insert_eq. by split_and!.
Qed.

(** The start of the function makes the variables. *)
Lemma steps_prologue st e fields vars m s :
  environment_type s st vars -> filled fields vars -> "e0" ∉ names_of vars ->
  arguments !! 0 = Some (RPtr (Some e)) -> mem m !! e = Some (RStruct fields) -> namedValues s = ∅ ->
  steps (closure_prologue (LambdaCtx, fname) (mk_func (closure_type tr) ["e0"] [])) (fun _ m' s' =>
    mem m ⊆ mem m' /\ around m' = around m /\
    Forall (fun p => variable_at m' s' p.1 p.2.1 p.2.2) vars) m s.
Proof.
  intros Het Hf He0 Harg He Hn. unfold closure_prologue. simpl.
  apply (steps_read _ _ _ _ _ _ _ env_argument); [done |].
  apply (steps_read _ _ _ _ _ _ _ "e0"); [done |].
  apply (steps_read _ _ _ _ _ _ _ (structTypes s)); [done |].
  rewrite (et_struct _ _ _ Het). apply (steps_read _ _ _ _ _ _ _ (st, names_of vars)); [done |].
  cbn [fst snd]. set (envPtr := TPointer (TStruct st)).
  eapply steps_bind; [by apply steps_createAlloca |].
  intros envAlloca m1 s1 R1 X1 (n & -> & -> & Hn1 & Hm1 & N1).
  eapply steps_bind.
  { apply (steps_pure _ _ _ _ _ _ (fun v rg => holds rg v envPtr (RPtr (Some e)))). intros l0.
    unfold CreateBitOrPointerCast. rewrite bool_decide_false by done. simpl.
    apply (total_CreateCast _ _ _ _ _ _ env_argument _ (RPtr (Some e))); [by split | done..]. }
  intros environ m2 s2 R2 X2 [(M2 & A2 & N2) Hv].
  assert (regs m2 !! n = Some (RPtr (Some n))) as Hr2.
  { eapply lookup_weaken; [| exact R2]. simpl. apply lookup_insert_eq. }
  eapply steps_bind.
  { eapply (steps_CreateStore _ _ _ _ _ environ (VInst n (TPointer envPtr)) envPtr (RPtr (Some e)) (RPtr (Some n))
      (<[n := RPtr (Some e)]> (mem m2)) m2 s2); [done | by split | done |]. intros slot [= <-]. left. by eexists. }
  intros ? m3 s3 R3 X3 [-> N3].
  eapply steps_bind; [apply steps_named; by rewrite N3, N2, N1, Hn |]. intros [] m4 s4 R4 X4 [-> N4].
  assert (mem m ⊆ <[n := RPtr (Some e)]> (mem m2)) as M.
  { rewrite M2. simpl. by apply insert_subseteq. }
  eapply steps_mono.
  { eapply (steps_bind_environment _ _ _ _ _ st e n fields vars _ Hf vars []); simpl.
    - done.
    - do 4 (eapply environment_type_extends; [eassumption |]). done.
    - by split.
    - apply lookup_insert_eq.
    - by eapply lookup_weaken.
    - rewrite N4, N3, N2, N1, Hn. apply Forall_forall. intros x Hx.
      rewrite lookup_insert_ne, lookup_empty by (by intros <-). done. }
  intros _ m' s' X' R' (M' & A' & _ & V'). simpl in M', A'. split_and!; [by etrans | by rewrite A', A2 | done].
Qed.

(** The variables of [G] are among the captured ones. *)
Definition captures (G : string -> option fty) (env : string -> option fval) (vars : list captured) : Prop :=
  forall y t, G y = Some t -> exists c r z, (y, (llvm_type t c, r)) ∈ vars /\ env y = Some z /\ encodes t z r.

Definition any_context (c : ctx) : ctx := c.

Lemma captured_variables G env vars m s :
  captures G env vars -> Forall (fun p => variable_at m s p.1 p.2.1 p.2.2) vars ->
  variables_hold any_context m G env s (regs m).
Proof.
  intros Hc Hv y t Hy. destruct (Hc y t Hy) as (c & r & z & Hin & Hz & He).
  rewrite Forall_forall in Hv. destruct (Hv _ Hin) as (n & Hn & Hr & Hm).
  exists (VInst n (TPointer (llvm_type t c))), c, n, r, z. by split_and!.
Qed.

(** An expression without calls leaves the outside alone. *)
Lemma call_free_outside env e w z w' : fk_eval env e w = Some (z, w') -> w' = w.
Proof.
  revert w z w'. induction e as [v|d|n|op e IH|l op r IHl IHr|f args IH| |x off fld _|x off _|x f]
    using expr_nested_ind; intros w z w' H; simpl in H; simplify_eq; try done.
  - by apply bind_Some in H as (? & _ & [= _ <-]).
  - apply bind_Some in H as ([? ?] & H1 & H). apply bind_Some in H as (? & _ & [= _ <-]). by eapply IH.
  - apply bind_Some in H as (? & _ & H). apply bind_Some in H as ([? ?] & H1 & H).
    apply bind_Some in H as ([? ?] & H2 & H). apply bind_Some in H as (? & _ & [= _ <-]).
    apply IHl in H1 as ->. by eapply IHr.
  - by apply bind_Some in H as ([? ?] & _ & H).
Qed.
End inside.
