(* ===== verification/ClosureBody.v ===== *)
(** What the function of a closure returns: the value of the right side of an
    assignment, or nothing behind a call. *)

From S2P Require Import Prelude Ast IR State Builder CodeGenBase CodeGenExpr CodeGenStmt.
From S2P Require Import CodeGenBlock Machine ExprLogic ExprCorrect Source SourceFacts Flow EntryCode Closure.

#[local] Existing Instance no_functions.

(** The generator returns a value only when its type is that of the function
    in the context of closures: what is read from a variable has the type of
    the program's context instead. *)
Definition result_fits (tr te : fty) (e : expr) : bool :=
  match tr, te with
  | FkInt, FkInt | FkFloat, FkFloat => owned e
  | FkFloat, FkInt => true
  | _, _ => false
  end.

Section body.
Context {out : Outside} {world : World}.
Context (fname : string) (tr : fty) (b : nat) (m0 : machine).
Local Abbreviation standing := (standing LambdaCtx fname (closure_type tr) b m0).
Local Abbreviation steps := (steps LambdaCtx fname (closure_type tr) b m0).
Local Abbreviation finishes := (finishes b m0).
Context (G : string -> option fty) (env : string -> option fval).
Local Abbreviation variables_hold := (variables_hold any_context).

(** The value of an expression, of a type that the function can return. *)
Lemma steps_result e te z w' m s :
  variables_hold m G env s (regs m) -> type_of G e = Some te -> result_fits tr te e = true ->
  fk_eval env e (around m) = Some (z, w') ->
  steps (visit e) (fun o m' s' => around m' = around m /\ exists v c r,
    o = Some v /\ holds (regs m') v (llvm_type te c) r /\ encodes te z r /\
    (te = tr -> c = LambdaCtx)) m s.
Proof.
  intros Hv Ht Hf Hz. pose proof (call_free_outside _ _ _ _ _ Hz) as ->.
  destruct (owned e) eqn:Ho.
  - eapply steps_mono.
    + apply (steps_pure _ _ _ _ _ _ (some_built any_context LambdaCtx te z)). intros l0.
      by eapply (total_visit_built any_context LambdaCtx).
    + intros o m' s' _ _ [(_ & A & _) (v & -> & r & Hh & He)]. split; [done |]. by exists v, LambdaCtx, r.
  - eapply steps_mono.
    + apply (steps_pure _ _ _ _ _ _ (some_typed any_context te z)). intros l0.
      by eapply (total_visit any_context LambdaCtx).
    + intros o m' s' _ _ [(_ & A & _) (v & -> & c & r & Hh & He)]. split; [done |]. exists v, c, r.
      split_and!; try done. intros ->. by destruct tr; simpl in Hf; rewrite ?Ho in Hf.
Qed.

Lemma finishes_value e te z w' m s :
  standing m s -> variables_hold m G env s (regs m) ->
  type_of G e = Some te -> result_fits tr te e = true -> fk_eval env e (around m) = Some (z, w') ->
  finishes (visitReturnStatement (Some e)) (encodes tr (conv tr z)) w' s.
Proof.
  intros Hs Hv Ht Hf Hz. pose proof (call_free_outside _ _ _ _ _ Hz) as E.
  destruct (getFunc_standing _ _ _ _ _ _ _ (standing_justReturned _ _ _ _ _ true _ _ Hs)) as (fn & Ef & Tf).
  unfold visitReturnStatement. eapply finishes_read; [by eapply getParent_at |].
  apply finishes_justReturned. eapply finishes_read; [exact Ef |].
  unfold getFuncRetType. rewrite Tf. cbv zeta. simpl fret.
  eapply finishes_bind; [by apply standing_justReturned | by eapply steps_result |].
  intros o m1 s1 S1 R1 X1 (A1 & v & c & r & -> & Hh & He & Hc). pose proof Hh as [Tv Vv]. rewrite Tv.
  destruct (decide (te = tr)) as [->|Hne].
  - rewrite (Hc eq_refl). assert (isVoidTy (llvm_type tr LambdaCtx) = false) as -> by by destruct tr.
    cbn [andb]. rewrite bool_decide_true by done.
    eapply finishes_return; [by eapply CreateRet_standing | exact S1 | exact Vv | congruence |].
    by destruct tr, z.
  - destruct tr, te; try done. cbn [llvm_type isVoidTy isIntegerTy isDoubleTy andb].
    rewrite bool_decide_false by done.
    destruct z as [n| |]; [| done..]. destruct He as [-> Hn].
    eapply finishes_bind; [exact S1 | |].
    + apply (steps_pure _ _ _ _ _ _ (fun v rg => holds rg v (TDouble LambdaCtx) (RFloat (of_int n)))).
      intros l0. by eapply total_castIntToFloat.
    + intros v' m2 s2 S2 R2 X2 [(_ & A2 & _) [_ Vv']].
      eapply finishes_return; [by eapply CreateRet_standing | exact S2 | exact Vv' | congruence | done].
Qed.

(** ** A call

    The function is declared in the module of the closure with the type it
    has in the program's context. *)

Lemma call_free_outside_list es w zs w' : eval_list (fk_eval env) es w = Some (zs, w') -> w' = w.
Proof.
  revert w zs w'. induction es as [|e es IH]; intros w zs w' H; simpl in H; [by simplify_eq |].
  apply bind_Some in H as ([z w1] & He & H). apply bind_Some in H as ([zs' w2] & Hes & [= _ <-]).
  apply call_free_outside in He as ->. by eapply IH.
Qed.

Lemma steps_declare f mg ft names m s :
  f <> fname -> main_module (theIR s) !! f = Some mg -> f_type mg = ft ->
  steps (Function_Create ft f names) (fun g m' s' => g = mk_func ft names [] /\ m' = m /\
    namedValues s' = namedValues s) m s.
Proof.
  intros Hne Hmg Hft Hs. pose proof (sd_ctx _ _ _ _ _ _ _ Hs) as Hc. unfold context_of in Hc.
  destruct (insideLambda s) eqn:Hl; [| done].
  destruct (sd_func _ _ _ _ _ _ _ Hs) as (fn & Hfn & Hfn'). unfold functions_of in Hfn. rewrite Hl in Hfn.
  destruct (lambda_module (theIR s)) as [mo|] eqn:Hmo; [| done]. simpl in Hfn.
  set (g := mk_func ft names []).
  set (s' := set_ir (ir_set_modules (main_module (theIR s)) (Some (<[f := g]> mo)) (theIR s)) s).
  exists g, s', m. split_and!; try done.
  - unfold Function_Create, getModule, setModule, bind, gets, modify_ir, modify, mret, SE_ret. simpl.
    rewrite Hl. simpl. rewrite Hmo. simpl. by rewrite Hl.
  - destruct Hs. unfold functions_of in sd_func. split; simpl; try done.
    + exists fn. unfold functions_of. simpl. rewrite Hl. simpl. by rewrite lookup_insert_ne.
  - unfold extends. split_and!; [by destruct s as [? ? ? ? ? ? ? ? ? ? ? ? ? []] | done | done |].
    intros f' g'. simpl. intros [[<- <-]|[_ H]]%lookup_insert_Some; [right; by exists mg | left; by rewrite Hmo].
Qed.

Lemma steps_call f sg args tes zs w w' m s :
  f <> fname -> (forall g, functions_of s !! f = Some g -> f_type g = fun_type sg MainCtx) ->
  (exists g, main_module (theIR s) !! f = Some g /\ f_type g = fun_type sg MainCtx) ->
  variables_hold m G env s (regs m) ->
  mapM (type_of G) args = Some tes -> pass_all sg.1 tes = true ->
  Forall2 (converts any_context LambdaCtx MainCtx) sg.1 tes ->
  eval_list (fk_eval env) args (around m) = Some (zs, w) ->
  (forall rs, Forall3 encodes sg.1 (zip_with conv sg.1 zs) rs ->
    exists r, called f rs (around m) = Some (r, w')) ->
  steps (visitFunctionCall f (visit <$> args)) (fun _ m' _ => around m' = w') m s.
Proof.
  intros Hne Hsome (g & Hg & Tg) Hv Ht Hp Hcv Hz Hcall Hs.
  pose proof (call_free_outside_list _ _ _ _ Hz) as ->.
  pose proof (sd_ctx _ _ _ _ _ _ _ Hs) as Hc. unfold context_of in Hc.
  destruct (insideLambda s) eqn:Hl; [| done]. revert Hs. unfold visitFunctionCall.
  apply (steps_read _ _ _ _ _ _ _ (functions_of s !! f)).
  { intros Hs. unfold getFunction, getModule, functions_of, bind, gets. simpl. rewrite Hl.
    destruct (sd_func _ _ _ _ _ _ _ Hs) as (fn & Hfn & _). unfold functions_of in Hfn. rewrite Hl in Hfn.
    by destruct (lambda_module (theIR s)). }
  apply (steps_read _ _ _ _ _ _ _ true); [intros _; unfold gets; by rewrite Hl |].
  eapply (steps_bind _ _ _ _ _ _ _ (fun o m' s' => m' = m /\ namedValues s' = namedValues s /\
    exists g', o = Some g' /\ f_type g' = fun_type sg MainCtx)).
  { destruct (functions_of s !! f) as [g'|]; [apply steps_ret; split_and!; [done | done |]; exists g'; auto |].
    apply (steps_read _ _ _ _ _ _ _ (Some g)); [intros _; unfold gets_ir, gets; by rewrite Hg |].
    apply (steps_read _ _ _ _ _ _ _ g); [done |].
    eapply steps_bind; [by eapply steps_declare |]. intros g' m1 s1 _ _ (-> & -> & N1).
    apply steps_ret. split_and!; [done | done |]. by eexists. }
  cbv beta. intros ? m1 s1 _ X1 (-> & N1 & g' & -> & Tg'). rewrite Tg'. cbn [fun_type fparams].
  rewrite bool_decide_true.
  2: { rewrite !length_fmap, <- (pass_all_length _ _ Hp). symmetry. by apply length_mapM in Ht. }
  cbn [negb]. assert (variables_hold m G env s1 (regs m)) as Hv1.
  { intros y t Hy. rewrite N1. by apply Hv. }
  eapply steps_bind.
  { apply (steps_pure _ _ _ _ _ _ (fun o rg => exists vs rs, o = Some vs /\
      Forall3 (fun t v r => holds rg v (llvm_type t MainCtx) r) sg.1 vs rs /\
      Forall3 encodes sg.1 (zip_with conv sg.1 zs) rs)). intros l0.
    eapply (total_visitArguments any_context LambdaCtx); [| exact Hcv | done..].
    apply Forall_true. intros e t z u u' s2 rg Hte Hze Hve. by eapply (total_visit any_context LambdaCtx). }
  cbv beta. intros ? m2 s2 R2 X2 [(M2 & A2 & N2) (vs & rs & -> & Hvs & Hrs)].
  destruct (Hcall rs Hrs) as (r & Hr). unfold some.
  assert (getType <$> vs = (fun t => llvm_type t MainCtx) <$> sg.1 /\ mapM (eval_value (regs m2)) vs = Some rs) as [Hvt Hvm].
  { clear -Hvs. induction Hvs as [|t v r ts vs rs [Ht Hr] _ [IH1 IH2]]; [done |]. simpl.
    split; [by f_equal | by rewrite Hr; simpl; rewrite IH2]. }
  rewrite <- A2 in Hr.
  eapply steps_bind; [by apply (steps_CreateCall _ _ _ _ _ f (fun_type sg MainCtx) vs rs r w') |].
  cbv beta. intros v m3 s3 _ _ (_ & _ & A3 & _). by apply steps_ret.
Qed.

Lemma finishes_nothing w m s :
  tr = FkVoid -> standing m s -> around m = w ->
  finishes (visitReturnStatement None) (fun r => r = RVoid) w s.
Proof.
  intros -> Hs Hw.
  destruct (getFunc_standing _ _ _ _ _ _ _ (standing_justReturned _ _ _ _ _ true _ _ Hs)) as (fn & Ef & Tf).
  unfold visitReturnStatement. eapply finishes_read; [by eapply getParent_at |].
  apply finishes_justReturned. eapply finishes_read; [exact Ef |].
  unfold getFuncRetType. rewrite Tf. simpl. unfold some.
  apply (standing_justReturned _ _ _ _ _ true) in Hs.
  eapply (finishes_return _ _ _ _ _ CreateRetVoid Some None RVoid); [by eapply CreateRetVoid_standing | done..].
Qed.
End body.

(** * Statements of a group *)

Section grouped.
Context {sigs : Signatures} {out : Outside}.

(** The world of expressions without calls. *)
Definition call_free (world : World) : World (sigs := no_functions).
Proof.
  refine {| world_running := world_running; world_meaning := world_meaning;
            same_undefined := same_undefined; undefined_fits := undefined_fits |}.
  done.
Defined.

(** The statements whose closures are followed, with what their closures
    return: assignments of expressions without calls, such expressions alone,
    and calls with such expressions.  No int is passed for a double: the
    generator would cast it to the type of the wrong context. *)
Definition type_discarded (G : string -> option fty) (e : expr) : option fty :=
  match e with
  | FunctionCall f args =>
      tes ← mapM (type_of (sigs := no_functions) G) args; sg ← signature_of f;
      if pass_all sg.1 tes && forallb (fun p => negb (bool_decide (p = (FkFloat, FkInt)))) (zip sg.1 tes)
      then Some sg.2 else None
  | _ => type_of (sigs := no_functions) G e
  end.

Definition type_grouped (G : string -> option fty) (st : stmt) : option fty :=
  match st with
  | AssignStatement _ (Identifier x) e =>
      t ← G x; te ← type_of (sigs := no_functions) G e; if result_fits t te e then Some t else None
  | ExpressionStatement _ e => _ ← type_discarded G e; Some FkVoid
  | _ => None
  end.

(** What a closure gives: the value to be assigned, or nothing. *)
Definition fk_grouped {meaning : Meaning} (env : string -> option fval) (st : stmt) (w : outside) :
    option (fval * outside) :=
  match st with
  | AssignStatement _ _ e => fk_eval env e w
  | ExpressionStatement _ e => '(z, w') ← fk_eval env e w; Some (VU, w')
  | _ => None
  end.

Lemma call_free_eval {meaning : Meaning} G env e t w :
  type_of (sigs := no_functions) G e = Some t -> fk_eval env e w = fk_eval (sigs := no_functions) env e w.
Proof.
  revert t w. induction e as [v|d|n|op e IH|l op r IHl IHr|f args IH| |x off fld _|x off _|x f]
    using expr_nested_ind; intros t w H; simpl in H |- *; try done.
  - apply bind_Some in H as (te & He & _). by rewrite (IH _ _ He).
  - apply bind_Some in H as (o & -> & H). apply bind_Some in H as (tl & Hl & H).
    apply bind_Some in H as (tr & Hr & _). simpl. rewrite (IHl _ _ Hl).
    destruct (fk_eval (sigs := no_functions) env l w) as [[a w1]|]; [| done]. simpl. by rewrite (IHr _ _ Hr).
  - by apply bind_Some in H as (tes & _ & H).
Qed.

Lemma call_free_eval_list {meaning : Meaning} G env es tes w :
  mapM (type_of (sigs := no_functions) G) es = Some tes ->
  eval_list (fk_eval env) es w = eval_list (fk_eval (sigs := no_functions) env) es w.
Proof.
  revert tes w. induction es as [|e es IH]; intros tes w H; [done |]. simpl in H |- *.
  apply bind_Some in H as (te & He & H). apply bind_Some in H as (tes' & Hes & _).
  rewrite (call_free_eval _ _ _ _ _ He). destruct (fk_eval (sigs := no_functions) env e w) as [[z w1]|]; [| done].
  simpl. by rewrite (IH _ _ Hes).
Qed.

Lemma converts_main ts tes :
  pass_all ts tes = true -> forallb (fun p => negb (bool_decide (p = (FkFloat, FkInt)))) (zip ts tes) = true ->
  Forall2 (converts any_context LambdaCtx MainCtx) ts tes.
Proof.
  revert tes. induction ts as [|t ts IH]; intros [|te tes]; simpl; try done.
  intros [H1 H2]%andb_true_iff [H3 H4]%andb_true_iff. constructor; [| by apply IH].
  right. intros ->. apply negb_true_iff, bool_decide_eq_false in H3. by destruct te.
Qed.

(** What the generator makes the function of a closure of. *)
Definition closure_statements (st : stmt) (visit_statement : M (option value)) :
    list (stmt * M (option value)) :=
  let v := (LambdaReconVisitor.accept st LambdaReconVisitor.new).2 in
  (match LambdaReconVisitor.getLHS v with None => [(st, visit_statement)] | Some _ => [] end) ++
  [(ReturnStatement (LambdaReconVisitor.getRHS v), visitReturnStatement (LambdaReconVisitor.getRHS v))].

(** ** The block of the closure *)

Context (jit_address : string -> Z).
Context (hash_order : gmap string (option value) -> list (string * option value)).
Local Abbreviation visitClosureBlock := (visitClosureBlock jit_address hash_order).
Local Abbreviation visit_statements := (visit_statements jit_address hash_order).
Local Abbreviation accept := (accept jit_address hash_order).

Lemma visit_inside V cv i st v rest last s :
  insideLambda s = true ->
  visit_statements V cv i ((st, v) :: rest) last s = bind v (visit_statements V cv (S i) rest) s.
Proof.
  intros Hl. simpl. rewrite (bind_eq _ _ s true s) by (unfold gets; by rewrite Hl).
  rewrite (bind_eq _ _ s true s) by done. apply bind_at. simpl.
  rewrite (bind_eq _ _ s (executeCommit s) s) by done.
  by rewrite andb_false_r, (bind_eq _ _ s tt s).
Qed.

Lemma bind_ret_at {A} (c : M A) s : bind c mret s = c s.
Proof. apply (bind_ret_r c s). Qed.

Section run.
Context {world : World}.
Local Instance free_world : World (sigs := no_functions) := call_free world.
Context (fname : string) (tr : fty) (b : nat) (m0 : machine).

(** An expression whose value is not used. *)
Lemma steps_discarded tr' G env e t z w' m s :
  type_discarded G e = Some t -> fk_eval env e (around m) = Some (z, w') ->
  variables_hold any_context m G env s (regs m) ->
  signature_of fname = None -> declares MainCtx (main_module (theIR s)) ->
  (forall f g, functions_of s !! f = Some g -> f <> fname ->
    exists mg, main_module (theIR s) !! f = Some mg /\ f_type g = f_type mg) ->
  steps LambdaCtx fname (closure_type tr') b m0 (visit e) (fun _ m' _ => around m' = w') m s.
Proof.
  intros Ht Hz Hv Hfn Hd Hb.
  assert (type_of (sigs := no_functions) G e = Some t ->
    steps LambdaCtx fname (closure_type tr') b m0 (visit e) (fun _ m' _ => around m' = w') m s) as Hplain.
  { intros Ht'. rewrite (call_free_eval _ _ _ _ _ Ht') in Hz. pose proof (call_free_outside _ _ _ _ _ Hz) as ->.
    eapply steps_mono.
    - apply (steps_pure _ _ _ _ _ _ (fun _ _ => True)). intros l0.
      eapply total_mono; [by apply (total_visit any_context LambdaCtx b l0 m G env e t z) | done].
    - cbv beta. by intros o m1 s1 _ _ [(_ & -> & _) _]. }
  destruct e as [| | | | |f args| | | |]; try by apply Hplain. clear Hplain. simpl in Ht, Hz.
  apply bind_Some in Ht as (tes & Htes & Ht). apply bind_Some in Ht as (sg & Hsg & Ht).
  destruct (pass_all sg.1 tes && _) eqn:Hp; [| done]. apply andb_true_iff in Hp as [Hp Hcv].
  apply bind_Some in Hz as ([zs w2] & Hzs & Hz). apply bind_Some in Hz as (sg' & Hsg' & Hz). simplify_eq.
  rewrite (call_free_eval_list _ _ _ _ _ Htes) in Hzs. pose proof (call_free_outside_list _ _ _ _ _ Hzs) as ->.
  destruct (Hd _ _ Hsg) as (g & Hg & Tg).
  assert (f <> fname) as Hne by (intros ->; congruence).
  apply (steps_call fname tr' b m0 G env f sg args tes zs (around m) w'); try done.
  - intros g' Hg'. destruct (Hb _ _ Hg' Hne) as (mg & Hmg & ->). congruence.
  - by exists g.
  - by apply converts_main.
  - intros rs Hrs. destruct (called_agrees f sg _ rs _ _ _ Hsg Hrs Hz) as (r & Hr & _). by exists r.
Qed.

Lemma finishes_closure G env st z w w' m s :
  type_grouped G st = Some tr -> fk_grouped env st w = Some (z, w') ->
  standing LambdaCtx fname (closure_type tr) b m0 m s -> around m = w ->
  variables_hold any_context m G env s (regs m) ->
  signature_of fname = None -> declares MainCtx (main_module (theIR s)) ->
  (forall f g, functions_of s !! f = Some g -> f <> fname ->
    exists mg, main_module (theIR s) !! f = Some mg /\ f_type g = f_type mg) ->
  finishes b m0 (visitClosureBlock (Some (closure_statements st (accept st))))
    (encodes tr (conv tr z)) w' s.
Proof.
  intros Ht Hz Hs <- Hv Hfn Hd Hb. pose proof (sd_ctx _ _ _ _ _ _ _ Hs) as Hc. unfold context_of in Hc.
  destruct (insideLambda s) eqn:Hl; [| done].
  apply (finishes_read _ _ _ _ true); [unfold gets; by rewrite Hl |].
  destruct st as [| | |c e| |c target e| |]; try done;
    [| destruct target as [| |x| | | | | | |]; try done]; simpl in Ht, Hz.
  - apply bind_Some in Ht as (t & Ht & [= <-]). apply bind_Some in Hz as ([z' w1] & Hz & [= <- ->]).
    change (finishes b m0 (visit_statements (fun _ => fail (Assertion "a closure inside a closure")) [] 0
      [(ExpressionStatement c e, accept (ExpressionStatement c e));
       (ReturnStatement None, visitReturnStatement None)] None) (encodes FkVoid (conv FkVoid VU)) w' s).
    unfold finishes. rewrite visit_inside by done.
    eapply (finishes_bind _ _ _ _ _ (accept (ExpressionStatement c e))
      (visit_statements _ [] 1 [(ReturnStatement None, visitReturnStatement None)])); [exact Hs | |].
    + by apply (steps_discarded FkVoid G env e t z').
    + intros o m1 s1 S1 R1 X1 A1. cbv beta in A1.
      destruct (finishes_nothing fname FkVoid b m0 w' m1 s1 eq_refl S1 A1) as (a & s' & E & X & r & Hr & ->).
      exists a, s'. split_and!; [| done | by exists RVoid].
      rewrite visit_inside.
      * by rewrite (bind_ret_at (visitReturnStatement None)).
      * destruct X1 as (E1 & _). by rewrite E1.
  - apply bind_Some in Ht as (t & _ & Ht). apply bind_Some in Ht as (te & Hte & Ht).
    destruct (result_fits t te e) eqn:Hf; [| done]. injection Ht as ->.
    rewrite (call_free_eval _ _ _ _ _ Hte) in Hz.
    destruct (finishes_value fname tr b m0 G env e te z w' m s Hs Hv Hte Hf Hz) as (a & s' & E & H).
    exists a, s'. split; [| done].
    change (visit_statements (fun _ => fail (Assertion "a closure inside a closure")) [] 0
      [(ReturnStatement (Some e), visitReturnStatement (Some e))] None s = (Ok a, s')).
    rewrite visit_inside by done. by rewrite (bind_ret_at (visitReturnStatement (Some e))).
Qed.
End run.

(** ** The whole closure *)

(** What the memory has to hold for the function of a closure that is given the
    pointer to slot [e]: the environment there, and no slot of its own yet. *)
Definition closure_memory (s : cg) (e : nat) (vars : list captured) (me : gmap nat rv) : Prop :=
  (exists fields, filled fields vars /\ me !! e = Some (RStruct fields)) /\
  forall slot r, me !! slot = Some r -> slot < next_inst (theIR s).

Lemma grouped_returns G st tr : type_grouped G st = Some tr -> closure_returns tr = true.
Proof.
  intros Ht. destruct st as [| | |c e'| |c target e'| |]; try done; simpl in Ht;
    [| destruct target as [| |x| | | | | | |]; try done].
  - by apply bind_Some in Ht as (? & _ & [= <-]).
  - apply bind_Some in Ht as (t & _ & Ht). apply bind_Some in Ht as (te & _ & Ht).
    destruct (result_fits t te e') eqn:E; simplify_eq. by destruct tr.
Qed.

Lemma closure_compiled_in {world : World} fname tr G env st z w w' est vars e me s :
  type_grouped G st = Some tr -> fk_grouped env st w = Some (z, w') ->
  environment_type s est vars -> "e0" ∉ names_of vars -> captures G env vars ->
  arguments !! 0 = Some (RPtr (Some e)) -> closure_memory s e vars me ->
  insideLambda s = false -> lambdaKeyword s = Some (keyword_of tr) ->
  signature_of fname = None -> declares MainCtx (main_module (theIR s)) ->
  exists s2, compile_closure fname (visitClosureBlock (Some (closure_statements st (accept st)))) s =
      (Ok tt, set_insideLambda false s2) /\
    extends (next_block (theIR s)) (set_justReturned (justReturned s2) (opened fname tr s)) s2 /\
    exists r, call_block (blocks (theIR s2)) 1 (next_block (theIR s)) (mk_machine ∅ me w) = Some (r, w') /\
      encodes tr (conv tr z) r.
Proof.
  intros Ht Hz Het He0 Hcap Harg [(fields & Hfl & Hme) Hb] Hl Hk Hfn Hd.
  set (b := next_block (theIR s)). set (m0 := mk_machine ∅ me w).
  assert (closure_returns tr = true) as Htr by by eapply grouped_returns.
  rewrite (compile_closure_opened fname tr) by done.
  assert (finishes (world := call_free world) b m0 (closure_prologue (LambdaCtx, fname) (mk_func (closure_type tr) ["e0"] []) ;;
    visitClosureBlock (Some (closure_statements st (accept st)))) (encodes tr (conv tr z)) w'
    (opened fname tr s)) as (a & s2 & E & X & HR).
  { eapply (finishes_bind (world := call_free world)).
    - by apply (opened_standing (world := call_free world) fname tr b m0 s w me).
    - eapply (steps_prologue (world := call_free world) fname tr b m0 est e fields vars);
        [by destruct Het; split | done..].
    - intros [] m' s' S' R' X' (M' & A' & V').
      pose proof X' as (E' & _ & _ & B').
      eapply (finishes_closure (world := world) fname tr b m0 G env); [done | done | exact S' | by rewrite A' | | done | |].
      + exact (captured_variables (world := call_free world) G env vars m' s' Hcap V').
      + by rewrite E'.
      + intros f g. unfold functions_of. rewrite E'. simpl. intros Hg Hne.
        destruct (B' f g) as [H|H]; [exact Hg | | exact H].
        simpl in H. apply lookup_insert_Some in H as [[H _]|[_ H]]; [by symmetry in H | by rewrite lookup_empty in H]. }
  exists s2. split_and!; [| exact X | exact HR].
  rewrite (bind_eq _ _ _ _ _ E). reflexivity.
Qed.

(** The type without functions is the type. *)
Lemma call_free_type G e t : type_of (sigs := no_functions) G e = Some t -> type_of G e = Some t.
Proof.
  revert t. induction e as [v|d|n|op e IH|l op r IHl IHr|f args IH| |x off fld _|x off _|x f]
    using expr_nested_ind; intros t H; simpl in H |- *; try done.
  - apply bind_Some in H as (te & He & H). by rewrite (IH _ He).
  - apply bind_Some in H as (o & -> & H). apply bind_Some in H as (tl & Hl & H).
    apply bind_Some in H as (tr & Hr & H). simpl. by rewrite (IHl _ Hl), (IHr _ Hr).
  - by apply bind_Some in H as (tes & _ & H).
Qed.

Lemma call_free_types G es tes :
  mapM (type_of (sigs := no_functions) G) es = Some tes -> mapM (type_of G) es = Some tes.
Proof.
  rewrite !mapM_Some. intros H. eapply Forall2_impl; [exact H |]. intros e t. apply call_free_type.
Qed.

Lemma discarded_type G e t : type_discarded G e = Some t -> type_of G e = Some t.
Proof.
  destruct e as [| | | | |f args| | | |]; try apply call_free_type. simpl.
  intros (tes & Htes & H)%bind_Some. apply bind_Some in H as (sg & Hsg & H).
  rewrite (call_free_types _ _ _ Htes). simpl. rewrite Hsg. simpl.
  by destruct (pass_all sg.1 tes); simpl in H; [case_match |].
Qed.

(** Followed where nothing need run, every such statement gives something. *)
Lemma unrun_grouped G env st tr w :
  env_typed G env -> type_grouped G st = Some tr ->
  exists z w', fk_grouped (meaning := unrun_meaning) env st w = Some (z, w').
Proof.
  intros HG Ht. destruct st as [| | |c e| |c target e| |]; try done; simpl in Ht |- *;
    [| destruct target as [| |x| | | | | | |]; try done].
  - apply bind_Some in Ht as (te & Hte & _).
    destruct (unrun_eval G env e te w HG) as (z & Hz & _); [by apply discarded_type |].
    exists VU, w. by rewrite Hz.
  - apply bind_Some in Ht as (t & _ & Ht). apply bind_Some in Ht as (te & Hte & _).
    destruct (unrun_eval G env e te w HG) as (z & Hz & _); [by apply call_free_type |]. by exists z, w.
Qed.

Lemma captures_typed G env vars : captures G env vars -> env_typed G env.
Proof.
  intros H y t Hy. destruct (H y t Hy) as (c & r & z & _ & Hz & He). exists z. split; [done |]. by exists r.
Qed.

End grouped.

(** * Compiled once, right in every world *)

Section compiled.
Context {sigs : Signatures}.
Context (jit_address : string -> Z).
Context (hash_order : gmap string (option value) -> list (string * option value)).
Local Abbreviation visitClosureBlock := (visitClosureBlock jit_address hash_order).
Local Abbreviation accept := (accept jit_address hash_order).

(** Whenever the function of a closure is called with the pointer to slot [e],
    it returns what the statement means. *)
Definition closure_correct (bl : gmap nat (list (nat * inst))) (b : nat) (tr : fty)
    (env : string -> option fval) (st : stmt) (e : nat) (vars : list captured) (s : cg) : Prop :=
  forall (out : Outside) (world : World) w me z w', arguments !! 0 = Some (RPtr (Some e)) ->
    closure_memory s e vars me -> fk_grouped env st w = Some (z, w') ->
    exists r, call_block bl 1 b (mk_machine ∅ me w) = Some (r, w') /\ encodes tr (conv tr z) r.

(** The closure of a statement is compiled without a message, and its function
    does what the statement means. *)
Lemma closure_compiled fname tr G env st est vars e s :
  type_grouped G st = Some tr -> environment_type s est vars -> "e0" ∉ names_of vars ->
  captures G env vars -> e < next_inst (theIR s) ->
  insideLambda s = false -> lambdaKeyword s = Some (keyword_of tr) ->
  signature_of fname = None -> declares MainCtx (main_module (theIR s)) ->
  exists s2, compile_closure fname (visitClosureBlock (Some (closure_statements st (accept st)))) s =
      (Ok tt, set_insideLambda false s2) /\
    extends (next_block (theIR s)) (set_justReturned (justReturned s2) (opened fname tr s)) s2 /\
    closure_correct (blocks (theIR s2)) (next_block (theIR s)) tr env st e vars s.
Proof.
  intros Ht Het He0 Hcap He Hl Hk Hfn Hd.
  destruct (unrun_grouped (out := nothing) G env st tr tt (captures_typed _ _ _ Hcap) Ht) as (z0 & w0 & Hz0).
  set (me := {[e := RStruct (fun i => (fun p : captured => p.2.2) <$> vars !! i)]} : gmap nat rv).
  assert (closure_memory s e vars me) as Hme.
  { split; [| by intros slot r [<- _]%lookup_singleton_Some]. eexists. split; [| apply lookup_singleton_eq].
    intros i p Hp. by rewrite Hp. }
  destruct (closure_compiled_in (out := nothing) jit_address hash_order (world := unrun_with [RPtr (Some e)])
    fname tr G env st z0 tt w0 est vars e me s Ht Hz0 Het He0 Hcap eq_refl Hme Hl Hk Hfn Hd) as (s2 & E & X & _).
  exists s2. split_and!; [done | done |]. intros out world w me' z w' Harg Hme' Hz.
  destruct (closure_compiled_in jit_address hash_order fname tr G env st z w w' est vars e me' s
    Ht Hz Het He0 Hcap Harg Hme' Hl Hk Hfn Hd) as (s3 & E3 & _ & HR).
  rewrite E in E3. assert (theIR s2 = theIR s3) as -> by exact (f_equal (fun p => theIR p.2) E3). exact HR.
Qed.
End compiled.
