(* ===== verification/Capture.v ===== *)
(** The environment of a closure: the code in front of the scheduling call
    loads every variable in scope and stores it into a structure of its own. *)

From stdpp Require Import functions.
From S2P Require Import Prelude Ast IR State Builder CodeGenBase CodeGenExpr CodeGenStmt.
From S2P Require Import CodeGenBlock Machine ExprLogic ExprCorrect Flow EntryCode Closure.

#[local] Existing Instance no_functions.

Section capture.
Context {out : Outside} {world : World}.
Context (fname : string) (funt : fun_ty) (b : nat) (m0 : machine).
Local Abbreviation standing := (standing MainCtx fname funt b m0).
Local Abbreviation steps := (steps MainCtx fname funt b m0).
Local Abbreviation extends := (extends b).

(** An entry of [namedValues] whose variable has the type and the register of
    [q]. *)
Definition entry_is (m : machine) (p : string * option value) (q : captured) : Prop :=
  q.1 = p.1 /\ capturable q /\ exists a slot, p.2 = Some a /\
    holds (regs m) a (TPointer q.2.1) (RPtr (Some slot)) /\ mem m !! slot = Some q.2.2.

(** A variable that was loaded. *)
Definition loaded (m : machine) (q : captured) (x : string * ty * value) : Prop :=
  x.1.1 = q.1 /\ x.1.2 = q.2.1 /\ holds (regs m) x.2 q.2.1 q.2.2.

Lemma loaded_mono m m' q x : regs m ⊆ regs m' -> loaded m q x -> loaded m' q x.
Proof. intros Hs (H1 & H2 & H3). split_and!; [done | done | by eapply holds_mono]. Qed.

Lemma entry_mono m m' p q : regs m ⊆ regs m' -> mem m ⊆ mem m' -> entry_is m p q -> entry_is m' p q.
Proof.
  intros Hr Hm (H1 & H2 & a & slot & H3 & H4 & H5). split_and!; [done | done |]. exists a, slot.
  split_and!; [done | by eapply holds_mono | by eapply lookup_weaken].
Qed.

Lemma steps_load_variables entries vars : forall m s, Forall2 (entry_is m) entries vars ->
  steps (load_variables entries) (fun l m' s' => quiet m s m' s' /\ Forall2 (loaded m') vars l) m s.
Proof.
  revert vars. induction entries as [|[x o] entries IH]; intros vars m s H.
  { apply Forall2_nil_inv_l in H as ->. apply steps_ret. by split. }
  apply Forall2_cons_inv_l in H as (q & vars' & Hq & H & ->). simpl.
  destruct Hq as (Hx & Hc & a & slot & Ha & Hh & Hm). simpl in Hx, Ha. subst o.
  apply (steps_read _ _ _ _ _ _ _ a); [done |].
  apply (steps_read _ _ _ _ _ _ _ q.2.1).
  { intros _. unfold getAllocaType. destruct Hh as [-> _]. done. }
  eapply steps_bind; [by eapply (steps_CreateLoad _ _ _ _ _ a q.2.1 (RPtr (Some slot)) q.2.2) |].
  intros v m1 s1 R1 X1 [Q1 Hv].
  eapply steps_bind.
  { apply (IH vars'). eapply Forall2_impl; [exact H |]. intros p q'. apply entry_mono; [done |]. by rewrite (proj1 Q1). }
  intros l m2 s2 R2 X2 [Q2 Hl]. apply steps_ret. split; [by eapply quiet_trans |].
  constructor; [| done]. split_and!; [done | done | by eapply holds_mono].
Qed.

(** The stores into the structure. *)
Lemma steps_store_environment st e alloca vars rest : forall pre l fields m s,
  vars = pre ++ rest -> environment_type s st vars ->
  holds (regs m) alloca (TPointer (TStruct st)) (RPtr (Some e)) ->
  mem m !! e = Some (RStruct fields) -> filled fields pre -> Forall2 (loaded m) rest l ->
  steps (store_environment alloca l) (fun _ m' s' => around m' = around m /\ namedValues s' = namedValues s /\
    exists fields', mem m' = <[e := RStruct fields']> (mem m) /\ filled fields' vars) m s.
Proof.
  induction rest as [|[x [t r]] rest IH]; intros pre l fields m s -> Het Ha He Hf Hl.
  { apply Forall2_nil_inv_l in Hl as ->. apply steps_ret. split_and!; [done | done |].
    exists fields. split; [by rewrite insert_id | by rewrite app_nil_r]. }
  apply Forall2_cons_inv_l in Hl as ([[x' t'] v] & l' & (Hx & Ht & Hv) & Hl & ->). simpl in Hx, Ht, Hv. subst x' t'.
  assert ((pre ++ (x, (t, r)) :: rest) !! length pre = Some (x, (t, r))) as Hi by by apply list_lookup_middle.
  pose proof (environment_field _ _ _ _ _ Het Hi) as Hfield. simpl in Hfield.
  pose proof (et_types _ _ _ Het) as Hty. rewrite Forall_forall in Hty.
  specialize (Hty _ (list_elem_of_lookup_2 _ _ _ Hi)). unfold capturable in Hty. simpl in Hty. simpl.
  eapply steps_bind; [by eapply steps_getStructField |].
  intros o m1 s1 R1 X1 [(M1 & A1 & N1) (ld & gep & -> & Hg & _)].
  apply (steps_read _ _ _ _ _ _ _ gep); [done |].
  eapply steps_bind.
  { apply (steps_CreateStore _ _ _ _ _ v gep t r (RField e (length pre))
      (<[e := RStruct (<[length pre := Some r]> fields)]> (mem m))); [by eapply holds_mono | exact Hg | | done].
    simpl. rewrite M1. by rewrite He. }
  intros ? m2 s2 R2 X2 [-> N2].
  eapply steps_mono.
  { apply (IH (pre ++ [(x, (t, r))]) l' (<[length pre := Some r]> fields)).
    - by rewrite <- app_assoc.
    - eapply environment_type_extends; [exact X2 |]. by eapply environment_type_extends.
    - exact (holds_mono _ _ _ _ _ R1 Ha).
    - simpl. apply lookup_insert_eq.
    - intros i p Hp. apply lookup_app_Some in Hp as [Hp|[Hlen Hp]].
      + pose proof (lookup_lt_Some _ _ _ Hp). rewrite fn_lookup_insert_ne by lia. by apply Hf.
      + apply list_lookup_singleton_Some in Hp as [Hp <-].
        replace i with (length pre) by lia. by rewrite fn_lookup_insert.
    - eapply Forall2_impl; [exact Hl |]. intros q y. apply loaded_mono. by etrans. }
  intros [] m' s' _ _ (A' & N' & fields' & M' & F'). simpl in A', M'. split_and!; [congruence | congruence |].
  exists fields'. split; [| done]. by rewrite M', insert_insert_eq.
Qed.

(** ** The whole environment *)

(** The part of the state that a group leaves alone. *)
Definition frame_of (s : cg) :=
  (error s, errors s, insideLambda s, executeCommit s, recon s, currCid s, main_module (theIR s)).

Definition kept (s s' : cg) : Prop := frame_of s' = frame_of s.

Lemma extends_kept s s' : extends s s' -> kept s s'.
Proof. intros [E _]. unfold kept. by rewrite E. Qed.

(** Nothing but the block under construction has changed of the code. *)
Record same_code (s s' : cg) : Prop := {
  sc_blocks : forall b', b' <> b -> blocks (theIR s') !! b' = blocks (theIR s) !! b';
  sc_parent : block_parent (theIR s') = block_parent (theIR s);
  sc_next : next_block (theIR s') = next_block (theIR s);
  sc_inst : next_inst (theIR s) <= next_inst (theIR s');
  sc_jitted : jitted (theIR s') = jitted (theIR s);
  sc_recon : reconVector s' = reconVector s;
  sc_id : currId s' = currId s;
  sc_number : lambdaNum s' = lambdaNum s
}.

Lemma same_code_trans s1 s2 s3 : same_code s1 s2 -> same_code s2 s3 -> same_code s1 s3.
Proof. intros [] []. split; try congruence; [| lia]. intros b' Hb. by rewrite sc_blocks1, sc_blocks0. Qed.

Lemma extends_same_code s s' : extends s s' -> same_code s s'.
Proof. intros (E & H & N & _). split; try done; by rewrite E. Qed.

(** Struct types may be made and named. *)
Lemma standing_structs l n m s : standing m s -> standing m (set_ir (ir_set_structs l n (theIR s)) s).
Proof. by intros []. Qed.

Lemma standing_structTypes st m s : standing m s -> standing m (set_structTypes st s).
Proof. by intros []. Qed.

Lemma StructType_create_at name s : context_of s = MainCtx ->
  exists name' ids, StructType_create name s = (Ok (length (structs (theIR s))),
    set_ir (ir_set_structs (structs (theIR s) ++ [mk_struct_info MainCtx name' None]) ids (theIR s)) s).
Proof.
  intros Hc. unfold StructType_create, getContext.
  rewrite (bind_eq _ _ s MainCtx s) by (unfold gets; by rewrite Hc).
  rewrite (bind_eq _ _ s (theIR s) s) by done. cbv zeta.
  destruct (if bool_decide _ then _ else _) as [name' n']. eexists name', _.
  reflexivity.
Qed.

Lemma setBody_at id l i s : structs (theIR s) !! id = Some i -> st_body i = None ->
  setBody id l s = (Ok tt, set_ir (ir_set_structs
    (<[id := mk_struct_info (st_ctx i) (st_name i) (Some l)]> (structs (theIR s))) (struct_rename (theIR s)) (theIR s)) s).
Proof.
  intros Hi Hb. unfold setBody. rewrite (bind_eq _ _ s i s).
  - by rewrite (bind_eq _ _ s tt s) by (by unfold assert; rewrite Hb).
  - unfold struct_of, bind, gets_ir, gets. by rewrite Hi.
Qed.

(** What [make_environment] leaves. *)
Record captured_by (vars : list captured) (m : machine) (s : cg) (est e : nat) (alloca : value)
    (m' : machine) (s' : cg) : Prop := {
  cb_standing : standing m' s';
  cb_kept : kept s s';
  cb_code : same_code s s';
  cb_regs : regs m ⊆ regs m';
  cb_mem : mem m ⊆ mem m';
  cb_around : around m' = around m;
  cb_type : environment_type s' est vars;
  cb_types : structTypes s' = <["env" := (est, names_of vars)]> (structTypes s);
  cb_named : namedValues s' = <["e0" := Some alloca]> (namedValues s);
  cb_alloca : holds (regs m') alloca (TPointer (TStruct est)) (RPtr (Some e));
  cb_new : mem m !! e = None;
  cb_filled : exists fields, filled fields vars /\ mem m' !! e = Some (RStruct fields)
}.

Lemma make_environment_captures hash_order vars m s :
  standing m s -> Forall2 (entry_is m) (hash_order (namedValues s)) vars -> NoDup (names_of vars) ->
  structTypes s !! "env" = None -> namedValues s !! "e0" = None ->
  exists est e alloca m' s', make_environment hash_order s = (Ok tt, s') /\
    captured_by vars m s est e alloca m' s'.
Proof.
  intros Hs Hv Hnd Henv He0.
  destruct (StructType_create_at "env" s (sd_ctx _ _ _ _ _ _ _ Hs)) as (name' & ids & E1).
  set (est := length (structs (theIR s))) in *.
  set (s1 := set_ir (ir_set_structs (structs (theIR s) ++ [mk_struct_info MainCtx name' None]) ids (theIR s)) s) in *.
  assert (standing m s1) as S1 by by apply standing_structs.
  destruct (steps_load_variables _ _ m s1 Hv S1) as (l & s2 & m2 & E2 & S2 & X2 & R2 & (M2 & A2 & N2) & Hl).
  pose proof (proj1 X2) as X2e.
  assert (structs (theIR s2) !! est = Some (mk_struct_info MainCtx name' None)) as Hi2.
  { rewrite X2e. simpl. apply list_lookup_middle. reflexivity. }
  assert ((fun v : string * ty * value => v.1.2) <$> l = types_of vars /\
    (fun v : string * ty * value => v.1.1) <$> l = names_of vars) as [Et En].
  { clear -Hl. unfold types_of, names_of. induction Hl as [|q x vars l (H1 & H2 & _) _ [IH1 IH2]]; [done |].
    split; simpl; f_equal; done. }
  pose proof (setBody_at est (types_of vars) _ s2 Hi2 eq_refl) as E3.
  set (s3 := set_ir (ir_set_structs (<[est := mk_struct_info MainCtx name' (Some (types_of vars))]>
    (structs (theIR s2))) (struct_rename (theIR s2)) (theIR s2)) s2) in *.
  assert (standing m2 s3) as S3 by by apply standing_structs.
  set (s4 := set_structTypes (<["env" := (est, names_of vars)]> (structTypes s3)) s3).
  assert (standing m2 s4) as S4 by by apply standing_structTypes.
  assert (structTypes_insert "env" est (names_of vars) s3 = (Ok tt, s4)) as E4.
  { unfold structTypes_insert, modify. assert (structTypes s3 !! "env" = None) as ->; [| done].
    simpl. rewrite X2e. exact Henv. }
  assert (environment_type s4 est vars) as Het.
  { split; [simpl; apply lookup_insert_eq | | done |].
    - eexists. simpl. rewrite list_lookup_insert_eq; [by split | by eapply lookup_lt_Some].
    - clear -Hv. induction Hv as [|p q ps qs (_ & H & _) _ IH]; by constructor. }
  assert (namedValues s4 !! "e0" = None) as He4 by (simpl; rewrite N2; exact He0).
  assert (steps (p <- getParent ;; alloca <- createAlloca p (TStruct est) ;;
    CreateStore (VAggregateZero (TStruct est)) alloca ;; namedValues_insert "e0" alloca ;;
    CreateLoad alloca ;; store_environment alloca l)
    (fun _ m' s' => around m' = around m2 /\ mem m2 ⊆ mem m' /\ exists e alloca,
      namedValues s' = <["e0" := Some alloca]> (namedValues s4) /\
      holds (regs m') alloca (TPointer (TStruct est)) (RPtr (Some e)) /\ mem m2 !! e = None /\
      exists fields, filled fields vars /\ mem m' !! e = Some (RStruct fields)) m2 s4) as Hlast.
  { apply (steps_read _ _ _ _ _ _ _ (MainCtx, fname)); [by apply getParent_at |].
    eapply steps_bind; [by apply steps_createAlloca |]. intros a m5 s5 R5 X5 (n & -> & -> & Hn & Hm & N5).
    set (a := VInst n (TPointer (TStruct est))). set (zeros := RStruct (fun _ => None)).
    eapply steps_bind.
    { apply (steps_CreateStore _ _ _ _ _ (VAggregateZero (TStruct est)) a (TStruct est) zeros (RPtr (Some n))
        (<[n := zeros]> (mem m2))); [done | split; [done | apply lookup_insert_eq] | done |].
      intros slot [= <-]. left. simpl. rewrite lookup_insert_eq. by eexists. }
    intros ? m6 s6 R6 X6 [-> N6]. simpl.
    eapply steps_bind; [apply steps_named; by rewrite N6, N5 |]. intros [] m7 s7 R7 X7 [-> N7].
    assert (regs (with_slot n m2) !! n = Some (RPtr (Some n))) as Hr by apply lookup_insert_eq.
    eapply steps_bind.
    { apply (steps_CreateLoad _ _ _ _ _ a (TStruct est) (RPtr (Some n)) zeros); [by split |].
      simpl. apply lookup_insert_eq. }
    intros ? m8 s8 R8 X8 [(M8 & A8 & N8) _]. simpl in R8, M8, A8.
    assert (extends s4 s8) as X by (etrans; [exact X5 |]; etrans; [exact X6 |]; by etrans).
    assert (regs m2 ⊆ regs m8) as R by (etrans; [exact R5 | exact R8]).
    eapply steps_mono.
    { apply (steps_store_environment est n a vars vars [] l (fun _ => None)).
      - done.
      - by eapply environment_type_extends.
      - split; [done |]. simpl. eapply lookup_weaken; [exact Hr | exact R8].
      - rewrite M8. apply lookup_insert_eq.
      - done.
      - eapply Forall2_impl; [exact Hl |]. intros q y. by apply loaded_mono. }
    intros [] m9 s9 X9 R9 (A9 & N9 & fields & M9 & F9). split_and!; [by rewrite A9, A8 | |].
    - rewrite M9, M8, insert_insert_eq. by apply insert_subseteq.
    - exists n, a. split_and!; [by rewrite N9, N8, N7, N6, N5 | | exact Hm |].
      + split; [done |]. simpl. eapply lookup_weaken; [exact Hr |]. by etrans.
      + exists fields. rewrite M9. by rewrite lookup_insert_eq. }
  destruct (Hlast S4) as ([] & s' & m' & E5 & S' & X' & R' & A' & M' & e & alloca & N' & Ha & Hnew & Hfld).
  exists est, e, alloca, m', s'. split.
  - unfold make_environment. rewrite (bind_eq _ _ _ _ _ E1), (bind_eq _ _ s1 (namedValues s) s1) by done.
    rewrite (bind_eq _ _ _ _ _ E2), Et, En, (bind_eq _ _ _ _ _ E3), (bind_eq _ _ _ _ _ E4). exact E5.
  - pose proof (proj1 X') as X'e.
    assert (kept s s4 /\ same_code s s4) as [K4 C4].
    { pose proof X2 as (_ & B2 & I2 & _). split; [unfold kept, frame_of; simpl; by rewrite X2e |].
      split; simpl; first [done | by rewrite X2e]. }
    split; try done.
    + pose proof (extends_kept _ _ X') as K'. unfold kept in *. congruence.
    + eapply same_code_trans; [exact C4 | by apply extends_same_code].
    + by etrans.
    + etrans; [| exact M']. by rewrite M2.
    + by rewrite A', A2.
    + by eapply environment_type_extends.
    + rewrite X'e. simpl. by rewrite X2e.
    + rewrite N'. simpl. by rewrite N2.
    + by rewrite <- M2.
Qed.
End capture.
