(* ===== verification/Scheduled.v ===== *)
(** A statement of a commit group in the first block of a function: the code
    that fills the environment of its closure and schedules it, and the
    function of the closure that will find it there. *)

From stdpp Require Import functions.
From S2P Require Import Prelude Ast IR State Builder CodeGenBase CodeGenExpr CodeGenStmt.
From S2P Require Import CodeGenBlock Machine ExprLogic ExprCorrect Source SourceFacts Flow EntryCode.
From S2P Require Import Closure ClosureBody Capture.

(** The runtime function for a closure that returns [k]. *)
Definition scheduler (tr : fty) : string := "__fork_sched_" +:+ keyword_of tr.
Arguments scheduler : simpl never.
Definition scheduler_type : fun_ty :=
  mk_fun_ty (TVoid MainCtx)
    [TPointer (TInt MainCtx 64); TPointer (TInt MainCtx 64); TInt MainCtx 64; TInt MainCtx 64].

(** The runtime functions of groups, declared as the injections declare them. *)
Record runtime_declared (funs : gmap string func) : Prop := {
  rd_make : exists f, funs !! "__make_context" = Some f /\ f_type f = mk_fun_ty (TInt MainCtx 64) [];
  rd_sched : forall tr, closure_returns tr = true ->
    exists f, funs !! scheduler tr = Some f /\ f_type f = scheduler_type;
  rd_recon_int : exists f, funs !! "__recon_int" = Some f /\
    f_type f = mk_fun_ty (TInt MainCtx 64) (replicate 5 (TInt MainCtx 64));
  rd_recon_void : exists f, funs !! "__recon_void" = Some f /\
    f_type f = mk_fun_ty (TVoid MainCtx) (replicate 3 (TInt MainCtx 64));
  rd_destroy : exists f, funs !! "__destroy_context" = Some f /\
    f_type f = mk_fun_ty (TVoid MainCtx) [TInt MainCtx 64]
}.

Definition the_program (_ : unit) : ctx := MainCtx.

Definition left_of (st : stmt) : option expr :=
  LambdaReconVisitor.getLHS (LambdaReconVisitor.accept st LambdaReconVisitor.new).2.
Definition right_of (st : stmt) : option expr :=
  LambdaReconVisitor.getRHS (LambdaReconVisitor.accept st LambdaReconVisitor.new).2.

Lemma call_block_one {out : Outside} {running : Running} bl bl' b' m :
  bl' !! b' = bl !! b' -> call_block bl' 1 b' m = call_block bl 1 b' m.
Proof. intros E. simpl. by rewrite E. Qed.

Lemma setCommit_grouped {sigs : Signatures} {out : Outside} {meaning : Meaning} jit_address hash_order G env st q w :
  type_grouped G (setCommit st q) = type_grouped G st /\ fk_grouped env (setCommit st q) w = fk_grouped env st w /\
  (type_grouped G st <> None ->
    accept jit_address hash_order (setCommit st q) = accept jit_address hash_order st /\
    left_of (setCommit st q) = left_of st /\ right_of (setCommit st q) = right_of st /\
    closure_statements (setCommit st q) (accept jit_address hash_order (setCommit st q)) =
      closure_statements (setCommit st q) (accept jit_address hash_order st)).
Proof. destruct st as [[]| | | | | | |]; split_and!; try done. Qed.

Section schedule.
#[local] Existing Instance no_functions.
Context {out : Outside} {world : World}.
Context (jit_address : string -> Z).
Context (fname : string) (funt : fun_ty) (b : nat) (m0 : machine).
Local Abbreviation standing := (standing MainCtx fname funt b m0).
Local Abbreviation steps := (steps MainCtx fname funt b m0).

(** ** The scheduling call *)

Lemma extends_currId n s s' : extends b s s' -> extends b (set_currId n s) (set_currId n s').
Proof. intros (E & H & N). split; [| done]. exact (f_equal (set_currId n) E). Qed.

(** The closure is in the hands of the JIT. *)
Definition handed_over (name : string) (s : cg) : cg :=
  set_ir (ir_set_jitted (jitted (theIR s) ++ [name]) (ir_set_modules (main_module (theIR s)) None (theIR s))) s.

Lemma standing_handed_over name m s : standing m s -> standing m (handed_over name s).
Proof.
  intros Hs. pose proof (sd_ctx _ _ _ _ _ _ _ Hs) as Hc. unfold context_of in Hc.
  destruct (insideLambda s) eqn:Hl; [done |]. destruct Hs. split; try done.
  unfold functions_of in *. simpl. by rewrite Hl in *.
Qed.

(** The arguments of the call, and the code in front of it. *)
Definition schedules (tr : fty) (address id c : Z) (e : nat) (m : machine) (s' : cg) : Prop :=
  exists l n args m1, let rs := [RAddr (wrap 64 address); RPtr (Some e); RInt 64 (wrap 64 id); RInt 64 c] in
    blocks (theIR s') !! b = Some (l ++ [(n, ICall (scheduler tr) args)]) /\ run m0 l = Some m1 /\
    mapM (eval_value (regs m1)) args = Some rs /\
    mem m1 = mem m /\ around m1 = around m /\ regs m ⊆ regs m1 /\
    forall r w, called (scheduler tr) rs (around m) = Some (r, w) ->
      regs m1 !! n = None /\ standing (mk_machine (<[n := r]> (regs m1)) (mem m1) w) s'.

Lemma schedule_at name last tr cid c est e alloca m s :
  standing m s -> closure_returns tr = true -> lambdaKeyword s = Some (keyword_of tr) ->
  (exists f, main_module (theIR s) !! scheduler tr = Some f /\ f_type f = scheduler_type) ->
  currCid s = Some cid -> holds (regs m) cid (TInt MainCtx 64) (RInt 64 c) ->
  namedValues s !! "e0" = Some (Some alloca) ->
  holds (regs m) alloca (TPointer (TStruct est)) (RPtr (Some e)) ->
  exists v s', schedule_closure jit_address name last s = (Ok (Some v), s') /\
    extends b (set_currId (currId s + 1) (handed_over name s)) s' /\ namedValues s' = namedValues s /\
    schedules tr (jit_address name) (currId s) c e m s'.
Proof.
  intros Hs Htr Hk (f & Hf & Tf) Hc Hcid He0 Ha.
  pose proof (standing_handed_over name _ _ Hs) as S1. set (s1 := handed_over name s) in *.
  set (pi64 := TPointer (TInt MainCtx 64)).
  assert (steps (castIntToPointer (VConstInt MainCtx 64 (jit_address name))) (fun v m' s' =>
    quiet m s1 m' s' /\ holds (regs m') v pi64 (RAddr (wrap 64 (jit_address name)))) m s1) as H1.
  { apply (steps_pure _ _ _ _ _ _ (fun v rg => holds rg v pi64 (RAddr (wrap 64 (jit_address name))))).
    intros l0. unfold castIntToPointer. apply total_getInt64Ty_bind.
    by eapply (total_CreateCast _ _ _ _ IntToPtr _ (TInt MainCtx 64) pi64 (RInt 64 (wrap 64 (jit_address name)))). }
  destruct (H1 S1) as (lam & s2 & m2 & E2 & S2 & X2 & R2 & (M2 & A2 & N2) & Hlam).
  assert (steps (CreateBitOrPointerCast alloca pi64) (fun v m' s' =>
    quiet m2 s2 m' s' /\ holds (regs m') v pi64 (RPtr (Some e))) m2 s2) as H3.
  { apply (steps_pure _ _ _ _ _ _ (fun v rg => holds rg v pi64 (RPtr (Some e)))). intros l0.
    unfold CreateBitOrPointerCast. pose proof Ha as [Ta _]. rewrite Ta.
    rewrite bool_decide_false by done. simpl.
    eapply (total_CreateCast _ _ _ _ BitCast _ (TPointer (TStruct est)) pi64 (RPtr (Some e)));
      [by eapply holds_mono | done..]. }
  destruct (H3 S2) as (envp & s3 & m3 & E3 & S3 & X3 & R3 & (M3 & A3 & N3) & Henvp).
  set (s4 := set_currId (currId s + 1) s3).
  assert (standing m3 s4) as S4 by (destruct S3; by split).
  set (args := [lam; envp; VConstInt MainCtx 64 (currId s); cid]).
  set (rs := [RAddr (wrap 64 (jit_address name)); RPtr (Some e); RInt 64 (wrap 64 (currId s)); RInt 64 c]).
  assert (mapM (eval_value (regs m3)) args = Some rs) as Hargs.
  { destruct (holds_mono _ _ _ _ _ R3 Hlam) as [_ V1], Henvp as [_ V2].
    destruct (holds_mono _ _ _ _ _ R3 (holds_mono _ _ _ _ _ R2 Hcid)) as [_ V3].
    unfold args, rs. simpl. rewrite V1. simpl. rewrite V2. simpl. rewrite V3. done. }
  set (n := next_inst (theIR s4)).
  assert (Insert (ICall (scheduler tr) args) (TVoid MainCtx) s4 =
    (Ok (VInst n (TVoid MainCtx)), set_ir (ir_set_code
      (<[b := default [] (blocks (theIR s4) !! b) ++ [(n, ICall (scheduler tr) args)]]> (blocks (theIR s4)))
      (detached (theIR s4)) (S n) (theIR s4)) s4)) as E5.
  { unfold Insert, bind, getInsertBlock, gets, gets_ir, modify_ir, modify, mret, SE_ret. cbv beta.
    by rewrite (sd_ip _ _ _ _ _ _ _ S4). }
  set (s5 := set_ir _ s4) in E5. exists (VInst n (TVoid MainCtx)), s5.
  pose proof X2 as (E2' & _). pose proof X3 as (E3' & _).
  assert (extends b s1 s3) as X by by etrans.
  split_and!.
  - unfold schedule_closure. rewrite (bind_eq _ _ s tt s1), (bind_eq _ _ _ _ _ E2) by done.
    rewrite (bind_eq _ _ s2 (Some alloca) s2).
    2: { unfold visitAddressOfExpression. rewrite (bind_eq _ _ s2 (Some alloca) s2); [done |].
         unfold namedValue. rewrite (bind_eq _ _ s2 (namedValues s2) s2) by done. rewrite N2. simpl. by rewrite He0. }
    rewrite (bind_eq _ _ s2 alloca s2), (bind_eq _ _ _ _ _ E3) by done.
    rewrite (bind_eq _ _ s3 (currId s) s3) by (unfold gets; by rewrite E3', E2').
    rewrite (bind_eq _ _ s3 tt s4) by done.
    assert (currCid s4 = Some cid /\ lambdaKeyword s4 = Some (keyword_of tr)) as [Hc4 Hk4].
    { simpl. by rewrite E3', E2'. }
    rewrite (bind_eq _ _ s4 (Some cid) s4) by (unfold gets; by rewrite Hc4).
    rewrite (bind_eq _ _ s4 (Some (keyword_of tr)) s4) by (unfold gets; by rewrite Hk4).
    assert (getFunction (scheduler tr) s4 = (Ok (Some f), s4)) as Ef.
    { unfold getFunction, getModule, bind, gets. simpl.
      assert (insideLambda s3 = false) as ->.
      { pose proof (sd_ctx _ _ _ _ _ _ _ S3) as H. unfold context_of in H. by destruct (insideLambda s3). }
      assert (main_module (theIR s3) = main_module (theIR s)) as -> by by rewrite E3', E2'.
      unfold mret, SE_ret. by rewrite Hf. }
    rewrite (bind_eq _ _ s4 (Some (scheduler tr, f)) s4).
    2: { destruct tr; try done; simpl; by rewrite (bind_eq _ _ _ _ _ Ef). }
    rewrite (bind_eq _ _ s4 cid s4) by done. rewrite Tf. unfold some.
    assert (CreateCall (scheduler tr) scheduler_type args s4 = (Ok (VInst n (TVoid MainCtx)), s5)) as E6.
    { unfold CreateCall. rewrite (bind_eq _ _ s4 tt s4); [exact E5 |].
      unfold assert. rewrite bool_decide_true; [done |]. unfold args. simpl.
      destruct Hlam as [-> _], Henvp as [-> _], Hcid as [-> _]. done. }
    by rewrite (bind_eq _ _ _ _ _ E6).
  - etrans; [exact (extends_currId (currId s + 1) _ _ X) |]. unfold extends.
    split_and!; [reflexivity | | unfold s5, n; simpl; lia | by apply borrows_nothing].
    simpl. intros b' Hb. by rewrite lookup_insert_ne.
  - simpl. by rewrite N3, N2.
  - destruct (sd_code _ _ _ _ _ _ _ S4) as (l & Hl & Hrun & _). exists l, n, args, m3. cbv zeta.
    split_and!; [| done | done | congruence | congruence | by etrans |].
    + unfold s5. cbn [theIR set_ir ir_set_code blocks]. by rewrite lookup_insert_eq, Hl.
    + intros r w Hr.
      assert (regs m3 !! n = None) as Hn.
      { apply eq_None_not_Some. intros [x Hx]. apply (sd_regs _ _ _ _ _ _ _ S4) in Hx. unfold n in Hx. lia. }
      split; [done |].
      assert (exec m3 (n, ICall (scheduler tr) args) =
        Some (mk_machine (<[n := r]> (regs m3)) (mem m3) w)) as He.
      { unfold exec, effect. cbn [fst snd]. rewrite Hargs. simpl. rewrite A3, A2. unfold rs. by rewrite Hr. }
      destruct (steps_Insert MainCtx fname funt b m0 (ICall (scheduler tr) args) (TVoid MainCtx) m3 _ s4 He)
        as (v & s6 & m6 & E6 & S6 & _ & _ & _ & -> & _); [| | | exact S4 |].
      * simpl. by apply insert_subseteq.
      * simpl. intros id x [[<- _]|[_ H]]%lookup_insert_Some; [exact (Nat.le_refl _) |].
        apply (sd_regs _ _ _ _ _ _ _ S4) in H. by apply Nat.lt_le_incl.
      * simpl. intros slot x H. apply (sd_mem _ _ _ _ _ _ _ S4) in H. by apply Nat.lt_le_incl.
      * rewrite E5 in E6. by injection E6 as _ <-.
Qed.
End schedule.

(** * A statement of a group *)

Section group.
Context {sigs : Signatures} {out : Outside} {world : World}.
Context (jit_address : string -> Z).
Context (hash_order : gmap string (option value) -> list (string * option value)).
Context (fname : string) (funt : fun_ty) (b : nat) (m0 : machine).
Local Instance outer_world : World (sigs := no_functions) := call_free world.
Local Abbreviation standing := (standing MainCtx fname funt b m0).
Local Abbreviation steps := (steps MainCtx fname funt b m0).

(** Every variable has a slot of its own. *)
Definition apart (m : machine) (s : cg) : Prop := forall x y a a' slot,
  namedValues s !! x = Some (Some a) -> namedValues s !! y = Some (Some a') ->
  eval_value (regs m) a = Some (RPtr (Some slot)) -> eval_value (regs m) a' = Some (RPtr (Some slot)) -> x = y.

Lemma apart_mono m m' s s' :
  (forall x o, namedValues s !! x = Some o -> exists q, entry_is m (x, o) q) ->
  regs m ⊆ regs m' -> (forall x o, namedValues s' !! x = Some o -> namedValues s !! x = Some o) ->
  apart m s -> apart m' s'.
Proof.
  intros Hlive R Hn Ha x y a a' slot Hx Hy Vx Vy. apply Hn in Hx, Hy.
  assert (forall z v, namedValues s !! z = Some (Some v) -> eval_value (regs m') v = Some (RPtr (Some slot)) ->
    eval_value (regs m) v = Some (RPtr (Some slot))) as Hback.
  { intros z v Hz Hv. destruct (Hlive _ _ Hz) as (q & _ & _ & v' & slot' & [= <-] & [_ Hv'] & _).
    pose proof (eval_value_mono _ _ _ _ R Hv') as H. congruence. }
  apply (Ha x y a a' slot); eauto.
Qed.

(** A group is open: what the generator stands in between two of its
    statements.  [c] is the number of the group's context. *)
Record group_open (G : string -> option fty) (env : string -> option fval) (c : Z)
    (m : machine) (s : cg) : Prop := {
  go_standing : standing m s;
  go_commit : executeCommit s = false;
  go_recon : recon s = false;
  go_env : structTypes s !! "env" = None;
  go_e0 : namedValues s !! "e0" = None;
  go_cid : exists cid, currCid s = Some cid /\ holds (regs m) cid (TInt MainCtx 64) (RInt 64 c);
  go_live : forall x o, namedValues s !! x = Some o -> exists q, entry_is m (x, o) q;
  go_apart : apart m s;
  go_variable : exists a slot, namedValues s !! "cid" = Some (Some a) /\
    holds (regs m) a (TPointer (TInt MainCtx 64)) (RPtr (Some slot)) /\ mem m !! slot = Some (RInt 64 c);
  go_free : G "cid" = None;
  go_vars : variables_hold the_program m G env s (regs m);
  go_funs : declares MainCtx (main_module (theIR s));
  go_runtime : runtime_declared (main_module (theIR s));
  go_blocks : forall b' l, blocks (theIR s) !! b' = Some l -> b' < next_block (theIR s)
}.

(** The variables in the order in which they are captured. *)
Lemma group_variables G env c m s :
  (forall g, Permutation (hash_order g) (map_to_list g)) -> group_open G env c m s ->
  exists vars, Forall2 (entry_is m) (hash_order (namedValues s)) vars /\ NoDup (names_of vars) /\
    ("e0" ∉ names_of vars) /\ captures G env vars.
Proof.
  intros Ho Hg.
  assert (Forall (fun p => exists q, entry_is m p q) (hash_order (namedValues s))) as Hl.
  { apply Forall_forall. intros [x o]. rewrite Ho, elem_of_map_to_list. by apply (go_live _ _ _ _ _ Hg). }
  apply Forall_exists_Forall2_l in Hl as (vars & Hv). exists vars.
  assert (names_of vars = (hash_order (namedValues s)).*1) as Hn.
  { clear -Hv. unfold names_of. induction Hv as [|p q ps qs (H & _) _ IH]; [done |]. simpl. by f_equal. }
  split_and!; [done | | |].
  - rewrite Hn, Ho. apply NoDup_fst_map_to_list.
  - rewrite Hn, Ho. intros ([x o] & Hx & Hin)%list_elem_of_fmap. simpl in Hx. subst x.
    apply elem_of_map_to_list in Hin. rewrite (go_e0 _ _ _ _ _ Hg) in Hin. done.
  - intros y t Hy. destruct (go_vars _ _ _ _ _ Hg y t Hy) as (a & [] & slot & r & z & Ha & Hh & Hm & Hz & He).
    exists MainCtx, r, z. split_and!; [| done | done].
    assert ((y, Some a) ∈ hash_order (namedValues s)) as Hin by (rewrite Ho; by apply elem_of_map_to_list).
    apply list_elem_of_lookup_1 in Hin as (i & Hi).
    destruct (Forall2_lookup_l _ _ _ _ _ Hv Hi) as ([x [T r']] & Hq & Hx & _ & a' & slot' & Ha' & Hh' & Hm').
    simpl in *. simplify_eq. destruct Hh as [Ta Va], Hh' as [Ta' Va'].
    assert (T = llvm_type t MainCtx) as -> by (rewrite Ta in Ta'; by injection Ta').
    assert (Some (RPtr (Some slot)) = Some (RPtr (Some slot'))) as Es by (etrans; [symmetry; exact Va | exact Va']).
    simplify_eq. by eapply list_elem_of_lookup_2.
Qed.

(** ** What is planned *)

(** What the end of the group will assign to. *)
Definition target_of (st : stmt) (s : cg) : option value :=
  match st with AssignStatement _ (Identifier x) _ => default None (namedValues s !! x) | _ => None end.

Lemma plan_recon_at G env c st tr m s0 s :
  group_open G env c m s0 -> type_grouped G st = Some tr ->
  recon s = false -> (forall x, G x <> None -> namedValues s !! x = namedValues s0 !! x) ->
  plan_recon (left_of st) (right_of st) s =
    (Ok tt, set_lambdaKeyword (Some (keyword_of tr))
      (set_reconVector (reconVector s ++ [(None, target_of st s0)]) s)).
Proof.
  intros Hg Ht Hr Hn. 
  destruct st as [| | |q e| |q target e| |]; try done; simpl in Ht;
    [| destruct target as [| |x| | | | | | |]; try done].
  - apply bind_Some in Ht as (? & _ & [= <-]). reflexivity.
  - apply bind_Some in Ht as (t & Hx & Ht). apply bind_Some in Ht as (te & _ & Ht).
    destruct (result_fits t te e) eqn:Hf; [| done]. injection Ht as ->.
    destruct (go_vars _ _ _ _ _ Hg x tr Hx) as (a & [] & slot & r & z & Ha & [Ta _] & _).
    set (s1 := set_recon true (set_lambdaKeyword None s)).
    set (s2 := set_lambdaKeyword (Some (keyword_of tr)) s1).
    set (s3 := set_reconVector (reconVector s ++ [(None, Some a)]) s2).
    assert (namedValue x s1 = (Ok (Some a), s1)) as E1.
    { unfold namedValue, bind, gets. simpl. by rewrite Hn, Ha by congruence. }
    assert (makeSched (llvm_type tr MainCtx) s1 = (Ok None, s2)) as E2 by by destruct tr, te.
    assert (lhs_visitIdentifier None x s1 = (Ok None, s3)) as E3.
    { unfold lhs_visitIdentifier. rewrite (bind_eq _ _ _ _ _ E1).
      rewrite (bind_eq _ _ s1 (llvm_type tr MainCtx) s1) by (unfold getAllocaType; by rewrite Ta).
      rewrite (bind_eq _ _ s1 true s1) by done. by rewrite (bind_eq _ _ _ _ _ E2). }
    simpl. rewrite Ha. simpl. unfold plan_recon, left_of, right_of. simpl.
    rewrite (bind_eq _ _ s tt (set_lambdaKeyword None s)), (bind_eq _ _ _ tt s1) by done.
    rewrite (bind_eq _ _ s1 e s1) by done.
    assert (visitAssignStatement (Identifier x) e s1 = (Ok None, s3)) as E4.
    { unfold visitAssignStatement. rewrite (bind_eq _ _ s1 true s1), (bind_eq _ _ s1 None s1) by done.
      simpl. rewrite (bind_eq _ _ _ _ _ E3). by rewrite (bind_eq _ _ s3 true s3). }
    rewrite (bind_eq _ _ _ _ _ E4). unfold modify. do 2 f_equal. destruct s. simpl in *. by subst.
Qed.

(** ** Back in the program *)

(** The state in which the closure is scheduled, from the one before its
    function was made. *)
Definition resumed (named : gmap string (option value)) (s : cg) : cg :=
  set_namedValues named (set_ir (ir_set_ip (Some b) (lambda_ip (theIR s)) (theIR s)) s).

Lemma standing_resumed name tr m s1 s4 s5 :
  standing m s1 -> b < next_block (theIR s1) ->
  s4 = set_lambdaNum (lambdaNum s4) (set_lambdaKeyword (lambdaKeyword s4) (set_reconVector (reconVector s4)
    (set_ir (ir_set_ip None (lambda_ip (theIR s1)) (theIR s1)) s1))) ->
  extends (next_block (theIR s4)) (set_justReturned (justReturned s5) (opened name tr s4)) s5 ->
  standing m (resumed (namedValues s1) (set_insideLambda false s5)) /\
  blocks (theIR s5) !! b = blocks (theIR s1) !! b.
Proof.
  intros Hs Hb E4 (E5 & B5 & I5 & _).
  assert (insideLambda s1 = false) as Hl.
  { pose proof (sd_ctx _ _ _ _ _ _ _ Hs) as H. unfold context_of in H. by destruct (insideLambda s1). }
  assert (next_block (theIR s4) = next_block (theIR s1)) as N4 by by rewrite E4.
  assert (next_inst (theIR s4) = next_inst (theIR s1)) as I4 by by rewrite E4.
  assert (blocks (theIR s4) = blocks (theIR s1)) as B4 by by rewrite E4.
  assert (blocks (theIR s5) !! b = blocks (theIR s1) !! b) as Hbl.
  { rewrite B5 by lia. simpl. rewrite lookup_insert_ne by lia. by rewrite B4. }
  simpl in I5. split; [| done]. destruct Hs. unfold functions_of in sd_func. rewrite Hl in sd_func.
  split; simpl.
  - done.
  - done.
  - rewrite E5. simpl. rewrite N4. rewrite lookup_insert_ne by lia. by rewrite E4.
  - rewrite E5. unfold functions_of. simpl. by rewrite E4.
  - rewrite Hbl. destruct sd_code as (l & Hl' & Hr & Hf). exists l. split_and!; [done | done |].
    eapply Forall_impl; [exact Hf |]. simpl. lia.
  - intros id r H. apply sd_start in H. lia.
  - intros id r H. apply sd_regs in H. lia.
  - intros id r H. apply sd_mem in H. lia.
Qed.

(** ** The whole statement *)

Definition closure_name (s : cg) : string := "lambda" +:+ pretty (lambdaNum s).

(** The function that starts with block [bc] does what the statement means,
    whenever it is given the pointer to slot [e] in a memory where its
    environment [x] still is, whatever has become of the other slots. *)
Definition runs_later (tr : fty) (env : string -> option fval) (st : stmt) (e : nat) (x : rv) (bc : nat)
    (s' : cg) : Prop :=
  forall (out' : Outside) (world' : World (out := out')) w me z w',
    arguments (Running := world_running (World := world')) !! 0 = Some (RPtr (Some e)) ->
    me !! e = Some x ->
    fk_grouped env st w = Some (z, w') ->
    exists r, call_block (blocks (theIR s')) 1 bc (mk_machine ∅ me w) = Some (r, w') /\
      encodes tr (conv tr z) r.

(** From [s] to [s'], the statement is scheduled. *)
Record scheduled (env : string -> option fval) (c : Z) (st : stmt) (tr : fty) (m : machine)
    (s s' : cg) : Prop := {
  sch_kept : kept s s';
  sch_recon : reconVector s' = reconVector s ++ [(None, target_of st s)];
  sch_id : currId s' = (currId s + 1)%Z;
  sch_number : lambdaNum s' = (lambdaNum s + 1)%Z;
  sch_jitted : jitted (theIR s') = jitted (theIR s) ++ [closure_name s];
  sch_named : namedValues s' = namedValues s;
  sch_types : structTypes s' = structTypes s;
  sch_next : next_block (theIR s') = S (next_block (theIR s));
  sch_old : forall b', b' <> b -> b' < next_block (theIR s) ->
    blocks (theIR s') !! b' = blocks (theIR s) !! b' /\
    block_parent (theIR s') !! b' = block_parent (theIR s) !! b';
  sch_function : block_parent (theIR s') !! next_block (theIR s) = Some (LambdaCtx, closure_name s);
  sch_run : exists e x m1, mem m ⊆ mem m1 /\ mem m !! e = None /\ mem m1 !! e = Some x /\
    regs m ⊆ regs m1 /\ around m1 = around m /\
    schedules fname funt b m0 tr (jit_address (closure_name s)) (currId s) c e m1 s' /\
    runs_later tr env st e x (next_block (theIR s)) s'
}.

Lemma make_closure_at G env c st tr last m s :
  (forall g, Permutation (hash_order g) (map_to_list g)) -> group_open G env c m s ->
  type_grouped G st = Some tr -> signature_of (closure_name s) = None ->
  exists v s', make_closure jit_address hash_order (visitClosureBlock jit_address hash_order) st
      (accept jit_address hash_order st) last s = (Ok v, s') /\
    scheduled env c st tr m s s' /\
    (forall b' l, blocks (theIR s') !! b' = Some l -> b' < next_block (theIR s')).
Proof.
  intros Ho Hg Ht Hsig.
  destruct (group_variables _ _ _ _ _ Ho Hg) as (vars & Hv & Hnd & He0 & Hcap).
  destruct (make_environment_captures fname funt b m0 hash_order vars m s) as (est & e & alloca & m1 & s1 & E1 & C1);
    [apply Hg | done | done | apply Hg | apply Hg |].
  destruct (setCommit_grouped jit_address hash_order G env st true (around m)) as (Ht' & _ & Hs').
  rewrite Ht in Hs'. destruct (Hs' ltac:(done)) as (Ha & Hlf & Hrt & Hcs).
  set (st' := setCommit st true) in *.
  destruct C1 as [S1 K1 D1 R1 M1 A1 T1 Ty1 N1 Hal Hnew (fields & Hf & He)].
  assert (insideLambda s1 = false) as Hl1.
  { pose proof (sd_ctx _ _ _ _ _ _ _ S1) as H. unfold context_of in H. by destruct (insideLambda s1). }
  pose proof K1 as K1'. unfold kept, frame_of in K1'. injection K1' as K1a K1b K1c K1d K1e K1f K1g.
  set (s2 := set_ir (ir_set_ip None (lambda_ip (theIR s1)) (theIR s1)) s1).
  set (s3 := set_lambdaNum (lambdaNum s1 + 1) s2).
  set (name := closure_name s).
  pose proof (plan_recon_at G env c st tr m s s3 Hg Ht) as E4.
  set (s4 := set_lambdaKeyword _ _) in E4.
  assert (plan_recon (left_of st) (right_of st) s3 = (Ok tt, s4)) as E4'.
  { apply E4.
    - simpl. rewrite K1e. apply Hg.
    - intros x Hx. simpl. rewrite N1. apply lookup_insert_ne. intros <-.
      destruct (G "e0") as [t|] eqn:HG; [| done].
      destruct (go_vars _ _ _ _ _ Hg _ _ HG) as (a & _ & _ & _ & _ & Hna & _).
      by rewrite (go_e0 _ _ _ _ _ Hg) in Hna. }
  clear E4.
  destruct (closure_compiled jit_address hash_order name tr G env st' est vars e s4) as (s5 & E5 & X5 & HC).
  { by rewrite Ht'. }
  { destruct T1. by split. }
  { done. }
  { done. }
  { apply (sd_mem _ _ _ _ _ _ _ S1) in He. exact He. }
  { exact Hl1. }
  { reflexivity. }
  { exact Hsig. }
  { simpl. rewrite K1g. apply Hg. }
  assert (b < next_block (theIR s1)) as Hb.
  { rewrite (sc_next _ _ _ D1). destruct (sd_code _ _ _ _ _ _ _ (go_standing _ _ _ _ _ Hg)) as (l & Hl & _).
    by eapply (go_blocks _ _ _ _ _ Hg). }
  destruct (standing_resumed name tr m1 s1 s4 s5 S1 Hb) as [S7 Hblk]; [reflexivity | exact X5 |].
  set (s7 := resumed (namedValues s1) (set_insideLambda false s5)) in *.
  destruct (go_cid _ _ _ _ _ Hg) as (cid & Hcid & Hhc).
  pose proof X5 as (E5' & B5 & I5 & _).
  destruct (schedule_at jit_address fname funt b m0 name last tr cid c est e alloca m1 s7)
    as (v & s8 & E8 & X8 & N8 & HS).
  { exact S7. }
  { by eapply grouped_returns. }
  { simpl. by rewrite E5'. }
  { simpl. rewrite E5'. simpl. rewrite K1g. apply (rd_sched _ (go_runtime _ _ _ _ _ Hg)). by eapply grouped_returns. }
  { simpl. rewrite E5'. simpl. by rewrite K1f. }
  { by eapply holds_mono. }
  { simpl. rewrite N1. apply lookup_insert_eq. }
  { exact Hal. }
  pose proof X8 as (E8' & B8 & I8 & _).
  set (s9 := set_structTypes (delete "env" (structTypes s8)) s8).
  set (s10 := set_namedValues (delete "e0" (namedValues s9)) s9).
  exists (Some v), s10. split.
  { unfold make_closure.
    rewrite (bind_eq _ _ s tt s).
    2: { unfold begin_group. rewrite (bind_eq _ _ s false s); [done |].
         unfold gets. by rewrite (go_commit _ _ _ _ _ Hg). }
    cbv zeta. fold st'. rewrite (bind_eq _ _ _ _ _ E1), (bind_eq _ _ s1 (namedValues s1) s1) by done.
    rewrite (bind_eq _ _ s1 (Some b) s2).
    2: { unfold saveAndClearIP. rewrite (bind_eq _ _ s1 (Some b) s1).
         - rewrite (bind_eq _ _ s1 s1 s1) by done. unfold bind. by rewrite Hl1.
         - unfold getInsertBlock, gets. by rewrite (sd_ip _ _ _ _ _ _ _ S1). }
    rewrite (bind_eq _ _ s2 (lambdaNum s1) s2), (bind_eq _ _ s2 tt s3) by done.
    rewrite <- Hlf, <- Hrt in E4'. rewrite (bind_eq _ _ _ _ _ E4').
    replace ("lambda" +:+ pretty (lambdaNum s1)) with name
      by (unfold name, closure_name; by rewrite (sc_number _ _ _ D1)).
    rewrite Hcs in E5. rewrite (bind_eq _ _ _ _ _ E5).
    rewrite (bind_eq _ _ _ tt (set_ir (ir_set_ip (Some b) (lambda_ip (theIR s5)) (theIR s5)) (set_insideLambda false s5)))
      by done.
    rewrite (bind_eq _ _ _ tt s7) by done. rewrite (bind_eq _ _ _ _ _ E8).
    by rewrite (bind_eq _ _ s8 tt s9), (bind_eq _ _ s9 tt s10). }
  set (bc := next_block (theIR s4)) in *.
  assert (next_block (theIR s) = bc) as Ebc by (unfold bc; simpl; by rewrite (sc_next _ _ _ D1)).
  assert (bc <> b) as Hne by (unfold bc; simpl; lia).
  assert (currId s7 = currId s) as Hid by (simpl; rewrite E5'; apply D1).
  assert (blocks (theIR s8) !! bc = blocks (theIR s5) !! bc) as Hbc by (rewrite B8 by done; reflexivity).
  split; [split |].
  - unfold kept, frame_of. simpl. rewrite E8'. simpl. rewrite E5'. simpl. congruence.
  - simpl. rewrite E8'. simpl. rewrite E5'. simpl. by rewrite (sc_recon _ _ _ D1).
  - simpl. rewrite E8'. simpl. by rewrite E5', <- (sc_id _ _ _ D1).
  - simpl. rewrite E8'. simpl. rewrite E5'. simpl. by rewrite (sc_number _ _ _ D1).
  - simpl. rewrite E8'. simpl. rewrite E5'. simpl. by rewrite (sc_jitted _ _ _ D1).
  - simpl. rewrite N8. simpl. rewrite N1. apply delete_insert_id, Hg.
  - simpl. rewrite E8'. simpl. rewrite E5'. simpl. rewrite Ty1. apply delete_insert_id, Hg.
  - simpl. rewrite E8'. simpl. rewrite E5'. simpl. by rewrite Ebc.
  - intros b' H1 H2. rewrite Ebc in H2. simpl. rewrite B8 by done. simpl. rewrite B5 by lia. simpl.
    rewrite lookup_insert_ne by (unfold bc in H2; simpl in H2; lia). split; [by apply D1 |].
    rewrite E8'. simpl. rewrite E5'. simpl. rewrite lookup_insert_ne by (unfold bc in H2; simpl in H2; lia). by rewrite (sc_parent _ _ _ D1).
  - simpl. rewrite E8'. simpl. rewrite E5'. simpl. fold bc. rewrite Ebc. apply lookup_insert_eq.
  - exists e, (RStruct fields), m1. split_and!; try done.
    + rewrite Hid in HS. destruct HS as (l & n & args & m3 & Hl & Hr & Hm & H1 & H2 & H3 & H4).
      exists l, n, args, m3. split_and!; try done. intros r w Hc. destruct (H4 r w Hc) as [Hn Hst].
      split; [done |]. by destruct Hst.
    + rewrite Ebc. intros out' world' w me z w' Harg Hme Hz.
      rewrite (call_block_one (blocks (theIR s5)) _ _ _ Hbc).
      destruct (HC out' world' w {[e := RStruct fields]} z w' Harg) as (r & Hr & Hen).
      * split; [exists fields; split; [done | apply lookup_singleton_eq] |]. intros slot r [<- _]%lookup_singleton_Some.
        by apply (sd_mem _ _ _ _ _ _ _ S1 e (RStruct fields)).
      * rewrite (proj1 (proj2 (setCommit_grouped jit_address hash_order G env st true w))). exact Hz.
      * exists r. split; [| done].
        apply (call_block_memory _ _ _ me (mk_machine ∅ {[e := RStruct fields]} w)); [| exact Hr].
        simpl. by apply map_singleton_subseteq_l.
  - simpl. intros b' l Hb'. assert (next_block (theIR s8) = S bc) as -> by (rewrite E8'; simpl; by rewrite E5').
    destruct (decide (b' = b)) as [->|Hb1]; [unfold bc; simpl; lia |].
    rewrite B8 in Hb' by done. simpl in Hb'. destruct (decide (b' = bc)) as [->|Hb2]; [lia |].
    rewrite B5 in Hb' by done. simpl in Hb'. rewrite lookup_insert_ne in Hb' by done.
    rewrite (sc_blocks _ _ _ D1) in Hb' by done. pose proof (go_blocks _ _ _ _ _ Hg _ _ Hb').
    unfold bc. simpl. rewrite (sc_next _ _ _ D1). lia.
Qed.
End group.
