(* ===== verification/GroupRun.v ===== *)
(** The statements of a commit group, one after the other: what a runtime
    promises to a group ([Protocol]), the calls that schedule the closures, in
    order and under consecutive numbers, and the functions that the closures
    run, each on an environment of its own. *)

From stdpp Require Import functions.
From S2P Require Import Prelude Ast IR State Builder CodeGenBase CodeGenExpr CodeGenStmt.
From S2P Require Import CodeGenBlock Machine ExprLogic ExprCorrect Source SourceFacts Flow EntryCode.
From S2P Require Import Closure ClosureBody Capture Scheduled.

Section run.
Context {sigs : Signatures} {out : Outside} {world : World}.
Context (jit_address : string -> Z).
Context (hash_order : gmap string (option value) -> list (string * option value)).
Context (fname : string) (funt : fun_ty) (b : nat) (m0 : machine).
Local Abbreviation group_open := (group_open fname funt b m0).
Local Abbreviation scheduled := (scheduled jit_address fname funt b m0).

(** The calls in front of which the generator stands, and what they leave. *)
Fixpoint call_all (calls : list (string * list rv)) (w : outside) : option outside :=
  match calls with
  | [] => Some w
  | (f, rs) :: calls' => '(_, w') ← called f rs w; call_all calls' w'
  end.

(** ** What the runtime promises to a group *)

(** A statement that was given to its scheduler: what its closure returns, the
    address and the environment. *)
Record filed : Type := mk_filed { filed_type : fty; filed_address : Z; filed_env : nat }.

(** The promises of a runtime to the group with the context [c]: while
    statements are filed, numbered in their order, the next one can be; behind
    the last they can be collected in the same order, an int statement with
    the value that [value_of] says; and then the context can be destroyed. *)
Class Protocol (c : Z) (value_of : filed -> Z) := {
  filing : list filed -> outside -> Prop;
  collecting : nat -> list filed -> outside -> Prop;
  pr_sched : forall l x w,
    filing l w -> in_int64 (Z.of_nat (length l)) -> filed_type x = FkInt \/ filed_type x = FkVoid ->
    exists r w', called (scheduler (filed_type x))
        [RAddr (filed_address x); RPtr (Some (filed_env x)); RInt 64 (Z.of_nat (length l)); RInt 64 c] w = Some (r, w') /\
      filing (l ++ [x]) w';
  pr_collect : forall l w, filing l w -> collecting 0 l w;
  pr_recon_int : forall i l x n max w,
    collecting i l w -> l !! i = Some x -> filed_type x = FkInt ->
    exists w', called "__recon_int" [RInt 64 n; RInt 64 1; RInt 64 (Z.of_nat i); RInt 64 max; RInt 64 c] w =
        Some (RInt 64 (value_of x), w') /\
      in_int64 (value_of x) /\ collecting (S i) l w';
  pr_recon_void : forall i l x max w,
    collecting i l w -> l !! i = Some x -> filed_type x = FkVoid ->
    exists r w', called "__recon_void" [RInt 64 (Z.of_nat i); RInt 64 max; RInt 64 c] w = Some (r, w') /\
      collecting (S i) l w';
  pr_destroy : forall l w, collecting (length l) l w -> is_Some (called "__destroy_context" [RInt 64 c] w)
}.

(** The group goes on behind the call. *)
Lemma group_continues (P : nat -> outside -> Prop) G env c st tr m s s' :
  (forall e, exists r w, called (scheduler tr) [RAddr (wrap 64 (jit_address (closure_name s))); RPtr (Some e);
    RInt 64 (wrap 64 (currId s)); RInt 64 c] (around m) = Some (r, w) /\ P e w) ->
  group_open G env c m s -> scheduled env c st tr m s s' ->
  (forall b' l, blocks (theIR s') !! b' = Some l -> b' < next_block (theIR s')) ->
  exists e x m', group_open G env c m' s' /\ mem m ⊆ mem m' /\ mem m !! e = None /\ mem m' !! e = Some x /\
    P e (around m') /\
    (exists r, called (scheduler tr) [RAddr (wrap 64 (jit_address (closure_name s))); RPtr (Some e);
      RInt 64 (wrap 64 (currId s)); RInt 64 c] (around m) = Some (r, around m')) /\
    runs_later tr env st e x (next_block (theIR s)) s'.
Proof.
  intros Hret Hg [] Hb. destruct sch_run as (e & x & m1 & M1 & Hnew & Hx & R1 & A1 & HS & HR).
  destruct HS as (l & n & args & m2 & Hl & Hrun & Hm & M2 & A2 & R2 & Hst).
  destruct (Hret e) as (r & w & Hc & HP).
  rewrite A1 in Hst. destruct (Hst r w Hc) as [Hn S']. set (m' := mk_machine (<[n := r]> (regs m2)) (mem m2) w) in *.
  assert (regs m ⊆ regs m') as R by (etrans; [exact R1 |]; etrans; [exact R2 |]; simpl; by apply insert_subseteq).
  assert (mem m ⊆ mem m') as M by (simpl; by rewrite M2).
  unfold kept, frame_of in sch_kept. injection sch_kept as K1 K2 K3 K4 K5 K6 K7.
  exists e, x, m'. split_and!; [| done | done | simpl; by rewrite M2 | done | by exists r | done].
  destruct Hg. split.
  - exact S'.
  - congruence.
  - congruence.
  - by rewrite sch_types.
  - by rewrite sch_named.
  - destruct go_cid as (cid & H1 & H2). exists cid. rewrite K6. split; [done | by eapply holds_mono].
  - rewrite sch_named. intros y o Hy. destruct (go_live y o Hy) as (q & Hq). exists q. by eapply entry_mono.
  - apply (apart_mono m m' s s' go_live R); [by rewrite sch_named | done].
  - destruct go_variable as (a & slot & H1 & H2 & H3). exists a, slot. rewrite sch_named.
    split_and!; [done | by eapply holds_mono | by eapply lookup_weaken].
  - done.
  - intros y t Hy. destruct (go_vars y t Hy) as (a & u & slot & r0 & z & H1 & H2 & H3 & H4).
    exists a, u, slot, r0, z. rewrite sch_named. split_and!; [done | by eapply holds_mono | by eapply lookup_weaken | tauto..].
  - by rewrite K7.
  - by rewrite K7.
  - exact Hb.
Qed.

(** ** All statements *)

Definition grouped_type (G : string -> option fty) (st : stmt) : fty := default FkVoid (type_grouped G st).

(** The statements as they are filed with the environments [es]; the first
    closure has the number [k]. *)
Fixpoint files (G : string -> option fty) (k : Z) (l : list stmt) (es : list nat) : list filed :=
  match l, es with
  | st :: l', e :: es' =>
      mk_filed (grouped_type G st) (wrap 64 (jit_address ("lambda" +:+ pretty k))) e :: files G (k + 1) l' es'
  | _, _ => []
  end.

(** The calls that file them, from the number [id] of the first on. *)
Fixpoint scheduling (id c : Z) (l : list filed) : list (string * list rv) :=
  match l with
  | [] => []
  | x :: l' =>
      (scheduler (filed_type x),
       [RAddr (filed_address x); RPtr (Some (filed_env x)); RInt 64 (wrap 64 id); RInt 64 c])
      :: scheduling (id + 1) c l'
  end.

(** A statement of a group that can be compiled to the end: an expression, a
    call, or an assignment to an int. *)
Definition settled (G : string -> option fty) (st : stmt) : Prop :=
  match type_grouped G st with Some FkInt | Some FkVoid => True | _ => False end.

Lemma settled_grouped G st : settled G st -> exists tr, type_grouped G st = Some tr /\ (tr = FkInt \/ tr = FkVoid).
Proof. unfold settled. destruct (type_grouped G st) as [[]|]; try done; eauto. Qed.

(** What the statements of a group become: calls of the schedulers in the order
    of the statements, each with an environment of its own, and a function for
    each. *)
Record group_scheduled (G : string -> option fty) (env : string -> option fval) (c : Z)
    (l : list stmt) (es : list nat) (m : machine) (s : cg) (m' : machine) (s' : cg) : Prop := {
  gs_open : group_open G env c m' s';
  gs_errors : errors s' = errors s;
  gs_named : namedValues s' = namedValues s;
  gs_mem : mem m ⊆ mem m';
  gs_id : currId s' = (currId s + Z.of_nat (length l))%Z;
  gs_recon : reconVector s' = reconVector s ++ ((fun st => (None, target_of st s)) <$> l);
  gs_calls : call_all (scheduling (currId s) c (files G (lambdaNum s) l es)) (around m) = Some (around m');
  gs_length : length es = length l;
  gs_distinct : NoDup es;
  gs_new : Forall (fun e => mem m !! e = None) es;
  gs_old : forall b', b' <> b -> b' < next_block (theIR s) ->
    blocks (theIR s') !! b' = blocks (theIR s) !! b' /\
    block_parent (theIR s') !! b' = block_parent (theIR s) !! b';
  gs_closures : forall j st e, l !! j = Some st -> es !! j = Some e ->
    block_parent (theIR s') !! (next_block (theIR s) + j) =
      Some (LambdaCtx, "lambda" +:+ pretty (lambdaNum s + Z.of_nat j)%Z) /\
    exists x, mem m' !! e = Some x /\
      runs_later (grouped_type G st) env st e x (next_block (theIR s) + j) s'
}.

Lemma runs_later_kept tr env st e x bc s s' :
  blocks (theIR s') !! bc = blocks (theIR s) !! bc -> runs_later tr env st e x bc s -> runs_later tr env st e x bc s'.
Proof.
  intros Hb H out' world' w me z w' Harg Hme Hz.
  rewrite (call_block_one (blocks (theIR s)) _ _ _ Hb). by apply (H out' world' w me z w').
Qed.

(** A statement in front. *)
Lemma group_scheduled_cons G env c st l tr m s s1 m1 e x es m' s' :
  b < next_block (theIR s) -> type_grouped G st = Some tr -> scheduled env c st tr m s s1 ->
  mem m ⊆ mem m1 -> mem m !! e = None -> mem m1 !! e = Some x ->
  (exists r, called (scheduler tr) [RAddr (wrap 64 (jit_address (closure_name s))); RPtr (Some e);
    RInt 64 (wrap 64 (currId s)); RInt 64 c] (around m) = Some (r, around m1)) ->
  runs_later tr env st e x (next_block (theIR s)) s1 ->
  group_scheduled G env c l es m1 s1 m' s' ->
  group_scheduled G env c (st :: l) (e :: es) m s m' s'.
Proof.
  intros Hb Ht [] M Hnew Hx [r Hr] HR [].
  pose proof sch_kept as K. unfold kept, frame_of in K. injection K as _ K2 _ _ _ _ _.
  split; try done.
  - congruence.
  - congruence.
  - by etrans.
  - rewrite gs_id0, sch_id. simpl. lia.
  - rewrite gs_recon0, sch_recon, <- app_assoc. f_equal. simpl. f_equal.
    apply list_fmap_ext. intros _ st' _. unfold target_of. by rewrite sch_named.
  - simpl. unfold grouped_type. rewrite Ht. simpl. unfold closure_name in Hr. rewrite Hr. simpl.
    by rewrite <- sch_number, <- sch_id.
  - simpl. by rewrite gs_length0.
  - constructor; [| done]. intros Hin. rewrite Forall_forall in gs_new0. apply gs_new0 in Hin. congruence.
  - constructor; [done |]. apply (Forall_impl _ _ _ gs_new0). intros e' He'. exact (lookup_weaken_None _ _ _ He' M).
  - intros b' H1 H2. destruct (sch_old b' H1 H2) as [<- <-]. apply gs_old0; [done | lia].
  - intros [|j] st' e' Hst He; simpl in Hst, He; simplify_eq.
    + rewrite Nat.add_0_r. destruct (gs_old0 (next_block (theIR s))) as [B P]; [lia | lia |].
      rewrite P, sch_function, Z.add_0_r. split; [done |]. exists x.
      split; [by eapply lookup_weaken |]. unfold grouped_type. rewrite Ht.
      by eapply runs_later_kept.
    + destruct (gs_closures0 j st' e' Hst He) as (P & y & Hy & H). rewrite sch_next in P, H.
      rewrite <- Nat.add_succ_comm, P, sch_number.
      split; [by replace (lambdaNum s + Z.of_nat (S j))%Z with (lambdaNum s + 1 + Z.of_nat j)%Z by lia |]. exists y. split; [done |].
      by eapply runs_later_kept.
Qed.

Lemma visit_grouped V cv i st v rest last s :
  insideLambda s = false -> cv !! i = Some false ->
  visit_statements jit_address hash_order V cv i ((st, v) :: rest) last s =
    bind (make_closure jit_address hash_order V st v last)
      (visit_statements jit_address hash_order V cv (S i) rest) s.
Proof.
  intros Hl Hc. simpl. rewrite (bind_eq _ _ s false s) by (unfold gets; by rewrite Hl).
  rewrite (bind_eq _ _ s false s) by by rewrite Hc. apply bind_at. done.
Qed.

Lemma group_statements_at `{Protocol c value_of} G env l : forall cv i last m s old,
  (forall g, Permutation (hash_order g) (map_to_list g)) ->
  (forall k : Z, signature_of ("lambda" +:+ pretty k) = None) ->
  group_open G env c m s -> Forall (settled G) l ->
  filing old (around m) -> currId s = Z.of_nat (length old) ->
  in_int64 (Z.of_nat (length old + length l)) ->
  (forall j, j < length l -> cv !! (i + j) = Some false) ->
  exists v s' m' es,
    visit_statements jit_address hash_order (visitClosureBlock jit_address hash_order) cv i
      (with_visits jit_address hash_order l) last s = (Ok v, s') /\
    group_scheduled G env c l es m s m' s' /\
    filing (old ++ files G (lambdaNum s) l es) (around m').
Proof.
  induction l as [|st l IH]; intros cv i last m s old Ho Hsig Hg Ht Hfile Hid Hsmall Hcv.
  { exists last, s, m, []. split; [done |]. split.
    - split; simpl; first [done | lia | by rewrite app_nil_r | constructor].
    - simpl. by rewrite app_nil_r. }
  apply Forall_cons in Ht as [Hst Htl]. destruct (settled_grouped _ _ Hst) as (tr & Ht & Htr).
  destruct (make_closure_at jit_address hash_order fname funt b m0 G env c st tr last m s Ho Hg Ht (Hsig _))
    as (v1 & s1 & E1 & Hs1 & Hb1).
  set (x e := mk_filed tr (wrap 64 (jit_address (closure_name s))) e).
  destruct (group_continues (fun e => filing (old ++ [x e])) G env c st tr m s s1) as
    (e & y & m1 & Hg1 & M1 & Hnew & Hx & Hfile1 & Hr & HR); [| done.. |].
  { intros e. rewrite Hid, (wrap_int64 (Z.of_nat (length old))) by (unfold in_int64 in *; simpl in *; lia).
    apply (pr_sched old (x e)); [done | | done]. unfold in_int64 in *. simpl in *. lia. }
  destruct (IH cv (S i) v1 m1 s1 (old ++ [x e]) Ho Hsig Hg1 Htl Hfile1) as (v & s' & m' & es & E & HS & Hfile').
  { rewrite (sch_id _ _ _ _ _ _ _ _ _ _ _ _ Hs1), Hid, length_app. simpl. lia. }
  { rewrite length_app. simpl in *. by rewrite <- Nat.add_assoc. }
  { intros j Hj. rewrite Nat.add_succ_comm. apply Hcv. simpl. lia. }
  assert (insideLambda s = false) as Hl.
  { pose proof (sd_ctx _ _ _ _ _ _ _ (go_standing _ _ _ _ _ _ _ _ _ Hg)) as H1. unfold context_of in H1.
    by destruct (insideLambda s). }
  exists v, s', m', (e :: es). split_and!.
  - simpl with_visits. change (with_visits jit_address hash_order (st :: l)) with
      ((st, accept jit_address hash_order st) :: with_visits jit_address hash_order l).
    assert (cv !! i = Some false) as Hc by (rewrite <- (Nat.add_0_r i); apply Hcv; simpl; lia).
    rewrite (visit_grouped _ _ _ _ _ _ _ _ Hl Hc). by rewrite (bind_eq _ _ _ _ _ E1).
  - eapply group_scheduled_cons; try done.
    destruct (sd_code _ _ _ _ _ _ _ (go_standing _ _ _ _ _ _ _ _ _ Hg)) as (l0 & Hl0 & _).
    by eapply (go_blocks _ _ _ _ _ _ _ _ _ Hg).
  - simpl. unfold grouped_type. rewrite Ht. simpl.
    rewrite (sch_number _ _ _ _ _ _ _ _ _ _ _ _ Hs1), <- app_assoc in Hfile'. exact Hfile'.
Qed.

(** * The start of a group *)

(** No group is open. *)
Record group_closed (G : string -> option fty) (env : string -> option fval) (m : machine) (s : cg) : Prop := {
  gc_standing : standing MainCtx fname funt b m0 (world := call_free world) m s;
  gc_commit : executeCommit s = true;
  gc_recon : recon s = false;
  gc_env : structTypes s !! "env" = None;
  gc_e0 : namedValues s !! "e0" = None;
  gc_cid : namedValues s !! "cid" = None;
  gc_live : forall x o, namedValues s !! x = Some o -> exists q, entry_is (world := call_free world) m (x, o) q;
  gc_apart : apart m s;
  gc_vars : variables_hold (world := call_free world) the_program m G env s (regs m);
  gc_funs : declares MainCtx (main_module (theIR s));
  gc_runtime : runtime_declared (main_module (theIR s));
  gc_blocks : forall b' l, blocks (theIR s) !! b' = Some l -> b' < next_block (theIR s)
}.

(** A call of a function without parameters, outside of closures. *)
Lemma steps_call_nothing f t r w m s :
  (exists fn, main_module (theIR s) !! f = Some fn /\ f_type fn = mk_fun_ty t []) ->
  called f [] (around m) = Some (r, w) ->
  steps (world := call_free world) MainCtx fname funt b m0 (visit (FunctionCall f []))
    (fun o m' s' => namedValues s' = namedValues s /\ mem m' = mem m /\ around m' = w /\
      exists v, o = Some v /\ holds (world := call_free world) (regs m') v t r) m s.
Proof.
  intros (fn & Hf & Tf) Hc Hs. pose proof (sd_ctx _ _ _ _ _ _ _ Hs) as Hl. unfold context_of in Hl.
  destruct (insideLambda s) eqn:El; [done |]. revert Hs. simpl. unfold visitFunctionCall.
  apply (steps_read _ _ _ _ _ _ _ (Some fn)).
  { intros _. unfold getFunction, getModule, bind, gets. simpl. rewrite El. unfold mret, SE_ret. by rewrite Hf. }
  apply (steps_read _ _ _ _ _ _ _ false); [intros _; unfold gets; by rewrite El |].
  apply (steps_read _ _ _ _ _ _ _ (Some fn)); [done |]. rewrite Tf. simpl.
  apply (steps_read _ _ _ _ _ _ _ (Some [])); [done |]. unfold some.
  eapply steps_bind.
  { by apply (steps_CreateCall (world := call_free world) MainCtx fname funt b m0 f (mk_fun_ty t []) [] [] r w). }
  cbv beta. intros v m1 s1 _ _ (N1 & M1 & A1 & Hv). apply steps_ret. split_and!; [done | done | done |].
  by exists v.
Qed.

Definition make_context_returns (c : Z) (m : machine) (w : outside) : Prop :=
  called "__make_context" [] (around m) = Some (RInt 64 c, w).

(** The variable that holds the number of the context. *)
Lemma steps_cid c w m s :
  namedValues s !! "cid" = None ->
  (exists f, main_module (theIR s) !! "__make_context" = Some f /\ f_type f = mk_fun_ty (TInt MainCtx 64) []) ->
  make_context_returns c m w ->
  steps (world := call_free world) MainCtx fname funt b m0
    (visitVariableDefinition "int" "cid" (Some (FunctionCall "__make_context" [])) false)
    (fun o m' s' => around m' = w /\ exists v n, let a := VInst n (TPointer (TInt MainCtx 64)) in
      o = Some v /\ holds (world := call_free world) (regs m') v (TInt MainCtx 64) (RInt 64 c) /\
      holds (world := call_free world) (regs m') a (TPointer (TInt MainCtx 64)) (RPtr (Some n)) /\
      mem m !! n = None /\ mem m' = <[n := RInt 64 c]> (mem m) /\
      namedValues s' = <["cid" := Some a]> (namedValues s)) m s.
Proof.
  intros Hn Hf Hc. unfold visitVariableDefinition.
  apply (steps_read _ _ _ _ _ _ _ (namedValues s)); [done |]. rewrite Hn. rewrite bool_decide_false by by intros [? ?].
  apply (steps_read _ _ _ _ _ _ _ (MainCtx, fname)); [by apply getParent_at |].
  eapply steps_bind.
  { unfold plain_initial. apply steps_getContext.
    eapply steps_bind; [by apply (steps_call_nothing _ (TInt MainCtx 64) (RInt 64 c) w) |].
    intros o m1 s1 R1 X1 (N1 & M1 & A1 & v & -> & Hv). pose proof Hv as [Tv _]. rewrite Tv. simpl.
    apply (steps_ret _ _ _ _ _ _ (fun o m' s' => namedValues s' = namedValues s /\ mem m' = mem m /\ around m' = w /\
      exists v, o = Some v /\ holds (world := call_free world) (regs m') v (TInt MainCtx 64) (RInt 64 c))).
    split_and!; [done | done | done |]. by exists v. }
  cbv beta. intros o m1 s1 R1 X1 (N1 & M1 & A1 & v & -> & Hv). pose proof Hv as [Tv _]. rewrite Tv.
  eapply steps_bind; [by apply steps_createAlloca |]. intros a m2 s2 R2 X2 (n & -> & -> & Hn2 & Hm2 & N2).
  eapply steps_bind; [apply steps_named; by rewrite N2, N1 |]. intros [] m3 s3 R3 X3 [-> N3].
  eapply steps_bind.
  { apply (steps_CreateStore _ _ _ _ _ v (VInst n (TPointer (TInt MainCtx 64))) (TInt MainCtx 64) (RInt 64 c)
      (RPtr (Some n)) (<[n := RInt 64 c]> (mem m1))).
    - exact (holds_mono _ _ _ _ _ R2 Hv).
    - split; [done |]. apply lookup_insert_eq.
    - done.
    - intros slot [= <-]. left. simpl. rewrite lookup_insert_eq. by eexists. }
  intros ? m4 s4 R4 X4 [-> N4]. apply steps_ret. split; [exact A1 |]. exists v, n. cbv zeta. simpl.
  split_and!; [done | | | by rewrite <- M1 | by rewrite M1 | by rewrite N4, N3, N2, N1].
  - exact (holds_mono _ _ _ _ _ R2 Hv).
  - split; [done |]. apply lookup_insert_eq.
Qed.

Lemma begin_group_at G env c w m s :
  group_closed G env m s -> make_context_returns c m w ->
  exists s0 m1, begin_group s = (Ok tt, s0) /\ group_open G env c m1 s0 /\
    mem m ⊆ mem m1 /\ around m1 = w /\ currId s0 = 0%Z /\ same_code b (set_currId 0 s) s0 /\
    (forall x, x <> "cid" -> namedValues s0 !! x = namedValues s !! x) /\ errors s0 = errors s.
Proof.
  intros [] Hc. set (s1 := set_executeCommit false s).
  assert (standing (world := call_free world) MainCtx fname funt b m0 m s1) as S1 by by destruct gc_standing0.
  destruct (steps_cid c w m s1 gc_cid0 (rd_make _ gc_runtime0) Hc S1)
    as (o & s2 & m2 & E2 & S2 & X2 & R2 & A2 & v & n & -> & Hv & Ha & Hn & M2 & N2).
  set (s3 := set_currId 0 (set_currCid (Some v) s2)). exists s3, m2.
  pose proof X2 as (E2' & B2 & I2 & _).
  assert (mem m ⊆ mem m2) as M by (rewrite M2; by apply insert_subseteq).
  split_and!; [| | done | done | done | | | by simpl; rewrite E2'].
  - unfold begin_group. rewrite (bind_eq _ _ s true s) by (unfold gets; by rewrite gc_commit0).
    rewrite (bind_eq _ _ s tt s1), (bind_eq _ _ _ _ _ E2) by done. reflexivity.
  - split.
    + by destruct S2.
    + simpl. by rewrite E2'.
    + simpl. by rewrite E2'.
    + simpl. by rewrite E2'.
    + simpl. rewrite N2. by rewrite lookup_insert_ne.
    + by exists v.
    + simpl. rewrite N2. intros x o [[<- <-]|[_ Hx]]%lookup_insert_Some.
      * exists ("cid", (TInt MainCtx 64, RInt 64 c)). split_and!; [done | done |].
        exists (VInst n (TPointer (TInt MainCtx 64))), n. split_and!; [done | done |]. rewrite M2. apply lookup_insert_eq.
      * destruct (gc_live0 x o Hx) as (q & Hq). exists q. by eapply entry_mono.
    + intros x y a a' slot. simpl. rewrite N2.
      assert (forall z v, namedValues s !! z = Some (Some v) ->
        eval_value (running := world_running (World := call_free world)) (regs m2) v = Some (RPtr (Some slot)) ->
        slot <> n) as Hfresh.
      { intros z u Hz Hev. destruct (gc_live0 _ _ Hz) as (q & _ & _ & v' & slot' & [= <-] & [_ Hv'] & Hm).
        pose proof (eval_value_mono _ _ _ _ R2 Hv') as H. rewrite Hev in H. injection H as ->. intros ->. congruence. }
      destruct Ha as [_ Va]. change (regs m2 !! n = Some (RPtr (Some n))) in Va.
      intros [[<- [= <-]]|[_ Hx]]%lookup_insert_Some [[<- [= <-]]|[_ Hy]]%lookup_insert_Some Vx Vy.
      * done.
      * destruct (Hfresh _ _ Hy Vy). change (regs m2 !! n = Some (RPtr (Some slot))) in Vx. congruence.
      * destruct (Hfresh _ _ Hx Vx). change (regs m2 !! n = Some (RPtr (Some slot))) in Vy. congruence.
      * by apply (apart_mono m m2 s s gc_live0 R2 ltac:(done) gc_apart0 x y a a' slot).
    + eexists _, n. simpl. rewrite N2, lookup_insert_eq, M2, lookup_insert_eq. done.
    + apply eq_None_not_Some. intros [t Ht]. destruct (gc_vars0 _ _ Ht) as (a & _ & _ & _ & _ & H & _).
      by rewrite gc_cid0 in H.
    + intros y t Hy. destruct (gc_vars0 y t Hy) as (a & u & slot & r0 & z & H1 & H2 & H3 & H4).
      exists a, u, slot, r0, z. simpl. rewrite N2. split_and!; [| by eapply holds_mono | by eapply lookup_weaken | tauto..].
      rewrite lookup_insert_ne; [done |]. intros <-. by rewrite gc_cid0 in H1.
    + simpl. by rewrite E2'.
    + simpl. by rewrite E2'.
    + simpl. intros b' l Hb'. rewrite E2'. simpl. destruct (decide (b' = b)) as [->|Hne].
      * destruct (sd_code _ _ _ _ _ _ _ gc_standing0) as (l0 & Hl0 & _). by eapply gc_blocks0.
      * rewrite B2 in Hb' by done. by eapply gc_blocks0.
  - destruct (extends_same_code _ _ _ X2). by split.
  - intros x Hx. simpl. rewrite N2. by apply lookup_insert_ne.
Qed.
End run.
