(* ===== verification/GroupEnd.v ===== *)
(** The end of a commit group, and the group as a whole: every int variable
    assigned to in the group takes the answer of the runtime, the context is
    destroyed, and the generator stands behind the group as in front of it. *)

From stdpp Require Import functions.
From S2P Require Import Prelude Ast IR State Builder CodeGenBase CodeGenExpr CodeGenStmt.
From S2P Require Import CodeGenBlock CodeGenBlockWf Machine ExprLogic ExprCorrect Source SourceFacts Flow EntryCode.
From S2P Require Import Closure ClosureBody Capture Scheduled GroupRun.

(** The variable that a statement of a group assigns to. *)
Definition assigned (st : stmt) : option string :=
  match st with AssignStatement _ (Identifier x) _ => Some x | _ => None end.

Section group_end.
Context {sigs : Signatures} {out : Outside} {world : World}.
Context (jit_address : string -> Z).
Context (hash_order : gmap string (option value) -> list (string * option value)).
Context (fname : string) (funt : fun_ty) (b : nat) (m0 : machine).
Local Abbreviation group_open := (group_open fname funt b m0).
Local Abbreviation group_closed := (group_closed fname funt b m0).
Local Abbreviation steps := (steps (world := call_free world) MainCtx fname funt b m0).
Local Abbreviation holds := (holds (world := call_free world)).

(** The assignments at the end of a group, in the order of its statements and
    numbered from [i]: each variable takes what the runtime answers to its old
    value.  [max] is the number of the last statement, [c] the context. *)
Fixpoint settle (max c i : Z) (l : list (option string)) (env : string -> option fval) (w : outside) :
    option ((string -> option fval) * outside) :=
  match l with
  | [] => Some (env, w)
  | Some x :: l' =>
      match env x with
      | Some (VI n) =>
          '(r, w) ← called "__recon_int" [RInt 64 n; RInt 64 1; RInt 64 (wrap 64 i); RInt 64 (wrap 64 max); RInt 64 c] w;
          match r with
          | RInt k n' => if bool_decide (k = 64%Z /\ in_int64 n') then settle max c (i + 1) l' (<[x := Some (VI n')]> env) w else None
          | _ => None
          end
      | _ => None
      end
  | None :: l' =>
      '(_, w) ← called "__recon_void" [RInt 64 (wrap 64 i); RInt 64 (wrap 64 max); RInt 64 c] w;
      settle max c (i + 1) l' env w
  end.

(** An entry of the reconciliation vector is for a variable, or for none. *)
Definition aims (G : string -> option fty) (s : cg) (p : option value * option value) (o : option string) : Prop :=
  match p.2, o with
  | None, None => True
  | Some a, Some x => namedValues s !! x = Some (Some a) /\ G x = Some FkInt
  | _, _ => False
  end.

(** What holds in front of every reconciliation. *)
Record settling (G : string -> option fty) (env : string -> option fval) (c : Z) (m : machine) (s : cg) : Prop := {
  se_cid : exists cid, currCid s = Some cid /\ holds (regs m) cid (TInt MainCtx 64) (RInt 64 c);
  se_live : forall x o, namedValues s !! x = Some o -> exists q, entry_is (world := call_free world) m (x, o) q;
  se_apart : apart m s;
  se_variable : exists a slot, namedValues s !! "cid" = Some (Some a) /\
    holds (regs m) a (TPointer (TInt MainCtx 64)) (RPtr (Some slot)) /\ mem m !! slot = Some (RInt 64 c);
  se_free : G "cid" = None;
  se_vars : variables_hold (world := call_free world) the_program m G env s (regs m);
  se_runtime : runtime_declared (main_module (theIR s))
}.

(** Code that leaves the memory alone. *)
Lemma settling_quiet G env c m s m' s' :
  settling G env c m s -> extends b s s' -> regs m ⊆ regs m' -> mem m' = mem m ->
  namedValues s' = namedValues s -> settling G env c m' s'.
Proof.
  intros [] (E & _) R M N. split.
  - destruct se_cid0 as (cid & H1 & H2). exists cid. rewrite E. split; [done | by eapply holds_mono].
  - rewrite N. intros x o Hx. destruct (se_live0 x o Hx) as (q & Hq). exists q.
    eapply entry_mono; [exact R | by rewrite M | done].
  - apply (apart_mono m m' s s' se_live0 R); [by rewrite N | done].
  - destruct se_variable0 as (a & slot & H1 & H2 & H3). exists a, slot. rewrite N, M.
    split_and!; [done | by eapply holds_mono | done].
  - done.
  - intros y t Hy. destruct (se_vars0 y t Hy) as (a & u & slot & r & z & H1 & H2 & H3 & H4).
    exists a, u, slot, r, z. rewrite N, M. split_and!; [done | by eapply holds_mono | tauto..].
  - by rewrite E.
Qed.

(** The store of an answer. *)
Lemma settling_store G env c m s x a slot n :
  settling G env c m s -> G x = Some FkInt -> namedValues s !! x = Some (Some a) ->
  holds (regs m) a (TPointer (TInt MainCtx 64)) (RPtr (Some slot)) -> in_int64 n ->
  settling G (<[x := Some (VI n)]> env) c (mk_machine (regs m) (<[slot := RInt 64 n]> (mem m)) (around m)) s.
Proof.
  intros [] HG Hx [Ta Va] Hn. split; simpl; try done.
  - intros y o Hy. destruct (se_live0 y o Hy) as ([z [t r]] & Hz & Hc & a' & slot' & Ho & Hh & Hm).
    simpl in Hz, Ho, Hh, Hm. subst z o.
    destruct (decide (slot' = slot)) as [->|Hne].
    + exists (y, (t, RInt 64 n)). split_and!; [done | done |]. exists a', slot. split_and!; [done | done |].
      apply lookup_insert_eq.
    + exists (y, (t, r)). split_and!; [done | done |]. exists a', slot'. split_and!; [done | done |].
      simpl. by rewrite lookup_insert_ne by done.
  - destruct se_variable0 as (a' & slot' & H1 & H2 & H3). exists a', slot'. split_and!; [done | done |].
    rewrite lookup_insert_ne; [done |]. intros ->. 
    assert (x = "cid") as -> by (eapply se_apart0; [exact Hx | exact H1 | exact Va | apply H2]).
    congruence.
  - intros y t Hy. destruct (se_vars0 y t Hy) as (a' & u & slot' & r & z & H1 & H2 & H3 & H4 & H5).
    destruct (decide (x = y)) as [->|Hne].
    + simplify_eq. eexists _, u, slot, (RInt 64 n), (VI n). rewrite fn_lookup_insert.
      split_and!; [done | by split | apply lookup_insert_eq | done | done].
    + exists a', u, slot', r, z. rewrite fn_lookup_insert_ne by done. split_and!; try done. simpl.
      rewrite lookup_insert_ne; [done |]. intros ->. apply Hne.
      eapply se_apart0; [exact Hx | exact H1 | exact Va | apply H2].
Qed.

Lemma standing_main f fn m s :
  standing (world := call_free world) MainCtx fname funt b m0 m s ->
  main_module (theIR s) !! f = Some fn -> getFunction f s = (Ok (Some fn), s).
Proof.
  intros Hs Hf. pose proof (sd_ctx _ _ _ _ _ _ _ Hs) as Hl. unfold context_of in Hl.
  unfold getFunction, getModule, bind, gets. simpl. destruct (insideLambda s); [done |].
  unfold mret, SE_ret. by rewrite Hf.
Qed.

Lemma steps_reconcile G max c l : forall targets i env env' w m s,
  Forall2 (aims G s) l targets -> settling G env c m s -> currId s = max ->
  settle max c i targets env (around m) = Some (env', w) ->
  steps (reconcile i l) (fun _ m' s' => settling G env' c m' s' /\ around m' = w /\
    namedValues s' = namedValues s) m s.
Proof.
  induction l as [|[o' o] l IH]; intros targets i env env' w m s Hl Hs Hmax Hw.
  { apply Forall2_nil_inv_l in Hl as ->. injection Hw as <- <-. by apply steps_ret. }
  apply Forall2_cons_inv_l in Hl as (x & targets' & Hx & Hl & ->).
  pose proof (se_cid _ _ _ _ _ Hs) as (cid & Hcid & Hcv).
  destruct o as [a|], x as [x|]; try done; simpl in Hw; cbn [reconcile].
  - destruct Hx as [Ha HG]. simpl in Ha.
    destruct (se_vars _ _ _ _ _ Hs x FkInt HG) as (a' & u & slot & r & z & Ha' & Hh & Hm & Hz & He).
    assert (a' = a) as -> by congruence. destruct z as [n| |]; try done. destruct He as [-> Hn]. rewrite Hz in Hw.
    apply bind_Some in Hw as ([r w1] & Hr & Hw). destruct r as [k n'| | | | | |]; try done.
    case_bool_decide as Hk; [destruct Hk as [-> Hn'] | done].
    destruct (rd_recon_int _ (se_runtime _ _ _ _ _ Hs)) as (f & Hf & Tf).
    eapply steps_bind; [by eapply steps_CreateLoad |]. intros v m1 s1 R1 X1 [(M1 & A1 & N1) Hv].
    pose proof (settling_quiet _ _ _ _ _ _ _ Hs X1 R1 M1 N1) as Hs1. pose proof X1 as (E1 & _).
    pose proof Hv as [Tv _]. rewrite Tv. cbn [isIntegerTy llvm_type].
    apply (steps_read _ _ _ _ _ _ _ max); [intros _; unfold gets; by rewrite E1, <- Hmax |].
    apply (steps_read _ _ _ _ _ _ _ (Some cid)); [intros _; unfold gets; by rewrite E1, <- Hcid |].
    apply (steps_read _ _ _ _ _ _ _ (Some f)); [intros H; eapply standing_main; [exact H | by rewrite E1] |].
    apply (steps_read _ _ _ _ _ _ _ f); [done |]. apply (steps_read _ _ _ _ _ _ _ cid); [done |]. rewrite Tf.
    eapply steps_bind.
    { eapply (steps_CreateCall (world := call_free world) _ _ _ _ _ "__recon_int" _ _ _ (RInt 64 n') w1).
      - simpl. rewrite Tv. destruct Hcv as [-> _]. done.
      - destruct Hv as [_ Vv], (holds_mono _ _ _ _ _ R1 Hcv) as [_ Vc]. simpl in Vv, Vc |- *. rewrite Vv. simpl. rewrite Vc. done.
      - by rewrite A1. }
    intros v2 m2 s2 R2 X2 (N2 & M2 & A2 & Hv2).
    pose proof (settling_quiet _ _ _ _ _ _ _ Hs1 X2 R2 M2 N2) as Hs2. pose proof X2 as (E2 & _).
    assert (holds (regs m2) a (TPointer (TInt MainCtx 64)) (RPtr (Some slot))) as Ha2.
    { eapply holds_mono; [| exact Hh]. by etrans. }
    eapply steps_bind.
    { apply (steps_CreateStore _ _ _ _ _ v2 a (TInt MainCtx 64) (RInt 64 n') (RPtr (Some slot))
        (<[slot := RInt 64 n']> (mem m2))); [exact Hv2 | exact Ha2 | done |].
      intros ? [= <-]. right. rewrite M2, M1. by eexists. }
    intros ? m3 s3 R3 X3 [-> N3].
    eapply steps_mono.
    + apply (IH targets' (i + 1)%Z (<[x := Some (VI n')]> env) env' w).
      * eapply Forall2_impl; [exact Hl |]. unfold aims. intros [p1 p2] y. simpl. by rewrite N3, N2, N1.
      * eapply (settling_quiet _ _ _ (mk_machine (regs m2) (<[slot := RInt 64 n']> (mem m2)) (around m2)) s2);
          [| exact X3 | done | done | done].
        eapply settling_store; [exact Hs2 | exact HG | by rewrite N2, N1 | done | done].
      * destruct X3 as (E3 & _). by rewrite E3, E2, E1.
      * simpl. by rewrite A2.
    + cbv beta. intros ? m4 s4 _ _ (H1 & H2 & H3). split_and!; [done | done | by rewrite H3, N3, N2, N1].
  - apply bind_Some in Hw as ([r w1] & Hr & Hw).
    destruct (rd_recon_void _ (se_runtime _ _ _ _ _ Hs)) as (f & Hf & Tf).
    apply (steps_read _ _ _ _ _ _ _ max); [intros _; unfold gets; by rewrite <- Hmax |].
    apply (steps_read _ _ _ _ _ _ _ (Some cid)); [intros _; unfold gets; by rewrite <- Hcid |].
    apply (steps_read _ _ _ _ _ _ _ (Some f)); [intros H; by eapply standing_main |].
    apply (steps_read _ _ _ _ _ _ _ f); [done |]. apply (steps_read _ _ _ _ _ _ _ cid); [done |]. rewrite Tf.
    eapply steps_bind.
    { eapply (steps_CreateCall (world := call_free world) _ _ _ _ _ "__recon_void" _ _ _ r w1); [| | exact Hr].
      - simpl. destruct Hcv as [-> _]. done.
      - destruct Hcv as [_ Vc]. simpl in Vc |- *. rewrite Vc. done. }
    intros v2 m2 s2 R2 X2 (N2 & M2 & A2 & _).
    pose proof (settling_quiet _ _ _ _ _ _ _ Hs X2 R2 M2 N2) as Hs2. pose proof X2 as (E2 & _).
    eapply steps_mono.
    + apply (IH targets' (i + 1)%Z env env' w); [| exact Hs2 | by rewrite E2 | by rewrite A2].
      eapply Forall2_impl; [exact Hl |]. unfold aims. intros [p1 p2] y. simpl. by rewrite N2.
    + cbv beta. intros ? m4 s4 _ _ (H1 & H2 & H3). split_and!; [done | done | by rewrite H3, N2].
Qed.

Lemma steps_destroy G env c r w m s :
  settling G env c m s -> called "__destroy_context" [RInt 64 c] (around m) = Some (r, w) ->
  steps (visitFunctionCall "__destroy_context" [visitIdentifier "cid"]) (fun _ m' s' =>
    mem m' = mem m /\ around m' = w /\ namedValues s' = namedValues s) m s.
Proof.
  intros [] Hr Hs. pose proof (sd_ctx _ _ _ _ _ _ _ Hs) as Hl. unfold context_of in Hl.
  destruct (insideLambda s) eqn:El; [done |]. revert Hs. unfold visitFunctionCall.
  destruct (rd_destroy _ se_runtime0) as (f & Hf & Tf).
  destruct se_variable0 as (a & slot & Ha & Hh & Hm).
  apply (steps_read _ _ _ _ _ _ _ (Some f)); [intros H; by eapply standing_main |].
  apply (steps_read _ _ _ _ _ _ _ false); [intros _; unfold gets; by rewrite El |].
  apply (steps_read _ _ _ _ _ _ _ (Some f)); [done |]. rewrite Tf. cbn [fparams length].
  rewrite bool_decide_true by done. cbn [negb].
  eapply (steps_bind _ _ _ _ _ _ _ (fun o m' s' => quiet m s m' s' /\
    exists v, o = Some [v] /\ holds (regs m') v (TInt MainCtx 64) (RInt 64 c))).
  { cbn [visitArguments]. eapply steps_bind.
    - unfold visitIdentifier. apply (steps_read _ _ _ _ _ _ _ (Some a)).
      { intros _. unfold namedValue, bind, gets. by rewrite Ha. }
      eapply steps_bind; [by eapply steps_CreateLoad |]. intros v m1 s1 _ _ HQ.
      apply (steps_ret _ _ _ _ _ _ (fun o m' s' => quiet m s m' s' /\
        exists v, o = Some v /\ holds (regs m') v (TInt MainCtx 64) (RInt 64 c))).
      destruct HQ as [HQ Hv]. split; [done | by exists v].
    - cbv beta. intros o m1 s1 _ _ [HQ (v & -> & Hv)].
      apply (steps_read _ _ _ _ _ _ _ (Some v)); [done |].
      apply (steps_read _ _ _ _ _ _ _ (Some v)).
      { intros _. unfold convert_argument. destruct Hv as [-> _]. by rewrite bool_decide_true. }
      apply (steps_read _ _ _ _ _ _ _ (Some [])); [done |]. apply steps_ret. split; [done | by exists v]. }
  cbv beta. intros o m1 s1 _ _ [(M1 & A1 & N1) (v & -> & Hv)]. unfold some.
  eapply steps_bind.
  { eapply (steps_CreateCall (world := call_free world) _ _ _ _ _ "__destroy_context" _ _ [RInt 64 c] r w).
    - simpl. by destruct Hv as [-> _].
    - destruct Hv as [_ Vv]. simpl in Vv |- *. by rewrite Vv.
    - by rewrite A1. }
  cbv beta. intros v2 m2 s2 _ _ (N2 & M2 & A2 & _). apply steps_ret.
  split_and!; [by rewrite M2 | done | by rewrite N2].
Qed.

Lemma end_group_at G env env' c r w w' targets m s :
  group_open G env c m s -> Forall2 (aims G s) (reconVector s) targets ->
  settle (currId s - 1) c 0 targets env (around m) = Some (env', w) ->
  called "__destroy_context" [RInt 64 c] w = Some (r, w') ->
  exists s' m', end_group s = (Ok tt, s') /\ group_closed G env' m' s' /\ around m' = w' /\
    same_code b (set_currId (currId s - 1) s) s' /\ errors s' = errors s /\
    namedValues s' = delete "cid" (namedValues s).
Proof.
  intros Hg Ha Hw Hr. set (s1 := set_executeCommit true s). set (s2 := set_currId (currId s - 1) s1).
  destruct Hg.
  assert (standing (world := call_free world) MainCtx fname funt b m0 m s2) as S2 by by destruct go_standing.
  assert (settling G env c m s2) as T2 by by split.
  destruct (steps_reconcile G (currId s - 1) c (reconVector s) targets 0 env env' w m s2 Ha T2 eq_refl Hw S2)
    as ([] & s3 & m3 & E3 & S3 & X3 & R3 & T3 & A3 & N3). rewrite <- A3 in Hr.
  destruct (steps_destroy _ _ _ _ _ _ _ T3 Hr S3) as (v & s4 & m4 & E4 & S4 & X4 & R4 & M4 & A4 & N4).
  pose proof (settling_quiet _ _ _ _ _ _ _ T3 X4 R4 M4 N4) as T4.
  set (s5 := set_namedValues (delete "cid" (namedValues s4)) s4). exists s5, m4.
  assert (extends b s2 s4) as X by by etrans. pose proof X as (E & B & I & _).
  assert (namedValues s4 = namedValues s) as N by by rewrite N4, N3.
  split_and!; [| | done | | by simpl; rewrite E | by simpl; rewrite N].
  - unfold end_group. rewrite (bind_eq _ _ s tt s1), (bind_eq _ _ s1 tt s2) by done.
    rewrite (bind_eq _ _ s2 (reconVector s) s2), (bind_eq _ _ _ _ _ E3), (bind_eq _ _ _ _ _ E4) by done. done.
  - split; try (simpl; rewrite E; done).
    + by destruct S4.
    + simpl. rewrite N. rewrite lookup_delete_ne by done. done.
    + simpl. apply lookup_delete_eq.
    + simpl. intros x o [_ Hx]%lookup_delete_Some. by apply (se_live _ _ _ _ _ T4).
    + apply (apart_mono m4 m4 s4 s5 (se_live _ _ _ _ _ T4)); [done | | apply T4].
      simpl. by intros x o [_ Hx]%lookup_delete_Some.
    + intros y t Hy. destruct (se_vars _ _ _ _ _ T4 y t Hy) as (a & u & slot & x & z & H1 & H2).
      exists a, u, slot, x, z. split; [| done]. simpl. rewrite lookup_delete_ne; [done |]. intros <-. congruence.
    + simpl. intros b' l Hb'. rewrite E. simpl. destruct (decide (b' = b)) as [->|Hne].
      * destruct (sd_code _ _ _ _ _ _ _ go_standing) as (l0 & Hl0 & _). by eapply go_blocks.
      * rewrite B in Hb' by done. by eapply go_blocks.
  - destruct (extends_same_code _ _ _ X). by split.
Qed.

(** * The whole group *)

(** The variables behind a group: each one assigned to has the value that the
    runtime answers for the statement. *)
Fixpoint answers (value_of : filed -> Z) (l : list (option string)) (fs : list filed)
    (env : string -> option fval) : string -> option fval :=
  match l, fs with
  | o :: l', f :: fs' =>
      answers value_of l' fs' (match o with Some x => <[x := Some (VI (value_of f))]> env | None => env end)
  | _, _ => env
  end.

(** What the statements [l] mean as a group: each variable assigned to has the
    value of its expression in [old], the variables in front of the group; of
    two assignments to one variable the second counts. *)
Definition gives {meaning : Meaning} (old : string -> option fval) (st : stmt) (n : Z) : Prop :=
  exists w z w', fk_grouped old st w = Some (z, w') /\ conv FkInt z = VI n.

Fixpoint meant {meaning : Meaning} (old : string -> option fval) (l : list stmt)
    (env env' : string -> option fval) : Prop :=
  match l with
  | [] => env' = env
  | st :: l' =>
      match assigned st with
      | Some x => exists n, gives old st n /\ meant old l' (<[x := Some (VI n)]> env) env'
      | None => meant old l' env env'
      end
  end.

Lemma answers_meant {meaning : Meaning} old value_of l fs : forall env,
  Forall2 (fun st f => forall x, assigned st = Some x -> gives old st (value_of f)) l fs ->
  meant old l env (answers value_of (assigned <$> l) fs env).
Proof.
  intros env H. revert env. induction H as [|st f l fs Hst H IH]; intros env; [done |]. simpl.
  destruct (assigned st) as [x|] eqn:E; [| apply IH]. exists (value_of f). split; [by eapply Hst | apply IH].
Qed.

(** A statement is filed as an int exactly if it assigns. *)
Definition filed_for (o : option string) (f : filed) : Prop :=
  filed_type f = match o with Some _ => FkInt | None => FkVoid end.

Definition int_variables (env : string -> option fval) : list (option string) -> Prop :=
  Forall (fun o => match o with Some x => exists n, env x = Some (VI n) | None => True end).

Lemma int_variables_insert env x n l : int_variables env l -> int_variables (<[x := Some (VI n)]> env) l.
Proof.
  intros Hl. eapply Forall_impl; [exact Hl |]. intros [y|]; [| done]. intros [k Hk].
  destruct (decide (x = y)) as [->|Hne].
  - rewrite fn_lookup_insert. by exists n.
  - rewrite fn_lookup_insert_ne by done. by exists k.
Qed.

(** A runtime that keeps to its protocol answers every call. *)
Lemma settle_answers {c value_of} `{!Protocol c value_of} max l : forall fs pre env w,
  collecting (length pre) (pre ++ fs) w -> Forall2 filed_for l fs -> int_variables env l ->
  in_int64 (Z.of_nat (length (pre ++ fs))) ->
  exists w', settle max c (Z.of_nat (length pre)) l env w = Some (answers value_of l fs env, w') /\
    collecting (length (pre ++ fs)) (pre ++ fs) w'.
Proof.
  induction l as [|o l IH]; intros fs pre env w Hw Hl Hx Hn.
  { apply Forall2_nil_inv_l in Hl as ->. exists w. rewrite app_nil_r in *. by split. }
  apply Forall2_cons_inv_l in Hl as (f & fs' & Hf & Hl & ->). apply Forall_cons in Hx as [Ho Hx].
  assert ((pre ++ f :: fs') !! length pre = Some f) as Hat by by rewrite lookup_app_r, Nat.sub_diag.
  assert (wrap 64 (Z.of_nat (length pre)) = Z.of_nat (length pre)) as Hid.
  { apply wrap_int64. rewrite length_app in Hn. unfold in_int64, two63 in *. lia. }
  assert (Z.of_nat (length pre) + 1 = Z.of_nat (length (pre ++ [f])))%Z as Hnext by (rewrite length_app; simpl; lia).
  specialize (IH fs' (pre ++ [f])). rewrite length_app, <- app_assoc, Nat.add_1_r in IH. simpl in IH.
  destruct o as [x|]; simpl.
  - destruct Ho as [n ->].
    destruct (pr_recon_int _ _ _ n (wrap 64 max) _ Hw Hat Hf) as (w1 & E & Hv & Hw1).
    rewrite Hid, E. simpl. rewrite bool_decide_true by done. 
    destruct (IH (<[x := Some (VI (value_of f))]> env) w1) as (w2 & E2 & Hw2);
      [done | done | by apply int_variables_insert | done |].
    exists w2. split; [| done]. replace (Z.of_nat (length pre) + 1)%Z with (Z.of_nat (S (length pre))) by lia. exact E2.
  - destruct (pr_recon_void _ _ _ (wrap 64 max) _ Hw Hat Hf) as (r & w1 & E & Hw1).
    rewrite Hid, E. simpl. destruct (IH env w1) as (w2 & E2 & Hw2); [done.. |].
    exists w2. split; [| done]. replace (Z.of_nat (length pre) + 1)%Z with (Z.of_nat (S (length pre))) by lia. exact E2.
Qed.

Lemma settled_filed_for G st a e : settled G st -> filed_for (assigned st) (mk_filed (grouped_type G st) a e).
Proof.
  unfold settled, filed_for, grouped_type. simpl.
  destruct st as [| | |q e'| |q target e'| |]; try done; [| destruct target as [| |x| | | | | | |]; try done]; simpl.
  - by destruct (type_discarded G e').
  - destruct (G x) as [t|]; [| done]. simpl. destruct (type_of _ e') as [te|]; [| done]. simpl.
    destruct (result_fits t te e') eqn:E; [| done]. by destruct t, te.
Qed.

Lemma files_filed_for G l : forall k es, length es = length l -> Forall (settled G) l ->
  Forall2 filed_for (assigned <$> l) (files jit_address G k l es).
Proof.
  induction l as [|st l IH]; intros k [|e es] Hlen Hl; simplify_eq/=; [constructor |].
  apply Forall_cons in Hl as [Hst Hl]. constructor; [by apply settled_filed_for | by apply IH].
Qed.

Lemma files_length G l : forall k es, length es = length l -> length (files jit_address G k l es) = length l.
Proof. induction l as [|st l IH]; intros k [|e es] Hlen; simplify_eq/=; [done |]. by rewrite IH. Qed.

Lemma settled_assigns G st x : settled G st -> assigned st = Some x -> G x = Some FkInt.
Proof.
  unfold settled. destruct st as [| | | | |q target e| |]; try done; destruct target as [| |y| | | | | | |]; try done.
  intros H [= ->]. simpl in H.
  destruct (G x) as [t|]; [| done]. simpl in H. destruct (type_of _ e) as [te|]; [| done]. simpl in H.
  destruct (result_fits t te e) eqn:E; [| done]. by destruct t, te.
Qed.

Lemma settled_aims G env c l m s :
  group_open G env c m s -> Forall (settled G) l ->
  Forall2 (aims G s) ((fun st => (None, target_of st s)) <$> l) (assigned <$> l) /\
  int_variables env (assigned <$> l).
Proof.
  intros Hg Hl. induction Hl as [|st l Hst Hl [IH1 IH2]]; [split; constructor |].
  destruct (assigned st) as [x|] eqn:E.
  - pose proof (settled_assigns _ _ _ Hst E) as HG.
    destruct (go_vars _ _ _ _ _ _ _ _ _ Hg x FkInt HG) as (a & u & slot & r & z & Ha & _ & _ & Hz & He).
    simpl. rewrite E. split; constructor; try done.
    + unfold aims. simpl. destruct st as [| | | | |q [] e| |]; simplify_eq. injection E as <-. simpl. by rewrite Ha.
    + destruct z as [n| |]; try done. by exists n.
  - simpl. rewrite E. split; constructor; try done.
    unfold aims. simpl. by destruct st as [| | | | |q [] e| |].
Qed.

End group_end.
