(* ===== verification/Straight.v ===== *)
(** The generator in the body of a function: what is true of its state while
    the main builder stands at the end of a block whose code runs, and how
    that state moves along when code is added to the block and a stack
    variable at the front of the entry block. *)

From stdpp Require Import functions.
From S2P Require Import Prelude Ast IR State Builder CodeGenBase CodeGenExpr CodeGenStmt.
From S2P Require Import Machine ExprLogic ExprCorrect Source Flow.

(** * Variables *)

Section slots.
Context {out : Outside}.

(** The variables of [G] are distinct slots that hold the values of [env]. *)
Definition slots (G : string -> option fty) (env : string -> option fval) (m : machine)
    (named : gmap string (option value)) : Prop :=
  exists place : gmap string nat,
    (forall y t, G y = Some t -> exists id slot r z,
      place !! y = Some slot /\
      named !! y = Some (Some (VInst id (TPointer (llvm_type t MainCtx)))) /\
      regs m !! id = Some (RPtr (Some slot)) /\
      mem m !! slot = Some r /\ env y = Some z /\ encodes t z r) /\
    (forall y y' slot, place !! y = Some slot -> place !! y' = Some slot -> y = y').

Lemma slots_mono G env m m' named :
  regs m ⊆ regs m' -> mem m' = mem m -> slots G env m named -> slots G env m' named.
Proof.
  intros Hs Hm (place & Hv & Hinj). exists place. split; [| done]. intros y t Hy.
  destruct (Hv y t Hy) as (a & slot & r & z & Hp & Ha & Hh & ?). exists a, slot, r, z.
  rewrite Hm. split_and!; [done | done | by eapply lookup_weaken | tauto..].
Qed.

(** A variable, and what a store to its slot does. *)
Lemma slots_store G env m named x t :
  slots G env m named -> G x = Some t -> exists id slot r0 z0,
    named !! x = Some (Some (VInst id (TPointer (llvm_type t MainCtx)))) /\
    regs m !! id = Some (RPtr (Some slot)) /\
    mem m !! slot = Some r0 /\ env x = Some z0 /\ encodes t z0 r0 /\
    forall r z, encodes t z r ->
      slots G (<[x := Some z]> env) (mk_machine (regs m) (<[slot := r]> (mem m)) (around m)) named.
Proof.
  intros (place & Hv & Hinj) Hx.
  destruct (Hv x t Hx) as (a & slot & r0 & z0 & Hp & Ha & Hh & Hm & Hz & He).
  exists a, slot, r0, z0. split_and!; try done. intros r z Hrz. exists place. split; [| done].
  intros y t' Hy. destruct (decide (y = x)) as [->|Hne].
  - simplify_eq. exists a, slot, r, z. simpl. rewrite lookup_insert_eq, fn_lookup_insert. done.
  - destruct (Hv y t' Hy) as (a' & slot' & r' & z' & Hp' & Ha' & Hh' & Hm' & Hz').
    exists a', slot', r', z'. simpl. rewrite fn_lookup_insert_ne by done.
    rewrite lookup_insert_ne by (intros ->; apply Hne; by eapply Hinj). done.
Qed.

(** A new variable in a slot that is not used yet. *)
Lemma slots_define G env m named x t id n r z :
  slots G env m named -> G x = None -> mem m !! n = None ->
  regs m !! id = Some (RPtr (Some n)) -> encodes t z r ->
  slots (<[x := Some t]> G) (<[x := Some z]> env) (mk_machine (regs m) (<[n := r]> (mem m)) (around m))
    (<[x := Some (VInst id (TPointer (llvm_type t MainCtx)))]> named).
Proof.
  intros (place & Hv & Hinj) Hx Hn Ha Hz.
  set (old := filter (fun p : string * nat => is_Some (G p.1)) place).
  assert (forall y sl, old !! y = Some sl -> sl <> n) as Hne.
  { intros y sl [Hp [t' Ht']]%map_lookup_filter_Some. simpl in Ht'.
    destruct (Hv y t' Ht') as (a' & slot & r' & z' & Hp' & _ & _ & Hm & _). congruence. }
  exists (<[x := n]> old). split.
  - intros y t' Hy. destruct (decide (y = x)) as [->|Hyx].
    + rewrite fn_lookup_insert in Hy. simplify_eq. exists id, n, r, z. simpl.
      by rewrite !lookup_insert_eq, fn_lookup_insert.
    + rewrite fn_lookup_insert_ne in Hy by done.
      destruct (Hv y t' Hy) as (a' & slot & r' & z' & Hp & Ha' & Hh & Hm & Hz').
      exists a', slot, r', z'. simpl. rewrite fn_lookup_insert_ne by done.
      rewrite !lookup_insert_ne by congruence. split_and!; try done; [| apply Hz'..].
      apply map_lookup_filter_Some. split; [done |]. by eexists.
  - intros y y' sl [[<- <-]|[Hy Hp]]%lookup_insert_Some [[<- E]|[Hy' Hp']]%lookup_insert_Some; try done.
    + by apply Hne in Hp'.
    + by apply Hne in Hp.
    + apply map_lookup_filter_Some in Hp as [Hp _], Hp' as [Hp' _]. by eapply Hinj.
Qed.

End slots.

Section straight.
Context {sigs : Signatures} {out : Outside} {world : World}.

(** * The generator in the body of a function *)

Definition only_main (_ : unit) : ctx := MainCtx.

Section body.
(** The function called [fname], of type [ft], with its first block [entry];
    the messages so far are [es]. *)
Context (fname : string) (ft : fun_ty) (entry : nat) (es : list string).

(** What is true wherever the builder stands; no name but those of [G] is
    taken. *)
Record calm (G : string -> option fty) (s : cg) : Prop := {
  cm_inside : insideLambda s = false;
  cm_errors : errors s = es;
  cm_recon : recon s = false;
  cm_commit : executeCommit s = true;
  cm_func : exists f, main_module (theIR s) !! fname = Some f /\
    head (f_blocks f) = Some entry /\ f_type f = ft;
  cm_entry : is_Some (blocks (theIR s) !! entry);
  cm_bounds : forall b l, blocks (theIR s) !! b = Some l ->
    b < next_block (theIR s) /\ Forall (fun i => i < next_inst (theIR s)) l.*1;
  cm_free : forall y, G y = None -> namedValues s !! y = None;
  cm_funs : declares MainCtx (main_module (theIR s))
}.

(** The machine [m] holds the variables of [env], and what is outside is what
    it is in [env]. *)
Record keeps (G : string -> option fty) (env : fk_state) (m : machine) (s : cg) : Prop := {
  kp_regs : forall id r, regs m !! id = Some r -> id < next_inst (theIR s);
  kp_slots : forall slot r, mem m !! slot = Some r -> slot < next_inst (theIR s);
  kp_vars : slots G (fk_vars env) m (namedValues s);
  kp_around : around m = fk_around env
}.

(** At the end of block [b]; [m0] is the machine at the start of the block,
    [m] after its code. *)
Record point (b : nat) (m0 : machine)
    (G : string -> option fty) (env : fk_state) (m : machine) (s : cg) : Prop := {
  pt_calm : calm G s;
  pt_ip : main_ip (theIR s) = Some b;
  pt_parent : block_parent (theIR s) !! b = Some (MainCtx, fname);
  pt_code : exists l, blocks (theIR s) !! b = Some l /\ run m0 l = Some m;
  pt_start : forall id r, regs m0 !! id = Some r -> id < next_inst (theIR s);
  pt_keeps : keeps G env m s
}.

(** The functions without a body, and the names of none, stay what they are. *)
Definition bodiless (s : cg) (f : string) : Prop :=
  forall fn, main_module (theIR s) !! f = Some fn -> f_blocks fn = [].

Definition same_bodiless (s s' : cg) : Prop := forall f,
  bodiless s f -> main_module (theIR s') !! f = main_module (theIR s) !! f.

#[export] Instance same_bodiless_preorder : PreOrder same_bodiless.
Proof.
  split; [done |]. intros s1 s2 s3 H1 H2 f Hf. pose proof (H1 f Hf) as E.
  rewrite (H2 f); [done |]. intros fn. rewrite E. apply Hf.
Qed.

(** What happens between two states when nothing is defined: code is added to
    block [b] and to new blocks. *)
Record grown (b : nat) (s s' : cg) : Prop := {
  gr_code : forall b' l, blocks (theIR s) !! b' = Some l ->
    exists post, blocks (theIR s') !! b' = Some (l ++ post) /\ (b' <> b -> post = []);
  gr_named : namedValues s' = namedValues s;
  gr_inst : next_inst (theIR s) <= next_inst (theIR s');
  gr_blocks : next_block (theIR s) <= next_block (theIR s');
  gr_funs : same_bodiless s s'
}.

Lemma grown_refl b s : grown b s s.
Proof. split; try done. intros b' l H. exists []. by rewrite app_nil_r. Qed.

(** Code added to [b] and then to a block that is [b] or was not there. *)
Lemma grown_trans b b1 s s1 s2 :
  b1 = b \/ blocks (theIR s) !! b1 = None -> grown b s s1 -> grown b1 s1 s2 -> grown b s s2.
Proof.
  intros Hb H1 H2. split.
  - intros b' l Hl. destruct (gr_code _ _ _ H1 _ _ Hl) as (p1 & E1 & N1).
    destruct (gr_code _ _ _ H2 _ _ E1) as (p2 & E2 & N2). exists (p1 ++ p2).
    rewrite app_assoc. split; [done |]. intros Hne. rewrite N1, N2; [done | | done].
    destruct Hb as [->|Hb]; [done |]. congruence.
  - by rewrite (gr_named _ _ _ H2), (gr_named _ _ _ H1).
  - pose proof (gr_inst _ _ _ H1). pose proof (gr_inst _ _ _ H2). lia.
  - pose proof (gr_blocks _ _ _ H1). pose proof (gr_blocks _ _ _ H2). lia.
  - transitivity s1; [apply (gr_funs _ _ _ H1) | apply (gr_funs _ _ _ H2)].
Qed.

Lemma grown_appended b s s' : grown b s s' -> appended (blocks (theIR s)) (blocks (theIR s')).
Proof. intros H b' l Hl. destruct (gr_code _ _ _ H _ _ Hl) as (p & E & _). by exists p. Qed.

Lemma grown_same b b' s s' :
  grown b s s' -> b' <> b -> is_Some (blocks (theIR s) !! b') ->
  blocks (theIR s') !! b' = blocks (theIR s) !! b'.
Proof.
  intros H Hb [l Hl]. destruct (gr_code _ _ _ H _ _ Hl) as (p & E & N). rewrite (N Hb), app_nil_r in E.
  congruence.
Qed.

Lemma code_only_grown b s s' :
  (exists l post, blocks (theIR s) !! b = Some l /\ blocks (theIR s') !! b = Some (l ++ post)) ->
  code_only b s s' -> grown b s s'.
Proof.
  intros (l & post & Hl & Hpost) (E & Hne & Hn). split; [| by rewrite E | done | by rewrite E | intros f _; by rewrite E].
  intros b' l' Hl'. destruct (decide (b' = b)) as [->|Hb'].
  - simplify_eq. by exists post.
  - exists []. rewrite Hne, app_nil_r by done. done.
Qed.

(** ** What is true stays true *)

Lemma keeps_grown b G env m s s' : grown b s s' -> keeps G env m s -> keeps G env m s'.
Proof.
  intros Hg []. pose proof (gr_inst _ _ _ Hg). split.
  - intros id r H'. apply kp_regs0 in H'. lia.
  - intros slot r H'. apply kp_slots0 in H'. lia.
  - by rewrite (gr_named _ _ _ Hg).
  - done.
Qed.

Lemma calm_context G s : calm G s -> context_of s = MainCtx.
Proof. intros []. unfold context_of. by rewrite cm_inside0. Qed.

Lemma calm_getContext G s : calm G s -> getContext s = (Ok MainCtx, s).
Proof. intros H. unfold getContext, gets. by rewrite (calm_context _ _ H). Qed.

Lemma calm_recon G s : calm G s -> (gets recon : M bool) s = (Ok false, s).
Proof. intros H. unfold gets. by rewrite (cm_recon _ _ H). Qed.

Lemma calm_inside G s : calm G s -> (gets insideLambda : M bool) s = (Ok false, s).
Proof. intros H. unfold gets. by rewrite (cm_inside _ _ H). Qed.

Lemma calm_commit G s : calm G s -> (gets executeCommit : M bool) s = (Ok true, s).
Proof. intros H. unfold gets. by rewrite (cm_commit _ _ H). Qed.

Lemma calm_set_commit G s : calm G s -> (modify (set_executeCommit true) : M unit) s = (Ok tt, s).
Proof.
  intros []. unfold modify. do 2 f_equal. destruct s. simpl in *. subst. reflexivity.
Qed.

Lemma calm_getFunc G s : calm G s -> exists f, getFunc (MainCtx, fname) s = (Ok f, s) /\
  head (f_blocks f) = Some entry /\ f_type f = ft.
Proof.
  intros []. destruct cm_func0 as (f & Hf & He). exists f. split; [| done].
  unfold getFunc, bind, gets_ir, gets. simpl. by rewrite Hf.
Qed.

Lemma point_parent b m0 G env m s : point b m0 G env m s -> getParent s = (Ok (MainCtx, fname), s).
Proof.
  intros []. unfold getParent, bind, getInsertBlock, gets, gets_ir.
  rewrite (cm_inside _ _ pt_calm0), pt_ip0. simpl. unfold gets. by rewrite pt_parent0.
Qed.

Lemma point_variables b m0 G env m s :
  point b m0 G env m s -> variables_hold only_main m G (fk_vars env) s (regs m).
Proof.
  intros H y t Hy. destruct (slots_store _ _ _ _ _ _ (kp_vars _ _ _ _ (pt_keeps _ _ _ _ _ _ H)) Hy)
    as (id & slot & r & z & Hn & Hr & Hm & He & Hz & _). eexists (VInst id _), (), slot, r, z.
  split_and!; try done; by split.
Qed.

Lemma point_typed b m0 G env m s : point b m0 G env m s -> env_typed G (fk_vars env).
Proof.
  intros H y t Hy. destruct (slots_store _ _ _ _ _ _ (kp_vars _ _ _ _ (pt_keeps _ _ _ _ _ _ H)) Hy)
    as (id & slot & r & z & _ & _ & _ & Hz & He & _). exists z. split; [done |]. by exists r.
Qed.

Lemma calm_justReturned q G s : calm G s -> calm G (set_justReturned q s).
Proof. by intros []. Qed.

Lemma point_justReturned q b m0 G env m s :
  point b m0 G env m s -> point b m0 G env m (set_justReturned q s).
Proof. intros []. split; [by apply calm_justReturned | done..| by destruct pt_keeps0]. Qed.

Lemma grown_justReturned q b s : grown b s (set_justReturned q s).
Proof. destruct (grown_refl b s). by split. Qed.

(** ** Adding code *)

(** A computation that only adds code keeps the state, with the machine that
    has run the new code. *)
Lemma point_total {A} (k : M A) (Q : A -> gmap nat rv -> Prop) w b m0 G env m s :
  point b m0 G env m s ->
  (forall l0, does MainCtx b l0 m (fk_around env) w k Q s (regs m)) ->
  exists a s' rg, k s = (Ok a, s') /\ point b m0 G (set_around w env) (mk_machine rg (mem m) w) s' /\
    Q a rg /\ grown b s s' /\ justReturned s' = justReturned s.
Proof.
  intros H Hk. pose proof (calm_context _ _ (pt_calm _ _ _ _ _ _ H)) as Hc. destruct H as [[] ? ? ? ? []].
  destruct pt_code0 as (l0 & Hl & Hr).
  destruct (Hk l0) as (a & s' & rg & E & A' & S & C & HQ).
  { split; [done | by rewrite cm_inside0 | | done | unfold functions_of; by rewrite cm_inside0].
    exists []. rewrite app_nil_r. split_and!; [done | destruct m; simpl in *; congruence | constructor]. }
  destruct (ab_code _ _ _ _ _ _ _ A') as (l & Hl' & Hr' & Hf').
  assert (grown b s s') as Hg by (apply code_only_grown; eauto).
  exists a, s', rg. pose proof C as (E' & Hother & Hn). split_and!; [done | | done | done | by rewrite E'].
  assert (blocks (theIR s') = <[b := l0 ++ l]> (blocks (theIR s))) as Hbl.
  { apply map_eq. intros b'. destruct (decide (b' = b)) as [->|Hb].
    - by rewrite lookup_insert_eq. - rewrite lookup_insert_ne by done. by apply Hother. }
  split; [split | | | | |]; try (rewrite E'; simpl; done).
  - rewrite Hbl. destruct (decide (b = entry)) as [->|]; [by rewrite lookup_insert_eq | by rewrite lookup_insert_ne].
  - intros b' l' Hb'. rewrite Hbl in Hb'.
    assert (next_block (theIR s') = next_block (theIR s)) as -> by by rewrite E'.
    apply lookup_insert_Some in Hb' as [[<- <-]|[_ Hb']].
    + destruct (cm_bounds0 _ _ Hl) as [Hb Hf]. split; [done |]. rewrite fmap_app. apply Forall_app.
      split; [| done]. eapply Forall_impl; [exact Hf |]. simpl. lia.
    + destruct (cm_bounds0 _ _ Hb') as [Hb Hf]. split; [done |].
      eapply Forall_impl; [exact Hf |]. simpl. lia.
  - exists (l0 ++ l). split; [by rewrite Hbl, lookup_insert_eq | by rewrite run_app, Hr].
  - intros id r Hid. apply pt_start0 in Hid. lia.
  - split.
    + apply (ab_dom _ _ _ _ _ _ _ A').
    + intros slot r Hs. apply kp_slots0 in Hs. lia.
    + rewrite E'. by eapply slots_mono.
    + done.
Qed.

(** ** Instructions at a point *)

(** The state after the instruction [i] at the end of [b], behind [l]. *)
Definition inserted (b : nat) (l : list (nat * inst)) (i : inst) (s : cg) : cg :=
  set_ir (ir_set_code (<[b := l ++ [(next_inst (theIR s), i)]]> (blocks (theIR s)))
    (detached (theIR s)) (S (next_inst (theIR s))) (theIR s)) s.

Lemma Insert_at i t b l s :
  insideLambda s = false -> main_ip (theIR s) = Some b -> blocks (theIR s) !! b = Some l ->
  Insert i t s = (Ok (VInst (next_inst (theIR s)) t), inserted b l i s).
Proof.
  intros Hi Hip Hl. unfold Insert, bind, getInsertBlock, gets, gets_ir, modify_ir, modify, mret, SE_ret.
  rewrite Hi, Hip. simpl. by rewrite Hl.
Qed.

Lemma grown_inserted b l i s : blocks (theIR s) !! b = Some l -> grown b s (inserted b l i s).
Proof.
  intros Hl. split; simpl; [| done | lia | done | done]. intros b' l' Hl'.
  destruct (decide (b' = b)) as [->|Hb].
  - simplify_eq. eexists. by rewrite lookup_insert_eq.
  - exists []. by rewrite lookup_insert_ne, app_nil_r.
Qed.

Lemma calm_inserted b l i G s : calm G s -> blocks (theIR s) !! b = Some l -> calm G (inserted b l i s).
Proof.
  intros [] Hl. split; simpl; try done.
  - destruct (decide (b = entry)) as [->|]; [by rewrite lookup_insert_eq | by rewrite lookup_insert_ne].
  - intros b' l' [[<- <-]|[_ Hb']]%lookup_insert_Some.
    + destruct (cm_bounds0 _ _ Hl) as [Hb Hf]. split; [done |]. rewrite fmap_app. apply Forall_app.
      split; [| repeat constructor; simpl; lia]. eapply Forall_impl; [exact Hf |]. simpl. lia.
    + destruct (cm_bounds0 _ _ Hb') as [Hb Hf]. split; [done |].
      eapply Forall_impl; [exact Hf |]. simpl. lia.
Qed.

Lemma point_here b m0 G env m s : point b m0 G env m s ->
  exists l, blocks (theIR s) !! b = Some l /\ run m0 l = Some m /\
    forall i t, Insert i t s = (Ok (VInst (next_inst (theIR s)) t), inserted b l i s).
Proof.
  intros []. destruct pt_code0 as (l & Hl & Hr). exists l. split_and!; [done | done |].
  intros i t. by apply Insert_at; [apply (cm_inside _ _ pt_calm0) | |].
Qed.

(** An instruction with its effect on the machine. *)
Lemma point_inserted i b m0 G env env' m m' l s :
  point b m0 G env m s -> blocks (theIR s) !! b = Some l ->
  exec m (next_inst (theIR s), i) = Some m' -> keeps G env' m' (inserted b l i s) ->
  point b m0 G env' m' (inserted b l i s).
Proof.
  intros H Hl He Hk. pose proof H as []. destruct pt_code0 as (l' & Hl' & Hr). simplify_eq.
  split; [by apply calm_inserted | done | done | | | done].
  - eexists. simpl. rewrite lookup_insert_eq. split; [done |]. rewrite run_app, Hr. simpl. by rewrite He.
  - intros id r Hid. apply pt_start0 in Hid. simpl. lia.
Qed.

(** A terminator ends the block. *)
Lemma point_terminated i b m0 G env m l s :
  point b m0 G env m s -> blocks (theIR s) !! b = Some l -> isTerminator i = true ->
  exists l', blocks (theIR (inserted b l i s)) !! b = Some l' /\ run_block m0 l' = Some (m, i).
Proof.
  intros H Hl Hi. destruct (pt_code _ _ _ _ _ _ H) as (l' & Hl' & Hr). simplify_eq.
  eexists. simpl. rewrite lookup_insert_eq. split; [done |].
  rewrite (run_block_app _ _ _ _ Hr). simpl. by rewrite Hi.
Qed.

(** A store to the slot of a variable. *)
Lemma point_store b m0 G env m s x t v r z :
  point b m0 G env m s -> G x = Some t ->
  holds (regs m) v (llvm_type t MainCtx) r -> encodes t z r ->
  exists a u s' m', namedValues s !! x = Some (Some a) /\
    getType a = TPointer (llvm_type t MainCtx) /\
    CreateStore v a s = (Ok u, s') /\ point b m0 G (set_var x z env) m' s' /\
    grown b s s' /\ justReturned s' = justReturned s.
Proof.
  intros H Hx [Tv Vv] Hz. destruct (point_here _ _ _ _ _ _ H) as (l & Hl & Hr & HI).
  pose proof (pt_keeps _ _ _ _ _ _ H) as [].
  destruct (slots_store _ _ _ _ _ _ kp_vars0 Hx) as (id & slot & r0 & z0 & Ha & Va & Hm & _ & _ & Hs).
  set (a := VInst id (TPointer (llvm_type t MainCtx))) in *. exists a. eexists _, (inserted b l (IStore v a) s), (mk_machine (regs m) (<[slot := r]> (mem m)) (around m)).
  split_and!; [done | done | | | by apply grown_inserted | done].
  - unfold CreateStore. rewrite (bind_eq _ _ s MainCtx s) by by eapply calm_getContext, pt_calm.
    simpl. rewrite (bind_eq _ _ s tt s) by (unfold assert; by rewrite bool_decide_true).
    apply HI.
  - eapply point_inserted; [exact H | done | |].
    + unfold exec. simpl. by rewrite Va, Vv.
    + split; simpl.
      * intros id0 r' Hid. apply kp_regs0 in Hid. lia.
      * intros sl r' [[<- _]|[_ H']]%lookup_insert_Some; [| apply kp_slots0 in H'; lia].
        apply kp_slots0 in Hm. lia.
      * by apply Hs.
      * done.
Qed.

(** ** Stack variables *)

(** The machine at the start of block [b] when a stack variable appears at the
    front of the entry block; it may already be there at the start of the entry
    block itself. *)
Definition restarted (b id : nat) (m0 m0' : machine) : Prop :=
  m0' = with_slot id m0 \/ b = entry /\ m0' = m0.

Lemma bounded_fresh (g : gmap nat rv) n : (forall id r, g !! id = Some r -> id < n) -> g !! n = None.
Proof. intros H. apply eq_None_not_Some. intros [x Hx]. apply H in Hx. lia. Qed.

Lemma calm_fresh G s b l : calm G s -> blocks (theIR s) !! b = Some l -> next_inst (theIR s) ∉ l.*1.
Proof.
  intros H Hl Hin. destruct (cm_bounds _ _ H _ _ Hl) as [_ Hf]. rewrite Forall_forall in Hf.
  apply Hf in Hin. lia.
Qed.

(** The state after a stack variable. *)
Definition allocated (t : ty) (l0 : list (nat * inst)) (s : cg) : cg :=
  set_ir (ir_set_code (<[entry := (next_inst (theIR s), IAlloca t) :: l0]> (blocks (theIR s)))
    (detached (theIR s)) (S (next_inst (theIR s))) (theIR s)) s.

Lemma calm_createAlloca G s t : calm G s -> isVoidTy t = false ->
  exists l0, blocks (theIR s) !! entry = Some l0 /\
    createAlloca (MainCtx, fname) t s = (Ok (VInst (next_inst (theIR s)) (TPointer t)), allocated t l0 s).
Proof.
  intros H Ht. destruct (cm_entry _ _ H) as [l0 Hl0]. destruct (calm_getFunc _ _ H) as (f & Ef & Hf & _).
  exists l0. split; [done |]. unfold createAlloca. rewrite (bind_eq _ _ _ _ _ Ef), Hf.
  rewrite (bind_eq _ _ s entry s) by done.
  rewrite (bind_eq _ _ s tt s) by (unfold assert; by rewrite Ht).
  unfold allocated, bind, gets_ir, gets, modify_ir, modify, mret, SE_ret. simpl. rewrite Hl0. reflexivity.
Qed.

Lemma calm_allocated G s t l0 :
  calm G s -> blocks (theIR s) !! entry = Some l0 -> calm G (allocated t l0 s).
Proof.
  intros [] Hl. split; simpl; try done; [by rewrite lookup_insert_eq |].
  intros b' l' [[<- <-]|[_ Hb']]%lookup_insert_Some.
  - destruct (cm_bounds0 _ _ Hl) as [Hb Hf]. split; [done |]. simpl. constructor; [lia |].
    eapply Forall_impl; [exact Hf |]. simpl. lia.
  - destruct (cm_bounds0 _ _ Hb') as [Hb Hf]. split; [done |].
    eapply Forall_impl; [exact Hf |]. simpl. lia.
Qed.

Lemma point_allocated b m0 m0' G env m s t l0 (n := next_inst (theIR s)) :
  point b m0 G env m s -> blocks (theIR s) !! entry = Some l0 -> restarted b n m0 m0' ->
  point b m0' G env (with_slot n m) (allocated t l0 s).
Proof.
  intros H Hl0 Hm0. pose proof H as []. destruct pt_code0 as (l & Hl & Hr). pose proof pt_keeps0 as [].
  assert (regs m0 !! n = None) as Hn0 by by apply bounded_fresh.
  assert (regs m !! n = None) as Hn by by apply bounded_fresh.
  destruct (run_with_slot n _ _ _ Hn0 (calm_fresh _ _ _ _ pt_calm0 Hl) Hr) as [Hrun _].
  split; [by apply calm_allocated | done | done | | | split]; simpl.
  - destruct (decide (b = entry)) as [->|Hb].
    + simplify_eq. eexists. rewrite lookup_insert_eq. split; [done |].
      destruct Hm0 as [->|[_ ->]]; [| exact Hrun].
      simpl. change (run (with_slot n (with_slot n m0)) l0 = Some (with_slot n m)).
      by rewrite with_slot_twice.
    + exists l. rewrite lookup_insert_ne by done. by destruct Hm0 as [->|[? _]].
  - intros id r Hid. destruct Hm0 as [->|[_ ->]]; [| apply pt_start0 in Hid; lia].
    simpl in Hid. apply lookup_insert_Some in Hid as [[<- _]|[_ Hid]]; [fold n; lia |].
    apply pt_start0 in Hid. lia.
  - intros id r [[<- _]|[_ Hid]]%lookup_insert_Some; [fold n; lia |]. apply kp_regs0 in Hid. lia.
  - intros slot r Hs. apply kp_slots0 in Hs. lia.
  - eapply slots_mono; [| | exact kp_vars0]; [by apply insert_subseteq | done].
  - done.
Qed.

(** The end of a definition: a new variable with its slot, and a store. *)
Definition define (x : string) (val : value) : M (option value) :=
  alloca <- createAlloca (MainCtx, fname) (getType val) ;;
  namedValues_insert x alloca ;;
  CreateStore val alloca ;;
  mret (Some val).

(** The same for a parameter, which gets its name after the store. *)
Definition define_argument (x : string) (val : value) : M unit :=
  alloca <- createAlloca (MainCtx, fname) (getType val) ;;
  CreateStore val alloca ;;
  namedValues_insert x alloca.

Lemma store_new b m0 G env m s v a t :
  point b m0 G env m s -> getType a = TPointer t -> getType v = t ->
  exists l u, blocks (theIR s) !! b = Some l /\ forall nv,
    CreateStore v a (set_namedValues nv s) = (Ok u, set_namedValues nv (inserted b l (IStore v a) s)).
Proof.
  intros H Ta Tv. destruct (point_here _ _ _ _ _ _ H) as (l & Hl & _ & _).
  exists l, (VInst (next_inst (theIR s)) (TVoid MainCtx)). split; [done |]. intros nv. unfold CreateStore.
  rewrite (bind_eq _ _ _ MainCtx (set_namedValues nv s)).
  - rewrite Ta. rewrite (bind_eq _ _ _ tt (set_namedValues nv s))
      by (unfold assert; by rewrite bool_decide_true).
    exact (Insert_at _ _ b l (set_namedValues nv s) (cm_inside _ _ (pt_calm _ _ _ _ _ _ H)) (pt_ip _ _ _ _ _ _ H) Hl).
  - pose proof (calm_context _ _ (pt_calm _ _ _ _ _ _ H)) as Hc. unfold getContext, gets.
    by rewrite <- Hc.
Qed.

Lemma point_named b m0 G env m s x t v n r z l :
  point b m0 G env m s -> G x = None -> blocks (theIR s) !! b = Some l ->
  mem m !! n = None -> n < next_inst (theIR s) ->
  regs m !! n = Some (RPtr (Some n)) -> holds (regs m) v (llvm_type t MainCtx) r -> encodes t z r ->
  point b m0 (<[x := Some t]> G) (set_var x z env) (mk_machine (regs m) (<[n := r]> (mem m)) (around m))
    (set_namedValues (<[x := Some (VInst n (TPointer (llvm_type t MainCtx)))]> (namedValues s))
      (inserted b l (IStore v (VInst n (TPointer (llvm_type t MainCtx)))) s)).
Proof.
  intros H Hx Hl Hm Hn Ha [Tv Vv] Hz. pose proof H as []. pose proof pt_keeps0 as [].
  set (i := IStore v (VInst n (TPointer (llvm_type t MainCtx)))).
  pose proof (calm_inserted b l i _ _ pt_calm0 Hl) as [].
  split; [split; try done | done | done | | | split]; simpl.
  - intros y Hy. destruct (decide (y = x)) as [->|Hne]; [by rewrite fn_lookup_insert in Hy |].
    rewrite fn_lookup_insert_ne in Hy by done. rewrite lookup_insert_ne by done. by apply cm_free0.
  - destruct pt_code0 as (l' & Hl' & Hr). simplify_eq.
    eexists. rewrite lookup_insert_eq. split; [done |]. rewrite run_app, Hr. simpl. unfold exec. simpl.
    rewrite Ha. simpl. by rewrite Vv.
  - intros id r' Hid. apply pt_start0 in Hid. lia.
  - intros id r' Hid. apply kp_regs0 in Hid. lia.
  - intros sl r' [[<- _]|[_ Hsl]]%lookup_insert_Some; [lia |]. apply kp_slots0 in Hsl. lia.
  - apply (slots_define _ _ _ _ _ _ _ _ _ _ kp_vars0 Hx); done.
  - done.
Qed.

(** Both leave the same state. *)
Lemma point_defined b m0 G env m s x t v r z :
  point b m0 G env m s -> G x = None ->
  (forall rg, regs m ⊆ rg -> holds rg v (llvm_type t MainCtx) r) -> encodes t z r -> t <> FkVoid ->
  exists s' m' l0, blocks (theIR s) !! entry = Some l0 /\
    define x v s = (Ok (Some v), s') /\ define_argument x v s = (Ok tt, s') /\
    (forall m0', restarted b (next_inst (theIR s)) m0 m0' ->
      point b m0' (<[x := Some t]> G) (set_var x z env) m' s') /\
    appended (<[entry := (next_inst (theIR s), IAlloca (llvm_type t MainCtx)) :: l0]> (blocks (theIR s)))
      (blocks (theIR s')) /\
    (forall b' l, b' <> entry -> blocks (theIR s) !! b' = Some l ->
      exists post, blocks (theIR s') !! b' = Some (l ++ post)) /\
    next_block (theIR s') = next_block (theIR s) /\ main_module (theIR s') = main_module (theIR s).
Proof.
  intros H Hx Hv Hz Hnv. set (n := next_inst (theIR s)).
  assert (getType v = llvm_type t MainCtx) as Tv by apply (Hv (regs m) (reflexivity _)).
  destruct (calm_createAlloca _ _ (getType v) (pt_calm _ _ _ _ _ _ H)) as (l0 & Hl0 & E1);
    [rewrite Tv; by destruct t |].
  assert (forall m0', restarted b n m0 m0' -> point b m0' G env (with_slot n m) (allocated (getType v) l0 s))
    as Hall by (intros m0' Hm0; by eapply point_allocated).
  fold n in E1. pose proof (Hall _ (or_introl eq_refl)) as H1.
  set (s1 := allocated (getType v) l0 s) in *. set (a := VInst n (TPointer (getType v))) in *.
  pose proof (pt_keeps _ _ _ _ _ _ H) as [].
  assert (regs m !! n = None) as Hn by by apply bounded_fresh.
  assert (mem m !! n = None) as Hm by by apply bounded_fresh.
  destruct (store_new _ _ _ _ _ _ v a (getType v) H1 eq_refl eq_refl) as (l & u & Hl & Es).
  assert (namedValues s1 !! x = None) as Hnx by by apply (cm_free _ _ (pt_calm _ _ _ _ _ _ H)).
  eexists (set_namedValues (<[x := Some a]> (namedValues s1)) (inserted b l (IStore v a) s1)), _, l0.
  split_and!; [done | | | | | | done | done].
  - unfold define. rewrite (bind_eq _ _ _ _ _ E1).
    rewrite (bind_eq _ _ s1 tt (set_namedValues (<[x := Some a]> (namedValues s1)) s1))
      by (unfold namedValues_insert, modify; cbv beta; by rewrite Hnx).
    by rewrite (bind_eq _ _ _ _ _ (Es _)).
  - unfold define_argument. rewrite (bind_eq _ _ _ _ _ E1).
    specialize (Es (namedValues s1)).
    replace (set_namedValues (namedValues s1) s1) with s1 in Es by (by destruct s).
    rewrite (bind_eq _ _ _ _ _ Es). unfold namedValues_insert, modify. cbv beta.
    change (namedValues (set_namedValues (namedValues s1) (inserted b l (IStore v a) s1)))
      with (namedValues s1). by rewrite Hnx.
  - intros m0' Hm0. unfold a. rewrite Tv. eapply point_named; [by apply Hall | try done..].
    + unfold s1. simpl. fold n. lia.
    + simpl. apply lookup_insert_eq.
    + apply Hv. simpl. by apply insert_subseteq.
  - rewrite <- Tv. apply (grown_appended b s1 (inserted b l (IStore v a) s1)). by apply grown_inserted.
  - intros b' l' Hb' Hl'. apply (grown_appended b s1 (inserted b l (IStore v a) s1)); [by apply grown_inserted |].
    unfold s1. simpl. by rewrite lookup_insert_ne.
Qed.
End body.
End straight.
