(* ===== verification/StraightProps.v ===== *)
(** The statements without control flow, at a point of a function body:
    expressions, conversions, definitions, assignments and the return. *)

From stdpp Require Import functions.
From S2P Require Import Prelude Ast IR State Builder CodeGenBase CodeGenExpr CodeGenStmt.
From S2P Require Import CodeGenBlock Machine ExprLogic ExprCorrect Source Flow Straight.

Section body.
Context {sigs : Signatures} {out : Outside} {world : World}.
Context (fname : string) (ft : fun_ty) (entry : nat) (es : list string).
Local Abbreviation calm := (calm fname ft entry es).
Local Abbreviation point := (point fname ft entry es).

(** A value [v] of type [t] that stands for [z], in the main context. *)
Definition stands (m : machine) (v : value) (t : fty) (z : fval) : Prop :=
  exists r, holds (regs m) v (llvm_type t MainCtx) r /\ encodes t z r.

(** ** Expressions and conversions *)

Lemma set_around_same env : set_around (fk_around env) env = env.
Proof. by destruct env. Qed.

(** Code that leaves the outside alone. *)
Lemma point_pure {A} (k : M A) (Q : A -> gmap nat rv -> Prop) b m0 G env m s :
  point b m0 G env m s ->
  (forall l0, does MainCtx b l0 m (fk_around env) (fk_around env) k Q s (regs m)) ->
  exists a s' rg, k s = (Ok a, s') /\ point b m0 G env (mk_machine rg (mem m) (around m)) s' /\
    Q a rg /\ grown b s s' /\ justReturned s' = justReturned s.
Proof.
  intros H Hk. destruct (point_total _ _ _ _ _ _ _ _ _ _ _ _ _ H Hk) as (a & s' & rg & E & P & R).
  exists a, s', rg. rewrite set_around_same in P.
  by rewrite (kp_around _ _ _ _ (pt_keeps _ _ _ _ _ _ _ _ _ _ H)).
Qed.

(** The state [s'] with the machine [m'] after code for a value. *)
Definition computes (b : nat) (m0 : machine) (G : string -> option fty) (env : fk_state)
    (s : cg) (m' : machine) (s' : cg) : Prop :=
  point b m0 G env m' s' /\ grown b s s' /\ justReturned s' = justReturned s.

Lemma computes_trans b m0 G env1 env s s1 m1 s2 m2 :
  computes b m0 G env1 s m1 s1 -> computes b m0 G env s1 m2 s2 -> computes b m0 G env s m2 s2.
Proof.
  intros (_ & G1 & J1) (P & G2 & J2). split; [done |]. split; [| congruence].
  eapply grown_trans; [by left | done | done].
Qed.

Lemma point_expr e t z env1 b m0 G env m s :
  point b m0 G env m s -> type_of G e = Some t -> evaluate env e = Some (z, env1) ->
  exists v s' m', visit e s = (Ok (Some v), s') /\ computes b m0 G env1 s m' s' /\ stands m' v t z.
Proof.
  intros H Ht Hz. apply bind_Some in Hz as ([z' w] & Hz & [= <- <-]). pose proof (point_variables _ _ _ _ _ _ _ _ _ _ H) as Hv.
  destruct (point_total _ _ _ _ (visit e) (some_typed only_main t z') w _ _ _ _ _ _ H) as
    (a & s' & rg & E & H' & (v & -> & [] & r & Hh & He) & Hg & Hj).
  { intros l0. by apply (total_visit only_main () b l0 m G (fk_vars env) e). }
  exists v, s', (mk_machine rg (mem m) w). split_and!; [done | done |]. by exists r.
Qed.

Lemma point_to_float v z b m0 G env m s :
  point b m0 G env m s -> stands m v FkInt (VI z) ->
  exists v' s' m', castIntToFloat v s = (Ok v', s') /\ computes b m0 G env s m' s' /\
    stands m' v' FkFloat (VF (of_int z)).
Proof.
  intros H (r & Hh & [-> Hz]).
  destruct (point_pure (castIntToFloat v)
    (fun v' rg => holds rg v' (TDouble MainCtx) (RFloat (of_int z))) _ _ _ _ _ _ H) as
    (v' & s' & rg & E & H' & Hv' & Hg & Hj).
  { intros l0. by eapply total_castIntToFloat. }
  exists v', s', (mk_machine rg (mem m) (around m)). split_and!; [done | done | by eexists].
Qed.

Lemma stands_type m v t z : stands m v t z -> getType v = llvm_type t MainCtx.
Proof. by intros (r & [T _] & _). Qed.

(** The cases of [fits]: the same type, or an integer for a double. *)
Lemma stands_fits m v t te z :
  stands m v te z -> fits t te = true ->
  (t = te /\ stands m v t (conv t z)) \/
  (t = FkFloat /\ te = FkInt /\ exists n, z = VI n /\ stands m v FkInt (VI n)).
Proof.
  intros Hs Hf. pose proof Hs as (r & Hh & He). destruct t, te; try discriminate.
  - left. split; [done |]. by exists r.
  - left. split; [done |]. by exists r.
  - right. split_and!; try done. destruct z as [n| |]; [| done..]. exists n. split; [done |]. by exists r.
  - left. split; [done |]. exists r. by destruct z.
  - left. split; [done |]. by exists r.
Qed.

(** ** Definitions *)

Lemma point_initial type exp x te t b m0 G env env' m s :
  point b m0 G env m s -> G x = None ->
  match exp with None => te = None | Some e => exists te', te = Some te' /\ type_of G e = Some te' end ->
  declared_type type te = Some t ->
  fk_exec env (SVariable (VariableDefinition true type x exp false)) = Some (Next env') ->
  exists v z env1 s' m', plain_initial type exp s = (Ok (Some v), s') /\ computes b m0 G env1 s m' s' /\
    stands m' v t z /\ t <> FkVoid /\ env' = set_var x z env1.
Proof.
  intros H Hx Hte Ht He. unfold plain_initial. unfold declared_type in Ht.
  rewrite (bind_eq _ _ s MainCtx s) by by eapply calm_getContext, pt_calm.
  destruct exp as [e|]; simpl in He.
  - destruct Hte as (te' & -> & Hte). apply bind_Some in He as ([z env1] & Hz & [= <-]).
    destruct (point_expr _ _ _ _ _ _ _ _ _ _ H Hte Hz) as (v & s1 & m1 & E & C1 & Hs).
    rewrite (bind_eq _ _ _ _ _ E), (stands_type _ _ _ _ Hs).
    destruct (decide (type = "int")) as [->|Hint].
    + exists v, z, env1, s1, m1. destruct te'; simplify_eq; done.
    + destruct (decide (type = "float")) as [->|]; [| done].
      destruct te'; simplify_eq; simpl.
      * destruct Hs as (r & Hh & Hr). destruct z as [n| |]; [| done..]. simpl.
        destruct (point_to_float v n _ _ _ _ _ _ (proj1 C1)) as (v2 & s2 & m2 & E2 & C2 & Hs2); [by exists r |].
        exists v2, (VF (of_int n)), env1, s2, m2. split_and!; [| by eapply computes_trans | done..].
        unfold some. by rewrite (bind_eq _ _ _ _ _ E2).
      * exists v, z, env1, s1, m1. split_and!; try done. destruct Hs as (r & Hh & Hr). by destruct z.
  - subst te. injection He as <-. exists (if decide (type = "float") then VConstFP MainCtx double_zero else VConstInt MainCtx 64 0).
    exists (initial_value type), env, s, m. unfold initial_value.
    assert (computes b m0 G env s m s) by (split_and!; [done | apply grown_refl | done]).
    destruct (decide (type = "int")) as [->|Hint]; [simpl | destruct (decide (type = "float")) as [->|]; [| done]];
      simplify_eq; split_and!; try done.
    + eexists. split; [by split |]. by split.
    + eexists. by split.
Qed.

(** ** Assignments *)

Lemma point_variable x t b m0 G env m s : point b m0 G env m s -> G x = Some t ->
  exists a old r, namedValues s !! x = Some (Some a) /\
    getType a = TPointer (llvm_type t MainCtx) /\ fk_vars env x = Some old /\ encodes t old r.
Proof.
  intros [] Hx. destruct (slots_store _ _ _ _ _ _ (kp_vars _ _ _ _ pt_keeps) Hx)
    as (id & slot & r & z & Ha & _ & _ & Hz & He & _).
  by eexists _, z, r.
Qed.

(** The part of [AssignmentLHSVisitor] behind the variable. *)
Lemma point_assign x t te v z b m0 G env m s :
  point b m0 G env m s -> G x = Some t -> fits t te = true -> stands m v te z ->
  exists u s' m', lhs_visitIdentifier (Some v) x s = (Ok (Some u), s') /\
    point b m0 G (set_var x (conv t z) env) m' s' /\ grown b s s' /\
    justReturned s' = justReturned s.
Proof.
  intros H Hx Hf Hs. destruct (point_variable _ _ _ _ _ _ _ _ H Hx) as (a & old & r & Ha & Ta & Ho & He).
  assert (exists v' s1 m1,
    (if isDoubleTy (llvm_type t MainCtx) && isIntegerTy (getType v) then some (castIntToFloat v)
     else if negb (bool_decide (llvm_type t MainCtx = getType v)) then
       ErrorV "Unable to assign evaluated right operand of bad type to left operand"
     else mret (Some v)) s = (Ok (Some v'), s1) /\
    computes b m0 G env s m1 s1 /\ stands m1 v' t (conv t z))
    as (v' & s1 & m1 & E1 & (H1 & G1 & J1) & Hs1).
  { destruct (stands_fits _ _ _ _ _ Hs Hf) as [[-> Hs']|(-> & -> & n & -> & Hs')].
    - exists v, s, m. rewrite (stands_type _ _ _ _ Hs'), bool_decide_true by done.
      split_and!; [by destruct te | split_and!; [done | apply grown_refl | done] | done].
    - destruct (point_to_float _ _ _ _ _ _ _ _ H Hs') as (v1 & s1 & m1 & E & C1 & Hs1).
      exists v1, s1, m1. rewrite (stands_type _ _ _ _ Hs'). simpl. unfold some.
      by rewrite (bind_eq _ _ _ _ _ E). }
  destruct Hs1 as (r1 & Hh1 & He1).
  destruct (point_store _ _ _ _ _ _ _ _ _ _ x t v' r1 _ H1 Hx Hh1 He1) as
    (a' & u & s2 & m2 & Ha' & _ & E2 & H2 & G2 & J2).
  rewrite (gr_named _ _ _ G1) in Ha'. simplify_eq. exists v', s2, m2.
  split_and!; [| done | eapply grown_trans; [by left | done | done] | congruence].
  unfold lhs_visitIdentifier.
  rewrite (bind_eq _ _ s (Some a) s) by (unfold namedValue, bind, gets; by rewrite Ha).
  rewrite (bind_eq _ _ s (llvm_type t MainCtx) s) by (unfold getAllocaType; by rewrite Ta).
  rewrite (bind_eq _ _ _ _ _ (calm_recon _ _ _ _ _ _ (pt_calm _ _ _ _ _ _ _ _ _ _ H))).
  rewrite (bind_eq _ _ _ _ _ E1). unfold store_right. by rewrite (bind_eq _ _ _ _ _ E2).
Qed.

Lemma point_assignment tr c target e G' b m0 G env env' m s :
  point b m0 G env m s -> type_stmt tr true G (AssignStatement c target e) = Some G' ->
  fk_exec env (AssignStatement c target e) = Some (Next env') ->
  exists v s' m', visitAssignStatement target e s = (Ok v, s') /\ point b m0 G env' m' s' /\
    grown b s s' /\ justReturned s' = justReturned s /\ G' = G.
Proof.
  intros H Ht He. destruct target as [| |x| | | | | | |]; try done. simpl in Ht, He.
  apply bind_Some in Ht as (t & Hx & Ht). apply bind_Some in Ht as (te & Hte & Ht).
  destruct (fits t te) eqn:Hf; [| done]. simplify_eq.
  apply bind_Some in He as (old & Ho & He). apply bind_Some in He as ([z env1] & Hz & [= <-]).
  destruct (point_variable _ _ _ _ _ _ _ _ H Hx) as (a & old' & r & _ & _ & Ho' & Hr). simplify_eq.
  rewrite (like_conv _ _ _ _ Hr).
  destruct (point_expr _ _ _ _ _ _ _ _ _ _ H Hte Hz) as (v & s1 & m1 & E & (H1 & G1 & J1) & Hs).
  destruct (point_assign _ _ _ _ _ _ _ _ _ _ _ H1 Hx Hf Hs) as (u & s2 & m2 & E2 & H2 & G2 & J2).
  exists (Some u), s2, m2.
  split_and!; [| done | eapply grown_trans; [by left | done | done] | congruence | done].
  unfold visitAssignStatement.
  rewrite (bind_eq _ _ _ _ _ (calm_recon _ _ _ _ _ _ (pt_calm _ _ _ _ _ _ _ _ _ _ H))).
  rewrite (bind_eq _ _ _ _ _ E). simpl. rewrite (bind_eq _ _ _ _ _ E2).
  by rewrite (bind_eq _ _ _ _ _ (calm_recon _ _ _ _ _ _ (pt_calm _ _ _ _ _ _ _ _ _ _ H2))).
Qed.

(** ** Return *)

(** The end of a function: what is returned, or nothing. *)
Lemma point_ret ret r b m0 G env m s : point b m0 G env m s ->
  match ret with Some v => eval_value (regs m) v = Some r | None => r = RVoid end ->
  exists u s', match ret with Some v => CreateRet v | None => CreateRetVoid end s = (Ok u, s') /\
    calm G s' /\ grown b s s' /\ justReturned s' = justReturned s /\
    call_block (blocks (theIR s')) 1 b m0 = Some (r, fk_around env).
Proof.
  intros H Hr. destruct (point_here _ _ _ _ _ _ _ _ _ _ H) as (l & Hl & _ & HI).
  pose proof (kp_around _ _ _ _ (pt_keeps _ _ _ _ _ _ _ _ _ _ H)) as Hw.
  eexists _, (inserted b l (IRet ret) s). split_and!.
  - destruct ret; [unfold CreateRet | unfold CreateRetVoid];
      rewrite (bind_eq _ _ s MainCtx s) by (by eapply calm_getContext, pt_calm); apply HI.
  - apply calm_inserted; [apply H | done].
  - by apply grown_inserted.
  - done.
  - destruct (point_terminated _ _ _ _ (IRet ret) _ _ _ _ _ _ _ H Hl eq_refl) as (l' & Hl' & Hrun).
    simpl in Hl' |- *. rewrite Hl'. simpl. rewrite Hrun. simpl. rewrite <- Hw.
    destruct ret; [by rewrite Hr | by rewrite Hr].
Qed.

(** The state in which a return is visited. *)
Lemma visit_return exp b m0 G env m s : point b m0 G env m s ->
  point b m0 G env m (set_justReturned true s) /\
    visitReturnStatement exp s =
      (match exp with
       | Some e =>
           retVal <- visit e ;;
           match retVal with
           | Some retVal =>
               if isVoidTy (getType retVal) && isVoidTy (fret ft) then some CreateRetVoid
               else if bool_decide (fret ft = getType retVal) then
                 CreateRet retVal ;; mret (Some retVal)
               else if isIntegerTy (getType retVal) && isDoubleTy (fret ft) then
                 v <- castIntToFloat retVal ;; CreateRet v ;; mret (Some retVal)
               else ErrorV "Unable to return bad type from function"
           | None => return_null (fret ft)
           end
       | None =>
           if isVoidTy (fret ft) then some CreateRetVoid
           else ErrorV "Unable to return bad void type from function"
       end) (set_justReturned true s).
Proof.
  intros H. apply (point_justReturned _ _ _ _ true) in H as H0.
  destruct (calm_getFunc _ _ _ _ _ _ (pt_calm _ _ _ _ _ _ _ _ _ _ H0)) as (f & Ef & _ & Hft).
  split; [done |]. unfold visitReturnStatement.
  rewrite (bind_eq _ _ s (MainCtx, fname) s) by by eapply point_parent.
  rewrite (bind_eq _ _ s tt (set_justReturned true s)) by done. rewrite (bind_eq _ _ _ _ _ Ef).
  unfold getFuncRetType. by rewrite Hft.
Qed.

Lemma point_return_void b m0 G env m s :
  point b m0 G env m s -> fret ft = TVoid MainCtx ->
  exists v s', visitReturnStatement None s = (Ok (Some v), s') /\
    calm G s' /\ grown b s s' /\ justReturned s' = true /\
    call_block (blocks (theIR s')) 1 b m0 = Some (RVoid, fk_around env).
Proof.
  intros H Hret. destruct (visit_return None _ _ _ _ _ _ H) as (H0 & E).
  destruct (point_ret None RVoid _ _ _ _ _ _ H0 eq_refl) as (u & s' & E1 & C & G1 & J & R).
  exists u, s'. split_and!; [| done | | done | done].
  - rewrite E, Hret. simpl. unfold some. by rewrite (bind_eq _ _ _ _ _ E1).
  - eapply grown_trans; [by left | apply (grown_justReturned true) | done].
Qed.

(** [return f(x)] of a void function [f] in a void function. *)
Lemma point_return_call e z env1 b m0 G env m s :
  point b m0 G env m s -> fret ft = llvm_type FkVoid MainCtx ->
  type_of G e = Some FkVoid -> evaluate env e = Some (z, env1) ->
  exists v s' r, visitReturnStatement (Some e) s = (Ok (Some v), s') /\
    calm G s' /\ grown b s s' /\ justReturned s' = true /\
    call_block (blocks (theIR s')) 1 b m0 = Some (r, fk_around env1) /\ encodes FkVoid (conv FkVoid z) r.
Proof.
  intros H Hret Hte Hz. destruct (visit_return (Some e) _ _ _ _ _ _ H) as (H0 & E).
  destruct (point_expr _ _ _ _ _ _ _ _ _ _ H0 Hte Hz) as (v & s1 & m1 & E1 & (H1 & G1 & J1) & Hs1).
  destruct (point_ret None RVoid _ _ _ _ _ _ H1 eq_refl) as (u & s2 & E2 & C & G2 & J2 & R).
  exists u, s2, RVoid. split_and!; [| done | | | done |].
  - rewrite E, (bind_eq _ _ _ _ _ E1), (stands_type _ _ _ _ Hs1), Hret. simpl. unfold some.
    by rewrite (bind_eq _ _ _ _ _ E2).
  - eapply grown_trans; [by left | apply (grown_justReturned true) |].
    by eapply grown_trans; [left | |].
  - by rewrite J2, J1.
  - destruct Hs1 as (r & _ & He). by destruct z.
Qed.

Lemma point_return e tr te z env1 b m0 G env m s :
  point b m0 G env m s -> fret ft = llvm_type tr MainCtx ->
  type_of G e = Some te -> fits tr te = true -> evaluate env e = Some (z, env1) ->
  exists v s' r, visitReturnStatement (Some e) s = (Ok (Some v), s') /\
    calm G s' /\ grown b s s' /\ justReturned s' = true /\
    call_block (blocks (theIR s')) 1 b m0 = Some (r, fk_around env1) /\ encodes tr (conv tr z) r.
Proof.
  intros H Hret Hte Hf Hz. destruct (decide (te = FkVoid)) as [->|Hnv].
  { destruct tr; try done. by eapply point_return_call. }
  destruct (visit_return (Some e) _ _ _ _ _ _ H) as (H0 & E).
  destruct (point_expr _ _ _ _ _ _ _ _ _ _ H0 Hte Hz) as (v & s1 & m1 & E1 & (H1 & G1 & J1) & Hs1).
  assert (exists ret s2 m2, computes b m0 G env1 s1 m2 s2 /\ stands m2 ret tr (conv tr z) /\
    (if bool_decide (fret ft = getType v) then CreateRet v ;; mret (Some v)
     else if isIntegerTy (getType v) && isDoubleTy (fret ft) then
       v' <- castIntToFloat v ;; CreateRet v' ;; mret (Some v)
     else ErrorV "Unable to return bad type from function") s1 =
    (CreateRet ret ;; mret (Some v)) s2) as (ret & s2 & m2 & (H2 & G2 & J2) & (r & [_ Vr] & Hr) & E2).
  { rewrite Hret. destruct (stands_fits _ _ _ _ _ Hs1 Hf) as [[-> Hs']|(-> & -> & n & -> & Hs')].
    - exists v, s1, m1. rewrite (stands_type _ _ _ _ Hs'), bool_decide_true by done.
      split_and!; [split_and!; [done | apply grown_refl | done] | done | done].
    - destruct (point_to_float _ _ _ _ _ _ _ _ H1 Hs') as (v2 & s2 & m2 & E2 & C2 & Hs2).
      exists v2, s2, m2. rewrite (stands_type _ _ _ _ Hs'), bool_decide_false by done.
      split_and!; try done. simpl. by rewrite (bind_eq _ _ _ _ _ E2). }
  destruct (point_ret (Some ret) r _ _ _ _ _ _ H2 Vr) as (u & s3 & E3 & C3 & G3 & J3 & R3).
  exists v, s3, r. split_and!; try done.
  - rewrite E, (bind_eq _ _ _ _ _ E1).
    replace (isVoidTy (getType v) && isVoidTy (fret ft)) with false
      by (rewrite (stands_type _ _ _ _ Hs1); by destruct te).
    etrans; [exact E2 |]. by rewrite (bind_eq _ _ _ _ _ E3).
  - apply (grown_trans b b s s1); [by left | | by apply (grown_trans b b s1 s2); [left | |]].
    eapply grown_trans; [by left | apply (grown_justReturned true) | done].
  - by rewrite J3, J2, J1.
Qed.
End body.
