(* ===== verification/Control.v ===== *)
(** Conditionals: the blocks of an [if], its arms, and lists of statements
    with conditionals and returns.

    An arm that is not run is still compiled, and so is what follows an arm
    that returned.  That the generator accepts such code is shown by following
    it as if it ran, in the world [unrun], where every expression has a
    value. *)

From S2P Require Import Prelude Ast IR State Builder CodeGenBase CodeGenExpr CodeGenStmt.
From S2P Require Import CodeGenBlock Machine ExprLogic ExprCorrect Source SourceFacts Flow Straight.
From S2P Require Import StraightProps.

(** Outside a closure, while no group is open, a statement that commits is
    visited. *)
Lemma visit_next jit_address hash_order V cv i st rest last s :
  insideLambda s = false -> executeCommit s = true -> cv !! i = Some true ->
  visit_statements jit_address hash_order V cv i (with_visits jit_address hash_order (st :: rest)) last s =
  (v <- accept jit_address hash_order st ;;
   visit_statements jit_address hash_order V cv (S i) (with_visits jit_address hash_order rest) v) s.
Proof.
  intros Hl He Hcv. simpl. rewrite (bind_eq _ _ s false s) by (unfold gets; by rewrite Hl). rewrite Hcv.
  rewrite (bind_eq _ _ s true s) by done. simpl. unfold bind at 1.
  rewrite (bind_eq _ _ s true s) by (unfold gets; by rewrite He). simpl.
  by rewrite (bind_eq _ _ s tt s).
Qed.

Section control.
Context {sigs : Signatures} {out : Outside}.
Context (fname : string) (ft : fun_ty) (entry : nat) (es : list string).
Local Abbreviation calm := (calm fname ft entry es).
Local Abbreviation point := (point fname ft entry es).

(** * Blocks *)

(** A block that is made and not yet part of the function. *)
Definition with_block (s : cg) : cg :=
  set_ir (ir_set_blocks (<[next_block (theIR s) := []]> (blocks (theIR s))) (block_parent (theIR s))
    (S (next_block (theIR s))) (theIR s)) s.

Lemma new_block_eq s : new_block s = (Ok (next_block (theIR s)), with_block s).
Proof. done. Qed.

Lemma calm_next_block G s : calm G s -> blocks (theIR s) !! next_block (theIR s) = None.
Proof.
  intros H. apply eq_None_not_Some. intros [l Hl]. destruct (cm_bounds _ _ _ _ _ _ H _ _ Hl). lia.
Qed.

Lemma calm_with_block G s : calm G s -> calm G (with_block s).
Proof.
  intros H. pose proof (calm_next_block _ _ H) as Hn. destruct H. split; simpl; try done.
  - destruct cm_entry as [l Hl]. exists l. rewrite lookup_insert_ne; [done |]. congruence.
  - intros b l [[<- <-]|[_ Hb]]%lookup_insert_Some; [split; [lia | constructor] |].
    destruct (cm_bounds _ _ Hb) as [Hb' Hf]. split; [lia | done].
Qed.

Lemma grown_with_block b G s : calm G s -> grown b s (with_block s).
Proof.
  intros H. pose proof (calm_next_block _ _ H) as Hn. split; [| done | done | simpl; lia | done].
  intros b' l Hl. exists []. rewrite app_nil_r. split; [| done]. simpl.
  rewrite lookup_insert_ne; [done |]. congruence.
Qed.

(** A block becomes part of the function. *)
Definition pushed (b : nat) (s : cg) : cg :=
  set_ir (ir_set_modules
    (alter (fun f => mk_func (f_type f) (f_argnames f) (f_blocks f ++ [b])) fname (main_module (theIR s)))
    (lambda_module (theIR s))
    (ir_set_blocks (blocks (theIR s)) (<[b := (MainCtx, fname)]> (block_parent (theIR s)))
      (next_block (theIR s)) (theIR s))) s.

Lemma push_block_eq b s : push_block MainCtx fname b s = (Ok tt, pushed b s).
Proof. done. Qed.

Lemma calm_pushed b G s : calm G s -> calm G (pushed b s).
Proof.
  intros []. split; simpl; try done; [| by apply declares_alter]. destruct cm_func as (f & Hf & Hh & Ht).
  eexists. unfold alter, map_alter. rewrite lookup_partial_alter_eq, Hf. split; [done |]. simpl.
  split; [| done]. by destruct (f_blocks f).
Qed.

Lemma grown_pushed b b' G s : calm G s -> grown b s (pushed b' s).
Proof.
  intros H. destruct (grown_refl b s). split; try done. intros f Hf. simpl.
  destruct (decide (f = fname)) as [->|Hne].
  - destruct (cm_func _ _ _ _ _ _ H) as (fn & E & Hh & _). by rewrite (Hf _ E) in Hh.
  - unfold alter, map_alter. by rewrite lookup_partial_alter_ne.
Qed.

(** The builder moves to block [b]. *)
Definition moved (b : nat) (s : cg) : cg := set_ir (ir_set_ip (Some b) (lambda_ip (theIR s)) (theIR s)) s.

Lemma SetInsertPoint_eq b G s : calm G s -> SetInsertPoint b s = (Ok tt, moved b s).
Proof.
  intros []. unfold SetInsertPoint, bind, gets, modify_ir, modify. simpl. by rewrite cm_inside.
Qed.

Lemma calm_moved b G s : calm G s -> calm G (moved b s).
Proof. by intros []. Qed.

Lemma grown_moved b b' s : grown b s (moved b' s).
Proof. by destruct (grown_refl b s); split. Qed.

(** At the start of an empty block the machine is any that has the
    variables. *)
Lemma point_empty {world : World} b G env m s :
  calm G s -> keeps G env m s -> main_ip (theIR s) = Some b ->
  block_parent (theIR s) !! b = Some (MainCtx, fname) -> blocks (theIR s) !! b = Some [] ->
  point b m G env m s.
Proof.
  intros Hc Hk Hip Hp Hb. split; try done; [by exists [] |]. by destruct Hk.
Qed.

(** The builder goes on in block [b], which joins the function. *)
Definition entered (b : nat) (s : cg) : cg := moved b (pushed b s).

Lemma enter_eq {A} b G s (k : M A) : calm G s ->
  (push_block MainCtx fname b ;; SetInsertPoint b ;; k) s = k (entered b s).
Proof.
  intros H. rewrite (bind_eq _ _ s tt _ (push_block_eq _ _)).
  by rewrite (bind_eq _ _ _ _ _ (SetInsertPoint_eq b _ _ (calm_pushed b _ _ H))).
Qed.

Lemma calm_entered b G s : calm G s -> calm G (entered b s).
Proof. intros H. by apply calm_moved, calm_pushed. Qed.

Lemma grown_entered b b' G s : calm G s -> grown b s (entered b' s).
Proof. intros H. eapply grown_trans; [by left | by eapply grown_pushed | apply grown_moved]. Qed.

(** There, the machine may be any that has the variables. *)
Lemma enter {world : World} b G env m s :
  calm G s -> keeps G env m s -> blocks (theIR s) !! b = Some [] ->
  point b m G env m (entered b s).
Proof.
  intros Hc Hk Hb. apply point_empty; [by apply calm_entered | | done | | done].
  - by eapply keeps_grown; [apply (grown_entered b b G) |].
  - simpl. apply lookup_insert_eq.
Qed.

(** A branch to [merge]. *)
Lemma branch {world : World} merge b m0 G env m s :
  point b m0 G env m s ->
  exists v s', CreateBr merge s = (Ok v, s') /\ grown b s s' /\ calm G s' /\
    justReturned s' = justReturned s /\ keeps G env m s' /\
    reach (blocks (theIR s')) 1 b m0 merge m.
Proof.
  intros H. destruct (point_here _ _ _ _ _ _ _ _ _ _ H) as (l & Hl & _ & HI).
  pose proof (grown_inserted b l (IBr merge) s Hl) as Hg.
  eexists _, (inserted b l (IBr merge) s). split_and!; [| done | | done | | ].
  - unfold CreateBr. rewrite (bind_eq _ _ s MainCtx s) by by eapply calm_getContext, pt_calm. apply HI.
  - apply calm_inserted; [apply H | done].
  - eapply keeps_grown; [exact Hg | apply H].
  - destruct (point_terminated _ _ _ _ (IBr merge) _ _ _ _ _ _ _ H Hl eq_refl) as (l' & Hl' & Hr).
    eapply reach_jump; [exact Hl' | exact Hr | done | constructor].
Qed.

(** * What a list of statements leads to *)

Context (tr : fty).
Context (Hret : fret ft = llvm_type tr MainCtx).

Definition at_or_new (b b' : nat) (s : cg) : Prop := b' = b \/ blocks (theIR s) !! b' = None.

Lemma at_or_new_trans b b1 b' s s1 :
  at_or_new b b1 s -> grown b s s1 -> at_or_new b1 b' s1 -> at_or_new b b' s.
Proof.
  intros N1 G1 [->|Hn]; [done |]. right. apply eq_None_not_Some. intros [l Hl].
  destruct (gr_code _ _ _ G1 _ _ Hl) as (p & E & _). congruence.
Qed.

(** The same start, or that of a new block. *)
Definition same_or_new (b : nat) (m0 : machine) (b' : nat) (m0' : machine) (s : cg) : Prop :=
  (b' = b /\ m0' = m0) \/ blocks (theIR s) !! b' = None.

Lemma same_at b m0 b' m0' s : same_or_new b m0 b' m0' s -> at_or_new b b' s.
Proof. intros [[-> _]|H]; [by left | by right]. Qed.

Lemma same_or_new_trans b m0 b1 m01 b' m0' s s1 :
  same_or_new b m0 b1 m01 s -> grown b s s1 -> same_or_new b1 m01 b' m0' s1 -> same_or_new b m0 b' m0' s.
Proof.
  intros N1 G1 [[-> ->]|Hn]; [done |]. right. apply eq_None_not_Some. intros [l Hl].
  destruct (gr_code _ _ _ G1 _ _ Hl) as (p & E & _). congruence.
Qed.

(** The number of blocks made between two states. *)
Definition added (s s' : cg) : nat := next_block (theIR s') - next_block (theIR s).

Lemma added_trans b b1 s s1 s2 : grown b s s1 -> grown b1 s1 s2 -> added s s1 + added s1 s2 = added s s2.
Proof. intros H1 H2. pose proof (gr_blocks _ _ _ H1). pose proof (gr_blocks _ _ _ H2). unfold added. lia. Qed.

(** From the start of block [b] with the machine [m0], [o] is reached, in no
    more jumps than there are new blocks; [q] tells that the last statement is
    a return. *)
Definition leads {world : World} (q : bool) (b : nat) (m0 : machine) (G : string -> option fty)
    (s : cg) (o : outcome) (s' : cg) : Prop :=
  grown b s s' /\ calm G s' /\ (justReturned s = false -> justReturned s' = q) /\
  match o with
  | Next env' => q = false /\ exists b' m0' m', same_or_new b m0 b' m0' s /\ point b' m0' G env' m' s' /\
      reach (blocks (theIR s')) (added s s') b m0 b' m0'
  | Return z w =>
      (exists r, call_block (blocks (theIR s')) (S (added s s')) b m0 = Some (r, w) /\ encodes tr (conv tr z) r) /\
      (q = false -> exists b' m0' env' m', at_or_new b b' s /\
        Straight.point (world := unrun) fname ft entry es b' m0' G env' m' s')
  end.

(** Code at the same place. *)
Lemma leads_here {world : World} b m0 G env' m' s s' :
  point b m0 G env' m' s' -> grown b s s' -> justReturned s' = justReturned s ->
  leads false b m0 G s (Next env') s'.
Proof.
  intros H Hg Hj. split_and!; [done | apply H | congruence | done |].
  exists b, m0, m'. split_and!; [by left; split | done | constructor].
Qed.

(** One statement after the other. *)
Lemma leads_trans {world : World} q b m0 G s env1 b1 m01 m1 s1 o s' :
  grown b s s1 -> (justReturned s = false -> justReturned s1 = false) ->
  same_or_new b m0 b1 m01 s -> point b1 m01 G env1 m1 s1 -> reach (blocks (theIR s1)) (added s s1) b m0 b1 m01 ->
  leads q b1 m01 G s1 o s' -> leads q b m0 G s o s'.
Proof.
  intros G1 J1 N1 P1 R1 (G2 & C2 & J2 & HO).
  pose proof (same_at _ _ _ _ _ N1) as N1'.
  pose proof (fun b' => at_or_new_trans _ _ b' _ _ N1' G1) as Hnew.
  pose proof (reach_appended _ _ _ _ _ _ _ (grown_appended _ _ _ G2) R1) as R1'.
  pose proof (added_trans _ _ _ _ _ G1 G2) as Hadd.
  split_and!; [by eapply grown_trans | done | auto |]. destruct o as [env'|z w].
  - destruct HO as (-> & b' & m0' & m' & N' & P' & R'). split; [done |]. exists b', m0', m'.
    split_and!; [by eapply same_or_new_trans | done |]. rewrite <- Hadd. by eapply reach_trans.
  - destruct HO as ((r & Hr & He) & Hq). split; [exists r; split; [| done]; rewrite <- Hadd, <- Nat.add_succ_r; by eapply reach_returns |].
    intros Hf. destruct (Hq Hf) as (b' & m0' & env' & m' & N' & P'). exists b', m0', env', m'. auto.
Qed.

(** What follows a statement that returned. *)
Lemma leads_dead {world : World} q b m0 G s b1 m01 env1 m1 s1 r z w o s' :
  grown b s s1 -> (justReturned s = false -> justReturned s1 = false) -> at_or_new b b1 s ->
  Straight.point (world := unrun) fname ft entry es b1 m01 G env1 m1 s1 ->
  call_block (blocks (theIR s1)) (S (added s s1)) b m0 = Some (r, w) -> encodes tr (conv tr z) r ->
  leads (world := unrun) q b1 m01 G s1 o s' -> leads q b m0 G s (Return z w) s'.
Proof.
  intros G1 J1 N1 P1 R1 He (G2 & C2 & J2 & HO).
  pose proof (fun b' => at_or_new_trans _ _ b' _ _ N1 G1) as Hnew.
  split_and!; [by eapply grown_trans | done | auto | | ].
  - exists r. split; [| done]. pose proof (added_trans _ _ _ _ _ G1 G2) as Hadd.
    eapply returns_appended; [by eapply grown_appended |]. eapply call_block_more; [exact R1 | lia].
  - intros ->. destruct o as [env'|z' w'].
    + destruct HO as (_ & b' & m0' & m' & N' & P' & _). exists b', m0', env', m'. split; [| done]. by eapply Hnew, same_at.
    + destruct HO as (_ & Hq). destruct (Hq eq_refl) as (b' & m0' & env' & m' & N' & P').
      exists b', m0', env', m'. auto.
Qed.

(** ** The arms *)

(** The meaning of an arm. *)
Definition fk_arm {world : World} (env : fk_state) (blk : option (option (list stmt))) :
    option outcome :=
  match blk with Some (Some l) => fk_run env l | _ => Some (Next env) end.

(** An arm from the start of block [b], with the machine [m], to [merge]. *)
Definition arm_done {world : World} (b : nat) (m : machine) (G : string -> option fty) (merge : nat)
    (s : cg) (o : outcome) (s' : cg) : Prop :=
  grown b s s' /\ calm G s' /\ justReturned s' = false /\
  match o with
  | Next env' => exists m', keeps G env' m' s' /\ reach (blocks (theIR s')) (S (added s s')) b m merge m'
  | Return z w =>
      exists r, call_block (blocks (theIR s')) (S (added s s')) b m = Some (r, w) /\ encodes tr (conv tr z) r
  end.

(** After the block of an arm: the branch to [merge], unless it returned. *)
Lemma end_arm {world : World} q b m G merge s o s1 :
  leads q b m G s o s1 -> justReturned s = false ->
  exists s', (returned <- (gets justReturned : M bool) ;;
              if returned then modify (set_justReturned false) else CreateBr merge ;; mret tt) s1 =
             (Ok tt, s') /\
    arm_done b m G merge s o s'.
Proof.
  intros (G1 & C1 & J1 & HO) Hj. specialize (J1 Hj).
  rewrite (bind_eq _ _ s1 q s1) by (unfold gets; by rewrite J1). destruct q.
  - eexists. split; [reflexivity |].
    pose proof (grown_justReturned false b s1) as G2.
    split_and!; [by eapply grown_trans; [left | |] | by apply calm_justReturned | done |].
    destruct o as [env'|z w]; [by destruct HO |]. apply HO.
  - destruct o as [env'|z w].
    + destruct HO as (_ & b' & m0' & m' & N%same_at & P & R).
      destruct (branch merge _ _ _ _ _ _ P) as (v & s' & E & G2 & C2 & J2 & K2 & R2).
      exists s'. rewrite (bind_eq _ _ _ _ _ E). split; [done |].
      split_and!; [by eapply grown_trans | done | congruence |]. exists m'. split; [done |].
      eapply reach_more; [eapply reach_trans; [| exact R2] |].
      * by eapply reach_appended; [eapply grown_appended |].
      * pose proof (added_trans _ _ _ _ _ G1 G2). lia.
    + destruct HO as ((r & Hr & He) & Hq). destruct (Hq eq_refl) as (b' & m0' & env' & m' & N & P).
      destruct (branch (world := unrun) merge _ _ _ _ _ _ P) as (v & s' & E & G2 & C2 & J2 & _).
      exists s'. rewrite (bind_eq _ _ _ _ _ E). split; [done |].
      split_and!; [by eapply grown_trans | done | congruence |]. exists r. split; [| done].
      pose proof (added_trans _ _ _ _ _ G1 G2) as Hadd.
      eapply returns_appended; [by eapply grown_appended |]. eapply call_block_more; [exact Hr | lia].
Qed.

(** ** The blocks of a conditional *)

(** What [visitIfStatement] does once the builder stands in the first arm. *)
Definition if_rest (elseIf mergeIf : nat) (block else_block : option (M (option value))) :
    M (option value) :=
  visit_arm block mergeIf ;;
  push_block MainCtx fname elseIf ;;
  SetInsertPoint elseIf ;;
  visit_arm else_block mergeIf ;;
  push_block MainCtx fname mergeIf ;;
  SetInsertPoint mergeIf ;;
  getVoidValue.

(** The condition of a conditional, as an [i1]. *)
Lemma point_condition {world : World} te z v b m0 G env m s :
  point b m0 G env m s -> stands m v te z -> decides te = true ->
  exists v' s' m', (if isDoubleTy (getType v) then some (castFloatToBoolean v)
      else if isIntegerTy (getType v) then some (castIntToBoolean v)
      else ErrorV "Unable to determine condition type") s = (Ok (Some v'), s') /\
    computes fname ft entry es b m0 G env s m' s' /\ holds (regs m') v' (TInt MainCtx 1) (i1 (truth z)).
Proof.
  intros H (r & Hv & He) Ht. pose proof Hv as [Tv _].
  assert (exists k : M value, (forall l0 u, does MainCtx b l0 m u u k
      (fun v' rg => holds rg v' (TInt MainCtx 1) (i1 (truth z))) s (regs m)) /\
    (if isDoubleTy (getType v) then some (castFloatToBoolean v)
      else if isIntegerTy (getType v) then some (castIntToBoolean v)
      else ErrorV "Unable to determine condition type") = some k) as (k & Hk & ->).
  { rewrite Tv. destruct te; try done; destruct z; simpl in He; try done.
    - destruct He as [-> _]. eexists. split; [| done]. intros l0 u. by apply total_castIntToBoolean.
    - subst r. eexists. split; [| done]. intros l0 u. by apply total_castFloatToBoolean. }
  destruct (point_pure _ _ _ _ k _ _ _ _ _ _ _ H (fun l0 => Hk l0 _)) as (v' & s' & rg & E & P & Q & Hg & Hj).
  exists v', s', (mk_machine rg (mem m) (around m)). split_and!; [| done | done].
  unfold some. by rewrite (bind_eq _ _ _ _ _ E).
Qed.

(** The three blocks of a conditional, the first of which joins the function. *)
Definition arms_made (s : cg) : cg :=
  with_block (with_block (pushed (next_block (theIR s)) (with_block s))).

Lemma calm_arms_made G s : calm G s -> calm G (arms_made s).
Proof. intros H. by apply calm_with_block, calm_with_block, calm_pushed, calm_with_block. Qed.

Lemma grown_arms_made b G s : calm G s -> grown b s (arms_made s).
Proof.
  intros H. pose proof (calm_with_block _ _ H) as H1. pose proof (calm_pushed (next_block (theIR s)) _ _ H1) as H2.
  eapply grown_trans; [by left | by eapply grown_with_block |].
  eapply grown_trans; [by left | by eapply grown_pushed |].
  eapply grown_trans; [by left | by eapply grown_with_block |].
  eapply grown_with_block. by apply calm_with_block.
Qed.

Lemma arms_made_empty s x :
  next_block (theIR s) <= x < next_block (theIR s) + 3 -> blocks (theIR (arms_made s)) !! x = Some [].
Proof.
  intros Hx. simpl.
  destruct (decide (x = S (S (next_block (theIR s))))) as [->|]; [by rewrite lookup_insert_eq |].
  rewrite lookup_insert_ne by done.
  destruct (decide (x = S (next_block (theIR s)))) as [->|]; [by rewrite lookup_insert_eq |].
  rewrite lookup_insert_ne by done. replace x with (next_block (theIR s)) by lia. by rewrite lookup_insert_eq.
Qed.

Lemma arms_made_other s x :
  x < next_block (theIR s) -> blocks (theIR (arms_made s)) !! x = blocks (theIR s) !! x.
Proof. intros Hx. simpl. by rewrite !lookup_insert_ne by lia. Qed.

(** The conditional branch behind the condition. *)
Definition forked (b : nat) (l : list (nat * inst)) (v : value) (s : cg) : cg :=
  let n := next_block (theIR s) in moved n (inserted b l (ICondBr v n (S n)) (arms_made s)).

(** The code in front of the arms, once the condition is computed. *)
Lemma if_enters {world : World} e te z v v2 b m0 G env m m1 s s1 s2 l block else_block :
  visit e s = (Ok (Some v), s1) -> stands m1 v te z ->
  (if isDoubleTy (getType v) then some (castFloatToBoolean v)
    else if isIntegerTy (getType v) then some (castIntToBoolean v)
    else ErrorV "Unable to determine condition type") s1 = (Ok (Some v2), s2) ->
  getType v2 = TInt MainCtx 1 -> point b m0 G env m s2 -> blocks (theIR s2) !! b = Some l ->
  visitIfStatement e block else_block s =
    if_rest (S (next_block (theIR s2))) (S (S (next_block (theIR s2)))) block else_block (forked b l v2 s2).
Proof.
  intros E1 Hs E2 T2 P2 Hl. pose proof (pt_calm _ _ _ _ _ _ _ _ _ _ P2) as Hc.
  pose proof (calm_arms_made _ _ Hc) as Hc5. destruct (cm_bounds _ _ _ _ _ _ Hc _ _ Hl) as [Hb _].
  set (n := next_block (theIR s2)) in *.
  assert (blocks (theIR (arms_made s2)) !! b = Some l) as Hl5 by by rewrite arms_made_other.
  unfold visitIfStatement. rewrite (bind_eq _ _ _ _ _ E1).
  rewrite (bind_eq _ _ s1 v s1) by (rewrite (stands_type _ _ _ _ Hs); by destruct te).
  rewrite (bind_eq _ _ _ _ _ E2).
  rewrite (bind_eq _ _ s2 (MainCtx, fname) s2) by by eapply point_parent.
  rewrite (bind_eq _ _ s2 n (pushed n (with_block s2))) by done.
  rewrite (bind_eq _ _ _ (S n) (with_block (pushed n (with_block s2)))) by done.
  rewrite (bind_eq _ _ _ (S (S n)) (arms_made s2)) by done.
  erewrite (bind_eq (CreateCondBr _ _ _) _ (arms_made s2) _ (inserted b l (ICondBr v2 n (S n)) (arms_made s2))).
  2: { unfold CreateCondBr. rewrite (bind_eq _ _ _ MainCtx (arms_made s2)) by by eapply calm_getContext.
    rewrite T2. rewrite (bind_eq _ _ _ tt (arms_made s2)) by done.
    apply Insert_at; [apply Hc5 | apply P2 | done]. }
  by rewrite (bind_eq _ _ _ tt (forked b l v2 s2)) by by eapply SetInsertPoint_eq, calm_inserted.
Qed.

Lemma if_prefix {world : World} e te z env1 b m0 G env m s :
  point b m0 G env m s -> type_of G e = Some te -> decides te = true -> evaluate env e = Some (z, env1) ->
  exists thenIf elseIf mergeIf s' m',
    (forall block else_block, visitIfStatement e block else_block s =
      if_rest elseIf mergeIf block else_block s') /\
    grown b s s' /\ calm G s' /\ keeps G env1 m' s' /\ justReturned s' = justReturned s /\
    main_ip (theIR s') = Some thenIf /\ block_parent (theIR s') !! thenIf = Some (MainCtx, fname) /\
    thenIf <> elseIf /\ thenIf <> mergeIf /\ elseIf <> mergeIf /\
    (forall x, x = thenIf \/ x = elseIf \/ x = mergeIf ->
      blocks (theIR s) !! x = None /\ blocks (theIR s') !! x = Some []) /\
    3 + next_block (theIR s) <= next_block (theIR s') /\
    reach (blocks (theIR s')) 1 b m0 (if truth z then thenIf else elseIf) m'.
Proof.
  intros H Hte Hne Hz.
  destruct (point_expr _ _ _ _ _ _ _ _ _ _ _ _ _ _ H Hte Hz) as (v & s1 & m1 & E1 & C1 & Hs1).
  destruct (point_condition _ _ _ _ _ _ _ _ _ (proj1 C1) Hs1 Hne) as (v2 & s2 & m2 & E2 & C2 & [T2 V2]).
  destruct (computes_trans _ _ _ _ _ _ _ _ _ _ _ _ _ _ C1 C2) as (P2 & G2 & J2).
  pose proof (pt_calm _ _ _ _ _ _ _ _ _ _ P2) as Hc2. pose proof (calm_arms_made _ _ Hc2) as Hc5.
  destruct (point_here _ _ _ _ _ _ _ _ _ _ P2) as (l & Hl & Hrun & _).
  destruct (cm_bounds _ _ _ _ _ _ Hc2 _ _ Hl) as [Hb _].
  set (n := next_block (theIR s2)) in *.
  assert (blocks (theIR (arms_made s2)) !! b = Some l) as Hl5 by by rewrite arms_made_other.
  set (i := ICondBr v2 n (S n)).
  assert (grown b s2 (forked b l v2 s2)) as G6.
  { eapply grown_trans; [by left | by eapply grown_arms_made |].
    eapply grown_trans; [by left | by apply grown_inserted | apply grown_moved]. }
  exists n, (S n), (S (S n)), (forked b l v2 s2), m2. split_and!; try done; try lia.
  - intros block else_block. eapply if_enters; eassumption.
  - by eapply grown_trans; [by left | |].
  - by apply calm_moved, calm_inserted.
  - by eapply keeps_grown; [| apply P2].
  - simpl. by rewrite lookup_insert_eq.
  - intros x Hx. assert (n <= x < n + 3) as Hx' by lia. split.
    + apply eq_None_not_Some. intros [lx Hlx]. destruct (gr_code _ _ _ G2 _ _ Hlx) as (p & Ep & _).
      destruct (cm_bounds _ _ _ _ _ _ Hc2 _ _ Ep). unfold n in Hx'. lia.
    + etrans; [| apply (arms_made_empty s2 x Hx')]. apply lookup_insert_ne. lia.
  - pose proof (gr_blocks _ _ _ G2). simpl. lia.
  - eapply (reach_jump _ 0 b m0 (l ++ [(next_inst (theIR (arms_made s2)), i)]) m2 i
      (if truth z then n else S n)).
    + simpl. by rewrite lookup_insert_eq.
    + rewrite (run_block_app _ _ _ _ Hrun). done.
    + simpl. rewrite V2. simpl. by destruct (truth z).
    + constructor.
Qed.

(** ** Conditionals and lists *)

Context (jit_address : string -> Z).
Context (hash_order : gmap string (option value) -> list (string * option value)).
Local Abbreviation accept := (accept jit_address hash_order).

Definition visit_block (bb : option (list stmt)) : M (option value) :=
  visitBlock jit_address hash_order (with_visits jit_address hash_order <$> bb).

(** The block [bb] is compiled to code for what it means, wherever the
    builder stands. *)
Definition block_ok (G : string -> option fty) (bb : option (list stmt)) : Prop :=
  forall (world : World) env b m0 m s o,
    Straight.point fname ft entry es b m0 G env m s -> fk_arm env (Some bb) = Some o ->
    exists v s' q, visit_block bb s = (Ok v, s') /\ leads q b m0 G s o s'.

Definition arm_ok (G : string -> option fty) (blk : option (option (list stmt))) : Prop :=
  forall bb, blk = Some bb -> block_ok G bb.

Lemma arm_runs {world : World} blk merge b G env m s o :
  arm_ok G blk -> point b m G env m s -> fk_arm env blk = Some o ->
  (blk = None -> justReturned s = false) ->
  exists s', visit_arm (visit_block <$> blk) merge s = (Ok tt, s') /\ arm_done b m G merge s o s'.
Proof.
  intros Hok H Ho Hj. unfold visit_arm. destruct blk as [bb|].
  - set (s0 := set_justReturned false s).
    assert (point b m G env m s0) as H0 by by apply point_justReturned.
    destruct (Hok bb eq_refl world env b m m s0 o H0 Ho) as (v & s1 & q & E & L).
    destruct (end_arm q b m G merge s0 o s1 L eq_refl) as (s' & E' & A).
    exists s'. simpl. split.
    + rewrite (bind_eq _ _ s tt s1); [exact E' |].
      rewrite (bind_eq _ _ s tt s0) by done. by rewrite (bind_eq _ _ _ _ _ E).
    + destruct A as [A1 A2]. split; [| exact A2].
      eapply grown_trans; [by left | apply grown_justReturned | exact A1].
  - simpl in Ho. simplify_eq.
    destruct (end_arm false b m G merge s (Next env) s) as (s' & E' & A); [| by apply Hj |].
    + eapply leads_here; [exact H | apply grown_refl | done].
    + by exists s'.
Qed.

(** An arm from where it is entered; [run_it] tells whether it runs. *)
Lemma arm_compiles {world : World} blk merge b G env m s o (run_it : bool) :
  arm_ok G blk -> calm G s -> keeps G env m s -> main_ip (theIR s) = Some b ->
  block_parent (theIR s) !! b = Some (MainCtx, fname) -> blocks (theIR s) !! b = Some [] ->
  (run_it = true -> fk_arm env blk = Some o) ->
  (run_it = false -> exists o', fk_arm (world := unrun) env blk = Some o') ->
  (blk = None -> justReturned s = false) ->
  exists s', visit_arm (visit_block <$> blk) merge s = (Ok tt, s') /\
    grown b s s' /\ calm G s' /\ justReturned s' = false /\
    (run_it = true -> arm_done b m G merge s o s').
Proof.
  intros Hok Hc Hk Hip Hp Hb Hrun Hskip Hj. destruct run_it.
  - destruct (arm_runs blk merge b G env m s o) as (s' & E & A);
      [done | by apply point_empty | by auto | done |].
    exists s'. pose proof A as (? & ? & ? & _). done.
  - destruct (Hskip eq_refl) as (o' & Ho').
    destruct (arm_runs (world := unrun) blk merge b G env m s o') as (s' & E & A);
      [done | by apply point_empty | by auto | done |].
    exists s'. pose proof A as (? & ? & ? & _). done.
Qed.

(** Where an arm ends, seen from a later state. *)
Definition arm_end {world : World} (n b : nat) (m : machine) (G : string -> option fty) (merge : nat)
    (o : outcome) (s : cg) : Prop :=
  match o with
  | Next env' => exists m', keeps G env' m' s /\ reach (blocks (theIR s)) n b m merge m'
  | Return z w => exists r, call_block (blocks (theIR s)) n b m = Some (r, w) /\ encodes tr (conv tr z) r
  end.

Lemma arm_end_grown {world : World} n n' b m G merge o b' s s' :
  grown b' s s' -> n <= n' -> arm_end n b m G merge o s -> arm_end n' b m G merge o s'.
Proof.
  intros Hg Hn. pose proof (grown_appended _ _ _ Hg) as Ha. destruct o as [env'|z w]; simpl.
  - intros (m' & K & R). exists m'. split; [by eapply keeps_grown |].
    eapply reach_more; [by eapply reach_appended | done].
  - intros (r & R & He). exists r. split; [| done].
    eapply call_block_more; [by eapply returns_appended | done].
Qed.

(** The arms of a conditional, one after the other; [c] tells which runs. *)
Lemma arms_run {world : World} (c : bool) blk else_blk thenIf elseIf mergeIf G env m s o :
  arm_ok G blk -> arm_ok G else_blk ->
  (exists o, fk_arm (world := unrun) env blk = Some o) -> (exists o, fk_arm (world := unrun) env else_blk = Some o) ->
  fk_arm env (if c then blk else else_blk) = Some o -> blk <> None ->
  calm G s -> keeps G env m s -> main_ip (theIR s) = Some thenIf ->
  block_parent (theIR s) !! thenIf = Some (MainCtx, fname) ->
  thenIf <> elseIf -> thenIf <> mergeIf -> elseIf <> mergeIf ->
  (forall x, x = thenIf \/ x = elseIf \/ x = mergeIf -> blocks (theIR s) !! x = Some []) ->
  exists s1 s2, grown thenIf s s1 /\ grown elseIf s1 s2 /\ calm G s2 /\ justReturned s2 = false /\
    if_rest elseIf mergeIf (visit_block <$> blk) (visit_block <$> else_blk) s =
      (Ok (Some (VRetVoid MainCtx)), entered mergeIf s2) /\
    blocks (theIR s2) !! mergeIf = Some [] /\
    arm_end (S (added s s2)) (if c then thenIf else elseIf) m G mergeIf o s2.
Proof.
  intros Hok Hok' Htot Htot' Ho Hblk C0 K0 Hip Hp N1 N2 N3 Hnew.
  pose proof (Hnew thenIf ltac:(tauto)) as Et. pose proof (Hnew elseIf ltac:(tauto)) as Ee.
  pose proof (Hnew mergeIf ltac:(tauto)) as Em.
  destruct (arm_compiles blk mergeIf thenIf G env m s o c) as (s1 & E1 & G1 & C1 & J1 & A1);
    try done; [by intros -> |].
  assert (grown thenIf s (entered elseIf s1)) as G1'
    by (eapply grown_trans; [by left | exact G1 | by eapply grown_entered]).
  assert (forall x, x = elseIf \/ x = mergeIf -> blocks (theIR (entered elseIf s1)) !! x = Some []) as H1.
  { intros x Hx. rewrite (grown_same _ _ _ _ G1'); [apply Hnew; tauto | destruct Hx; congruence |].
    destruct Hx as [->| ->]; eauto. }
  destruct (arm_compiles else_blk mergeIf elseIf G env m (entered elseIf s1) o (negb c))
    as (s2 & E2 & G2 & C2 & J2 & A2);
    try done; [by apply calm_entered | by eapply keeps_grown | by apply lookup_insert_eq
      | by apply H1; left | by intros Hq; apply negb_true_iff in Hq as -> |].
  exists (entered elseIf s1), s2. split_and!; try done.
  - unfold if_rest. rewrite (bind_eq _ _ _ _ _ E1), (enter_eq _ _ _ _ C1).
    rewrite (bind_eq _ _ _ _ _ E2), (enter_eq _ _ _ _ C2). unfold getVoidValue.
    erewrite bind_eq; [reflexivity |]. by eapply calm_getContext, calm_entered.
  - rewrite (grown_same _ _ _ _ G2); [by apply H1; right | done | rewrite H1; eauto].
  - pose proof (added_trans _ _ _ _ _ G1' G2) as Hadd. destruct c.
    + destruct (A1 eq_refl) as (_ & _ & _ & A). eapply arm_end_grown; [exact G2 | reflexivity |].
      eapply arm_end_grown; [apply (grown_entered elseIf elseIf G s1 C1) | | exact A].
      apply le_n_S. rewrite <- Hadd. apply Nat.le_add_r.
    + destruct (A2 eq_refl) as (_ & _ & _ & A).
      eapply (arm_end_grown _ _ _ _ _ _ _ elseIf); [apply grown_refl | | exact A].
      apply le_n_S. rewrite <- Hadd. apply Nat.le_add_l.
Qed.

(** A conditional: its condition is computed, the arm it selects runs, and
    the builder goes on behind both. *)
Lemma if_runs {world : World} e te z env1 blk else_blk b m0 G env m s o :
  point b m0 G env m s -> type_of G e = Some te -> decides te = true -> evaluate env e = Some (z, env1) ->
  blk <> None -> arm_ok G blk -> arm_ok G else_blk ->
  (exists o, fk_arm (world := unrun) env1 blk = Some o) -> (exists o, fk_arm (world := unrun) env1 else_blk = Some o) ->
  fk_arm env1 (if truth z then blk else else_blk) = Some o ->
  exists s', visitIfStatement e (visit_block <$> blk) (visit_block <$> else_blk) s =
      (Ok (Some (VRetVoid MainCtx)), s') /\ leads false b m0 G s o s'.
Proof.
  intros H Hte Hne Hz Hblk Hok Hok' Htot Htot' Ho.
  destruct (if_prefix _ _ _ _ _ _ _ _ _ _ H Hte Hne Hz) as
    (thenIf & elseIf & mergeIf & s1 & m1 & E1 & G1 & C1 & K1 & J1 & Hip & Hp & N1 & N2 & N3 & Hnew & H3 & R1).
  destruct (arms_run (truth z) blk else_blk thenIf elseIf mergeIf G env1 m1 s1 o)
    as (s2 & s3 & G2 & G3 & C3 & J3 & E3 & Hm & A); try done; [intros x Hx; by apply Hnew |].
  assert (grown b s s2) as G2'
    by (eapply grown_trans; [right; by apply (Hnew thenIf); tauto | exact G1 | exact G2]).
  assert (grown b s s3) as G3'
    by (eapply grown_trans; [right; by apply (Hnew elseIf); tauto | exact G2' | exact G3]).
  assert (grown elseIf s2 (entered mergeIf s3)) as G4
    by (eapply grown_trans; [by left | exact G3 | by eapply grown_entered]).
  assert (at_or_new b mergeIf s) as Nm by (right; by apply (Hnew mergeIf); tauto).
  assert (appended (blocks (theIR s1)) (blocks (theIR (entered mergeIf s3)))) as Ha
    by (etrans; eapply grown_appended; [exact G2 | exact G4]).
  pose proof (reach_appended _ _ _ _ _ _ _ Ha R1) as R5.
  assert (1 + S (added s1 s3) <= added s (entered mergeIf s3)) as Hadd.
  { pose proof (gr_blocks _ _ _ G2). pose proof (gr_blocks _ _ _ G3). unfold added. simpl. lia. }
  exists (entered mergeIf s3). split; [by rewrite E1 |].
  split_and!; [eapply grown_trans; [by left | exact G3' | by eapply grown_entered] | by apply calm_entered | done |].
  pose proof (grown_appended _ _ _ (grown_entered mergeIf mergeIf G s3 C3)) as Ha3.
  destruct o as [env'|v w].
  - destruct A as (m' & K & R). split; [done |]. exists mergeIf, m', m'. split_and!; [right; by apply (Hnew mergeIf); tauto | by apply enter |].
    eapply reach_more; [eapply reach_trans; [exact R5 |] | exact Hadd]. by eapply reach_appended.
  - destruct A as (r & R & He). split.
    + exists r. split; [| done]. eapply call_block_more; [| apply le_S, Hadd].
      eapply reach_returns; [exact R5 |]. by eapply returns_appended.
    + intros _. exists mergeIf, m1, env1, m1. split; [done |]. apply (enter (world := unrun)); try done.
      eapply keeps_grown; [exact G3 |]. eapply keeps_grown; [exact G2 | done].
Qed.

(** A statement that defines nothing. *)
Definition stmt_ok (G : string -> option fty) (st : stmt) : Prop :=
  forall (world : World) env b m0 m s o,
    Straight.point fname ft entry es b m0 G env m s -> fk_exec env st = Some o ->
    exists v s', accept st s = (Ok v, s') /\ leads (is_return st) b m0 G s o s'.

Local Abbreviation visit_statements := (visit_statements jit_address hash_order).
Local Abbreviation with_visits := (with_visits jit_address hash_order).

Lemma visit_step V cv i st rest last G s : calm G s -> cv !! i = Some true ->
  visit_statements V cv i (with_visits (st :: rest)) last s =
  (v <- accept st ;; visit_statements V cv (S i) (with_visits rest) v) s.
Proof. intros []. by apply visit_next. Qed.

Lemma list_runs V cv l G : Forall (stmt_ok G) l -> type_stmts tr true G l = Some G ->
  forall (world : World) i last env b m0 m s o,
    Straight.point fname ft entry es b m0 G env m s -> fk_run env l = Some o ->
    (forall j, j < length l -> cv !! (i + j) = Some true) ->
    exists v s', visit_statements V cv i (with_visits l) last s = (Ok v, s') /\
      leads (closes l) b m0 G s o s'.
Proof.
  induction l as [|st l IH]; intros Hok Ht world i last env b m0 m s o H Ho Hcv.
  { simpl in Ho. simplify_eq. exists last, s. split; [done |].
    by apply (leads_here _ _ _ _ m); [| apply grown_refl |]. }
  apply Forall_cons in Hok as [Hst Hok]. simpl in Ht, Ho.
  destruct (statementCommits st && _) eqn:Hc; [| done]. apply andb_true_iff in Hc as [_ Hlast].
  apply bind_Some in Ht as (G1 & Ht1 & Ht). apply type_arm in Ht1 as ->.
  apply bind_Some in Ho as (o1 & Ho1 & Ho).
  destruct (Hst world env b m0 m s o1 H Ho1) as (v1 & s1 & E1 & L1).
  assert (forall j, j < length l -> cv !! (S i + j) = Some true) as Hcv'.
  { intros j Hj. rewrite Nat.add_succ_comm. apply Hcv. simpl. lia. }
  assert (forall last, visit_statements V cv i (with_visits (st :: l)) last s =
    visit_statements V cv (S i) (with_visits l) v1 s1) as Hstep.
  { intros last'. rewrite (visit_step _ _ _ _ _ _ G); [by rewrite (bind_eq _ _ _ _ _ E1) | apply H |].
    rewrite <- (Nat.add_0_r i). apply Hcv. simpl. lia. }
  destruct (decide (l = [])) as [->|Hl].
  - exists v1, s1. rewrite Hstep. split; [done |]. by destruct o1; simpl in Ho; simplify_eq.
  - rewrite bool_decide_false, orb_false_r in Hlast by done. apply negb_true_iff in Hlast.
    rewrite Hlast in L1. replace (closes (st :: l)) with (closes l) by by destruct l.
    destruct L1 as (G1 & C1 & J1 & HO). destruct o1 as [env1|z w].
    + destruct HO as (_ & b1 & m01 & m1 & N1 & P1 & R1).
      destruct (IH Hok Ht world (S i) v1 _ _ _ _ _ o P1 Ho Hcv') as (v & s' & E & L).
      exists v, s'. rewrite Hstep. split; [done |]. by eapply leads_trans.
    + destruct HO as ((r & Hr & He) & Hq). destruct (Hq eq_refl) as (b1 & m01 & env1 & m1 & N1 & P1).
      destruct (unrun_run tr true G G env1 l (point_typed _ _ _ _ _ _ _ _ _ _ P1) Ht) as (o' & Ho' & _).
      destruct (IH Hok Ht unrun (S i) v1 _ _ _ _ _ o' P1 Ho' Hcv') as (v & s' & E & L).
      exists v, s'. rewrite Hstep. split; [done |]. simplify_eq. by eapply leads_dead.
Qed.

(** ** Blocks and statements *)

Lemma commit_vector_all l :
  Forall (fun s => statementCommits s = true) l -> commit_vector l = replicate (length l) true.
Proof.
  unfold commit_vector. induction 1 as [|s l Hs _ IH]; [done |].
  cbn [fmap list_fmap adjust_commits length replicate]. by rewrite Hs; cbn [negb]; f_equal.
Qed.

Lemma type_stmts_commit arm G l G' :
  type_stmts tr arm G l = Some G' -> Forall (fun s => statementCommits s = true) l.
Proof.
  revert G. induction l as [|s l IH]; intros G; simpl; [constructor |].
  destruct (statementCommits s && _) eqn:Hc; [| done]. intros H.
  apply andb_true_iff in Hc as [Hc _]. apply bind_Some in H as (G1 & _ & H). constructor; eauto.
Qed.

Lemma with_visits_fst l : (with_visits l).*1 = l.
Proof. unfold CodeGenBlock.with_visits. by rewrite <- list_fmap_compose, list_fmap_id. Qed.

(** A block whose statements commit is visited statement by statement. *)
Lemma visitBlock_eq arm G G' l s : type_stmts tr arm G' l = Some G -> calm G' s ->
  exists cv, (forall j, j < length l -> cv !! (0 + j) = Some true) /\
    visitBlock jit_address hash_order (Some (with_visits l)) s =
    visit_statements (visitClosureBlock jit_address hash_order) cv 0 (with_visits l) None s.
Proof.
  intros Ht H. exists (commit_vector l). split.
  - intros j Hj. rewrite commit_vector_all by by eapply type_stmts_commit. by apply lookup_replicate_2.
  - unfold visitBlock, visitBlock_with.
    rewrite (bind_eq _ _ _ _ _ (calm_inside _ _ _ _ _ _ H)).
    rewrite (bind_eq _ _ _ _ _ (calm_set_commit _ _ _ _ _ _ H)). by rewrite with_visits_fst.
Qed.

Lemma block_of_list l G : Forall (stmt_ok G) l -> type_stmts tr true G l = Some G ->
  block_ok G (Some l).
Proof.
  intros Hok Ht world env b m0 m s o H Ho.
  destruct (visitBlock_eq true G G l s Ht (pt_calm _ _ _ _ _ _ _ _ _ _ H)) as (cv & Hcv & E).
  destruct (list_runs (visitClosureBlock jit_address hash_order) cv l G Hok Ht world 0 None
    env b m0 m s o H Ho Hcv) as (v & s' & E' & L).
  exists v, s', (closes l). split; [| done]. unfold visit_block. simpl.
  etrans; [exact E | exact E'].
Qed.

Lemma block_of_none G : block_ok G None.
Proof.
  intros world env b m0 m s o H Ho. simpl in Ho. simplify_eq. exists None, s, false.
  split; [done |]. by apply (leads_here _ _ _ _ m); [| apply grown_refl |].
Qed.

Lemma arm_of_type blk G G' :
  (forall bb, blk = Some bb -> forall l, bb = Some l -> Forall (fun st => forall G G',
    type_stmt tr true G st = Some G' -> stmt_ok G st) l) ->
  match blk with Some (Some l) => type_list (type_stmt tr true) G l = Some G' | _ => True end ->
  arm_ok G blk /\ forall env, env_typed G (fk_vars env) -> exists o, fk_arm (world := unrun) env blk = Some o.
Proof.
  intros IH Ht. split.
  - intros [l|] ->; [| apply block_of_none]. pose proof (type_arms tr _ _ _ Ht) as ->.
    apply block_of_list; [| done]. specialize (IH _ eq_refl _ eq_refl). clear - IH Ht Hret.
    revert G Ht IH. induction l as [|st l IHl]; intros G Ht IH; [constructor |].
    apply Forall_cons in IH as [Hst IH]. simpl in Ht.
    destruct (statementCommits st && _); [| done]. apply bind_Some in Ht as (G1 & H1 & Ht).
    pose proof (type_arm tr _ _ _ H1) as ->. constructor; [by eapply Hst | by apply IHl].
  - intros env Henv. destruct blk as [[l|]|]; [| by eexists..].
    destruct (unrun_run tr true G G' env l Henv Ht) as (o & Ho & _). by exists o.
Qed.

Lemma stmt_runs st : forall G G', type_stmt tr true G st = Some G' -> stmt_ok G st.
Proof.
  induction st as [v|i b _|ty i a b p _|c e|e|c target e|e b eb Hb Heb|ty i a p] using stmt_nested_ind;
    intros G G' Ht world env bl m0 m s o H Ho; try done.
  - destruct v as [c type x exp [|]|]; done.
  - simpl in Ht, Ho. apply bind_Some in Ht as (te & Hte & _). apply bind_Some in Ho as ([z env1] & Hz & [= <-]).
    destruct (point_expr _ _ _ _ _ _ _ _ _ _ _ _ _ _ H Hte Hz) as (v & s' & m' & E & (P & Hg & Hj) & _).
    exists (Some v), s'. split; [exact E |]. by eapply leads_here.
  - assert (exists v s' r z w, o = Return z w /\ visitReturnStatement e s = (Ok (Some v), s') /\
      calm G s' /\ grown bl s s' /\ justReturned s' = true /\
      call_block (blocks (theIR s')) 1 bl m0 = Some (r, w) /\ encodes tr (conv tr z) r)
      as (v & s' & r & z & w & -> & E & C & Hg & Hj & R & He).
    { destruct e as [e|]; simpl in Ht, Ho.
      - apply bind_Some in Ht as (te & Hte & Ht).
        destruct (fits tr te) eqn:Hf; [| done]. apply bind_Some in Ho as ([z env1] & Hz & [= <-]).
        destruct (point_return _ _ _ _ e tr te z _ _ _ _ _ _ _ H Hret Hte Hf Hz) as (v & s' & r & R).
        by eexists v, s', r, z, _.
      - destruct (decide (tr = FkVoid)) as [Htr|]; [| done]. simplify_eq.
        destruct (point_return_void _ _ _ _ _ _ _ _ _ _ H Hret) as (v & s' & E & C & Hg & Hj & R).
        by eexists v, s', RVoid, VU, _. }
    exists (Some v), s'. split; [exact E |]. split_and!; [done | done | done | exists r; split; [eapply call_block_more; [exact R | lia] | done] | done].
  - assert (exists env', o = Next env') as [env' ->].
    { destruct target; try done. simpl in Ho. apply bind_Some in Ho as (? & _ & Ho).
      apply bind_Some in Ho as ([? ?] & _ & Ho). simplify_eq. by eexists. }
    destruct (point_assignment _ _ _ _ tr c target e G' _ _ _ _ _ _ _ H Ht Ho)
      as (v & s' & m' & E & P & Hg & Hj & _).
    exists v, s'. split; [exact E |]. by eapply leads_here.
  - simpl in Ht. apply bind_Some in Ht as (te & Hte & Ht). destruct (decides te) eqn:Hd; [simpl in Ht | done].
    apply bind_Some in Ht as (G1 & H1 & Ht). apply bind_Some in Ht as (G2 & H2 & _).
    destruct (arm_of_type b G G1) as [Hok Htot]; [done | by destruct b as [[]|] |].
    destruct (arm_of_type eb G G2) as [Hok' Htot']; [done | by destruct eb as [[]|] |].
    pose proof (point_typed _ _ _ _ _ _ _ _ _ _ H) as Henv.
    simpl in Ho. apply bind_Some in Ho as ([z env1] & Hz & Ho).
    assert (fk_vars env1 = fk_vars env) as Hvars
      by (apply bind_Some in Hz as ([? ?] & _ & [= _ <-]); done).
    rewrite <- Hvars in Henv.
    destruct (if_runs e te z env1 b eb bl m0 G env m s o) as (s' & E & L); auto.
    + by destruct b.
    + destruct (truth z); [by destruct b as [[]|] | by destruct eb as [[]|]].
    + exists (Some (VRetVoid MainCtx)), s'. split; [| exact L]. etrans; [| exact E].
      simpl. f_equal; by destruct b as [[]|], eb as [[]|].
Qed.

End control.
