(* ===== verification/Functions.v ===== *)
(** Functions: definitions of variables between conditionals, the copies of
    the arguments, and the state in which the body is visited. *)

From stdpp Require Import functions.
From S2P Require Import Prelude Ast IR State Builder CodeGenBase CodeGenExpr CodeGenStmt.
From S2P Require Import CodeGenBlock CodeGenLogic Machine ExprLogic ExprCorrect Source SourceFacts.
From S2P Require Import Flow Straight StraightProps Control.

(** The machine a call starts with, and the variables. *)
Definition start {out : Outside} (w : outside) : machine := mk_machine ∅ ∅ w.

Definition no_vars {A} (x : string) : option A := None.

Section functions.
Context {sigs : Signatures} {out : Outside}.
Context (fname : string) (ft : fun_ty) (entry : nat) (es : list string).
Context (tr : fty) (Hret : fret ft = llvm_type tr MainCtx).
Context (jit_address : string -> Z).
Context (hash_order : gmap string (option value) -> list (string * option value)).
Local Abbreviation calm := (calm fname ft entry es).
Local Abbreviation point := (point fname ft entry es).
Local Abbreviation accept := (accept jit_address hash_order).
Local Abbreviation visit_statements := (visit_statements jit_address hash_order).
Local Abbreviation with_visits := (with_visits jit_address hash_order).

(** * Statements of the body *)

(** What a complete run from the entry block returns stays what it is, other
    blocks get at most more code at their end, and blocks are only made. *)
Record stays (s s' : cg) : Prop := {
  st_returns : forall (world : World) n w r,
    call_block (blocks (theIR s)) n entry (start w) = Some r ->
    call_block (blocks (theIR s')) n entry (start w) = Some r;
  st_code : forall b l, b <> entry -> blocks (theIR s) !! b = Some l ->
    exists post, blocks (theIR s') !! b = Some (l ++ post);
  st_blocks : next_block (theIR s) <= next_block (theIR s');
  st_funs : same_bodiless s s'
}.

#[export] Instance stays_preorder : PreOrder stays.
Proof.
  split.
  - intros s. split; try done. intros b l _ H. exists []. by rewrite app_nil_r.
  - intros s1 s2 s3 [R1 C1 B1 F1] [R2 C2 B2 F2]. split; [auto | | lia | by transitivity s2]. intros b l Hb H.
    destruct (C1 _ _ Hb H) as [p1 E1], (C2 _ _ Hb E1) as [p2 E2]. exists (p1 ++ p2).
    by rewrite app_assoc.
Qed.

Lemma grown_stays b s s' : grown b s s' -> stays s s'.
Proof.
  intros H. pose proof (grown_appended _ _ _ H) as Ha. split.
  - intros w n u r. by apply returns_appended.
  - intros b' l _. apply Ha.
  - apply (gr_blocks _ _ _ H).
  - apply (gr_funs _ _ _ H).
Qed.

(** A run from the entry block comes to the start of block [b]; no branch leads
    to the entry block itself. *)
Definition arrives {world : World} (w0 : outside) (s : cg) (b : nat) (m : machine) : Prop :=
  if decide (b = entry) then m = start w0
  else reach (blocks (theIR s)) (next_block (theIR s)) entry (start w0) b m.

Lemma arrives_reach {world : World} w0 s b m : arrives w0 s b m ->
  reach (blocks (theIR s)) (next_block (theIR s)) entry (start w0) b m.
Proof. unfold arrives. case_decide as E; [intros ->; rewrite E; constructor | done]. Qed.

(** The outcome [o] is reached by a run from the entry block, if block [b]
    with the machine [m0] is; [q] tells that nothing may follow. *)
Definition runs_to {world : World} (w0 : outside) (q : bool) (b : nat) (m0 : machine) (G' : string -> option fty)
    (s : cg) (o : outcome) (s' : cg) : Prop :=
  calm G' s' /\ stays s s' /\
  match o with
  | Next env' => q = false /\ exists b' m0' m', point b' m0' G' env' m' s' /\
      (arrives w0 s b m0 -> arrives w0 s' b' m0')
  | Return z w =>
      (arrives w0 s b m0 -> exists r,
        call_block (blocks (theIR s')) (S (next_block (theIR s'))) entry (start w0) = Some (r, w) /\
        encodes tr (conv tr z) r) /\
      (q = false -> exists b' m0' env' m',
        Straight.point (world := unrun) fname ft entry es b' m0' G' env' m' s')
  end.

Lemma leads_runs_to {world : World} w0 q b m0 G s o s' :
  calm G s -> leads fname ft entry es tr q b m0 G s o s' -> runs_to w0 q b m0 G s o s'.
Proof.
  intros Hc0 (Hg & Hc & _ & HO). pose proof (grown_appended _ _ _ Hg) as Ha.
  assert (next_block (theIR s) + added s s' = next_block (theIR s')) as Hadd
    by (pose proof (gr_blocks _ _ _ Hg); unfold added; lia).
  split_and!; [done | by eapply grown_stays |]. destruct o as [env'|z w].
  - destruct HO as (Hq & b' & m0' & m' & N & P & R). split; [done |]. exists b', m0', m'.
    split; [done |]. intros Har. pose proof (arrives_reach _ _ _ _ Har) as HR.
    destruct N as [[-> ->]|N].
    + unfold arrives in *. case_decide; [done |]. eapply reach_more; [by eapply reach_appended | lia].
    + unfold arrives. rewrite decide_False.
      * rewrite <- Hadd. eapply reach_trans; [by eapply reach_appended | done].
      * intros ->. destruct (cm_entry _ _ _ _ _ _ Hc0) as [l Hl]. congruence.
  - destruct HO as ((r & Hr & He) & Hq). split.
    + intros Har%arrives_reach. exists r. split; [| done]. rewrite <- Hadd, <- Nat.add_succ_r.
      eapply reach_returns; [by eapply reach_appended | done].
    + intros Hf. destruct (Hq Hf) as (b' & m0' & env' & m' & _ & P). by exists b', m0', env', m'.
Qed.

(** A new variable. *)
Lemma defined_stays G s s' l0 t :
  calm G s -> blocks (theIR s) !! entry = Some l0 ->
  appended (<[entry := (next_inst (theIR s), IAlloca t) :: l0]> (blocks (theIR s))) (blocks (theIR s')) ->
  (forall b' l, b' <> entry -> blocks (theIR s) !! b' = Some l ->
    exists post, blocks (theIR s') !! b' = Some (l ++ post)) ->
  next_block (theIR s') = next_block (theIR s) -> main_module (theIR s') = main_module (theIR s) ->
  stays s s'.
Proof.
  intros Hc Hl0 Ha Ho Hb Hm. split; [| exact Ho | by rewrite Hb | intros f _; by rewrite Hm]. intros w n u r HR.
  eapply returns_appended; [exact Ha |]. eapply returns_slot; [exact Hl0 | | done | done].
  intros b l Hl. by eapply calm_fresh.
Qed.

(** A definition moves the start of the current block along. *)
Lemma definition_runs {world : World} w0 c type x exp G G' b m0 env m s o :
  point b m0 G env m s ->
  type_stmt tr false G (SVariable (VariableDefinition c type x exp false)) = Some G' ->
  fk_exec env (SVariable (VariableDefinition c type x exp false)) = Some o ->
  exists v s', visitVariableDefinition type x exp false s = (Ok v, s') /\ runs_to w0 false b m0 G' s o s'.
Proof.
  intros H Ht He. simpl in Ht. destruct (G x) eqn:Hx; [done |].
  apply bind_Some in Ht as (te & Hte & Ht). apply bind_Some in Ht as (t & Ht & [= <-]).
  assert (exists env', o = Next env') as [env' ->].
  { simpl in He. destruct exp; [apply bind_Some in He as ([? ?] & _ & He) |]; simplify_eq; by eexists. }
  destruct (point_initial _ _ _ _ type exp x te t b m0 G env env' m s H Hx)
    as (v & z & env1 & s1 & m1 & E & (P1 & G1 & J1) & (r & Hh & Hr) & Hnv & ->); [| done | done |].
  { destruct exp; [| by simplify_eq]. apply fmap_Some in Hte as (? & ? & ->). by eexists. }
  destruct (point_defined _ _ _ _ _ _ _ _ _ _ x t v r z P1 Hx) as
    (s2 & m2 & l0 & Hl0 & E2 & _ & P2 & A2 & O2 & B2 & M2); [| done | done |].
  { intros rg Hs. by eapply holds_mono. }
  exists (Some v), s2. split.
  { unfold visitVariableDefinition. rewrite (bind_eq _ _ s (namedValues s) s) by done.
    rewrite bool_decide_false
      by (rewrite (cm_free _ _ _ _ _ _ (pt_calm _ _ _ _ _ _ _ _ _ _ H) x Hx); by intros [? ?]).
    rewrite (bind_eq _ _ s (MainCtx, fname) s) by by eapply point_parent.
    rewrite (bind_eq _ _ _ _ _ E). exact E2. }
  pose proof (pt_calm _ _ _ _ _ _ _ _ _ _ P1) as C1.
  pose proof (fun b l H => calm_fresh _ _ _ _ _ _ b l C1 H) as Hfresh.
  pose proof (gr_blocks _ _ _ G1) as B1.
  assert (regs (start w0) !! next_inst (theIR s1) = None) as Hid by apply lookup_empty.
  split_and!; [exact (pt_calm _ _ _ _ _ _ _ _ _ _ (P2 _ (or_introl eq_refl))) | | done |].
  - transitivity s1; [by eapply grown_stays | by eapply defined_stays].
  - set (n := next_inst (theIR s1)) in *. unfold arrives. destruct (decide (b = entry)) as [->|Hne].
    + exists entry, m0, m2. rewrite decide_True by done. split; [apply P2; by right | done].
    + exists b, (with_slot n m0), m2. rewrite decide_False by done. split; [apply P2; by left |]. intros Har.
      eapply reach_appended; [exact A2 |].
      destruct (reach_slot _ _ _ (llvm_type t MainCtx) _ Hl0 Hfresh (next_block (theIR s2)) (start w0) b m0 Hid)
        as [[? _]|HR]; [| done | done].
      eapply reach_more; [by eapply reach_appended; [eapply grown_appended |] | lia].
Qed.

Lemma type_stmt_cases G st G' : type_stmt tr false G st = Some G' ->
  (exists c type x exp, st = SVariable (VariableDefinition c type x exp false)) \/
  type_stmt tr true G st = Some G'.
Proof. destruct st as [[c type x exp []|]| | | | | | |]; eauto 6. Qed.

Lemma statement_runs {world : World} w0 st G G' b m0 env m s o :
  point b m0 G env m s -> type_stmt tr false G st = Some G' -> fk_exec env st = Some o ->
  exists v s', accept st s = (Ok v, s') /\ runs_to w0 (is_return st) b m0 G' s o s'.
Proof.
  intros H Ht Ho. destruct (type_stmt_cases _ _ _ Ht) as [(c & type & x & exp & ->)|Ht'].
  - by eapply definition_runs.
  - destruct (stmt_runs fname ft entry es tr Hret jit_address hash_order st G G' Ht' world env b m0 m s o H Ho)
      as (v & s' & E & L).
    exists v, s'. split; [done |]. apply type_arm in Ht' as ->. by apply leads_runs_to; [apply H |].
Qed.

(** The statements of a body, from any point of it. *)
Lemma body_runs w0 V cv l : forall (world : World) G G' i last env b m0 m s o,
  Straight.point fname ft entry es b m0 G env m s ->
  type_stmts tr false G l = Some G' -> fk_run env l = Some o ->
  (forall j, j < length l -> cv !! (i + j) = Some true) ->
  exists v s' G1, visit_statements V cv i (with_visits l) last s = (Ok v, s') /\
    runs_to w0 (closes l) b m0 G1 s o s'.
Proof.
  induction l as [|st l IH]; intros world G G' i last env b m0 m s o H Ht Ho Hcv.
  { simpl in Ho. simplify_eq. exists last, s, G. split; [done |]. apply leads_runs_to; [apply H |].
    by apply (leads_here _ _ _ _ _ _ _ _ _ m); [| apply grown_refl |]. }
  simpl in Ht, Ho. destruct (statementCommits st && _) eqn:Hc; [| done].
  apply andb_true_iff in Hc as [_ Hlast].
  apply bind_Some in Ht as (G1 & Ht1 & Ht). apply bind_Some in Ho as (o1 & Ho1 & Ho).
  destruct (statement_runs w0 st G G1 b m0 env m s o1 H Ht1 Ho1) as (v1 & s1 & E1 & C1 & St1 & HO).
  assert (forall last, visit_statements V cv i (with_visits (st :: l)) last s =
    visit_statements V cv (S i) (with_visits l) v1 s1) as Hstep.
  { intros last'. rewrite (visit_step fname ft entry es _ _ _ _ _ _ _ _ G); [by rewrite (bind_eq _ _ _ _ _ E1) | apply H |].
    rewrite <- (Nat.add_0_r i). apply Hcv. simpl. lia. }
  destruct (decide (l = [])) as [->|Hl].
  { exists v1, s1, G1. rewrite Hstep. split; [done |]. by destruct o1; simpl in Ho; simplify_eq. }
  rewrite bool_decide_false, orb_false_r in Hlast by done. apply negb_true_iff in Hlast.
  rewrite Hlast in HO. replace (closes (st :: l)) with (closes l) by by destruct l.
  assert (forall j, j < length l -> cv !! (S i + j) = Some true) as Hcv'.
  { intros j Hj. rewrite Nat.add_succ_comm. apply Hcv. simpl. lia. }
  destruct o1 as [env1|z w].
  - destruct HO as (_ & b1 & m01 & m1 & P1 & R1).
    destruct (IH world _ _ (S i) v1 _ _ _ _ _ o P1 Ht Ho Hcv') as (v & s' & G2 & E & C2 & St2 & HO).
    exists v, s', G2. rewrite Hstep. split; [done |].
    split_and!; [done | by transitivity s1 |]. destruct o as [env'|z w].
    + destruct HO as (Hq & b' & m0' & m' & P & R). split; [done |]. exists b', m0', m'. auto.
    + destruct HO as (HR & Hq). split; [auto | done].
  - destruct HO as (HR & Hq). destruct (Hq eq_refl) as (b1 & m01 & env1 & m1 & P1).
    destruct (unrun_run tr false G1 G' env1 l (point_typed _ _ _ _ _ _ _ _ _ _ P1) Ht) as (o' & Ho' & _).
    destruct (IH unrun _ _ (S i) v1 _ _ _ _ _ o' P1 Ht Ho' Hcv') as (v & s' & G2 & E & C2 & St2 & HO).
    exists v, s', G2. rewrite Hstep. split; [done |]. simplify_eq.
    split_and!; [done | by transitivity s1 | |].
    + intros Har. destruct (HR Har) as (r & Hr & He). exists r. split; [| done].
      eapply call_block_more; [by apply (st_returns _ _ St2) |]. apply le_n_S, (st_blocks _ _ St2).
    + intros Hf. destruct o' as [env'|z' w'].
      * destruct HO as (_ & b' & m0' & m' & P & _). by exists b', m0', env', m'.
      * destruct HO as (_ & Hq'). by apply Hq'.
Qed.

(** * Parameters *)

(** The variables [ps], with what [f] gives for them. *)
Fixpoint bind_all {A B} (f : A -> B) (G : string -> option B) (ps : list (string * A)) :
    string -> option B :=
  match ps with [] => G | (x, a) :: ps' => bind_all f (<[x := Some (f a)]> G) ps' end.

(** A parameter: its name, its type, the value and the register given. *)
Definition param : Type := string * (fty * fval * rv).

Definition param_ok (p : param) : Prop := encodes p.2.1.1 p.2.1.2 p.2.2 /\ p.2.1.1 <> FkVoid.

Lemma arguments_bound {world : World} w0 (ps : list param) : forall i G env m s,
  point entry (start w0) G env m s ->
  (forall j p, ps !! j = Some p -> arguments !! (i + j) = Some p.2.2) ->
  Forall param_ok ps -> NoDup ps.*1 -> (forall x, x ∈ ps.*1 -> G x = None) ->
  exists s' m',
    bind_arguments (MainCtx, fname) i ((fun p : param => llvm_type p.2.1.1 MainCtx) <$> ps) ps.*1 s =
      (Ok tt, s') /\ stays s s' /\
    point entry (start w0) (bind_all (fun q => q.1.1) G ps)
      (mk_fk_state (bind_all (fun q => q.1.2) (fk_vars env) ps) (fk_around env)) m' s'.
Proof.
  induction ps as [|[x [[t z] r]] ps IH]; intros i G env m s H Hargs Hok Hnd Hfree.
  { exists s, m. simpl. by destruct env. }
  apply Forall_cons in Hok as [[He Hnv] Hok]. simpl in Hnd. apply NoDup_cons in Hnd as [Hx Hnd].
  set (v := VArgument fname i (llvm_type t MainCtx)).
  destruct (point_defined _ _ _ _ _ _ _ _ _ _ x t v r z H) as (s1 & m1 & l0 & Hl0 & _ & E & P & A & O & B & M).
  { apply Hfree. simpl. by left. }
  { intros rg _. split; [done |]. simpl. rewrite <- (Nat.add_0_r i). exact (Hargs 0 _ eq_refl). }
  { exact He. }
  { exact Hnv. }
  destruct (IH (S i) (<[x := Some t]> G) (set_var x z env) m1 s1) as (s' & m' & E' & St & P').
  - apply P. by right.
  - intros j p Hj. rewrite Nat.add_succ_comm. by apply Hargs.
  - done.
  - done.
  - intros y Hy. rewrite fn_lookup_insert_ne by (intros ->; done). apply Hfree. simpl. by right.
  - exists s', m'. split; [| split; [| exact P']].
    2: { transitivity s1; [| exact St]. eapply defined_stays; [exact (pt_calm _ _ _ _ _ _ _ _ _ _ H) | done..]. }
    etrans; [| exact E']. simpl.
    etrans; [| apply (bind_eq _ (fun _ => bind_arguments (MainCtx, fname) (S i)
      ((fun p : param => llvm_type p.2.1.1 MainCtx) <$> ps) ps.*1) _ _ _ E)].
    unfold define_argument. rewrite bind_assoc_at. unfold bind at 1 4. simpl.
    destruct (createAlloca (MainCtx, fname) (llvm_type t MainCtx) s) as [[a|] s2]; [| done].
    by rewrite bind_assoc_at.
Qed.
End functions.
