(* ===== verification/FunctionProps.v ===== *)
(** Functions: a function of int and float parameters whose body defines and
    assigns variables, calls, branches and returns is compiled to blocks that
    compute what it means ([function_compiles]); and what becomes of functions
    that are not closed by a return. *)

From stdpp Require Import functions.
From S2P Require Import Prelude Ast IR State Builder CodeGenBase CodeGenExpr CodeGenStmt.
From S2P Require Import CodeGenBlock CodeGenLogic CodeGenBlockWf Machine ExprLogic ExprCorrect.
From S2P Require Import Source SourceFacts Flow Straight StraightProps Control Functions.

(** * The signature *)

Fixpoint param_types (args : list vardef) : option (list (string * fty)) :=
  match args with
  | [] => Some []
  | VariableDefinition _ type x _ false :: args' =>
      t ← declared_type type None; ps ← param_types args'; Some ((x, t) :: ps)
  | _ => None
  end.

Lemma getTypeFromString_declared type t v s :
  insideLambda s = false -> declared_type type None = Some t ->
  getTypeFromString type false v s = (Ok (Some (llvm_type t MainCtx)), s).
Proof.
  intros Hl Ht. unfold getTypeFromString, getContext, bind, gets, context_of. rewrite Hl.
  unfold declared_type in Ht. destruct (decide (type = "int")) as [->|]; [by simplify_eq |].
  destruct (decide (type = "float")) as [->|]; [by simplify_eq | done].
Qed.

Lemma getTypeFromString_return type t s :
  insideLambda s = false -> return_type type = Some t ->
  getTypeFromString type false true s = (Ok (Some (llvm_type t MainCtx)), s).
Proof.
  intros Hl Ht. unfold return_type in Ht. destruct (decide (type = "void")) as [->|].
  - simplify_eq. unfold getTypeFromString, getContext, bind, gets, context_of. by rewrite Hl.
  - by apply getTypeFromString_declared.
Qed.

Lemma declared_not_void type t : declared_type type None = Some t -> t <> FkVoid.
Proof. unfold declared_type. intros H ->. repeat case_decide; done. Qed.

Lemma param_not_void args ps : param_types args = Some ps -> Forall (fun p => p.2 <> FkVoid) ps.
Proof.
  revert ps. induction args as [|[c type x e []|] args IH]; intros ps H; simpl in H; try done.
  { by simplify_eq. }
  apply bind_Some in H as (t & Ht & H). apply bind_Some in H as (ps' & Hp & [= <-]).
  constructor; [by eapply declared_not_void | by apply IH].
Qed.

Lemma inputArgs_typed args ps s :
  insideLambda s = false -> param_types args = Some ps ->
  inputArgs args s = (Ok (Some ((fun p => llvm_type p.2 MainCtx) <$> ps)), s).
Proof.
  intros Hl. revert ps. induction args as [|[c type x e []|] args IH]; intros ps H; simpl in H; try done.
  { by simplify_eq. }
  apply bind_Some in H as (t & Ht & H). apply bind_Some in H as (ps' & Hp & [= <-]). simpl.
  rewrite (bind_eq _ _ _ _ _ (getTypeFromString_declared _ _ _ _ Hl Ht)).
  by rewrite (bind_eq _ _ _ _ _ (IH _ Hp)).
Qed.

Lemma param_names args ps : param_types args = Some ps -> vardef_ident <$> args = ps.*1.
Proof.
  revert ps. induction args as [|[c type x e []|] args IH]; intros ps H; simpl in H; try done.
  { by simplify_eq. }
  apply bind_Some in H as (t & Ht & H). apply bind_Some in H as (ps' & Hp & [= <-]).
  change (x :: (vardef_ident <$> args) = x :: ps'.*1). by rewrite (IH _ Hp).
Qed.

(** Names that differ are kept. *)
Lemma setNames_distinct names : forall used n, NoDup (used ++ names) -> setNames used n names = used ++ names.
Proof.
  induction names as [|x names IH]; intros used n Hnd; simpl; [by rewrite app_nil_r |].
  rewrite bool_decide_false.
  - rewrite IH; rewrite <- app_assoc; [done |]. exact Hnd.
  - intros Hx. apply NoDup_app in Hnd as (_ & Hnd & _). apply (Hnd x Hx). left.
Qed.

Section functions.
Context {sigs : Signatures}.
Context (jit_address : string -> Z).
Context (hash_order : gmap string (option value) -> list (string * option value)).

(** The visitor between definitions. *)
Record idle (s : cg) : Prop := {
  id_wf : wf s;
  id_inside : insideLambda s = false;
  id_recon : recon s = false;
  id_commit : executeCommit s = true
}.

(** The function [name] of the type [sg] as it is before it has a body. *)
Definition prototype (ps : list (string * fty)) (tr : fty) : func :=
  mk_func (fun_type (ps.*2, tr) MainCtx) ps.*1 [].

(** There is no function [name], or it was declared with these parameters,
    and what may be called is there when it is. *)
Definition may_define (name : string) (ps : list (string * fty)) (tr : fty) (s : cg) : Prop :=
  (main_module (theIR s) !! name = None \/ main_module (theIR s) !! name = Some (prototype ps tr)) /\
  declares MainCtx (<[name := prototype ps tr]> (main_module (theIR s))).

Lemma same_modules s :
  set_ir (ir_set_modules (main_module (theIR s)) (lambda_module (theIR s)) (theIR s)) s = s.
Proof. destruct s. simpl. f_equal. by destruct theIR. Qed.

(** The module with the prototype of a function. *)
Definition with_prototype (name : string) (ps : list (string * fty)) (tr : fty) (s : cg) : cg :=
  set_ir (ir_set_modules (<[name := prototype ps tr]> (main_module (theIR s)))
    (lambda_module (theIR s)) (theIR s)) s.

(** The start of a definition and of an extern declaration. *)
Lemma prototype_made ty tr name args ps s :
  insideLambda s = false ->
  main_module (theIR s) !! name = None \/ main_module (theIR s) !! name = Some (prototype ps tr) ->
  return_type ty = Some tr -> param_types args = Some ps -> NoDup ps.*1 ->
  (found <- getFunction name ;;
   match found with
   | Some f => mret (Some f)
   | None => generateFunction false ty name args
   end) s = (Ok (Some (prototype ps tr)), with_prototype name ps tr s).
Proof.
  intros Hl Hn Hty Hps Hnd.
  assert (getFunction name s = (Ok (main_module (theIR s) !! name), s)) as E1.
  { unfold getFunction, getModule, bind, gets. simpl. rewrite Hl. done. }
  rewrite (bind_eq _ _ _ _ _ E1). unfold with_prototype. destruct Hn as [Hn|Hn]; rewrite Hn.
  2: { by rewrite insert_id, same_modules by done. }
  unfold generateFunction. rewrite (bind_eq _ _ _ _ _ (inputArgs_typed _ _ _ Hl Hps)).
  rewrite (bind_eq _ _ _ _ _ (getTypeFromString_return _ _ _ Hl Hty)).
  rewrite (param_names _ _ Hps), setNames_distinct by done. simpl.
  unfold Function_Create, getModule, setModule, bind, gets, modify_ir, modify.
  repeat (progress (simpl; rewrite ?Hl)). unfold prototype, fun_type. simpl.
  by rewrite <- list_fmap_compose.
Qed.

(** The state in which the arguments are bound. *)
Lemma function_start ty tr name args ps s :
  idle s -> may_define name ps tr s ->
  return_type ty = Some tr -> param_types args = Some ps -> NoDup ps.*1 ->
  exists b s',
    let ft := fun_type (ps.*2, tr) MainCtx in
    (forall (out : Outside) (world : World) w,
      point name ft b (errors s) b (start w) no_vars (mk_fk_state no_vars w) (start w) s') /\
    blocks (theIR s) !! b = None /\
    (forall b' l, blocks (theIR s) !! b' = Some l -> blocks (theIR s') !! b' = Some l) /\
    (forall f, f <> name -> main_module (theIR s') !! f = main_module (theIR s) !! f) /\
    forall body, visitFunctionDefinition (KeywordType ty) name args body false s =
      (bind_arguments (MainCtx, name) 0 (fparams ft) ps.*1 ;; body) s'.
Proof.
  intros [Hwf Hl Hr He] [Hn Hd] Hty Hps Hnd. set (ft := fun_type (ps.*2, tr) MainCtx).
  set (b := next_block (theIR s)).
  pose proof (prototype_made ty tr name args ps s Hl Hn Hty Hps Hnd) as E.
  eexists b, _. cbv zeta. split_and!.
  5: { intros body. unfold visitFunctionDefinition. rewrite <- bind_assoc_at.
       rewrite (bind_eq _ _ _ _ _ E). simpl.
       unfold getContext, new_block_in, new_block, push_block, SetInsertPoint, bind, gets, gets_ir,
         modify_ir, modify, mret, SE_ret, context_of.
       repeat (progress (simpl; rewrite ?Hl)). reflexivity. }
  2: { apply eq_None_not_Some. intros [l Hb]. pose proof (wf_blocks _ (wf_ir _ Hwf) _ _ Hb). unfold b in *. lia. }
  2: { intros b' l Hb'. pose proof (wf_blocks _ (wf_ir _ Hwf) _ _ Hb'). simpl.
       rewrite lookup_insert_ne; [done | unfold b; lia]. }
  2: { intros f Hf. unfold alter, map_alter. simpl. by rewrite lookup_partial_alter_ne, lookup_insert_ne. }
  intros out world w. apply point_empty; simpl; try done.
  - split; simpl; try done; [| | | by apply declares_alter].
    + eexists. unfold alter, map_alter. by rewrite lookup_partial_alter_eq, lookup_insert_eq.
    + rewrite lookup_insert_eq. by eexists.
    + intros b' l [[<- <-]|[_ Hb]]%lookup_insert_Some; [split; [fold b; lia | constructor] |].
      pose proof (wf_blocks _ (wf_ir _ Hwf) _ _ Hb). split; [lia |]. apply Forall_forall.
      intros id Hid. apply (wf_ids _ (wf_ir _ Hwf) id b'). by exists l.
  - split; try done. exists ∅. done.
  - by rewrite lookup_insert_eq.
  - by rewrite lookup_insert_eq.
Qed.

(** * The function *)

Definition types_of (ps : list param) : string -> option fty := bind_all (fun q => q.1.1) no_vars ps.
Definition values_of (ps : list param) : string -> option fval := bind_all (fun q => q.1.2) no_vars ps.
Definition signature (ps : list param) : list (string * fty) := (fun p => (p.1, p.2.1.1)) <$> ps.

Lemma signature_names ps : (signature ps).*1 = ps.*1.
Proof. unfold signature. by rewrite <- list_fmap_compose. Qed.

Definition actuals (ps : list param) : list rv := (fun p => p.2.2) <$> ps.

Lemma actuals_lookup ps j p : ps !! j = Some p -> actuals ps !! j = Some p.2.2.
Proof. intros Hj. unfold actuals. rewrite list_lookup_fmap. apply fmap_Some. by exists p. Qed.

Lemma bind_all_typed_from ps : forall G env, env_typed G env -> Forall param_ok ps ->
  env_typed (bind_all (fun q => q.1.1) G ps) (bind_all (fun q => q.1.2) env ps).
Proof.
  induction ps as [|[x [[t z] r]] ps IH]; intros G env HG Hok; [done |].
  apply Forall_cons in Hok as [[Hp _] Hok]. apply IH; [| done]. apply env_typed_insert; [done |]. by exists r.
Qed.

(** The state in which the body of a function begins. *)
Definition entered_with {out : Outside} (ps : list param) (w : outside) : fk_state := mk_fk_state (values_of ps) w.

Lemma bind_all_typed ps : Forall param_ok ps -> env_typed (types_of ps) (values_of ps).
Proof. by apply bind_all_typed_from. Qed.

(** Compilation of a function in any world that has its arguments. *)
Lemma function_runs {out : Outside} {world : World} w0 ty tr name args ps body G o s :
  idle s -> may_define name (signature ps) tr s ->
  return_type ty = Some tr -> param_types args = Some (signature ps) -> NoDup ps.*1 ->
  Forall param_ok ps -> (forall j p, ps !! j = Some p -> arguments !! j = Some p.2.2) ->
  type_stmts tr false (types_of ps) body = Some G -> fk_run (entered_with ps w0) body = Some o ->
  exists v s' b G' s1,
    accept jit_address hash_order
      (FunctionDefinition (KeywordType ty) name args (Some body) false) s = (Ok v, s') /\
    appended (blocks (theIR s)) (blocks (theIR s')) /\
    (forall f, f <> name -> bodiless s f -> main_module (theIR s') !! f = main_module (theIR s) !! f) /\
    runs_to name (fun_type ((signature ps).*2, tr) MainCtx) b (errors s) tr w0 (closes body) b (start w0)
      G' s1 o s'.
Proof.
  intros Hid Hdef Hty Hps Hnd Hok Hargs HG Ho.
  destruct (function_start ty tr name args _ s Hid Hdef Hty Hps) as (b & s0 & P0 & Hb & Hkeep & Hfun & E0);
    [by rewrite signature_names |]. rewrite signature_names in E0.
  set (ft := fun_type ((signature ps).*2, tr) MainCtx) in *.
  assert (fparams ft = (fun p : param => llvm_type p.2.1.1 MainCtx) <$> ps) as Htys
    by (simpl; unfold signature; by rewrite <- !list_fmap_compose).
  destruct (arguments_bound name ft b (errors s) w0 ps 0 no_vars (mk_fk_state no_vars w0) (start w0) s0
    (P0 out world w0) Hargs Hok Hnd)
    as (s1 & m1 & E1 & St & P1); [done |]. rewrite <- Htys in E1.
  destruct (visitBlock_eq name ft b (errors s) tr jit_address hash_order false G (types_of ps) body s1 HG
    (pt_calm _ _ _ _ _ _ _ _ _ _ P1)) as (cv & Hcv & Eb).
  destruct (body_runs name ft b (errors s) tr eq_refl jit_address hash_order w0
    (visitClosureBlock jit_address hash_order) cv body world (types_of ps) G 0 None _ _ _ _ _ o P1 HG Ho Hcv)
    as (v & s' & G' & E & R).
  exists v, s', b, G', s1. split; [| split; [| split; [| exact R]]].
  3: { destruct R as (_ & St' & _). intros f Hf Hbl. rewrite <- (Hfun f Hf).
    assert (stays b s0 s') as St0 by (transitivity s1; [exact St | exact St']).
    apply (st_funs _ _ _ St0). intros fn. rewrite (Hfun f Hf). apply Hbl. }
  2: { destruct R as (_ & St' & _). intros b' l Hl. eapply st_code; [transitivity s1; [exact St | exact St'] | congruence | auto]. }
  simpl. rewrite E0. rewrite (bind_eq _ _ _ _ _ E1). etrans; [exact Eb | exact E].
Qed.
(** ** What a definition leaves behind *)

Lemma types_of_signature ps : types_of ps = bind_all id no_vars (signature ps).
Proof.
  unfold types_of. generalize (@no_vars fty). induction ps as [|[x [[t z] r]] ps IH]; intros G; [done |].
  apply IH.
Qed.

(** The function [name] is compiled in [s]: called with registers that stand
    for its arguments, in any world, its blocks run to a return of the value
    that the statements [body] mean. *)
Definition implements (name : string) (sgn : list (string * fty)) (tr : fty) (body : list stmt)
    (s : cg) : Prop :=
  exists fn b, main_module (theIR s) !! name = Some fn /\ head (f_blocks fn) = Some b /\
    f_type fn = fun_type (sgn.*2, tr) MainCtx /\
    forall (out : Outside) (world : World) ps w z w', signature ps = sgn -> Forall param_ok ps -> arguments = actuals ps ->
      fk_run (entered_with ps w) body = Some (Return z w') ->
      exists r, call_block (blocks (theIR s)) (S (next_block (theIR s))) b (start w) = Some (r, w') /\
        encodes tr (conv tr z) r.

(** It stays compiled. *)
Lemma implements_later name sgn tr body s s' :
  later s s' -> appended (blocks (theIR s)) (blocks (theIR s')) ->
  implements name sgn tr body s -> implements name sgn tr body s'.
Proof.
  intros Hl Ha (fn & b & Hf & Hb & Ht & H).
  destruct (later_main _ _ (later_ir _ _ Hl) _ _ Hf) as (fn' & Hf' & Ht' & _ & l & Hp).
  exists fn', b. split_and!; [done | | congruence |].
  - rewrite Hp. by destruct (f_blocks fn).
  - intros out world ps w z w' Hs Hok Hargs Hz. destruct (H out world ps w z w' Hs Hok Hargs Hz) as (r & Hr & He).
    exists r. split; [| done]. eapply call_block_more; [by eapply returns_appended |].
    apply le_n_S, (later_block _ _ (later_ir _ _ Hl)).
Qed.

(** Some arguments. *)
Definition any_arguments (sgn : list (string * fty)) : list param :=
  (fun p => (p.1, (p.2, some_value p.2, some_register p.2))) <$> sgn.

Lemma any_arguments_ok sgn : Forall (fun p => p.2 <> FkVoid) sgn -> Forall param_ok (any_arguments sgn).
Proof.
  intros H. apply Forall_fmap. eapply Forall_impl; [exact H |].
  intros [x t] Ht. split; [apply some_encodes | exact Ht].
Qed.

Lemma any_arguments_signature sgn : signature (any_arguments sgn) = sgn.
Proof.
  unfold signature, any_arguments. rewrite <- list_fmap_compose.
  rewrite <- (list_fmap_id sgn) at 2. by apply list_fmap_ext; intros ? [].
Qed.

(** A definition is compiled without a message, to code for what it means. *)
Lemma function_compiles ty tr name args sgn body G s :
  idle s -> may_define name sgn tr s ->
  return_type ty = Some tr -> param_types args = Some sgn -> NoDup sgn.*1 ->
  type_stmts tr false (bind_all id no_vars sgn) body = Some G ->
  exists v s',
    accept jit_address hash_order
      (FunctionDefinition (KeywordType ty) name args (Some body) false) s = (Ok v, s') /\
    idle s' /\ errors s' = errors s /\ later s s' /\ appended (blocks (theIR s)) (blocks (theIR s')) /\
    (forall f, f <> name -> bodiless s f -> main_module (theIR s') !! f = main_module (theIR s) !! f) /\
    implements name sgn tr body s'.
Proof.
  intros Hid Hdef Hty Hps Hnd HG.
  assert (forall (out : Outside) (world : World) w ps o, signature ps = sgn -> Forall param_ok ps -> arguments = actuals ps ->
    fk_run (entered_with ps w) body = Some o -> exists v s' b G' s1,
    accept jit_address hash_order
      (FunctionDefinition (KeywordType ty) name args (Some body) false) s = (Ok v, s') /\
    appended (blocks (theIR s)) (blocks (theIR s')) /\
    (forall f, f <> name -> bodiless s f -> main_module (theIR s') !! f = main_module (theIR s) !! f) /\
    runs_to name (fun_type (sgn.*2, tr) MainCtx) b (errors s) tr w (closes body) b (start w) G' s1 o s') as Hrun.
  { intros out world w ps o <- Hok Hargs Ho. rewrite <- types_of_signature in HG. rewrite signature_names in Hnd.
    eapply function_runs; try done. rewrite Hargs. by apply actuals_lookup. }
  pose proof (any_arguments_ok sgn (param_not_void _ _ Hps)) as Hok0. pose proof (any_arguments_signature sgn) as Hs0.
  assert (env_typed (bind_all id no_vars sgn) (values_of (any_arguments sgn))) as Henv
    by (rewrite <- Hs0 at 1; rewrite <- types_of_signature; by apply bind_all_typed).
  destruct (unrun_run (out := nothing) tr false _ G (entered_with (any_arguments sgn) tt) body Henv HG)
    as (o & Ho & _).
  destruct (Hrun nothing (unrun_with (actuals (any_arguments sgn))) tt _ o Hs0 Hok0 eq_refl Ho)
    as (v & s' & b & G' & s1 & E & Ha & Hf & C & _).
  pose proof (calm_accept jit_address hash_order
    (FunctionDefinition (KeywordType ty) name args (Some body) false) s (id_recon _ Hid) (id_wf _ Hid)) as (Hw & Hl & _).
  rewrite E in Hw, Hl. simpl in Hw, Hl.
  exists v, s'. split_and!; [done | split; [done | apply C..] | apply C | done | done | done |].
  destruct (cm_func _ _ _ _ _ _ C) as (fn & Hfn & Hb & Ht). exists fn, b. split_and!; try done.
  intros out world ps w z w' Hs Hok Hargs Hz.
  destruct (Hrun out world w ps (Return z w') Hs Hok Hargs Hz) as (v2 & s2 & b2 & G2 & s3 & E2 & _ & _ & C2 & _ & HR & _).
  rewrite E in E2. simplify_eq. destruct (cm_func _ _ _ _ _ _ C2) as (fn2 & Hfn2 & Hb2 & _). simplify_eq.
  apply HR. unfold arrives. by rewrite decide_True.
Qed.

End functions.

Lemma run_no_terminator {out : Outside} {running : Running} m l m' :
  run m l = Some m' -> Forall (fun i => isTerminator i.2 = false) l.
Proof.
  revert m. induction l as [|i l IH]; intros m; simpl; [constructor |].
  intros H. apply bind_Some in H as (m1 & He & H).
  constructor; [by eapply exec_no_terminator | by eapply IH].
Qed.

(** C36. A function whose last statement is not a return is accepted, and one
    of its blocks is left without a terminator, also when the last statement
    is an [if] both of whose arms return. *)
Theorem function_left_open {sigs : Signatures} jit_address hash_order ty tr name args ps body G s :
  idle s -> may_define name (signature ps) tr s ->
  return_type ty = Some tr -> param_types args = Some (signature ps) -> NoDup ps.*1 ->
  Forall param_ok ps -> type_stmts tr false (types_of ps) body = Some G -> closes body = false ->
  exists v s' b l,
    accept jit_address hash_order
      (FunctionDefinition (KeywordType ty) name args (Some body) false) s = (Ok v, s') /\
    errors s' = errors s /\ block_parent (theIR s') !! b = Some (MainCtx, name) /\
    blocks (theIR s') !! b = Some l /\ Forall (fun i => isTerminator i.2 = false) l.
Proof.
  intros Hid Hdef Hty Hps Hnd Hok HG Hc.
  set (world := unrun_with (out := nothing) (actuals ps)).
  assert (env_typed (types_of ps) (values_of ps)) as Henv by by apply bind_all_typed.
  destruct (unrun_run (out := nothing) tr false _ G (entered_with ps tt) body Henv HG) as (o & Ho & _).
  destruct (function_runs (world := world) jit_address hash_order tt ty tr name args ps body G o s)
    as (v & s' & b & G' & s1 & E & _ & _ & C & _ & HO); try done; [by apply actuals_lookup |].
  rewrite Hc in HO.
  assert (exists (w : World (out := nothing)) b' m0' env' m', Straight.point (world := w) name
    (fun_type ((signature ps).*2, tr) MainCtx) b (errors s) b' m0' G' env' m' s') as (w & b' & m0' & env' & m' & P).
  { destruct o as [env'|z w].
    - destruct HO as (_ & b' & m0' & m' & P & _). by eexists world, b', m0', env', m'.
    - destruct HO as (_ & Hq). destruct (Hq eq_refl) as (b' & m0' & env' & m' & P).
      by eexists unrun, b', m0', env', m'. }
  destruct (pt_code _ _ _ _ _ _ _ _ _ _ P) as (l & Hb & Hrun).
  exists v, s', b', l. split_and!; [done | by apply C | apply P | done |]. by eapply run_no_terminator.
Qed.

(** C33. A float variable that is given [a || b] or [a && b] of integers holds
    minus one when that is true: the [i1] is read as a signed number. *)
Theorem logical_initialiser_negated {sigs : Signatures} {out : Outside} {world : World} e n env1 x name ft entry es b m0 G env m s :
  point name ft entry es b m0 G env m s -> G x = None ->
  type_of G e = Some FkBool -> evaluate env e = Some (VI n, env1) ->
  exists v s' m0' m', visitVariableDefinition "float" x (Some e) false s = (Ok v, s') /\
    point name ft entry es b m0' (<[x := Some FkFloat]> G) (set_var x (VF (of_int (- n))) env1) m' s'.
Proof.
  intros H Hx Ht Hn.
  destruct (point_expr _ _ _ _ _ _ _ _ _ _ _ _ _ _ H Ht Hn)
    as (v & s1 & m1 & E & (P1 & G1 & J1) & r & Hh & q & -> & ->).
  destruct (point_pure _ _ _ _ (castIntToFloat v)
    (fun v' rg => holds rg v' (TDouble MainCtx) (RFloat (of_int (- b2z q)))) _ _ _ _ _ _ P1) as
    (v2 & s2 & rg & E2 & P2 & Hv2 & _).
  { intros l0. destruct q; by eapply total_castIntToFloat. }
  destruct (point_defined _ _ _ _ _ _ _ _ _ _ x FkFloat v2
    (RFloat (of_int (- b2z q))) (VF (of_int (- b2z q))) P2 Hx)
    as (s3 & m3 & l0 & _ & E3 & _ & P3 & _); [intros; by eapply holds_mono | reflexivity | done |].
  exists (Some v2), s3, (with_slot (next_inst (theIR s2)) m0), m3.
  split; [| apply P3; by left]. unfold visitVariableDefinition.
  rewrite (bind_eq _ _ s (namedValues s) s) by done.
  rewrite bool_decide_false
    by (rewrite (cm_free _ _ _ _ _ _ (pt_calm _ _ _ _ _ _ _ _ _ _ H) x Hx); by intros [? ?]).
  rewrite (bind_eq _ _ s (MainCtx, name) s) by by eapply point_parent.
  assert (plain_initial "float" (Some e) s = (Ok (Some v2), s2)) as Ei.
  { unfold plain_initial. rewrite (bind_eq _ _ s MainCtx s) by by eapply calm_getContext, pt_calm.
    rewrite (bind_eq _ _ _ _ _ E). destruct Hh as [Tv _]. rewrite Tv. simpl. unfold some.
    by rewrite (bind_eq _ _ _ _ _ E2). }
  rewrite (bind_eq _ _ _ _ _ Ei). exact E3.
Qed.

(** * Witnesses *)

(** [f(int x, float y)] at 4 and 7.0. *)
Definition demo_args : list vardef :=
  [VariableDefinition true "int" "x" None false; VariableDefinition true "float" "y" None false].

Definition demo_params : list param :=
  [("x", (FkInt, VI 4, RInt 64 4)); ("y", (FkFloat, VF (of_int 7), RFloat (of_int 7)))].

Lemma demo_params_ok : Forall param_ok demo_params.
Proof.
  constructor; [| constructor; [split; [reflexivity | done] | constructor]].
  split; [split; [reflexivity |] | done]. unfold in_int64, two63. simpl. lia.
Qed.

Lemma demo_params_distinct : NoDup demo_params.*1.
Proof. apply (bool_decide_unpack _). vm_compute. exact I. Qed.

Lemma idle_new : idle new_CodeGenVisitor.
Proof. split; [apply wf_new | done..]. Qed.

Lemma may_define_new name ps tr : may_define (sigs := no_functions) name ps tr new_CodeGenVisitor.
Proof. split; [by left |]. intros f sg Hf. discriminate Hf. Qed.

Definition open_body : list stmt :=
  [IfStatement (Identifier "x")
     (Some (Some [ReturnStatement (Some (Integer 1))]))
     (Some (Some [ReturnStatement (Some (Integer 2))]))].

Lemma function_left_open_witness :
  exists v s' b l,
    accept (fun _ => 0%Z) (fun _ => [])
      (FunctionDefinition (KeywordType "int") "f" demo_args (Some open_body) false)
      new_CodeGenVisitor = (Ok v, s') /\
    errors s' = [] /\ block_parent (theIR s') !! b = Some (MainCtx, "f") /\
    blocks (theIR s') !! b = Some l /\ Forall (fun i => isTerminator i.2 = false) l.
Proof.
  exact (function_left_open (sigs := no_functions) (fun _ => 0%Z) (fun _ => []) "int" FkInt "f" demo_args demo_params
    open_body (types_of demo_params) new_CodeGenVisitor idle_new (may_define_new "f" _ _)
    eq_refl eq_refl demo_params_distinct demo_params_ok eq_refl eq_refl).
Defined.

#[local] Existing Instance no_functions.

Lemma demo_point : exists b s, forall world : World (sigs := no_functions) (out := nothing),
  point "f" (mk_fun_ty (TInt MainCtx 64) []) b [] b (start tt) no_vars (mk_fk_state no_vars tt) (start tt) s.
Proof.
  destruct (function_start (sigs := no_functions) "int" FkInt "f" [] [] new_CodeGenVisitor idle_new
    (may_define_new "f" [] FkInt) eq_refl eq_refl (NoDup_nil_2)) as (b & s & P & _).
  exists b, s. intros world. exact (P nothing world tt).
Qed.

Lemma logical_initialiser_negated_witness :
  exists (world : World (sigs := no_functions) (out := nothing)) v s s' b m0' m',
    visitVariableDefinition "float" "x"
      (Some (BinaryOperator (Integer 2) "||" (Integer 0))) false s = (Ok v, s') /\
    point "f" (mk_fun_ty (TInt MainCtx 64) []) b [] b m0' (<["x" := Some FkFloat]> no_vars)
      (set_var "x" (VF (of_int (-1))) (mk_fk_state no_vars tt)) m' s' /\
    of_int (-1) = minus_one.
Proof.
  destruct demo_point as (b & s & P).
  destruct (logical_initialiser_negated (world := llvm []) (BinaryOperator (Integer 2) "||" (Integer 0)) 1
    (mk_fk_state no_vars tt) "x"
    "f" (mk_fun_ty (TInt MainCtx 64) []) b [] b (start tt) no_vars (mk_fk_state no_vars tt) (start tt) s
    (P (llvm [])) eq_refl eq_refl ltac:(vm_compute; reflexivity)) as (v & s' & m0' & m' & E & H').
  exists (llvm []), v, s, s', b, m0', m'.
  split; [exact E |]. split; [exact H' |]. vm_compute. reflexivity.
Defined.
