(* ===== verification/Program.v ===== *)
(** Whole programs: functions that call each other and themselves.

    The meaning of a call is that of the body of the function, with the calls
    in it one level deeper; [n] bounds the levels, in the meaning and in the
    run of the generated code alike, so that a recursion has a result with
    every bound that is deep enough.  A function that is only declared is one
    of a library, which may print, or act on what else is outside. *)

From stdpp Require Import functions.
From S2P Require Import Prelude Ast IR State Builder CodeGenBase CodeGenExpr CodeGenStmt.
From S2P Require Import CodeGenBlock Injections CodeGenLogic CodeGenBlockWf Machine ExprLogic ExprCorrect.
From S2P Require Import Source SourceFacts Flow Straight Control Functions FunctionProps.

(** * Programs *)

(** The function that a statement declares: its name, parameters and type. *)
Definition declaration (st : stmt) : option (string * (list (string * fty) * fty)) :=
  match st with
  | FunctionDefinition (KeywordType ty) name args (Some _) false | ExternStatement ty name args false =>
      tr ← return_type ty; ps ← param_types args; Some (name, (ps, tr))
  | _ => None
  end.

Definition body_of (st : stmt) : option (list stmt) :=
  match st with FunctionDefinition _ _ _ body _ => body | _ => None end.

(** Of several declarations the first counts. *)
Definition declarations (P : list stmt) : gmap string (list (string * fty) * fty) :=
  list_to_map (omap declaration P).

Definition sig_of (d : list (string * fty) * fty) : list fty * fty := (d.1.*2, d.2).

Definition signatures (P : list stmt) : Signatures := fun f => sig_of <$> declarations P !! f.

Definition defines (f : string) (st : stmt) : bool :=
  match st with FunctionDefinition _ name _ _ _ => bool_decide (name = f) | _ => false end.

(** The definition of [f], with what stands before it. *)
Fixpoint find_definition (f : string) (seen P : list stmt) : option (list stmt * stmt) :=
  match P with
  | [] => None
  | st :: P' => if defines f st then Some (seen, st) else find_definition f (seen ++ [st]) P'
  end.

Section types.
(** The functions that are there before the program. *)
Context (builtin : gmap string func).

(** A statement behind [seen]: it declares a new function, or defines one that
    has no body yet, whose parameters have different names and whose
    statements are typed and end in a return; it may call the functions that
    were declared before it, and itself. *)
Definition stmt_fine (seen : list stmt) (st : stmt) : bool :=
  match declaration st with
  | None => false
  | Some (name, (ps, tr)) =>
      bool_decide (NoDup ps.*1) && bool_decide (builtin !! name = None) &&
      match body_of st with
      | None => bool_decide (declarations seen !! name = None)
      | Some body =>
          negb (existsb (defines name) seen) &&
          match declarations seen !! name with None => true | Some d => bool_decide (d = (ps, tr)) end &&
          closes body &&
          bool_decide (is_Some
            (type_stmts (sigs := signatures (seen ++ [st])) tr false (bind_all id no_vars ps) body))
      end
  end.

Fixpoint fine (seen P : list stmt) : bool :=
  match P with [] => true | st :: P' => stmt_fine seen st && fine (seen ++ [st]) P' end.
End types.

Section run.
Context {out : Outside}.

(** * The library *)

(** What its functions mean, and what a call of their code does. *)
Record library : Type := mk_library {
  lib_meaning : string -> list fval -> outside -> option (fval * outside);
  lib_code : string -> list rv -> outside -> option (rv * outside)
}.

(** Its code does what it means, at the types that the program declares. *)
Definition links (L : library) (P : list stmt) : Prop := forall f sg zs rs z w w',
  signatures P f = Some sg -> existsb (defines f) P = false -> Forall3 encodes sg.1 zs rs ->
  lib_meaning L f zs w = Some (z, w') ->
  exists r, lib_code L f rs w = Some (r, w') /\ encodes sg.2 z r.

(** A library of nothing. *)
Definition no_library : library := mk_library (fun _ _ _ => None) (fun _ _ _ => None).

Lemma no_library_links P : links no_library P.
Proof. done. Qed.

(** * Meaning *)

Fixpoint fk_call (L : library) (P : list stmt) (n : nat) (f : string) (zs : list fval) (w : outside) :
    option (fval * outside) :=
  match n with
  | O => None
  | S n =>
      match find_definition f [] P with
      | None => lib_meaning L f zs w
      | Some (seen, st) =>
          '(_, (ps, tr)) ← declaration st;
          body ← body_of st;
          if decide (length zs = length ps) then
            o ← fk_run (meaning := {| fk_called := fk_call L P n; fk_undefined := None |})
                       (sigs := signatures (seen ++ [st]))
                       (mk_fk_state (bind_all id no_vars (zip ps.*1 zs)) w) body;
            match o with Return z w' => Some (conv tr z, w') | Next _ => None end
          else None
      end
  end.

(** * The generated code *)

(** A function of the main module is called: its first block is run, for at
    most as many blocks as there are; one without blocks is the library's. *)
Fixpoint call_function (L : library) (s : cg) (n : nat) (f : string) (args : list rv) (w : outside) :
    option (rv * outside) :=
  match n with
  | O => None
  | S n =>
      fn ← main_module (theIR s) !! f;
      match f_blocks fn with
      | [] => lib_code L f args w
      | b :: _ =>
          call_block
            (running := {| arguments := args; called := call_function L s n; undefined_division := None |})
            (blocks (theIR s)) (S (next_block (theIR s))) b (start w)
      end
  end.
End run.

(** * Declarations *)

Lemma declarations_app P Q : declarations (P ++ Q) = declarations P ∪ declarations Q.
Proof. unfold declarations. by rewrite omap_app, list_to_map_app. Qed.

Lemma declarations_cons st P : declarations (st :: P) =
  match declaration st with Some (f, d) => <[f := d]> (declarations P) | None => declarations P end.
Proof. unfold declarations. simpl. by destruct (declaration st) as [[f d]|]. Qed.

Lemma declarations_snoc P st f d : declarations (P ++ [st]) !! f = Some d <->
  declarations P !! f = Some d \/ declarations P !! f = None /\ declaration st = Some (f, d).
Proof.
  rewrite declarations_app, lookup_union_Some_raw, declarations_cons.
  split.
  - intros [H|[Hn H]]; [by left | right]. split; [done |]. destruct (declaration st) as [[g d']|]; [| done].
    by apply lookup_insert_Some in H as [[-> ->]|[_ H]].
  - intros [H|[Hn ->]]; [by left | right]. by rewrite lookup_insert_eq.
Qed.

Lemma signatures_app P Q f sg : signatures P f = Some sg -> signatures (P ++ Q) f = Some sg.
Proof.
  unfold signatures. rewrite !fmap_Some. intros (d & Hd & ->). exists d. split; [| done].
  rewrite declarations_app. by apply lookup_union_Some_l.
Qed.

Lemma find_definition_Some f P : forall seen pre st, find_definition f seen P = Some (pre, st) ->
  defines f st = true /\ exists post, seen ++ P = pre ++ st :: post.
Proof.
  induction P as [|x P IH]; intros seen pre st; simpl; [done |].
  destruct (defines f x) eqn:Hd.
  - intros [= <- <-]. split; [done |]. by exists P.
  - intros H. destruct (IH _ _ _ H) as (Hst & post & E). split; [done |]. exists post.
    by rewrite <- E, <- app_assoc.
Qed.

Lemma defines_declaration f st name d : defines f st = true -> declaration st = Some (name, d) -> name = f.
Proof.
  destruct st as [| |[] ? ? [] []| | | | |]; simpl; try done. intros E%bool_decide_eq_true H.
  apply bind_Some in H as (? & _ & H). apply bind_Some in H as (? & _ & H). congruence.
Qed.

(** * Compilation, statement by statement *)

Section compile.
Context (jit_address : string -> Z).
Context (hash_order : gmap string (option value) -> list (string * option value)).
Context (builtin : gmap string func).
Local Abbreviation accept := (accept jit_address hash_order).

(** The visitor behind the statements [seen]: what is declared is in the
    module, what is defined is compiled, and no other name is taken. *)
Record ready (seen : list stmt) (s : cg) : Prop := {
  rd_idle : idle s;
  rd_errors : errors s = [];
  rd_free : forall f, declarations seen !! f = None -> builtin !! f = None -> main_module (theIR s) !! f = None;
  rd_declared : forall f d, declarations seen !! f = Some d ->
    exists fn, main_module (theIR s) !! f = Some fn /\ f_type fn = fun_type (sig_of d) MainCtx;
  rd_open : forall f ps tr, declarations seen !! f = Some (ps, tr) -> existsb (defines f) seen = false ->
    main_module (theIR s) !! f = Some (prototype ps tr);
  rd_compiled : forall pre st post name ps tr body, seen = pre ++ st :: post ->
    declaration st = Some (name, (ps, tr)) -> body_of st = Some body ->
    implements (sigs := signatures (pre ++ [st])) name ps tr body s
}.

Lemma declaration_cases st name ps tr : declaration st = Some (name, (ps, tr)) ->
  exists ty args, return_type ty = Some tr /\ param_types args = Some ps /\
    ((exists body, st = FunctionDefinition (KeywordType ty) name args (Some body) false) \/
     st = ExternStatement ty name args false).
Proof.
  destruct st as [| |[ty|ty] x args [body|] []| | | | |ty x args []]; simpl; try done; intros H;
    apply bind_Some in H as (tr' & Ht & H); apply bind_Some in H as (ps' & Hp & H); simplify_eq;
    exists ty, args; eauto.
Qed.

Lemma existsb_snoc {A} (f : A -> bool) l a : existsb f (l ++ [a]) = existsb f l || f a.
Proof. by rewrite existsb_app, orb_comm; simpl; rewrite orb_false_r, orb_comm. Qed.

(** What the functions of the module are once [st] is compiled, too. *)
Lemma ready_snoc seen st name ps tr s s' :
  ready seen s -> declaration st = Some (name, (ps, tr)) ->
  (declarations seen !! name = None \/ declarations seen !! name = Some (ps, tr)) ->
  idle s' -> errors s' = errors s -> later s s' -> appended (blocks (theIR s)) (blocks (theIR s')) ->
  (forall f, f <> name -> bodiless s f -> main_module (theIR s') !! f = main_module (theIR s) !! f) ->
  (exists fn, main_module (theIR s') !! name = Some fn /\ f_type fn = fun_type (ps.*2, tr) MainCtx) ->
  (defines name st = false -> main_module (theIR s') !! name = Some (prototype ps tr)) ->
  (forall body, body_of st = Some body -> implements (sigs := signatures (seen ++ [st])) name ps tr body s') ->
  ready (seen ++ [st]) s'.
Proof.
  intros [Hid He Hfree Hdecl Hopen Hcomp] Hst Hname Hid' He' Hl Ha Hfun Hnew Hproto Hbody.
  assert (forall f d, declarations (seen ++ [st]) !! f = Some d ->
    f = name /\ d = (ps, tr) \/ f <> name /\ declarations seen !! f = Some d) as Hcases.
  { intros f d [Hd|[Hn Hd]]%declarations_snoc.
    - destruct (decide (f = name)) as [->|]; [left; split; [done |]; destruct Hname; congruence | by right].
    - left. split; congruence. }
  split; [done | congruence | | | |].
  - intros f Hf Hb.
    assert (declarations seen !! f = None /\ f <> name) as [Hf' Hne].
    { rewrite declarations_app, declarations_cons, Hst in Hf. apply lookup_union_None in Hf as [H1 H2].
      split; [done |]. intros ->. by rewrite lookup_insert_eq in H2. }
    rewrite (Hfun f Hne); [by apply Hfree |]. intros fn. by rewrite (Hfree f Hf' Hb).
  - intros f d [[-> ->]|[Hne Hd]]%Hcases; [done |].
    destruct (Hdecl f d Hd) as (fn & Hfn & Ht).
    destruct (later_main _ _ (later_ir _ _ Hl) _ _ Hfn) as (fn' & Hfn' & Ht' & _). exists fn'.
    split; [done | congruence].
  - intros f ps' tr' Hd Hopn. rewrite existsb_snoc in Hopn. apply orb_false_iff in Hopn as [Hopn Hdef].
    apply Hcases in Hd as [[-> [= -> ->]]|[Hne Hd]]; [by apply Hproto |].
    rewrite (Hfun f Hne); [by apply Hopen |]. intros fn. rewrite (Hopen f ps' tr' Hd Hopn). by intros [= <-].
  - intros pre st' post name' ps' tr' body Hseen Hst' Hbd.
    destruct post as [|x post _] using rev_ind.
    + apply app_inj_tail in Hseen as [-> ->]. rewrite Hst' in Hst. simplify_eq. by apply Hbody.
    + rewrite app_comm_cons, app_assoc in Hseen. apply app_inj_tail in Hseen as [-> ->].
      eapply implements_later; [exact Hl | exact Ha |]. by eapply Hcomp.
Qed.

(** An extern declaration makes a prototype. *)
Lemma extern_ready seen ty name args ps tr s :
  ready seen s -> return_type ty = Some tr -> param_types args = Some ps -> NoDup ps.*1 ->
  declarations seen !! name = None -> builtin !! name = None ->
  exists v s', accept (ExternStatement ty name args false) s = (Ok v, s') /\
    ready (seen ++ [ExternStatement ty name args false]) s'.
Proof.
  intros R Hty Hps Hnd Hn Hb. pose proof R as [[Hwf Hl Hr Hc] He Hfree _ _ _].
  pose proof (Hfree name Hn Hb) as Hnone.
  pose proof (prototype_made ty tr name args ps s Hl (or_introl Hnone) Hty Hps Hnd) as E.
  assert (accept (ExternStatement ty name args false) s =
    (Ok (Some (VRetVoid MainCtx)), with_prototype name ps tr s)) as E'.
  { simpl. unfold visitExternStatement. rewrite <- bind_assoc_at, (bind_eq _ _ _ _ _ E).
    unfold getVoidValue, getContext, bind, gets, context_of. simpl. by rewrite Hl. }
  pose proof (calm_accept jit_address hash_order (ExternStatement ty name args false) s Hr Hwf) as (Hw & Hlat & _).
  rewrite E' in Hw, Hlat. simpl in Hw, Hlat.
  eexists _, _. split; [exact E' |].
  assert (declaration (ExternStatement ty name args false) = Some (name, (ps, tr))) as Hdec
    by (simpl; by rewrite Hty; simpl; rewrite Hps).
  eapply (ready_snoc seen _ name ps tr s); try done; [by left | | |].
  - intros f Hf _. simpl. by rewrite lookup_insert_ne.
  - eexists. simpl. by rewrite lookup_insert_eq.
  - intros _. simpl. by rewrite lookup_insert_eq.
Qed.

(** A definition is compiled, to code that may call what was declared. *)
Lemma definition_ready seen ty name args ps tr body s
  (st := FunctionDefinition (KeywordType ty) name args (Some body) false) :
  ready seen s -> return_type ty = Some tr -> param_types args = Some ps -> NoDup ps.*1 ->
  builtin !! name = None -> existsb (defines name) seen = false ->
  (declarations seen !! name = None \/ declarations seen !! name = Some (ps, tr)) ->
  is_Some (type_stmts (sigs := signatures (seen ++ [st])) tr false (bind_all id no_vars ps) body) ->
  exists v s', accept st s = (Ok v, s') /\ ready (seen ++ [st]) s'.
Proof.
  intros R Hty Hps Hnd Hb Hopn Hn [G HG]. pose proof R as [Hid He Hfree Hdecl Hopen _].
  assert (declaration st = Some (name, (ps, tr))) as Hdec by (simpl; by rewrite Hty; simpl; rewrite Hps).
  assert (may_define (sigs := signatures (seen ++ [st])) name ps tr s) as Hdef.
  { split.
    - destruct Hn as [Hn|Hn]; [left; by apply Hfree | right; by apply Hopen].
    - intros f sg Hf. unfold signature_of, signatures in Hf. apply fmap_Some in Hf as (d & Hd & ->).
      destruct (decide (f = name)) as [->|Hne].
      + eexists. rewrite lookup_insert_eq. split; [done |]. simpl.
        apply declarations_snoc in Hd as [Hd|[_ Hd]]; [destruct Hn; simplify_eq; done | by simplify_eq].
      + rewrite lookup_insert_ne by done. apply Hdecl.
        apply declarations_snoc in Hd as [Hd|[_ Hd]]; [done | congruence]. }
  destruct (function_compiles (sigs := signatures (seen ++ [st])) jit_address hash_order
    ty tr name args ps body G s Hid Hdef Hty Hps Hnd HG) as (v & s' & E & Hid' & He' & Hl & Ha & Hf & Himp).
  exists v, s'. split; [exact E |]. pose proof Himp as (fn & b & Hfn & _ & Ht & _).
  eapply (ready_snoc seen st name ps tr s); try done.
  - by exists fn.
  - intros Hd. simpl in Hd. by rewrite bool_decide_true in Hd.
  - by intros body' [= <-].
Qed.

(** The two cases of [stmt_fine]. *)
Lemma statement_ready seen st s : ready seen s -> stmt_fine builtin seen st = true ->
  exists v s', accept st s = (Ok v, s') /\ ready (seen ++ [st]) s'.
Proof.
  intros R. unfold stmt_fine. destruct (declaration st) as [[name [ps tr]]|] eqn:Hdec; [| done].
  intros [[Hnd%bool_decide_eq_true Hb%bool_decide_eq_true]%andb_true_iff H]%andb_true_iff.
  destruct (declaration_cases _ _ _ _ Hdec) as (ty & args & Hty & Hps & [[body ->]| ->]); simpl in H.
  - apply andb_true_iff in H as [[[Hopn Hn]%andb_true_iff _]%andb_true_iff HG%bool_decide_eq_true].
    apply negb_true_iff in Hopn. apply (definition_ready seen ty name args ps tr body); try done.
    destruct (declarations seen !! name) as [d|]; [| by left].
    right. by apply bool_decide_eq_true in Hn as ->.
  - apply bool_decide_eq_true in H. by eapply extern_ready.
Qed.

(** The statements of a program, one after the other. *)
Lemma program_ready V cv P : forall seen i last s, ready seen s -> fine builtin seen P = true ->
  (forall j, j < length P -> cv !! (i + j) = Some true) ->
  exists v s', visit_statements jit_address hash_order V cv i (with_visits jit_address hash_order P) last s =
      (Ok v, s') /\ ready (seen ++ P) s'.
Proof.
  induction P as [|st P IH]; intros seen i last s R Hf Hcv.
  { exists last, s. by rewrite app_nil_r. }
  simpl in Hf. apply andb_true_iff in Hf as [Hst Hf].
  destruct (statement_ready seen st s R Hst) as (v1 & s1 & E1 & R1).
  destruct (IH (seen ++ [st]) (S i) v1 s1 R1 Hf) as (v & s' & E & R').
  { intros j Hj. rewrite Nat.add_succ_comm. apply Hcv. simpl. lia. }
  exists v, s'. rewrite <- app_assoc in R'. split; [| exact R'].
  pose proof (rd_idle _ _ R) as [_ Hl _ Hc].
  rewrite visit_next; [by rewrite (bind_eq _ _ _ _ _ E1) | done | done |].
  rewrite <- (Nat.add_0_r i). apply Hcv. simpl. lia.
Qed.
End compile.

(** * Calls *)

(** Parameters from their names and types, the values and the registers. *)
Lemma parameters sgn : forall zs rs, Forall (fun p => p.2 <> FkVoid) sgn -> Forall3 encodes sgn.*2 zs rs ->
  length zs = length sgn /\ exists ps : list param,
    signature ps = sgn /\ Forall param_ok ps /\ actuals ps = rs /\
    forall env, bind_all (fun q => q.1.2) env ps = bind_all id env (zip sgn.*1 zs).
Proof.
  induction sgn as [|[x t] sgn IH]; intros zs rs Hv H; inversion H as [|? z r ? zs' rs' He Hrest]; subst.
  { split; [done |]. by exists []. }
  apply Forall_cons in Hv as [Hx Hv].
  destruct (IH _ _ Hv Hrest) as (Hlen & ps & Hs & Hok & Ha & Hvals).
  split; [simpl; by f_equal |]. exists ((x, (t, z, r)) :: ps).
  split_and!; [by rewrite <- Hs | by constructor | by rewrite <- Ha |]. intros env. simpl. apply Hvals.
Qed.

Lemma declaration_not_void st name ps tr :
  declaration st = Some (name, (ps, tr)) -> Forall (fun p => p.2 <> FkVoid) ps.
Proof.
  intros H. destruct (declaration_cases _ _ _ _ H) as (ty & args & _ & Hps & _). by eapply param_not_void.
Qed.

Section calls.
Context {out : Outside} (L : library).

(** Calls of at most [n] levels return what they mean. *)
Definition calls_agree (P : list stmt) (s : cg) (n : nat) : Prop := forall f sg zs rs z w w',
  signatures P f = Some sg -> Forall3 encodes sg.1 zs rs -> fk_call L P n f zs w = Some (z, w') ->
  exists r, call_function L s n f rs w = Some (r, w') /\ encodes sg.2 z r.

(** The world of a function that may call what [pre] declares, a part of the
    program. *)
Definition world_of (P pre : list stmt) (s : cg) (n : nat) (args : list rv)
    (Hpre : forall f sg, signatures pre f = Some sg -> signatures P f = Some sg)
    (H : calls_agree P s n) : World (sigs := signatures pre).
Proof.
  refine {|
    world_running := {| arguments := args; called := call_function L s n; undefined_division := None |};
    world_meaning := {| fk_called := fk_call L P n; fk_undefined := None |} |}; simpl; [done | done |].
  intros f sg zs rs z w w' Hf. by apply H, Hpre.
Defined.

Lemma fine_definition builtin f P : forall seen pre st,
  fine builtin seen P = true -> find_definition f seen P = Some (pre, st) -> stmt_fine builtin pre st = true.
Proof.
  induction P as [|x P IH]; intros seen pre st; simpl; [done |].
  intros [Hx HP]%andb_true_iff. destruct (defines f x); [by intros [= <- <-] |]. by apply IH.
Qed.

(** What is declared of a function is what its definition says. *)
Lemma defined_signature builtin pre st post f ps tr body :
  stmt_fine builtin pre st = true -> declaration st = Some (f, (ps, tr)) -> body_of st = Some body ->
  signatures (pre ++ st :: post) f = Some (ps.*2, tr).
Proof.
  unfold stmt_fine. intros H Hd Hb. rewrite Hd, Hb in H.
  apply andb_true_iff in H as [_ [[[_ H]%andb_true_iff _]%andb_true_iff _]%andb_true_iff].
  replace (st :: post) with ([st] ++ post) by done. rewrite app_assoc. apply signatures_app.
  unfold signatures. assert (declarations (pre ++ [st]) !! f = Some (ps, tr)) as ->; [| done].
  apply declarations_snoc. destruct (declarations pre !! f) as [d|]; [left | by right].
  by apply bool_decide_eq_true in H as ->.
Qed.

Lemma find_definition_None f P : forall seen, find_definition f seen P = None -> existsb (defines f) P = false.
Proof. induction P as [|x P IH]; intros seen; simpl; [done |]. destruct (defines f x); [done | apply IH]. Qed.

Lemma calls_correct builtin P s : ready builtin P s -> fine builtin [] P = true -> links L P ->
  forall n, calls_agree P s n.
Proof.
  intros R HP HL. induction n as [|n IH]; intros f sg zs rs z w w' Hf Hargs Hz; [done |].
  simpl in Hz. destruct (find_definition f [] P) as [[pre st]|] eqn:Hdef.
  2: { apply find_definition_None in Hdef as Hno. destruct (HL _ _ _ _ _ _ _ Hf Hno Hargs Hz) as (r & Hr & He).
       unfold signatures in Hf. apply fmap_Some in Hf as ([ps tr] & Hd & _). exists r. split; [| done].
       simpl. by rewrite (rd_open _ _ _ R _ _ _ Hd Hno). }
  apply bind_Some in Hz as ([name [ps tr]] & Hdec & Hz). apply bind_Some in Hz as (body & Hbody & Hz).
  destruct (find_definition_Some _ _ _ _ _ Hdef) as (Hst & post & HPeq). simpl in HPeq.
  assert (forall g sg, signatures (pre ++ [st]) g = Some sg -> signatures P g = Some sg) as Hpre.
  { intros g sg'. rewrite HPeq. replace (st :: post) with ([st] ++ post) by done. rewrite app_assoc.
    apply signatures_app. }
  pose proof (defines_declaration _ _ _ _ Hst Hdec) as ->.
  pose proof (fine_definition _ _ _ _ _ _ HP Hdef) as Hfine.
  pose proof (defined_signature _ _ _ post _ _ _ _ Hfine Hdec Hbody) as Hsig.
  rewrite <- HPeq, Hf in Hsig. injection Hsig as ->. simpl in Hargs |- *.
  pose proof (declaration_not_void _ _ _ _ Hdec) as Hnv.
  destruct (parameters ps zs rs Hnv Hargs) as (Hlen & params & Hps & Hok & Hacts & Hvals).
  rewrite decide_True in Hz by done.
  apply bind_Some in Hz as ([env|z' w1] & Hrun & Hz); [done |]. injection Hz as <- <-.
  destruct (rd_compiled _ _ _ R pre st post f _ tr body HPeq Hdec Hbody)
    as (fn & b & Hfn & Hb & _ & Himp).
  destruct (Himp out (world_of P (pre ++ [st]) s n rs Hpre IH) params w z' w1 Hps Hok (eq_sym Hacts))
    as (r & Hr & He).
  { unfold entered_with, values_of. rewrite Hvals. exact Hrun. }
  exists r. split; [| done]. rewrite Hfn. simpl. destruct (f_blocks fn); [done |].
  simpl in Hb. injection Hb as ->. exact Hr.
Qed.
End calls.
