(* ===== verification/Lib.v ===== *)
(** The runtime library that compiled programs call: [lib.h] and [lib.cpp].
    The allocator of the C library and the formatting of a double are
    parameters. *)

From S2P Require Import Prelude Ast Runtime RuntimeFacts Injections.

Local Open Scope Z_scope.

Section lib.
(** The heap of the C library and its allocator, which returns an address,
    zero for null. *)
Context {heap : Type}.
Context (libc_malloc : Z -> heap -> Z * heap).
Context (libc_calloc : Z -> Z -> heap -> Z * heap).
Context (libc_free : Z -> heap -> heap).
Context (format_f : double -> string).     (* printf's %f *)
(** A statement is compiled code at an address, run on an environment. *)
Context {Env : Type} (code_int : Z -> Env -> Z) (code_float : Z -> Env -> double)
  (code_intptr : Z -> Env -> intptr) (code_floatptr : Z -> Env -> floatptr)
  (code_void : Z -> Env -> unit).

Record lib : Type := mk_lib {
  manager : ParContextManager;
  print_mutex : bool;
  malloc_mutex : bool;
  the_heap : heap;
  output : list string
}.

Abbreviation L := (SE lib crash).

Definition set_manager (m : ParContextManager) (s : lib) : lib :=
  mk_lib m (print_mutex s) (malloc_mutex s) (the_heap s) (output s).
Definition set_print_mutex (b : bool) (s : lib) : lib :=
  mk_lib (manager s) b (malloc_mutex s) (the_heap s) (output s).
Definition set_malloc_mutex (b : bool) (s : lib) : lib :=
  mk_lib (manager s) (print_mutex s) b (the_heap s) (output s).
Definition set_heap (h : heap) (s : lib) : lib :=
  mk_lib (manager s) (print_mutex s) (malloc_mutex s) h (output s).
Definition print (line : string) (s : lib) : lib :=
  mk_lib (manager s) (print_mutex s) (malloc_mutex s) (the_heap s) (output s ++ [line]).

Definition lock_print : L unit :=
  held <- gets print_mutex ;; if held then fail Blocked else modify (set_print_mutex true).
Definition lock_malloc : L unit :=
  held <- gets malloc_mutex ;; if held then fail Blocked else modify (set_malloc_mutex true).

(** The conversion to [int] keeps the low 32 bits. *)
Definition print_int (i : int64) : L unit :=
  lock_print ;;
  modify (print ("Outputing Integer: " +:+ pretty (wrap 32 i) +:+ newline)) ;;
  modify (set_print_mutex false).

Definition print_float (d : double) : L unit :=
  lock_print ;;
  modify (print ("Outputing Float: " +:+ format_f d +:+ newline)) ;;
  modify (set_print_mutex false).

(** The conversion of a signed number to [size_t]. *)
Definition size_t (z : Z) : Z := z `mod` two64.

Definition run_heap {A} (f : heap -> A * heap) : L A :=
  s <- gets id ;;
  let '(a, h) := f (the_heap s) in modify (set_heap h) ;; mret a.

(** [s*8] is computed in [int64_t]. *)
Definition malloc_words (s : int64) : L Z :=
  lock_malloc ;;
  n <- (if bool_decide (in_int64 (s * 8)) then mret (s * 8) else fail SignedOverflow) ;;
  allocd <- run_heap (libc_malloc (size_t n)) ;;
  modify (set_malloc_mutex false) ;; mret allocd.

Definition malloc_float : int64 -> L Z := malloc_words.
Definition malloc_int : int64 -> L Z := malloc_words.

Definition calloc_words (s : int64) : L Z :=
  lock_malloc ;;
  allocd <- run_heap (libc_calloc (size_t s) 8) ;;
  modify (set_malloc_mutex false) ;; mret allocd.

Definition calloc_float : int64 -> L Z := calloc_words.
Definition calloc_int : int64 -> L Z := calloc_words.

Definition free_words (p : Z) : L unit :=
  lock_malloc ;;
  run_heap (fun h => (tt, libc_free p h)) ;;
  modify (set_malloc_mutex false).

Definition free_float : Z -> L unit := free_words.
Definition free_int : Z -> L unit := free_words.

(** Sleeping changes nothing that is modelled. *)
Definition do_work_ms (i : int64) : L unit := mret tt.

(** The hidden functions: calls of the manager. *)
Definition on_manager {A} (f : PM A) : L A := fun s =>
  let '(r, m) := f (manager s) in (r, set_manager m s).

Definition fork_sched_int (func : Z) (env : Env) (id cid : int64) : L unit :=
  on_manager (sched_int (code_int func) env id cid).
Definition fork_sched_float (func : Z) (env : Env) (id cid : int64) : L unit :=
  on_manager (sched_float (code_float func) env id cid).
Definition fork_sched_intptr (func : Z) (env : Env) (id cid : int64) : L unit :=
  on_manager (sched_intptr (code_intptr func) env id cid).
Definition fork_sched_floatptr (func : Z) (env : Env) (id cid : int64) : L unit :=
  on_manager (sched_floatptr (code_floatptr func) env id cid).
Definition fork_sched_void (func : Z) (env : Env) (id cid : int64) : L unit :=
  on_manager (sched_void (code_void func) env id cid).

Definition lib_recon_int (original known id max cid : int64) : L Z :=
  on_manager (recon_int original known id max cid).
Definition lib_recon_float (original : double) (known id max cid : int64) : L double :=
  on_manager (recon_float original known id max cid).
Definition lib_recon_intptr (original : intptr) (known id max cid : int64) : L intptr :=
  on_manager (recon_intptr original known id max cid).
Definition lib_recon_floatptr (original : floatptr) (known id max cid : int64) : L floatptr :=
  on_manager (recon_floatptr original known id max cid).
Definition lib_recon_void (id max cid : int64) : L unit := on_manager (recon_void id max cid).
Definition lib_make_context : L Z := on_manager make_context.
Definition lib_destroy_context (cid : int64) : L unit := on_manager (destroy_context cid).
End lib.

(** * The prototypes of [lib.h] *)

Inductive ctype : Type := CVoid | CInt64 | CDouble | CPointer.

#[export] Instance ctype_eq_dec : EqDecision ctype.
Proof. solve_decision. Defined.

Definition prototypes : list (string * (ctype * list ctype)) := [
  ("malloc_int", (CPointer, [CInt64]));
  ("malloc_float", (CPointer, [CInt64]));
  ("calloc_int", (CPointer, [CInt64]));
  ("calloc_float", (CPointer, [CInt64]));
  ("free_int", (CVoid, [CPointer]));
  ("free_float", (CVoid, [CPointer]));
  ("__make_context", (CInt64, []));
  ("__fork_sched_int", (CVoid, [CPointer; CPointer; CInt64; CInt64]));
  ("__fork_sched_float", (CVoid, [CPointer; CPointer; CInt64; CInt64]));
  ("__fork_sched_intptr", (CVoid, [CPointer; CPointer; CInt64; CInt64]));
  ("__fork_sched_floatptr", (CVoid, [CPointer; CPointer; CInt64; CInt64]));
  ("__fork_sched_void", (CVoid, [CPointer; CPointer; CInt64; CInt64]));
  ("__recon_int", (CInt64, [CInt64; CInt64; CInt64; CInt64; CInt64]));
  ("__recon_float", (CDouble, [CDouble; CInt64; CInt64; CInt64; CInt64]));
  ("__recon_intptr", (CPointer, [CPointer; CInt64; CInt64; CInt64; CInt64]));
  ("__recon_floatptr", (CPointer, [CPointer; CInt64; CInt64; CInt64; CInt64]));
  ("__recon_void", (CVoid, [CInt64; CInt64; CInt64]));
  ("__destroy_context", (CVoid, [CInt64]))
].
