(* ===== verification/Library.v ===== *)
(** The runtime library as the library of a program: [print_int],
    [print_float] and [do_work_ms] of [lib.cpp], called by the generated code
    with the registers of their arguments. *)

From S2P Require Import Prelude Ast IR State Machine ExprCorrect Source Program Runtime Lib.

Section library.
Context {heap : Type} (format_f : double -> string).

(** What is outside of the program is the state of the runtime library. *)
#[local] Instance lib_outside : Outside := lib (heap := heap).

(** A void function that throws, or waits for ever, has no result. *)
Definition finish {A} (void : A) (r : res crash unit * lib (heap := heap)) : option (A * outside) :=
  match r with (Ok _, w) => Some (void, w) | (Err _, _) => None end.

Definition means (f : string) (zs : list fval) (w : outside) : option (fval * outside) :=
  match zs with
  | [VI z] =>
      if decide (f = "print_int") then finish VU (print_int z w)
      else if decide (f = "do_work_ms") then finish VU (do_work_ms z w)
      else None
  | [VF d] => if decide (f = "print_float") then finish VU (print_float format_f d w) else None
  | _ => None
  end.

Definition runs (f : string) (rs : list rv) (w : outside) : option (rv * outside) :=
  match rs with
  | [RInt 64 z] =>
      if decide (f = "print_int") then finish RVoid (print_int z w)
      else if decide (f = "do_work_ms") then finish RVoid (do_work_ms z w)
      else None
  | [RFloat d] => if decide (f = "print_float") then finish RVoid (print_float format_f d w) else None
  | _ => None
  end.

Definition runtime : library := mk_library means runs.

(** The functions have no other types in a program than those of [lib.h]. *)
Definition runtime_functions : list (string * (list fty * fty)) :=
  [("print_int", ([FkInt], FkVoid)); ("print_float", ([FkFloat], FkVoid)); ("do_work_ms", ([FkInt], FkVoid))].

Definition declares_runtime (P : list stmt) : bool :=
  forallb (fun p => match signatures P p.1 with None => true | Some sg => bool_decide (sg = p.2) end)
    runtime_functions.

Lemma finish_agrees r z w : finish VU r = Some (z, w) -> z = VU /\ finish RVoid r = Some (RVoid, w).
Proof. destruct r as [[[]|] s]; simpl; [| done]. by intros [= <- <-]. Qed.

Lemma one_argument t z rs : Forall3 encodes [t] [z] rs -> exists r, rs = [r] /\ encodes t z r.
Proof.
  intros H. inversion H as [|? ? r ? ? ? He Hn]; subst. inversion Hn; subst. by exists r.
Qed.

Lemma runtime_links P : declares_runtime P = true -> links runtime P.
Proof.
  intros HP f sg zs rs z w w' Hf _ Hargs Hz.
  assert (forall p, p ∈ runtime_functions -> p.1 = f -> sg = p.2) as Hsg.
  { intros p Hp <-. unfold declares_runtime in HP. rewrite forallb_forall in HP.
    specialize (HP p (proj1 (list_elem_of_In _ _) Hp)). rewrite Hf in HP. by apply bool_decide_eq_true in HP. }
  assert (exists p r, p ∈ runtime_functions /\ p.1 = f /\ finish VU r = Some (z, w') /\
    (sg = p.2 -> runs f rs w = finish RVoid r)) as (p & r & Hp & Hpf & Hr & Hrun).
  { simpl in Hz. unfold means in Hz. destruct zs as [|[x|x|] [|]]; try done.
    - destruct (decide (f = "print_int")) as [->|].
      { exists ("print_int", ([FkInt], FkVoid)), (print_int x w). split_and!; [set_solver | done | done |].
        intros ->. by destruct (one_argument _ _ _ Hargs) as (r & -> & -> & _). }
      destruct (decide (f = "do_work_ms")) as [->|]; [| done].
      exists ("do_work_ms", ([FkInt], FkVoid)), (do_work_ms x w). split_and!; [set_solver | done | done |].
      intros ->. by destruct (one_argument _ _ _ Hargs) as (r & -> & -> & _).
    - destruct (decide (f = "print_float")) as [->|]; [| done].
      exists ("print_float", ([FkFloat], FkVoid)), (print_float format_f x w). split_and!; [set_solver | done | done |].
      intros ->. by destruct (one_argument _ _ _ Hargs) as (r & -> & ->). }
  rewrite (Hsg p Hp Hpf) in *. apply finish_agrees in Hr as [-> Hr]. exists RVoid.
  split; [by rewrite <- Hr, <- Hrun |]. apply list_elem_of_In in Hp. simpl in Hp.
  by destruct Hp as [<-|[<-|[<-|[]]]].
Qed.
End library.
