(* ===== verification/ProgramProps.v ===== *)
(** The correctness of the compiler for whole programs: functions that call
    each other and themselves, compiled by the driver behind the declarations
    that are put in front of every program. *)

From stdpp Require Import functions.
From S2P Require Import Prelude Lexer Runtime Lib Library Ast IR State Builder CodeGenBase CodeGenExpr CodeGenStmt.
From S2P Require Import CodeGenBlock Injections CodeGenLogic CodeGenBlockWf Machine ExprLogic ExprCorrect.
From S2P Require Import Source SourceFacts Flow Straight Control Functions FunctionProps Program.

(** * The declarations in front *)

(** The visitor behind [buildInjections]. *)
Definition injected : cg :=
  (visit_program (fun _ => 0%Z) (fun _ => []) buildInjections new_CodeGenVisitor).2.

(** A program that the driver is given. *)
Definition program_fine (P : list stmt) : bool := fine (main_module (theIR injected)) [] P.

(** A definition of [main] in such a program has code. *)
Lemma main_compiled P s : ready (main_module (theIR injected)) P s -> program_fine P = true ->
  existsb (defines "main") P = true ->
  exists fn b, main_module (theIR s) !! "main" = Some fn /\ head (f_blocks fn) = Some b.
Proof.
  intros R HP Hm. assert (exists pre st, find_definition "main" [] P = Some (pre, st)) as (pre & st & Hdef).
  { generalize (@nil stmt). clear - Hm. induction P as [|x P IH]; intros seen; [done |]. simpl in Hm |- *.
    destruct (defines "main" x); [by eexists _, _ | by apply IH]. }
  pose proof (fine_definition _ _ _ _ _ _ HP Hdef) as Hfine. unfold stmt_fine in Hfine.
  destruct (find_definition_Some _ _ _ _ _ Hdef) as (Hst & post & HPeq).
  destruct (declaration st) as [[name [ps tr]]|] eqn:Hd; [| done].
  pose proof (defines_declaration _ _ _ _ Hst Hd) as ->.
  destruct (declaration_cases _ _ _ _ Hd) as (ty & args & _ & _ & [[body ->]| ->]); [| done].
  destruct (rd_compiled _ _ _ R _ _ _ _ _ _ body HPeq Hd eq_refl) as (fn & b & Hfn & Hb & _).
  by exists fn, b.
Qed.

Section program.
Context (jit_address : string -> Z).
Context (hash_order : gmap string (option value) -> list (string * option value)).
Local Abbreviation visit_statements := (visit_statements jit_address hash_order).
Local Abbreviation with_visits := (with_visits jit_address hash_order).

Lemma injections_visited V n :
  visit_statements V (replicate (18 + n) true) 0 (with_visits buildInjections) None new_CodeGenVisitor =
  (Ok (Some (VRetVoid MainCtx)), injected).
Proof. vm_compute. reflexivity. Qed.

Lemma ready_injected : ready (main_module (theIR injected)) [] injected.
Proof.
  split; [| vm_compute; reflexivity | done | done | done | by intros []].
  split; [| vm_compute; reflexivity..].
  apply (calm_visit_program (fun _ => 0%Z) (fun _ => []) buildInjections new_CodeGenVisitor eq_refl wf_new).
Qed.

Lemma fine_commits builtin P : forall seen, fine builtin seen P = true ->
  Forall (fun st => statementCommits st = true) P.
Proof.
  induction P as [|st P IH]; intros seen H; [constructor |]. simpl in H.
  apply andb_true_iff in H as [Hst H]. constructor; [| by eapply IH]. unfold stmt_fine in Hst.
  destruct (declaration st) as [[name [ps tr]]|] eqn:Hd; [| done].
  by destruct (declaration_cases _ _ _ _ Hd) as (ty & args & _ & _ & [[body ->]| ->]).
Qed.

Lemma program_commits P : program_fine P = true ->
  commit_vector (with_visits (program P)).*1 = replicate (18 + length P) true.
Proof.
  intros HP. rewrite with_visits_fst, commit_vector_all; [done |].
  apply Forall_app. split; [by repeat constructor | by eapply fine_commits].
Qed.

(** The driver's run of the visitor. *)
Lemma program_compiles P : program_fine P = true ->
  exists v s, compile jit_address hash_order P = (Ok v, s) /\ ready (main_module (theIR injected)) P s.
Proof.
  intros HP.
  destruct (program_ready jit_address hash_order (main_module (theIR injected))
    (visitClosureBlock jit_address hash_order) (replicate (18 + length P) true) P [] 18
    (Some (VRetVoid MainCtx)) injected ready_injected HP) as (v & s & E & R).
  { intros j Hj. apply lookup_replicate_2. lia. }
  exists v, s. split; [| exact R].
  unfold compile, visit_program, visitBlock, visitBlock_with.
  rewrite (program_commits P HP). unfold program, CodeGenBlock.with_visits. rewrite fmap_app.
  etrans; [apply visit_statements_app |].
  rewrite (bind_eq _ _ _ _ _ (injections_visited _ (length P))). exact E.
Qed.

Lemma program_code P : program_fine P = true ->
  exists v s, compile jit_address hash_order P = (Ok v, s) /\ errors s = [] /\
    (forall (out : Outside) L n f sg zs rs z w w', links L P ->
      signatures P f = Some sg -> Forall3 encodes sg.1 zs rs -> fk_call L P n f zs w = Some (z, w') ->
      exists r, call_function L s n f rs w = Some (r, w') /\ encodes sg.2 z r) /\
    (existsb (defines "main") P = true -> run_visitor jit_address hash_order P = Compiled DumpedIR Executed).
Proof.
  intros HP. destruct (program_compiles P HP) as (v & s & E & R).
  exists v, s. split_and!; [done | apply R | |].
  { intros out L n f sg zs rs z w w' HL. by apply (calls_correct L _ P s R HP HL). }
  intros Hm. destruct (main_compiled P s R HP Hm) as (fn & b & Hfn & Hb).
  unfold run_visitor. rewrite E. unfold executeMain, printModule, bind, gets, gets_ir, assert.
  pose proof (wf_error _ (id_wf _ (rd_idle _ _ _ R))) as He. rewrite (rd_errors _ _ _ R) in He.
  simpl in He. rewrite He. simpl. rewrite Hfn. unfold func_empty. by destruct (f_blocks fn).
Qed.

(** C1. Compiler correctness for programs: a program of functions with int and
    float parameters, whose bodies define and assign int and float variables,
    evaluate expressions, call the functions declared before them and
    themselves, branch with [if] and [else] and return a value or nothing, also
    from the arms, is compiled behind the injected declarations without a
    message.  Linked with any library whose code does what its functions mean
    to what is outside of the program - what is printed, say - a call of one of
    its functions that means [z] within [n] levels of calls, and takes the
    outside from [w] to [w'], is run by the generated code within [n] levels,
    each function for at most as many blocks as there are, to a return of a
    register that stands for [z], and leaves [w'] outside: it makes the same
    calls of the library in the same order.  And if the program defines [main],
    the driver dumps the module and runs it. *)
Theorem program_code_correct P : program_fine P = true ->
  exists v s, compile jit_address hash_order P = (Ok v, s) /\ errors s = [] /\
    (forall (out : Outside) L n f sg zs rs z w w', links L P ->
      signatures P f = Some sg -> Forall3 encodes sg.1 zs rs -> fk_call L P n f zs w = Some (z, w') ->
      exists r, call_function L s n f rs w = Some (r, w') /\ encodes sg.2 z r) /\
    (existsb (defines "main") P = true -> run_visitor jit_address hash_order P = Compiled DumpedIR Executed).
Proof. apply program_code. Qed.
End program.

(** The bound on the levels of calls does not matter: a call that means
    something within [n] levels means the same within more. *)
Theorem call_levels {out : Outside} L P n n' f zs w z :
  fk_call L P n f zs w = Some z -> n <= n' -> fk_call L P n' f zs w = Some z.
Proof.
  revert n' f zs w z. induction n as [|n IH]; intros [|n'] f zs w z H Hn; [done | done | lia |].
  simpl in H |- *. destruct (find_definition f [] P) as [[pre st]|]; [| done].
  apply bind_Some in H as ([name [ps tr]] & Hdec & H). rewrite Hdec. simpl.
  apply bind_Some in H as (body & Hb & H). rewrite Hb. simpl.
  destruct (decide (length zs = length ps)); [| done].
  apply bind_Some in H as (o & Ho & H). apply bind_Some. exists o. split; [| exact H].
  apply (more_run (sigs := signatures (pre ++ [st]))
    {| fk_called := fk_call L P n; fk_undefined := None |} {| fk_called := fk_call L P n'; fk_undefined := None |});
    [done | | exact Ho]. intros g xs u x Hx. apply (IH n' g xs u x Hx). lia.
Qed.

(** * Witnesses *)

(** Two functions that call each other, with a declaration in front; a
    recursion; a function of floats that is given integers:
    [extern int odd(int n)], [int even(int n) { if (n == 0) { return 1 }; return odd(n - 1) }],
    [int odd(int n) { if (n == 0) { return 0 }; return even(n - 1) }],
    [int fact(int n) { if (n < 2) { return 1 }; return n * fact(n - 1) }],
    [float mean(float a, float b) { return (a + b) / 2 }], and a main program
    that prints, [int main() { int x = fact(10);
    if (mean(x, 3) > 5.0) { x = x + even(10); report(x) };
    print_float(0.0); return x }] with
    [void report(int x) { print_int(x); return }]. *)
Definition demo_parity (name other : string) (last : Z) : stmt :=
  FunctionDefinition (KeywordType "int") name [VariableDefinition true "int" "n" None false]
    (Some [IfStatement (BinaryOperator (Identifier "n") "==" (Integer 0))
             (Some (Some [ReturnStatement (Some (Integer last))])) None;
           ReturnStatement (Some (FunctionCall other [BinaryOperator (Identifier "n") "-" (Integer 1)]))])
    false.

Definition demo_fact : stmt :=
  FunctionDefinition (KeywordType "int") "fact" [VariableDefinition true "int" "n" None false]
    (Some [IfStatement (BinaryOperator (Identifier "n") "<" (Integer 2))
             (Some (Some [ReturnStatement (Some (Integer 1))])) None;
           ReturnStatement (Some (BinaryOperator (Identifier "n") "*"
             (FunctionCall "fact" [BinaryOperator (Identifier "n") "-" (Integer 1)])))])
    false.

Definition demo_mean : stmt :=
  FunctionDefinition (KeywordType "float") "mean"
    [VariableDefinition true "float" "a" None false; VariableDefinition true "float" "b" None false]
    (Some [ReturnStatement (Some (BinaryOperator
       (BinaryOperator (Identifier "a") "+" (Identifier "b")) "/" (Integer 2)))])
    false.

Definition demo_main : stmt :=
  FunctionDefinition (KeywordType "int") "main" []
    (Some [SVariable (VariableDefinition true "int" "x" (Some (FunctionCall "fact" [Integer 10])) false);
           IfStatement (BinaryOperator (FunctionCall "mean" [Identifier "x"; Integer 3]) ">" (Float (of_int 5)))
             (Some (Some [AssignStatement true (Identifier "x")
                 (BinaryOperator (Identifier "x") "+" (FunctionCall "even" [Integer 10]));
               ExpressionStatement true (FunctionCall "report" [Identifier "x"])])) None;
           ExpressionStatement true (FunctionCall "print_float" [Float double_zero]);
           ReturnStatement (Some (Identifier "x"))])
    false.

Definition demo_report : stmt :=
  FunctionDefinition (KeywordType "void") "report" [VariableDefinition true "int" "x" None false]
    (Some [ExpressionStatement true (FunctionCall "print_int" [Identifier "x"]); ReturnStatement None]) false.

Definition demo_program : list stmt :=
  [ExternStatement "void" "print_int" [VariableDefinition true "int" "n" None false] false;
   ExternStatement "void" "print_float" [VariableDefinition true "float" "d" None false] false;
   ExternStatement "int" "odd" [VariableDefinition true "int" "n" None false] false;
   demo_parity "even" "odd" 1; demo_parity "odd" "even" 0; demo_fact; demo_mean; demo_report; demo_main].

(** The library before anything is printed. *)
Definition demo_library : lib (heap := unit) := mk_lib (new_ParContextManager 4) false false tt [].

Lemma program_code_correct_witness :
  exists v s, compile (fun _ => 0%Z) (fun _ => []) demo_program = (Ok v, s) /\ errors s = [] /\
    call_function (out := lib_outside) (runtime (fun _ => "0.000000")) s 13 "main" [] demo_library =
      Some (RInt 64 3628801,
        print ("Outputing Float: 0.000000" +:+ newline)
          (print ("Outputing Integer: 3628801" +:+ newline) demo_library)) /\
    run_visitor (fun _ => 0%Z) (fun _ => []) demo_program = Compiled DumpedIR Executed.
Proof.
  destruct (program_code_correct (fun _ => 0%Z) (fun _ => []) demo_program ltac:(vm_compute; reflexivity))
    as (v & s & E & He & Hcall & Hmain).
  exists v, s. split; [exact E |]. split; [exact He |]. split; [| apply Hmain; vm_compute; reflexivity].
  destruct (Hcall lib_outside (runtime (fun _ => "0.000000")) 13 "main" ([], FkInt) [] [] (VI 3628801)
    demo_library (print ("Outputing Float: 0.000000" +:+ newline)
      (print ("Outputing Integer: 3628801" +:+ newline) demo_library))) as (r & Hr & -> & _).
  - apply runtime_links. vm_compute. reflexivity.
  - vm_compute. reflexivity.
  - constructor.
  - vm_compute. reflexivity.
  - exact Hr.
Defined.
