(* ===== verification/GroupCorrect.v ===== *)
(** A commit group from one end to the other: the code in front of the
    statement that ends it, and the functions of its closures. *)

From stdpp Require Import functions.
From S2P Require Import Prelude Ast IR State Builder CodeGenBase CodeGenExpr CodeGenStmt.
From S2P Require Import CodeGenBlock CodeGenBlockWf Machine ExprLogic ExprCorrect Source SourceFacts Flow EntryCode.
From S2P Require Import Closure ClosureBody Capture Scheduled GroupRun GroupEnd.
From S2P Require ProgramProps.

Section group.
Context {sigs : Signatures} {out : Outside} {world : World}.
Context (jit_address : string -> Z).
Context (hash_order : gmap string (option value) -> list (string * option value)).
Context (fname : string) (funt : fun_ty) (b : nat) (m0 : machine).
Local Abbreviation visit_statements := (visit_statements jit_address hash_order (visitClosureBlock jit_address hash_order)).
Local Abbreviation with_visits := (with_visits jit_address hash_order).

Lemma group_outside (w : World (sigs := no_functions)) m s :
  standing (world := w) MainCtx fname funt b m0 m s -> insideLambda s = false.
Proof.
  intros Hs. pose proof (sd_ctx _ _ _ _ _ _ _ Hs) as H. unfold context_of in H. by destruct (insideLambda s).
Qed.

(** The first statement opens the group. *)
Lemma visit_opened cv i st l last s s0 :
  begin_group s = (Ok tt, s0) -> executeCommit s0 = false ->
  insideLambda s = false -> insideLambda s0 = false -> cv !! i = Some false ->
  visit_statements cv i (with_visits (st :: l)) last s = visit_statements cv i (with_visits (st :: l)) last s0.
Proof.
  intros Hb He Hl Hl0 Hc.
  change (with_visits (st :: l)) with ((st, accept jit_address hash_order st) :: with_visits l).
  rewrite !visit_grouped by done. apply bind_at. unfold make_closure. apply bind_at. rewrite Hb.
  symmetry. unfold begin_group. rewrite (bind_eq _ _ s0 false s0); [done |]. unfold gets. by rewrite He.
Qed.

(** The statement that ends it. *)
Lemma visit_committed cv i st v rest last s s' :
  insideLambda s = false -> executeCommit s = false -> cv !! i = Some true -> end_group s = (Ok tt, s') ->
  visit_statements cv i ((st, v) :: rest) last s =
    bind v (visit_statements cv (S i) rest) s'.
Proof.
  intros Hl He Hc E. simpl. rewrite (bind_eq _ _ s false s) by (unfold gets; by rewrite Hl).
  rewrite (bind_eq _ _ s true s) by by rewrite Hc. simpl. rewrite bind_assoc_at.
  rewrite (bind_eq _ _ s false s) by (unfold gets; by rewrite He). simpl.
  rewrite bind_assoc_at. by rewrite (bind_eq _ _ _ _ _ E).
Qed.

(** The functions of the closures, in the machine [m] that has scheduled them
    and the code of [s]: the closure of statement [j] has the number [k + j]
    and finds its environment in the slot of [es]. *)
Definition closures_made (G : string -> option fty) (env : string -> option fval) (k : Z)
    (l : list stmt) (es : list nat) (old : gmap nat rv) (m : machine) (s : cg) : Prop :=
  NoDup es /\ Forall (fun e => old !! e = None) es /\ length es = length l /\
  forall j st e, l !! j = Some st -> es !! j = Some e ->
    exists bc x, block_parent (theIR s) !! bc = Some (LambdaCtx, "lambda" +:+ pretty (k + Z.of_nat j)%Z) /\
      mem m !! e = Some x /\ runs_later (grouped_type G st) env st e x bc s.

Lemma closures_made_kept G env k l es old m s s' :
  block_parent (theIR s) !! b = Some (MainCtx, fname) -> same_code b s s' ->
  closures_made G env k l es old m s -> closures_made G env k l es old m s'.
Proof.
  intros Hg C (Hd & Hn & Hl & H). split_and!; [done.. |]. intros j st e Hst He.
  destruct (H j st e Hst He) as (bc & x & P & Hx & Hr). exists bc, x. split_and!; [by rewrite (sc_parent _ _ _ C) | done |].
  eapply runs_later_kept; [| exact Hr]. apply (sc_blocks _ _ _ C). intros ->.
  rewrite Hg in P. discriminate.
Qed.

(** The group up to the statement that ends it, whatever the reconciliation
    vector holds. *)
Lemma group_filed_at {c value_of} `{!Protocol c value_of} G env cv i l last w0 m s :
  (forall g, Permutation (hash_order g) (map_to_list g)) ->
  (forall k : Z, signature_of ("lambda" +:+ pretty k) = None) ->
  make_context_returns c m w0 -> filing [] w0 -> group_closed fname funt b m0 G env m s ->
  l <> [] -> Forall (settled G) l -> in_int64 (Z.of_nat (length l)) ->
  (forall j, j < length l -> cv !! (i + j) = Some false) ->
  exists es v m1 s1 entries,
    let fs := files jit_address G (lambdaNum s) l es in
    visit_statements cv i (with_visits l) last s = (Ok v, s1) /\
    group_open fname funt b m0 G env c m1 s1 /\
    length fs = length l /\ Forall2 filed_for (assigned <$> l) fs /\ filing fs (around m1) /\
    call_all (scheduling 0 c fs) w0 = Some (around m1) /\
    closures_made G env (lambdaNum s) l es (mem m) m1 s1 /\
    reconVector s1 = reconVector s ++ entries /\ Forall2 (aims G s1) entries (assigned <$> l) /\
    int_variables env (assigned <$> l) /\ currId s1 = Z.of_nat (length l) /\ errors s1 = errors s /\
    (forall x, x <> "cid" -> namedValues s1 !! x = namedValues s !! x).
Proof.
  intros Ho Hsig Hmake Hfile Hg Hne Hl Hsmall Hcv.
  assert (insideLambda s = false) as Hin by by eapply group_outside, gc_standing.
  destruct (begin_group_at jit_address fname funt b m0 G env c w0 m s Hg Hmake)
    as (s0 & m2 & E0 & Hg0 & M0 & A0 & I0 & C0 & N0 & Er0).
  pose proof (sc_number _ _ _ C0) as Hk. simpl in Hk.
  assert (insideLambda s0 = false) as Hin0 by by eapply group_outside, go_standing.
  destruct (group_statements_at jit_address hash_order fname funt b m0 G env l cv i last m2 s0 [])
    as (v & s1 & m1 & es & E1 & HS & Hfile1); [done.. | by rewrite A0 | done | done | done |].
  destruct (settled_aims fname funt b m0 G env c l m2 s0 Hg0 Hl) as [Haims Hints].
  destruct HS. rewrite Hk in Hfile1.
  exists es, v, m1, s1, ((fun st => (None, target_of st s0)) <$> l). cbv zeta.
  split_and!; [| done | by apply files_length | by apply files_filed_for | done | | | | | done | | congruence |].
  - destruct l as [|st0 l]; [done |].
    rewrite (visit_opened cv i st0 l last s s0 E0); [exact E1 | apply Hg0 | done | done |].
    rewrite <- (Nat.add_0_r i). apply Hcv. simpl. lia.
  - rewrite <- A0. by rewrite I0, Hk in gs_calls.
  - split_and!; [done | | done |].
    { eapply Forall_impl; [exact gs_new |]. intros e He. simpl in He. exact (lookup_weaken_None _ _ _ He M0). }
    intros j st' e Hst He. destruct (gs_closures j st' e Hst He) as (P & x & Hx & H).
    exists (next_block (theIR s0) + j), x. by rewrite P, Hk.
  - by rewrite gs_recon, (sc_recon _ _ _ C0).
  - eapply Forall2_impl; [exact Haims |]. unfold aims. intros [p1 p2] o. simpl. by rewrite gs_named.
  - by rewrite gs_id, I0.
  - intros x Hx. rewrite gs_named. by apply N0.
Qed.

(** The whole visit, from what the statements and the end of the group do. *)
Lemma visit_group cv i l st rest last v s s1 s' :
  visit_statements cv i (with_visits l) last s = (Ok v, s1) ->
  insideLambda s1 = false -> executeCommit s1 = false -> cv !! (i + length l) = Some true ->
  end_group s1 = (Ok tt, s') ->
  visit_statements cv i (with_visits (l ++ st :: rest)) last s =
    (last <- accept jit_address hash_order st ;;
     visit_statements cv (S (i + length l)) (with_visits rest) last) s'.
Proof.
  intros E1 Hin Hc Hend E'.
  assert (with_visits (l ++ st :: rest) =
    with_visits l ++ (st, accept jit_address hash_order st) :: with_visits rest) as ->
    by (unfold with_visits, CodeGenBlock.with_visits; by rewrite fmap_app).
  assert (length (with_visits l) = length l) as Hlen by (unfold with_visits, CodeGenBlock.with_visits; by rewrite length_fmap).
  rewrite visit_statements_app, Hlen, Nat.add_comm, (bind_eq _ _ _ _ _ E1).
  by rewrite (visit_committed _ _ _ _ _ _ _ s' Hin Hc Hend E').
Qed.

(** The group from one end to the other. *)
Lemma commit_group_at {c value_of} `{!Protocol c value_of} G env cv i l st rest last w0 m s :
  (forall g, Permutation (hash_order g) (map_to_list g)) ->
  (forall k : Z, signature_of ("lambda" +:+ pretty k) = None) ->
  make_context_returns c m w0 -> filing [] w0 ->
  group_closed fname funt b m0 G env m s -> reconVector s = [] ->
  l <> [] -> Forall (settled G) l -> in_int64 (Z.of_nat (length l)) ->
  (forall j, j < length l -> cv !! (i + j) = Some false) -> cv !! (i + length l) = Some true ->
  exists es m1 w2 s' m' r,
    let fs := files jit_address G (lambdaNum s) l es in
    let env' := answers value_of (assigned <$> l) fs env in
    visit_statements cv i (with_visits (l ++ st :: rest)) last s =
      (last <- accept jit_address hash_order st ;;
       visit_statements cv (S (i + length l)) (with_visits rest) last) s' /\
    call_all (scheduling 0 c fs) w0 = Some (around m1) /\
    closures_made G env (lambdaNum s) l es (mem m) m1 s' /\
    settle (Z.of_nat (length l) - 1) c 0 (assigned <$> l) env (around m1) = Some (env', w2) /\
    collecting (length fs) fs w2 /\
    called "__destroy_context" [RInt 64 c] w2 = Some (r, around m') /\
    group_closed fname funt b m0 G env' m' s' /\ errors s' = errors s /\
    namedValues s' = namedValues s.
Proof.
  intros Ho Hsig Hmake Hfile Hg Hr Hne Hl Hsmall Hcv Hend.
  destruct (group_filed_at G env cv i l last w0 m s Ho Hsig Hmake Hfile Hg Hne Hl Hsmall Hcv)
    as (es & v & m1 & s1 & entries & E1 & Hg1 & Hlen & Hfs & Hfile1 & Hcalls & Hclosures & Hrv & Haims & Hints & Hid & Her & Hnv).
  rewrite Hr in Hrv. simpl in Hrv. subst entries.
  set (fs := files jit_address G (lambdaNum s) l es) in *.
  destruct (settle_answers (Z.of_nat (length l) - 1) (assigned <$> l) fs [] env (around m1)) as (w2 & Hw2 & Hcoll);
    [by apply pr_collect | done | done | simpl; by rewrite Hlen |]. simpl in Hcoll.
  destruct (pr_destroy fs w2 Hcoll) as [[r w3] Hw3].
  destruct (end_group_at jit_address fname funt b m0 G env (answers value_of (assigned <$> l) fs env) c r w2 w3 (assigned <$> l) m1 s1 Hg1 Haims)
    as (s' & m' & E' & Hg' & A' & C' & Er' & N'); [by rewrite Hid | done |].
  exists es, m1, w2, s', m', r. cbv zeta. split_and!; [| done | | done | done | by rewrite A' | done | congruence |].
  - eapply visit_group; [exact E1 | by eapply group_outside, go_standing | apply Hg1 | done | done].
  - eapply closures_made_kept; [| exact C' | exact Hclosures].
    apply (sd_parent _ _ _ _ _ _ _ (go_standing _ _ _ _ _ _ _ _ _ Hg1)).
  - apply map_eq. intros x. rewrite N'. destruct (decide (x = "cid")) as [->|Hx].
    + rewrite lookup_delete_eq. symmetry. apply (gc_cid _ _ _ _ _ _ _ _ Hg).
    + rewrite lookup_delete_ne by done. by apply Hnv.
Qed.

(** C4. The first commit group of a program is compiled right.  The generator
    stands in the first block of a function, no group is open and the
    reconciliation vector is empty (it is never emptied, so this is the first
    group that is compiled); no variable is named [e0] or [cid] and no structure
    [env], no function of the program like a closure; the runtime functions and
    those of the program are declared, each variable is in a slot of its own,
    and the int and float variables of [G] hold the values [env].  The
    statements [l] of the group are int assignments of expressions without
    calls, which are no variable alone, expressions without calls, and calls
    with such arguments, none of them an int for a float; a statement behind
    them that the commit vector commits ends the group; the runtime keeps to
    its [Protocol].

    Then no message is reported, and the code asks for a context, calls the
    schedulers in the order of the statements, numbered from zero, each with
    the address of a closure of its own and the environment made for it,
    stores the runtime's answer for each int variable assigned to, and destroys
    the context.  Each closure's function, run at any later time in any memory
    where its environment still is, does what the statement means with the
    variables as they were in front of the group.  The statement that ends the
    group is visited with no group open, the variables in their places, and
    with the answers for values. *)
Theorem commit_group_correct {c value_of} `{!Protocol c value_of} G env cv i l st rest last w0 m s :
  (forall g, Permutation (hash_order g) (map_to_list g)) ->
  (forall k : Z, signature_of ("lambda" +:+ pretty k) = None) ->
  make_context_returns c m w0 -> filing [] w0 ->
  group_closed fname funt b m0 G env m s -> reconVector s = [] ->
  l <> [] -> Forall (settled G) l -> in_int64 (Z.of_nat (length l)) ->
  (forall j, j < length l -> cv !! (i + j) = Some false) -> cv !! (i + length l) = Some true ->
  exists es m1 w2 s' m' r,
    let fs := files jit_address G (lambdaNum s) l es in
    let env' := answers value_of (assigned <$> l) fs env in
    visit_statements cv i (with_visits (l ++ st :: rest)) last s =
      (last <- accept jit_address hash_order st ;;
       visit_statements cv (S (i + length l)) (with_visits rest) last) s' /\
    call_all (scheduling 0 c fs) w0 = Some (around m1) /\
    closures_made G env (lambdaNum s) l es (mem m) m1 s' /\
    settle (Z.of_nat (length l) - 1) c 0 (assigned <$> l) env (around m1) = Some (env', w2) /\
    collecting (length fs) fs w2 /\
    called "__destroy_context" [RInt 64 c] w2 = Some (r, around m') /\
    group_closed fname funt b m0 G env' m' s' /\ errors s' = errors s /\
    namedValues s' = namedValues s.
Proof. apply commit_group_at. Qed.
End group.

(** * Witness *)

Module Demo.
(** The program prints numbers. *)
#[local] Instance sigs : Signatures := fun f => if decide (f = "print_int") then Some ([FkInt], FkVoid) else None.

Definition address (name : string) : Z := 4096.
Definition prefix : list stmt :=
  [SVariable (VariableDefinition true "int" "x" (Some (Integer 5)) false);
   SVariable (VariableDefinition true "int" "y" (Some (Integer 7)) false)].
(** Inside of [main], behind the definitions. *)
Definition print_int : stmt :=
  ExternStatement "void" "print_int" [VariableDefinition true "int" "n" None false] false.
Definition inside : cg :=
  ((accept address map_to_list print_int ;;
    accept address map_to_list (FunctionDefinition (KeywordType "int") "main" [] (Some prefix) false))
    ProgramProps.injected).2.
Definition code : list (nat * inst) := default [] (blocks (theIR inside) !! 0).

Definition G (x : string) : option fty := if bool_decide (x = "x" \/ x = "y") then Some FkInt else None.
Definition env (x : string) : option fval :=
  if decide (x = "x") then Some (VI 5) else if decide (x = "y") then Some (VI 7) else None.

(** The statements without a semicolon and the one behind them, as in the
    repository's [commit.fk], and the statement [7 * 5;] that ends the group. *)
Definition group : list stmt :=
  [AssignStatement false (Identifier "x") (BinaryOperator (Integer 5) "+" (Identifier "y"));
   ExpressionStatement false (BinaryOperator (Integer 12) "+" (Identifier "y"));
   ExpressionStatement true (FunctionCall "print_int" [BinaryOperator (Integer 4) "+" (Identifier "y")])].
Definition last_statement : stmt := ExpressionStatement true (BinaryOperator (Integer 7) "*" (Integer 5)).
Definition commits : list bool := commit_vector (prefix ++ group ++ [last_statement]).

Definition variable (id : nat) : value := VInst id (TPointer (TInt MainCtx 64)).

Lemma inside_named : namedValues inside = <["x" := Some (variable 0)]> {["y" := Some (variable 2)]}.
Proof. vm_compute. reflexivity. Qed.

Lemma inside_entries x o : namedValues inside !! x = Some o ->
  (x = "x" /\ o = Some (variable 0)) \/ (x = "y" /\ o = Some (variable 2)).
Proof. rewrite inside_named. intros [[<- <-]|[_ [<- <-]%lookup_singleton_Some]]%lookup_insert_Some; auto. Qed.

(** In any world. *)
Section in_world.
Context {out : Outside} {world : World (sigs := sigs)} (w : outside).

Definition start : machine := mk_machine ∅ ∅ w.
Definition there : machine := default start (run (running := world_running) start code).

Lemma inside_entry x o : namedValues inside !! x = Some o ->
  exists q, entry_is (world := call_free world) there (x, o) q.
Proof.
  intros [[-> ->]|[-> ->]]%inside_entries.
  - exists ("x", (TInt MainCtx 64, RInt 64 5)). split_and!; [done | done |]. exists (variable 0), 0.
    split_and!; [done | by split | by vm_compute].
  - exists ("y", (TInt MainCtx 64, RInt 64 7)). split_and!; [done | done |]. exists (variable 2), 2.
    split_and!; [done | by split | by vm_compute].
Qed.

Lemma inside_apart : apart there inside.
Proof.
  intros x y a a' slot [[-> [= ->]]|[-> [= ->]]]%inside_entries [[-> [= ->]]|[-> [= ->]]]%inside_entries;
    vm_compute; congruence.
Qed.

Lemma inside_standing :
  standing (world := call_free world) MainCtx "main" (mk_fun_ty (TInt MainCtx 64) []) 0 start there inside.
Proof.
  split.
  - by vm_compute.
  - by vm_compute.
  - by vm_compute.
  - eexists. split; [by vm_compute |]. by vm_compute.
  - exists code. split_and!; [by vm_compute | by vm_compute |]. 
    apply (bool_decide_unpack _). by vm_compute.
  - intros id r Hid. by apply (lookup_empty_Some (M := gmap nat) id r) in Hid.
  - change (map_Forall (fun id (_ : rv) => id < next_inst (theIR inside)) (regs there)).
    apply (bool_decide_unpack _). by vm_compute.
  - change (map_Forall (fun id (_ : rv) => id < next_inst (theIR inside)) (mem there)).
    apply (bool_decide_unpack _). by vm_compute.
Qed.

Lemma inside_runtime : runtime_declared (main_module (theIR inside)).
Proof.
  split.
  - eexists. split; [by vm_compute |]. by vm_compute.
  - intros [] H; try done; eexists; (split; [by vm_compute |]; by vm_compute).
  - eexists. split; [by vm_compute |]. by vm_compute.
  - eexists. split; [by vm_compute |]. by vm_compute.
  - eexists. split; [by vm_compute |]. by vm_compute.
Qed.

Lemma inside_closed : group_closed "main" (mk_fun_ty (TInt MainCtx 64) []) 0 start G env there inside.
Proof.
  split.
  - apply inside_standing.
  - by vm_compute.
  - by vm_compute.
  - by vm_compute.
  - by vm_compute.
  - by vm_compute.
  - apply inside_entry.
  - apply inside_apart.
  - intros y t Hy. unfold G in Hy. case_bool_decide as Hxy; simplify_eq. destruct Hxy as [-> | ->].
    + exists (variable 0), tt, 0, (RInt 64 5), (VI 5). split_and!; by vm_compute.
    + exists (variable 2), tt, 2, (RInt 64 7), (VI 7). split_and!; by vm_compute.
  - intros f sg Hf. unfold signature_of, sigs in Hf. case_decide; [| done]. subst f. injection Hf as <-.
    eexists. split; [by vm_compute |]. by vm_compute.
  - apply inside_runtime.
  - change (map_Forall (fun b' (_ : list (nat * inst)) => b' < next_block (theIR inside)) (blocks (theIR inside))).
    apply (bool_decide_unpack _). by vm_compute.
Qed.

End in_world.

#[local] Instance printed : Outside := list Z.
(** A runtime that answers 12, the value of [5 + y]. *)
Definition demo_called (f : string) (rs : list rv) (w : outside) : option (rv * outside) :=
  if decide (f = "print_int") then match rs with [RInt _ n] => Some (RVoid, w ++ [n]) | _ => None end
  else if decide (f = "__make_context") then Some (RInt 64 7, w)
  else if decide (f = "__recon_int") then Some (RInt 64 12, w)
  else Some (RVoid, w).
Definition demo_fk_called (f : string) (zs : list fval) (w : outside) : option (fval * outside) :=
  match zs with [VI n] => Some (VU, w ++ [n]) | _ => None end.

#[local] Instance running : Running := {| arguments := []; called := demo_called; undefined_division := None |}.
#[local] Instance meaning : Meaning := {| fk_called := demo_fk_called; fk_undefined := None |}.

#[local] Instance demo_world : World.
Proof.
  refine {| world_running := running; world_meaning := meaning |}; [done | done |].
  intros f sg zs rs z w w' Hf Hz H. unfold signature_of, sigs in Hf. case_decide; [| done].
  injection Hf as <-. subst f. destruct zs as [|[n| |] [|? ?]]; simplify_eq/=.
  inversion Hz; subst. match goal with H : Forall3 _ [] [] _ |- _ => inversion H; subst end.
  match goal with H : encodes _ _ _ |- _ => destruct H as [-> _] end. by eexists.
Defined.

#[local, refine] Instance demo_protocol : Protocol (world := demo_world) 7 (fun _ => 12%Z) :=
  {| filing _ _ := True; collecting _ _ _ := True |}.
Proof.
  - intros l [[] a e] w _ _ []; simplify_eq; by eexists _, w.
  - done.
  - intros i l x n max w _ _ _. exists w. by split.
  - intros i l x max w _ _ _. by eexists _, w.
  - intros l w _. by eexists.
Defined.
End Demo.

Lemma commit_group_correct_witness :
  exists (es : list nat) s' m', length es = 3 /\ errors s' = [] /\
    group_closed (world := Demo.demo_world) "main" (mk_fun_ty (TInt MainCtx 64) []) 0 (Demo.start (out := Demo.printed) [])
      Demo.G (<["x" := Some (VI 12)]> Demo.env) m' s' /\ around m' = [] /\
    visit_statements Demo.address map_to_list (visitClosureBlock Demo.address map_to_list)
      Demo.commits 2 (with_visits Demo.address map_to_list (Demo.group ++ [Demo.last_statement]))
      None Demo.inside = (last <- accept Demo.address map_to_list Demo.last_statement ;; mret last) s'.
Proof.
  destruct (commit_group_correct (world := Demo.demo_world) Demo.address map_to_list "main"
    (mk_fun_ty (TInt MainCtx 64) []) 0 (Demo.start (out := Demo.printed) []) (Protocol0 := Demo.demo_protocol) Demo.G Demo.env Demo.commits 2
    Demo.group Demo.last_statement [] None [] (Demo.there (world := Demo.demo_world) []) Demo.inside)
    as (es & m1 & w2 & s' & m' & r & E & Hcalls & Hclosures & Hsettle & _ & Hdestroy & Hclosed & Herr & _).
  - done.
  - done.
  - by vm_compute.
  - exact I.
  - apply Demo.inside_closed.
  - by vm_compute.
  - done.
  - repeat constructor.
  - by vm_compute.
  - intros [|[|[|j]]] Hj; simpl in Hj; [done | done | done | lia].
  - done.
  - destruct Hclosures as (_ & _ & Hlen & _). destruct es as [|e1 [|e2 [|e3 [|e4 es]]]];
      [discriminate Hlen | discriminate Hlen | discriminate Hlen | | discriminate Hlen].
    change (Some ([] : list Z) = Some (around m1)) in Hcalls. injection Hcalls as Hm1.
    change (Some (<["x" := Some (VI 12)]> Demo.env, around m1) = Some (<["x" := Some (VI 12)]> Demo.env, w2)) in Hsettle.
    injection Hsettle as <-. vm_compute in Hdestroy.
    injection Hdestroy as _ Hm'. exists [e1; e2; e3], s', m'. split_and!; [reflexivity | rewrite Herr; vm_compute; reflexivity | exact Hclosed | exact (eq_sym (eq_trans Hm1 Hm')) | exact E].
Defined.

(** * What the theorem leaves out

    The assignment of a variable as it stands, an int for a float parameter and
    some names of variables, as the generator treats them in a group. *)
Module Limits.
Definition print_float : stmt :=
  ExternStatement "void" "print_float" [VariableDefinition true "float" "n" None false] false.

(** [main] with [body], behind its externs: where the generator stops, and what
    it reports. *)
Definition compiled (body : list stmt) : option crash * list string :=
  let r := (accept Demo.address map_to_list Demo.print_int ;; accept Demo.address map_to_list print_float ;;
    accept Demo.address map_to_list (FunctionDefinition (KeywordType "void") "main" [] (Some body) false))
    ProgramProps.injected in
  (match r.1 with Ok _ => None | Err e => Some e end, errors r.2).

Definition int_variable (x : string) : stmt := SVariable (VariableDefinition true "int" x (Some (Integer 5)) false).
Definition plus (x : string) (n : Z) : expr := BinaryOperator (Identifier x) "+" (Integer n).
Definition in_group (st : stmt) : list stmt :=
  [AssignStatement false (Identifier "y") (plus "y" 1); st; ReturnStatement None].

Lemma sum_in_group : compiled (Demo.prefix ++ in_group (AssignStatement true (Identifier "x") (plus "y" 0))) = (None, []).
Proof. vm_compute. reflexivity. Qed.

(** [x = y;] has a value of the other context's type, and the closure cannot
    return it. *)
Lemma copy_in_group_rejected :
  compiled (Demo.prefix ++ in_group (AssignStatement true (Identifier "x") (Identifier "y"))) =
    (None, ["Unable to return bad type from function"]).
Proof. vm_compute. reflexivity. Qed.

(** The cast of an int argument gives a double of the closure's context, the
    function declared there takes one of the program's. *)
Lemma int_for_float_in_group_crashes :
  compiled (Demo.prefix ++ in_group (ExpressionStatement true (FunctionCall "print_float" [Identifier "y"]))) =
    (Some (Assertion "Calling a function with a bad signature!"), []).
Proof. vm_compute. reflexivity. Qed.

(** A variable named [e0] is in the way of the environment, and gone behind the
    first statement; one named [cid] in the way of the context. *)
Lemma variable_e0_lost :
  compiled (Demo.prefix ++ int_variable "e0" ::
      [AssignStatement false (Identifier "y") (plus "y" 1); AssignStatement true (Identifier "x") (plus "y" 0);
       ExpressionStatement true (FunctionCall "print_int" [Identifier "e0"]); ReturnStatement None]) =
    (None, ["Attempt to generate code for not previously defined variable";
            "Attempt to input NULL to function argument of incorrect type"]).
Proof. vm_compute. reflexivity. Qed.

Lemma variable_cid_crashes :
  compiled (Demo.prefix ++ int_variable "cid" :: in_group (AssignStatement true (Identifier "x") (plus "y" 0))) =
    (Some NullPointer, ["Attempt to redefine variable"]).
Proof. vm_compute. reflexivity. Qed.
End Limits.
