(* ===== verification/GrammarProps.v ===== *)
(** What the parser makes of a text: it ends, what it accepts is a program of
    the grammar, and the texts of [Syntax] are read as the programs they stand
    for.  With the lexer in front and the code generator behind, this is what
    [main] does with the text of a file. *)

From S2P Require Import Prelude Lexer LexerFacts LexerProps Runtime Lib Library Ast AstPrint IR State Builder CodeGenBase CodeGenExpr.
From S2P Require Import CodeGenStmt CodeGenBlock Injections CodeGenLogic CodeGenBlockWf Machine ExprLogic Source.
From S2P Require Import Functions FunctionProps Program ProgramProps.
From S2P Require Import Bison BisonFacts Grammar GrammarFacts Syntax Parts SyntaxFacts.

Local Abbreviation derives := (Bison.derives rules class value).
Local Abbreviation program_tree := (derives (NonTerm program_)).

(** * The machine *)

Lemma parse_ends ts : parse ts <> OutOfFuel.
Proof.
  apply (parse_from_ends rules tables class End_of_file value tables_checked rank opens 6 tables_end) with [] [].
  - intros []; simpl; lia.
  - constructor.
  - unfold steps_left, stack_weight. simpl. lia.
Qed.

Lemma first_fits r (vs : list sval) v : rules !! 0 = Some r -> action r vs = Some v -> fits (NonTerm (lhs r)) v.
Proof. by intros [= <-] _. Qed.

Section good.
Context (ts : list token) (Hg : Forall good ts).

Lemma parse_runs : parse ts <> Stuck.
Proof using Hg.
  apply (parse_from_not_stuck rules tables class End_of_file value tables_checked fits good good_fits rules_fit)
    with [] []; [exact first_fits | constructor | exact Hg].
Qed.
End good.

Lemma tree_known ts v : Forall good ts -> program_tree ts v -> exists l, v = Vblock (Some l) /\ forallb known l = true.
Proof.
  intros Hg H. apply (derives_fits rules class value fits good good_fits rules_fit) in H; [exact H | exact first_fits | exact Hg].
Qed.

Lemma parsed_tree ts v : parse ts = Parsed v -> program_tree ts v.
Proof.
  intros H. destruct (parse_from_derives rules tables class End_of_file value tables_checked
    _ [] [] [] ts v ltac:(constructor) H) as (r & n & [= <-] & [= <-] & H'). exact H'.
Qed.

(** What is on the stack where there is an error. *)
Lemma program_first i x : next_state tables 0 x = Some i -> i = program_state -> x = NonTerm program_.
Proof.
  intros H ->. unfold next_state in H. apply bind_Some in H as (row & Hrow & H).
  assert (forallb (fun p => implb (bool_decide (p.2 = program_state)) (bool_decide (p.1 = NonTerm program_)))
    (match tables !! 0 with Some row => nexts row | None => [] end) = true) as Hall by (vm_compute; reflexivity).
  rewrite Hrow, forallb_forall in Hall.
  apply assoc_of_elem, list_elem_of_In, Hall in H. cbn [fst snd] in H.
  rewrite (bool_decide_eq_true_2 (program_state = program_state)) in H by reflexivity.
  by apply bool_decide_eq_true in H.
Qed.

Lemma error_tree ts left s l : parse ts = SyntaxError left s -> grammar ts = Some l ->
  exists read, ts = read ++ left /\ program_tree read (Vblock (Some l)).
Proof.
  intros H Hg. unfold grammar in Hg. rewrite H in Hg.
  destruct (parse_from_error rules tables class End_of_file value tables_checked
    _ [] [] [] ts left s ltac:(constructor) H) as (xs & tss & Hp & E).
  destruct s as [|[i []] []]; try done. destruct (decide (i = program_state)) as [Hi|]; [| done]. subst b.
  inversion Hp as [|? ? x ? xs' ts' tss' Hp' Hx Hd]; subst. inversion Hp'; subst. simpl in Hx.
  rewrite (program_first _ _ Hx eq_refl) in Hd. exists ts'. split; [| done].
  change (text []) with (@nil token) in E. rewrite app_nil_l in E. rewrite <- E, text_cons. done.
Qed.

(** * The texts of the syntax *)

Lemma program_reads ts l : statements_text ts l -> reads Program_ ts (Vblock (Some l)).
Proof. intros H%(proj1 (proj2 (proj2 statements_read))). read_by [Part Statements]. Qed.

(** A rule that is reduced for its text is reduced whatever follows. *)
Lemma program_goes ts l t : statements_text ts l -> stands Program_ 0 t = true ->
  goes rules tables class value 0 (NonTerm program_) ts (Vblock (Some l)) t program_state.
Proof. intros H Ht. exact (proj2 (program_reads ts l H) 0 t Ht). Qed.

Lemma text_parses ts l : statements_text ts l -> parse ts = Parsed (Vblock (Some l)).
Proof.
  intros H. pose proof (program_goes _ _ End_of_file H ltac:(vm_compute; reflexivity)) as Hgo.
  eapply (goes_parses rules tables class End_of_file value) in Hgo;
    [exact Hgo | vm_compute; reflexivity | apply parse_ends].
Qed.

(** ** Their tokens are tokens of the lexer *)

Lemma sign_valid k : varies k = false -> valid (sign k) = true.
Proof. by destruct k. Qed.

Lemma name_valid x : named x -> valid (name x) = true.
Proof. done. Qed.

Ltac validate :=
  repeat match goal with H : named _ |- _ => apply name_valid in H end;
  repeat (rewrite forallb_app || cbn [forallb app semicolon star line]);
  repeat match goal with
  | H : ?k ∈ _ |- context [valid (sign ?k)] => rewrite (sign_valid k) by (by each_kind H)
  | |- context [valid (sign ?k)] => rewrite (sign_valid k) by done
  | H : valid _ = true |- _ => rewrite H; clear H
  | H : forallb valid _ = true |- _ => rewrite H; clear H
  end; try done.

Lemma expressions_valid :
  (forall ts e, place ts e -> forallb valid ts = true) /\
  (forall ts e, operand ts e -> forallb valid ts = true) /\
  (forall ts l, call_arguments ts l -> forallb valid ts = true) /\
  (forall ts e, expression ts e -> forallb valid ts = true) /\
  (forall l ts e, continues l ts e -> forallb valid ts = true).
Proof. apply expressions_ind; intros; validate; by rewrite andb_true_r. Qed.

Lemma place_valid ts e : place ts e -> forallb valid ts = true.
Proof. apply expressions_valid. Qed.

Lemma expression_valid ts e : expression ts e -> forallb valid ts = true.
Proof. apply expressions_valid. Qed.

Lemma variable_valid ts v : variable ts v -> forallb valid ts = true.
Proof.
  destruct 1; try match goal with H : expression _ _ |- _ => apply expression_valid in H end; validate.
Qed.

Lemma parameters_valid ts l : parameters ts l -> forallb valid ts = true.
Proof.
  induction 1; try match goal with H : variable _ _ |- _ => apply variable_valid in H end; validate.
Qed.

Lemma type_valid ts t : type_text ts t -> forallb valid ts = true.
Proof. destruct 1; validate. Qed.

Lemma statements_valid :
  (forall ts s, statement_text ts s -> forallb valid ts = true) /\
  (forall b ts s, last_text b ts s -> forallb valid ts = true) /\
  (forall ts l, statements_text ts l -> forallb valid ts = true) /\
  (forall b ts l, body_text b ts l -> forallb valid ts = true) /\
  (forall ts b, block_text ts b -> forallb valid ts = true).
Proof.
  apply statements_ind; intros;
    repeat match goal with
    | H : expression _ _ |- _ => apply expression_valid in H
    | H : place _ _ |- _ => apply place_valid in H
    | H : variable _ _ |- _ => apply variable_valid in H
    | H : parameters _ _ |- _ => apply parameters_valid in H
    | H : type_text _ _ |- _ => apply type_valid in H
    end;
    repeat match goal with
    | |- context [line ?b] => is_var b; destruct b
    | |- context [semicolon ?c] => is_var c; destruct c
    | |- context [star ?p] => is_var p; destruct p
    end; validate.
Qed.

Lemma text_valid ts l : statements_text ts l -> forallb valid ts = true.
Proof. apply statements_valid. Qed.

(** * Theorems *)

(** C8. For every text the lexer and the parser end, the stack machine neither
    stuck nor out of fuel.  A program that is accepted is derived by the rules
    of the grammar from the whole of its tokens; at a syntax error, [ast_root]
    is null or the tree of what stands before the error.  In either tree the
    generator knows every operator. *)
Theorem front_end_total text : exists ts s, lex text = (Ok ts, s) /\
  ((exists l, parse ts = Parsed (Vblock (Some l)) /\ grammar ts = Some l /\
      program_tree ts (Vblock (Some l)) /\ forallb known l = true) \/
   (exists left stack, parse ts = SyntaxError left stack /\ forall l, grammar ts = Some l ->
      exists read, ts = read ++ left /\ program_tree read (Vblock (Some l)) /\ forallb known l = true)).
Proof.
  destruct (tokens_run (S (length text)) (open_text text)) as (ts & s & out & E & _); [cbn [input open_text]; lia |].
  exists ts, s. split; [exact E |]. pose proof (lex_good _ _ _ E) as Hg.
  destruct (parse ts) as [v|ts' stack| |] eqn:Hp;
    [left | right | by destruct (parse_runs ts Hg) | by destruct (parse_ends ts)].
  - pose proof (parsed_tree _ _ Hp) as Ht. destruct (tree_known _ _ Hg Ht) as (l & -> & Hk).
    exists l. split_and!; [done | | done..]. unfold grammar. by rewrite Hp.
  - exists ts', stack. split; [done |]. intros l Hl.
    destruct (error_tree _ _ _ _ Hp Hl) as (read & -> & Ht). exists read. split_and!; [done.. |].
    apply Forall_app in Hg as [Hg _]. by destruct (tree_known _ _ Hg Ht) as (l' & [= <-] & Hk).
Qed.

(** C7. Every text of the syntax, with whatever mixture of declarations,
    assignments, expressions, calls, branches, functions, structures and nested
    blocks, is accepted by the tables that bison makes, and read as the program
    it stands for; it stands for one program only. *)
Theorem program_parses ts l : statements_text ts l ->
  parse ts = Parsed (Vblock (Some l)) /\ forall l', statements_text ts l' -> l' = l.
Proof.
  intros H. pose proof (text_parses _ _ H) as E. split; [exact E |].
  intros l' H'%text_parses. rewrite E in H'. by injection H'.
Qed.

(** C16. The precedences that the grammar declares do not reach its rule of binary
    expressions: all that stands behind an operator other than [==] is its
    right operand, so that [2 * 3 + 4] is [2 * (3 + 4)]. *)
Theorem precedence_ignored k ta a tr r : k ∈ binary -> k <> TEQUAL -> operand ta a -> expression tr r ->
  parse (sign TRETURN :: (ta ++ sign k :: tr) ++ [sign TENDL]) =
  Parsed (Vblock (Some [ReturnStatement (Some (BinaryOperator a (spelling k) r))])).
Proof.
  intros Hk Hne Ha Hr. apply text_parses, statements_one, statement_return_value.
  destruct Hr as [tb b rest e Hb Hrest]. apply expression_operand with a; [exact Ha |]. by apply continues_right with b.
Qed.

(** C14. Tokens of a program, written out with spaces between them, are read back
    as the program: the lexer gives the tokens, and the parser the tree. *)
Theorem source_roundtrip ts l : statements_text ts l -> without_blank_lines true ts = ts ->
  exists s, lex (written ts) = (Ok ts, s) /\ input s = [] /\
    yyparse (String.string_of_list_ascii (written ts)) = Some l.
Proof.
  intros H Hb.
  destruct (lex_written [] [] EmptyString scan_end I ts (text_valid _ _ H)) as (s & E & Hi & _).
  rewrite app_nil_r, Hb in E. exists s. split_and!; [done | done |].
  unfold yyparse. rewrite String.list_ascii_of_string_of_list_ascii, E. simpl. unfold grammar.
  by rewrite (text_parses _ _ H).
Qed.

Section driver.
Context (jit_address : string -> Z).
Context (hash_order : gmap string (option IR.value) -> list (string * option IR.value)).
Context (fopen : string -> option string).
Local Abbreviation main := (Injections.main jit_address hash_order fopen).

(** C15. A token that cannot begin a statement, behind a complete program, is a
    syntax error, but the default reduction of the parser has set [ast_root]
    before the error is seen: the driver compiles and runs what stands in front
    of the error, whatever stands behind it. *)
Theorem error_keeps_program prog file text ts l t rest s :
  fopen file = Some text -> lex (String.list_ascii_of_string text) = (Ok (ts ++ t :: rest), s) ->
  statements_text ts l -> token_of (class t) statement_heads = false ->
  parse (ts ++ t :: rest) = SyntaxError (t :: rest) [(program_state, Vblock (Some l))] /\
  main [prog; file] = run_visitor jit_address hash_order l.
Proof.
  intros Hf Hlex H Ht.
  assert (stands Program_ 0 (class t) = true) as Hst.
  { unfold stands. rewrite Ht. destruct t as [[]|[] x]; vm_compute; reflexivity. }
  assert (parse (ts ++ t :: rest) = SyntaxError (t :: rest) [(program_state, Vblock (Some l))]) as E.
  { eapply (goes_fails rules tables class End_of_file value); [exact (program_goes _ _ _ H Hst) | | apply parse_ends].
    destruct t as [[]|[] x]; vm_compute; reflexivity. }
  split; [exact E |]. simpl. rewrite Hf. unfold yyparse. rewrite Hlex. simpl. unfold grammar. rewrite E.
  by rewrite decide_True.
Qed.

(** C2. From the text of a file to its run: when the lexer and the parser read
    the file as a program of the class of [program_fine] that defines [main],
    the driver compiles it behind the injected declarations without a message,
    dumps the module and runs it, and a call of one of its functions returns
    what the tree that was read means, and does to what is outside of the
    program what it means. *)
Theorem source_program_runs prog file text P :
  fopen file = Some text -> yyparse text = Some P -> program_fine P = true -> existsb (defines "main") P = true ->
  main [prog; file] = Compiled DumpedIR Executed /\
  exists v s, compile jit_address hash_order P = (Ok v, s) /\ errors s = [] /\
    forall (out : Outside) L n f sg zs rs z w w', links L P ->
      signatures P f = Some sg -> Forall3 encodes sg.1 zs rs -> fk_call L P n f zs w = Some (z, w') ->
      exists r, call_function L s n f rs w = Some (r, w') /\ encodes sg.2 z r.
Proof.
  intros Hf Hparse HP Hm. destruct (program_code jit_address hash_order P HP) as (v & s & E & He & Hcalls & Hmain).
  split; [simpl; rewrite Hf, Hparse; by apply Hmain |]. exists v, s. by split_and!.
Qed.
End driver.

(** ** What the rules amount to, on texts *)

Definition tokens_of (s : string) : list token :=
  match (lex (String.list_ascii_of_string s)).1 with Ok ts => ts | Err _ => [] end.

(** A return with a semicolon takes no end of line with it, so nothing may stand
    behind it but the brace of its block. *)
Example return_ends_its_block : syntax_error (tokens_of "int f() {
  return 1;
  g()
}
") = true /\ syntax_error (tokens_of "int f() {
  return 1
  g()
}
") = false.
Proof. vm_compute. by split. Qed.

(** At the beginning of a statement a name and a star begin a declaration. *)
Example product_declares : syntax_error (tokens_of "x * y + 1
") = true /\ grammar (tokens_of "x * y
") = Some [SVariable (StructureDeclaration "x" "y" true)].
Proof. vm_compute. by split. Qed.

(** The arguments of a call may begin with a comma. *)
Example comma_first : grammar (tokens_of "f(,x)
") = Some [ExpressionStatement false (FunctionCall "f" [Identifier "x"])].
Proof. vm_compute. reflexivity. Qed.

(** [==] associates to the left with the operators of its level behind it, and
    takes the others and [!] into its right operand. *)
Example equal_associates :
  grammar (tokens_of "return a == b < c
") = Some [ReturnStatement (Some (BinaryOperator (BinaryOperator (Identifier "a") "==" (Identifier "b")) "<" (Identifier "c")))] /\
  grammar (tokens_of "return a < b == c
") = Some [ReturnStatement (Some (BinaryOperator (Identifier "a") "<" (BinaryOperator (Identifier "b") "==" (Identifier "c"))))] /\
  grammar (tokens_of "return a == !b < c
") = Some [ReturnStatement (Some (BinaryOperator (Identifier "a") "==" (BinaryOperator (UnaryOperator "!" (Identifier "b")) "<" (Identifier "c"))))].
Proof. vm_compute. by split_and!. Qed.

(** * Witnesses *)

(** [2 * 3 + 4] and, behind [return], a comparison. *)
Definition number (s : string) : token := Text TINTLIT s.

Lemma demo_operand s : is_number (String.list_ascii_of_string s) = true -> operand [number s] (Integer (atol s)).
Proof. apply operand_integer. Qed.

Lemma precedence_ignored_witness :
  parse [sign TRETURN; number "2"; sign TSTAR; number "3"; sign TPLUS; number "4"; sign TENDL] =
  Parsed (Vblock (Some [ReturnStatement (Some (BinaryOperator (Integer 2) "*"
    (BinaryOperator (Integer 3) "+" (Integer 4))))])).
Proof.
  apply (precedence_ignored TSTAR [number "2"] (Integer 2) [number "3"; sign TPLUS; number "4"]
    (BinaryOperator (Integer 3) "+" (Integer 4))); [set_solver | done | by apply demo_operand |].
  apply (expression_operand [number "3"] (Integer 3)); [by apply demo_operand |].
  apply (continues_right _ TPLUS [number "4"] (Integer 4) []); [set_solver | done | by apply demo_operand | constructor].
Defined.

(** [int main() {], [return 2 * 3 + 4] and [}], each on a line of its own. *)
Definition demo_expression : list token := [number "2"; sign TSTAR; number "3"; sign TPLUS; number "4"].

Definition demo_source : list token :=
  [sign TINT; name "main"; sign TLPAREN; sign TRPAREN; sign TLBRACE; sign TENDL; sign TRETURN] ++
  demo_expression ++ [sign TENDL; sign TRBRACE; sign TENDL].

Definition demo_tree : list stmt :=
  [FunctionDefinition (KeywordType "int") "main" []
    (Some [ReturnStatement (Some (BinaryOperator (Integer 2) "*" (BinaryOperator (Integer 3) "+" (Integer 4))))])
    false].

Lemma demo_text : statements_text demo_source demo_tree.
Proof.
  assert (expression demo_expression (BinaryOperator (Integer 2) "*" (BinaryOperator (Integer 3) "+" (Integer 4)))) as He.
  { apply (expression_operand [number "2"] (Integer 2)); [by apply demo_operand |].
    apply (continues_right _ TSTAR [number "3"] (Integer 3)); [set_solver | done | by apply demo_operand |].
    apply (continues_right _ TPLUS [number "4"] (Integer 4) []); [set_solver | done | by apply demo_operand | constructor]. }
  apply statements_one.
  apply (statement_function [sign TINT] (KeywordType "int") false "main" [] []
    (sign TLBRACE :: line true ++ (sign TRETURN :: demo_expression ++ [sign TENDL]) ++ line false ++ [sign TRBRACE]));
    [apply (type_keyword TINT); set_solver | done | constructor |].
  eapply block_body; [apply body_statements, statements_one, statement_return_value; exact He | done].
Qed.

Lemma program_parses_witness : parse demo_source = Parsed (Vblock (Some demo_tree)).
Proof. apply (program_parses demo_source demo_tree demo_text). Defined.

Lemma source_roundtrip_witness :
  yyparse (String.string_of_list_ascii (written demo_source)) = Some demo_tree.
Proof.
  destruct (source_roundtrip demo_source demo_tree demo_text ltac:(reflexivity)) as (s & _ & _ & E). exact E.
Defined.

(** A program with a brace too many behind it. *)
Definition demo_error : string := "int main() {
  return 2 * 3 + 4
}
} all of this is left out
".

Lemma error_keeps_program_witness :
  Injections.main (fun _ => 0%Z) (fun _ => []) (fun _ => Some demo_error) ["fork"; "file"] = Compiled DumpedIR Executed.
Proof.
  transitivity (run_visitor (fun _ => 0%Z) (fun _ => []) demo_tree); [| vm_compute; reflexivity].
  eapply (error_keeps_program (fun _ => 0%Z) (fun _ => []) (fun _ => Some demo_error) "fork" "file"
    demo_error demo_source demo_tree (Plain TRBRACE));
    [reflexivity | vm_compute; reflexivity | exact demo_text | vm_compute; reflexivity].
Defined.

(** A program with calls, whose [2 * 3 + 4] is 14, and which prints twice that. *)
Definition demo_file : string := "extern void print_int(int n);
int twice(int n) {
  return n + n
}
int main() {
  int x = 2 * 3 + 4;
  if (x == 14) {
    print_int(twice(x));
  }
  return x
}
".

Definition demo_parsed : list stmt := Eval vm_compute in default [] (yyparse demo_file).

Lemma source_program_runs_witness :
  Injections.main (fun _ => 0%Z) (fun _ => []) (fun _ => Some demo_file) ["fork"; "file"] =
    Compiled DumpedIR Executed /\
  exists s, call_function (out := lib_outside) (runtime (fun _ => EmptyString)) s 2 "main" [] demo_library =
    Some (RInt 64 14, print ("Outputing Integer: 28" +:+ newline) demo_library).
Proof.
  destruct (source_program_runs (fun _ => 0%Z) (fun _ => []) (fun _ => Some demo_file) "fork" "file" demo_file demo_parsed)
    as (E & v & s & _ & _ & Hcall); [reflexivity | vm_compute; reflexivity.. |].
  split; [exact E |]. exists s.
  destruct (Hcall lib_outside (runtime (fun _ => EmptyString)) 2 "main" ([], FkInt) [] [] (VI 14) demo_library
    (print ("Outputing Integer: 28" +:+ newline) demo_library)) as (r & Hr & -> & _);
    [apply runtime_links; vm_compute; reflexivity | vm_compute; reflexivity | constructor
      | vm_compute; reflexivity | exact Hr].
Defined.
