(* ===== verification/CodeGenProps.v ===== *)
(** The properties of the whole code generator: the invariant of its state,
    what it never takes back, how it reports errors, and what the driver does
    with the result. *)

From S2P Require Import Prelude Ast IR State Builder CodeGenBase CodeGenExpr CodeGenStmt.
From S2P Require Import CodeGenBlock Injections CodeGenLogic BuilderFacts CodeGenWf CodeGenStmtWf.
From S2P Require Import CodeGenBlockWf CodeGenLoud.

(** An iteration order and a JIT address, for concrete runs. *)
Definition some_order (m : gmap string (option value)) : list (string * option value) := map_to_list m.
Definition some_address (name : string) : Z := 4096%Z.

Section properties.
Context (jit_address : string -> Z).
Context (hash_order : gmap string (option value) -> list (string * option value)).

Lemma compile_wp l :
  wf (compile jit_address hash_order l).2 /\
  later new_CodeGenVisitor (compile jit_address hash_order l).2 /\
  forall v, (compile jit_address hash_order l).1 = Ok v ->
    mode (compile jit_address hash_order l).2 = mode new_CodeGenVisitor.
Proof.
  destruct (calm_visit_program jit_address hash_order (program l) new_CodeGenVisitor eq_refl wf_new)
    as (H1 & H2 & H3).
  unfold compile. split_and!; [exact H1 | exact H2 |]. intros v Hv.
  destruct (H3 v Hv) as [E _]. exact E.
Qed.

(** C9. Invariant of the generator: whatever the program, and wherever the
    visitor stops, blocks and instructions are numbered below the counters,
    each instruction stands in one place, the blocks of every function and
    the insertion points are blocks that were made, every variable is a pointer, every struct type
    of the program has a body that fits its field names, and the error flag
    is set exactly when a message was printed. *)
Theorem compile_well_formed l :
  let s := (compile jit_address hash_order l).2 in wf s /\ blocks_exist (theIR s).
Proof. pose proof (proj1 (compile_wp l)) as W. split; [done |]. by apply wf_blocks_exist, wf_ir. Qed.

(** C18. Nothing is unmade: visiting any statement keeps the messages, the
    reconciliation entries, the instructions of every block in their order,
    the signatures and blocks of the main module's functions and the bodies
    of struct types, also when the visitor stops halfway; and a visit that
    returns leaves the builder selection and the reconciliation mode as it
    found them. *)
Theorem accept_monotone st s :
  wf s -> recon s = false ->
  wf (accept jit_address hash_order st s).2 /\
  later s (accept jit_address hash_order st s).2 /\
  (forall v, (accept jit_address hash_order st s).1 = Ok v ->
    insideLambda (accept jit_address hash_order st s).2 = insideLambda s /\
    recon (accept jit_address hash_order st s).2 = recon s).
Proof.
  intros Hs Hr. destruct (calm_accept jit_address hash_order st s Hr Hs) as (H1 & H2 & H3).
  split_and!; [done.. |]. intros v Hv. destruct (H3 v Hv) as [Hm _].
  unfold mode in Hm. by injection Hm.
Qed.

(** The statements whose null result need not be an error: the value of a
    function definition is that of its block, and NULL is null. *)
Definition may_be_null (st : stmt) : bool :=
  match st with
  | FunctionDefinition _ _ _ _ _ => true
  | ExpressionStatement _ NullLiteral => true
  | _ => false
  end.

Lemma loud_accept st s :
  may_be_null st = false -> recon s = false -> loud_at (accept jit_address hash_order st) s.
Proof.
  intros Hst Hr. destruct st as [v|n b|ty n args b p|c e|e|c t v|e b eb|t n args p]; simpl in *; try done.
  - destruct v; [apply loud_visitVariableDefinition | apply loud_visitStructureDeclaration].
  - apply loud_visitStructureDefinition.
  - apply loud_visit. by destruct e.
  - apply loud_visitReturnStatement.
  - by apply loud_visitAssignStatement.
  - apply loud_visitIfStatement; [| | done]; intros m Hm; apply fmap_Some in Hm as (b' & _ & ->);
      apply calm_visitBlock; intros l Hl; apply fmap_Some in Hl as (l0 & _ & ->);
      apply Forall_fmap, Forall_true; intros; apply calm_accept.
  - apply loud_visitExternStatement.
Qed.

(** C22. No silent failure: a statement whose visit returns null has printed
    a message and set the error flag, but for a NULL expression statement
    and for a function definition, which returns what its block does. *)
Theorem null_is_reported st s s' :
  wf s -> recon s = false -> may_be_null st = false ->
  accept jit_address hash_order st s = (Ok None, s') ->
  error s' = true /\ errors s' <> [].
Proof.
  intros Hs Hr Hst E. destruct (loud_accept st s Hst Hr Hs) as (W & _ & H). rewrite E in W, H.
  destruct (H None eq_refl) as [_ He]. specialize (He eq_refl). split; [done |].
  simpl in He, W. rewrite (wf_error _ W) in He. by apply bool_decide_eq_true in He.
Qed.

(** C23. The driver runs [main] exactly when no message was printed, and then
    [main] has a body; otherwise nothing is dumped and nothing runs. *)
Theorem execution_gated l d e :
  run_visitor jit_address hash_order l = Compiled d e ->
  let s := (compile jit_address hash_order l).2 in
  (errors s = [] /\ d = DumpedIR /\ e = Executed /\
    exists f, main_module (theIR s) !! "main" = Some f /\ f_blocks f <> []) \/
  (errors s <> [] /\ d = DumpPrevented /\ e = Halted).
Proof.
  unfold run_visitor. pose proof (proj1 (compile_wp l)) as W.
  destruct (compile jit_address hash_order l) as [[v|c] s]; [| discriminate]. cbv zeta. simpl in W |- *.
  unfold executeMain, printModule, bind, gets, gets_ir, assert. pose proof (wf_error _ W) as He.
  destruct (error s).
  - symmetry in He. apply bool_decide_eq_true in He. intros [= <- <-]. right. done.
  - symmetry in He. apply bool_decide_eq_false in He. apply dec_stable in He. simpl.
    destruct (main_module (theIR s) !! "main") as [f|] eqn:Hf; simpl; [| done].
    destruct (func_empty f) eqn:Hfe; simpl; [done |]. intros [= <- <-]. left. split_and!; [done.. |].
    exists f. split; [done |]. by apply bool_decide_eq_false in Hfe.
Qed.

(** ** Closures *)

(** Inside a closure the next statement is just visited. *)
Lemma visit_statements_inside V cv i st m l v s :
  insideLambda s = true ->
  visit_statements jit_address hash_order V cv i ((st, m) :: l) v s =
  (last <- m ;; visit_statements jit_address hash_order V cv (S i) l last) s.
Proof.
  intros Hi. simpl. unfold bind at 1, gets at 1. rewrite Hi.
  rewrite (bind_eq _ _ s true s) by done. simpl. unfold bind, gets, mret, SE_ret.
  by destruct (executeCommit s).
Qed.

Lemma visit_statements_no_closure V V' cv cv' i i' l v s :
  calm_statements l -> wf s -> recon s = false -> insideLambda s = true ->
  visit_statements jit_address hash_order V cv i l v s =
  visit_statements jit_address hash_order V' cv' i' l v s.
Proof.
  intros Hl. revert i i' v s. induction Hl as [|[st m] l Hm Hl IH]; intros i i' v s Hw Hr Hi; [done |].
  rewrite !visit_statements_inside by done. unfold bind. simpl in Hm.
  destruct (Hm s Hr Hw) as (W & _ & H). destruct (m s) as [[a|e] s1]; [| done].
  destruct (H a eq_refl) as [M _]. unfold mode in M. simpl in *. injection M as M1 M2.
  apply IH; [done | congruence..].
Qed.

(** C27. Closures do not nest: inside a closure a block is compiled without
    looking at its commit flags, so what is done with the statements of a
    group there never matters.  The model's [visitBlock], which unfolds the
    recursion once, is therefore the recursive function of the source. *)
Theorem closures_do_not_nest V l s :
  wf s -> recon s = false -> insideLambda s = true ->
  visitBlock_with jit_address hash_order V (Some (with_visits jit_address hash_order l)) s =
  visitBlock jit_address hash_order (Some (with_visits jit_address hash_order l)) s.
Proof.
  intros Hw Hr Hi. unfold visitBlock, visitBlock_with at 1 2. unfold bind, gets. rewrite Hi.
  apply visit_statements_no_closure; [| done..].
  apply Forall_fmap, Forall_true. intros st. apply calm_accept.
Qed.
End properties.

(** * Witnesses *)

Definition demo_function : stmt :=
  FunctionDefinition (KeywordType "int") "main" [] (Some
    [SVariable (VariableDefinition true "int" "a" (Some (Integer 8)) false);
     IfStatement (Identifier "a") (Some (Some [ReturnStatement (Some (Identifier "a"))])) None;
     ReturnStatement (Some (Integer 4))]) false.

Lemma accept_monotone_witness :
  let s := (accept some_address some_order demo_function new_CodeGenVisitor).2 in
  wf s /\ insideLambda s = false /\ errors s = [].
Proof.
  destruct (accept_monotone some_address some_order demo_function new_CodeGenVisitor wf_new eq_refl)
    as (H1 & _ & H2).
  cbv zeta. split_and!; [exact H1 | | vm_compute; reflexivity].
  refine (proj1 (H2 (Some (VConstInt MainCtx 64 4)) _)). vm_compute. reflexivity.
Defined.

Lemma null_is_reported_witness :
  let st := AssignStatement true (Identifier "x") (Integer 1) in
  error (accept some_address some_order st new_CodeGenVisitor).2 = true.
Proof.
  refine (proj1 (null_is_reported some_address some_order
    (AssignStatement true (Identifier "x") (Integer 1)) new_CodeGenVisitor _ wf_new eq_refl eq_refl _)).
  vm_compute. reflexivity.
Defined.

Lemma execution_gated_witness :
  let s := (compile some_address some_order [demo_function]).2 in
  run_visitor some_address some_order [demo_function] = Compiled DumpedIR Executed /\
  (errors s = [] \/ errors s <> []).
Proof.
  assert (run_visitor some_address some_order [demo_function] = Compiled DumpedIR Executed) as E
    by (vm_compute; reflexivity).
  split; [exact E |].
  destruct (execution_gated some_address some_order [demo_function] DumpedIR Executed E)
    as [(H & _)|(H & _)]; [by left | by right].
Defined.

Lemma closures_do_not_nest_witness :
  let s := set_insideLambda true new_CodeGenVisitor in
  let l := [ExpressionStatement false (Integer 1); ExpressionStatement false (Integer 2)] in
  visitBlock_with some_address some_order (fun _ => fail BadIndex)
    (Some (with_visits some_address some_order l)) s =
  visitBlock some_address some_order (Some (with_visits some_address some_order l)) s.
Proof.
  refine (closures_do_not_nest some_address some_order (fun _ => fail BadIndex)
    [ExpressionStatement false (Integer 1); ExpressionStatement false (Integer 2)]
    (set_insideLambda true new_CodeGenVisitor) _ eq_refl eq_refl).
  by apply (wf_frame new_CodeGenVisitor); [apply wf_new | ..].
Defined.
