(* ===== verification/ExprProps.v ===== *)
(** The properties of the compilation of expressions: their code computes
    what they mean, in the main program and in a closure alike, and what
    follows for the places where the types of the visitor do not fit. *)

From S2P Require Import Prelude Ast IR State Builder CodeGenBase CodeGenExpr CodeGenStmt.
From S2P Require Import CodeGenBlock CodeGenLogic BuilderFacts CodeGenWf CodeGenStmtWf.
From S2P Require Import CodeGenBlockWf Machine ExprLogic ExprCorrect.

Section expressions.
Context {sigs : Signatures} {out : Outside} {world : World}.

(** A generator that inserts into block [b], of which the machine [m] has run
    what is there; the variables of [G] hold the values of [env]. *)
Definition compiles_at (b : nat) (m : machine) (G : string -> option fty)
    (env : string -> option fval) (s : cg) : Prop :=
  (if insideLambda s then lambda_ip (theIR s) else main_ip (theIR s)) = Some b /\
  (exists l0, blocks (theIR s) !! b = Some l0) /\
  (forall id r, regs m !! id = Some r -> id < next_inst (theIR s)) /\
  declares (context_of s) (functions_of s) /\
  variables_hold id m G env s (regs m).

Lemma compiles_at_block b m G env s l0 :
  compiles_at b m G env s -> blocks (theIR s) !! b = Some l0 ->
  at_block (context_of s) b l0 m s (regs m) (around m).
Proof.
  intros (Hip & _ & Hd & Hf & _) Hl. split; [done | done | | done | done].
  exists []. rewrite app_nil_r. split_and!; [done | by destruct m | constructor].
Qed.

(** C3. Compiler correctness for expressions: an expression of int and double
    variables, literals, operators and calls is compiled without a message and
    without a crash, whichever of the two contexts its variables come from, and
    with arguments that are converted to the types of the parameters; the code
    goes to the end of the current block and changes nothing else,
    and running it leaves the value of the expression in the register that is
    returned, in an LLVM type that fits; the calls act on what is outside in
    the order in which the expression means them. *)
Theorem expression_code_correct e t z w b m G env s :
  type_of G e = Some t -> fk_eval env e (around m) = Some (z, w) -> compiles_at b m G env s ->
  exists v s' l0 code rg,
    visit e s = (Ok (Some v), s') /\
    blocks (theIR s) !! b = Some l0 /\ blocks (theIR s') !! b = Some (l0 ++ code) /\
    run m code = Some (mk_machine rg (mem m) w) /\ regs m ⊆ rg /\
    (exists c r, getType v = llvm_type t c /\ eval_value rg v = Some r /\ encodes t z r) /\
    code_only b s s'.
Proof.
  intros Ht Hz Hc. pose proof Hc as (_ & (l0 & Hl0) & _ & _ & Hv).
  destruct (total_visit id (context_of s) b l0 m G env e t z (around m) w s (regs m) Ht Hz Hv
    (compiles_at_block _ _ _ _ _ _ Hc Hl0)) as (r & s' & rg & E & A & S & C & v & -> & c & x & [T V] & En).
  destruct (ab_code _ _ _ _ _ _ _ A) as (code & Hcode & Hrun & _).
  exists v, s', l0, code, rg. split_and!; try done. by exists c, x.
Qed.

Lemma visit_bool e z w b m G env s :
  type_of G e = Some FkBool -> fk_eval env e (around m) = Some (z, w) -> compiles_at b m G env s ->
  exists v s' c, visit e s = (Ok (Some v), s') /\ getType v = TInt c 1.
Proof.
  intros Ht Hz Hc. pose proof Hc as (_ & (l0 & Hl0) & _ & _ & Hv).
  destruct (total_visit id (context_of s) b l0 m G env e FkBool z (around m) w s (regs m) Ht Hz Hv
    (compiles_at_block _ _ _ _ _ _ Hc Hl0)) as (r & s' & rg & E & A & S & C & v & -> & c & x & [T V] & En).
  by exists v, s', c.
Qed.

(** C32. The condition of an [if] cannot be [a || b] or [a && b] of integers:
    the operators leave an [i1], the condition is compared with the [i64]
    zero, and the assertion of LLVM stops the compiler. *)
Theorem logical_condition_crashes e z w b m G env blk else_blk s :
  type_of G e = Some FkBool -> fk_eval env e (around m) = Some (z, w) -> compiles_at b m G env s ->
  exists s', visitIfStatement e blk else_blk s =
    (Err (Assertion "Both operands to ICmp instruction are not of the same type!"), s').
Proof.
  intros Ht Hz Hc. destruct (visit_bool _ _ _ _ _ _ _ _ Ht Hz Hc) as (v & s' & c & E & T).
  exists s'. unfold visitIfStatement. rewrite (bind_eq _ _ _ _ _ E), T. simpl.
  rewrite (bind_eq _ _ s' v s') by done. rewrite T. simpl.
  apply bind_err. unfold some. apply bind_err. unfold castIntToBoolean.
  rewrite (bind_eq _ _ s' (context_of s') s') by done. unfold CreateICmp. apply bind_err.
  unfold assert. by rewrite bool_decide_false by (rewrite T; simpl; congruence).
Qed.

End expressions.

(** C35. Reading a variable before its definition is reported, and leaves an
    entry behind with which the definition that follows is taken for a second
    one. *)
Theorem use_before_definition x type exp ptr s :
  namedValues s !! x = None ->
  exists s1 s2,
    visitIdentifier x s = (Ok None, s1) /\
    visitVariableDefinition type x exp ptr s1 = (Ok None, s2) /\
    errors s2 = errors s ++ ["Attempt to generate code for not previously defined variable";
                             "Attempt to redefine variable"] /\
    namedValues s2 = <[x := None]> (namedValues s).
Proof.
  intros Hx. eexists _, _. split_and!.
  - unfold visitIdentifier, namedValue, bind, gets. rewrite Hx. simpl. reflexivity.
  - unfold visitVariableDefinition, bind, gets. simpl. rewrite lookup_insert_eq.
    rewrite bool_decide_true by done. reflexivity.
  - simpl. by rewrite <- app_assoc.
  - done.
Qed.

(** ** Fields *)

Lemma Insert_eq i t s : exists s', Insert i t s = (Ok (VInst (next_inst (theIR s)) t), s') /\
  structs (theIR s') = structs (theIR s) /\ structTypes s' = structTypes s /\ errors s' = errors s.
Proof.
  unfold Insert, bind, getInsertBlock, gets, gets_ir, modify_ir, modify, mret, SE_ret. simpl.
  eexists. split; [reflexivity |]. by destruct (if insideLambda s then _ else _).
Qed.

(** C26. Access to a field of a declared struct succeeds: in a well-formed
    state, through a pointer to the struct, the field is found at its place in
    the body, addressed and loaded at its own type, and nothing is reported. *)
Theorem struct_field_access x id names f k var s :
  wf s -> structTypes s !! x = Some (id, names) -> index_of f names = Some k ->
  getType var = TPointer (TStruct id) ->
  exists info body t ld gep s',
    structs (theIR s) !! id = Some info /\ st_body info = Some body /\ body !! k = Some t /\
    getStructField x f var s = (Ok (Some (ld, gep)), s') /\
    getType gep = TPointer t /\ getType ld = t /\ errors s' = errors s.
Proof.
  intros Hs Hx Hk Hv. destruct (wf_structs _ Hs _ _ _ Hx) as (info & body & Hi & Hb & Hlen).
  apply index_of_Some in Hk as Hk'. destruct Hk' as [Hk' _].
  destruct (lookup_lt_is_Some_2 body k) as [t Ht].
  { rewrite Hlen. by eapply lookup_lt_Some. }
  destruct (Insert_eq (ILoad var) (TStruct id) s) as (s1 & E1 & S1 & T1 & R1).
  destruct (Insert_eq (IStructGEP (TStruct id) var k) (TPointer t) s1) as (s2 & E2 & S2 & T2 & R2).
  set (gep := VInst (next_inst (theIR s1)) (TPointer t)) in *.
  destruct (Insert_eq (ILoad gep) t s2) as (s3 & E3 & S3 & T3 & R3).
  exists info, body, t, (VInst (next_inst (theIR s2)) t), gep, s3. split_and!; try done; [| congruence].
  unfold getStructField. rewrite (bind_eq _ _ s (structTypes s) s) by done. rewrite Hx, Hk.
  erewrite bind_eq; [| unfold CreateLoad; rewrite Hv; exact E1].
  erewrite bind_eq.
  2: { unfold CreateStructGEP. rewrite (bind_eq _ _ s1 tt s1)
         by (unfold assert; by rewrite bool_decide_true).
       rewrite (bind_eq _ _ s1 info s1).
       - rewrite Hb. simpl. rewrite Ht. exact E2.
       - unfold struct_of, bind, gets_ir, gets. simpl. rewrite S1, Hi. reflexivity. }
  erewrite bind_eq; [| exact E3]. reflexivity.
Qed.

(** * Witnesses: a block with an int and a float variable, and a function
    [keep] that returns its float argument. *)

#[local] Instance demo_functions : Signatures :=
  fun f => if decide (f = "keep") then Some ([FkFloat], FkFloat) else None.

(** The number of calls so far is what is outside. *)
#[local] Instance demo_outside : Outside := nat.

Definition keep_counts {A} (f : string) (args : list A) (w : nat) : option (A * nat) :=
  if decide (f = "keep") then match args with [a] => Some (a, S w) | _ => None end else None.

Definition demo_running : Running :=
  {| arguments := []; called := keep_counts; undefined_division := None |}.

Definition demo_meaning : Meaning := {| fk_called := keep_counts; fk_undefined := None |}.

#[local] Instance demo_world : World.
Proof.
  refine {| world_running := demo_running; world_meaning := demo_meaning |}; simpl; [done | done |].
  unfold signature_of, demo_functions, keep_counts. intros f sg zs rs z w w' Hf Hargs.
  destruct (decide (f = "keep")); [| done]. simplify_eq. simpl in Hargs.
  inversion Hargs as [|t z' r' ts zs' rs' He Hrest]; subst. inversion Hrest; subst.
  intros [= <- <-]. by exists r'.
Defined.

Definition demo_state : cg :=
  set_namedValues (<["x" := Some (VInst 0 (TPointer (TInt MainCtx 64)))]>
    (<["y" := Some (VInst 1 (TPointer (TDouble MainCtx)))]> ∅))
    (set_ir (mk_ir {[ "keep" := mk_func (fun_type ([FkFloat], FkFloat) MainCtx) ["a"] [] ]} None [] (0, 0)%Z {[ 0 := [] ]} ∅ [] 1 2 (Some 0) None []) new_CodeGenVisitor).

Definition two_point_five : double := S754_finite false 5629499534213120 (-51).

Definition demo_machine : machine :=
  mk_machine (out := demo_outside) (<[0 := RPtr (Some 0)]> (<[1 := RPtr (Some 1)]> ∅))
    (<[0 := RInt 64 5]> (<[1 := RFloat two_point_five]> ∅)) 3.

Definition demo_types (y : string) : option fty :=
  if decide (y = "x") then Some FkInt else if decide (y = "y") then Some FkFloat else None.
Definition demo_values (y : string) : option fval :=
  if decide (y = "x") then Some (VI 5) else if decide (y = "y") then Some (VF two_point_five) else None.

Lemma demo_compiles_at : compiles_at 0 demo_machine demo_types demo_values demo_state.
Proof.
  split; [reflexivity |]. split; [by eexists |]. split; [| split].
  - intros id r H. simpl in *. unfold demo_machine in H. simpl in H.
    apply lookup_insert_Some in H as [[<- _]|[_ H]]; [lia |].
    apply lookup_insert_Some in H as [[<- _]|[_ H]]; [lia | done].
  - intros f sg Hf. unfold signature_of, demo_functions in Hf. case_decide as E; simplify_eq.
    eexists. split; [reflexivity | done].
  - intros y t Hy. unfold demo_types, demo_values in *. case_decide as E; simplify_eq.
    + exists (VInst 0 (TPointer (TInt MainCtx 64))), MainCtx, 0, (RInt 64 5), (VI 5).
      split_and!; try done.
    + case_decide; simplify_eq.
      by exists (VInst 1 (TPointer (TDouble MainCtx))), MainCtx, 1, (RFloat two_point_five), (VF two_point_five).
Qed.

(** [-(x * 3) < keep(x)] is true. *)
Definition demo_expression : expr :=
  BinaryOperator (UnaryOperator "-" (BinaryOperator (Identifier "x") "*" (Integer 3))) "<"
    (FunctionCall "keep" [Identifier "x"]).

Lemma expression_code_correct_witness :
  fk_eval (out := demo_outside) demo_values demo_expression 3 = Some (VI 1, 4) /\
  exists v s' l0 code rg,
    visit demo_expression demo_state = (Ok (Some v), s') /\
    blocks (theIR demo_state) !! 0 = Some l0 /\ blocks (theIR s') !! 0 = Some (l0 ++ code) /\
    run demo_machine code = Some (mk_machine (out := demo_outside) rg (mem demo_machine) 4) /\
    regs demo_machine ⊆ rg /\
    (exists c r, getType v = llvm_type FkInt c /\ eval_value rg v = Some r /\ encodes FkInt (VI 1) r) /\
    code_only 0 demo_state s'.
Proof.
  split; [vm_compute; reflexivity |].
  refine (expression_code_correct demo_expression FkInt (VI 1) 4 0 demo_machine demo_types demo_values
    demo_state _ _ demo_compiles_at); vm_compute; reflexivity.
Defined.

Lemma logical_condition_crashes_witness :
  exists s', visitIfStatement (BinaryOperator (Identifier "x") "||" (Integer 1)) None None demo_state =
    (Err (Assertion "Both operands to ICmp instruction are not of the same type!"), s').
Proof.
  refine (logical_condition_crashes (BinaryOperator (Identifier "x") "||" (Integer 1)) (VI 1) 3 0
    demo_machine demo_types demo_values None None demo_state _ _ demo_compiles_at);
    vm_compute; reflexivity.
Defined.

Lemma use_before_definition_witness :
  exists s1 s2,
    visitIdentifier "z" demo_state = (Ok None, s1) /\
    visitVariableDefinition "int" "z" (Some (Integer 1)) false s1 = (Ok None, s2) /\
    errors s2 = ["Attempt to generate code for not previously defined variable";
                 "Attempt to redefine variable"] /\
    namedValues s2 = <["z" := None]> (namedValues demo_state).
Proof.
  refine (use_before_definition "z" "int" (Some (Integer 1)) false demo_state _).
  vm_compute. reflexivity.
Defined.

Definition demo_struct : cg :=
  (visitStructureDefinition "pair" (Some
    [SVariable (VariableDefinition true "int" "first" None false);
     SVariable (VariableDefinition true "float" "second" None false)]) demo_state).2.

Lemma demo_struct_wf : wf demo_struct.
Proof.
  refine (proj1 (safe_visitStructureDefinition _ _ demo_state _)). split.
  - reflexivity.
  - intros x v Hx. unfold demo_state in Hx. simpl in Hx.
    apply lookup_insert_Some in Hx as [[_ [= <-]]|[_ Hx]]; [by eexists |].
    apply lookup_insert_Some in Hx as [[_ [= <-]]|[_ Hx]]; [by eexists | done].
  - done.
  - assert (forall id b, ~ placed (theIR demo_state) id b) as Hp.
    { intros id b (l & Hl & Hid). simpl in Hl. apply lookup_singleton_Some in Hl as [_ <-].
      by apply elem_of_nil in Hid. }
    split; try done.
    + intros b l Hl. simpl in Hl |- *. apply lookup_singleton_Some in Hl as [<- _]. lia.
    + intros [|b] Hb; simpl in Hb; [by eexists | lia].
    + intros id b H. by apply Hp in H.
    + intros id H. by apply elem_of_nil in H.
    + intros id b b' H. by apply Hp in H.
    + intros b l Hl. simpl in Hl. apply lookup_singleton_Some in Hl as [_ <-]. constructor.
    + intros f fn Hf. simpl in Hf. apply lookup_singleton_Some in Hf as [_ <-]. constructor.
    + intros b [= <-]. simpl. lia.
    + intros b l Hl. simpl in Hl. apply lookup_singleton_Some in Hl as [_ <-]. constructor.
    + constructor.
Qed.

Lemma struct_field_access_witness :
  exists info body t ld gep s',
    structs (theIR demo_struct) !! 0 = Some info /\ st_body info = Some body /\ body !! 1 = Some t /\
    getStructField "pair" "second" (VConstNull (TPointer (TStruct 0))) demo_struct =
      (Ok (Some (ld, gep)), s') /\
    getType gep = TPointer t /\ getType ld = t /\ errors s' = errors demo_struct.
Proof.
  refine (struct_field_access "pair" 0 ["first"; "second"] "second" 1
    (VConstNull (TPointer (TStruct 0))) demo_struct demo_struct_wf _ _ _); vm_compute; reflexivity.
Defined.
