(* ===== verification/GroupProps.v ===== *)
(** The properties of commit groups: which statements form a group, the code
    that ends one, and what stale reconciliation entries do to the next. *)

From S2P Require Import Prelude Ast IR State Builder CodeGenBase CodeGenExpr CodeGenStmt.
From S2P Require Import CodeGenBlock CodeGenLogic BuilderFacts CodeGenWf CodeGenStmtWf.
From S2P Require Import CodeGenBlockWf Injections CodeGenProps.

(** * The commit vector *)

Lemma adjust_commits_lookup l prev i q :
  l !! i = Some q ->
  adjust_commits prev l !! i =
    Some (q && match i with O => prev | S j => default true (l !! j) end).
Proof.
  revert prev i. induction l as [|a l IH]; intros prev i Hi; [done |].
  destruct i as [|i]; simpl in Hi |- *.
  - simplify_eq. destruct q, prev; done.
  - destruct a, prev; simpl; rewrite (IH _ _ Hi); destruct i; done.
Qed.

(** C28. The commit vector: a statement is compiled in place when it commits
    itself and the one before it does too; the first committing statement
    behind one that does not commit still belongs to its group. *)
Theorem commit_vector_spec statements i s :
  statements !! i = Some s ->
  commit_vector statements !! i =
    Some (statementCommits s &&
          match i with O => true | S j => default true (statementCommits <$> statements !! j) end).
Proof.
  intros Hi. unfold commit_vector. erewrite adjust_commits_lookup; [| by rewrite list_lookup_fmap, Hi].
  destruct i; [done |]. by rewrite list_lookup_fmap.
Qed.

(** * Code put behind a block *)

Fixpoint number (n : nat) (code : list inst) : list (nat * inst) :=
  match code with [] => [] | i :: code' => (n, i) :: number (S n) code' end.

Lemma number_app n c1 c2 : number n (c1 ++ c2) = number n c1 ++ number (n + length c1) c2.
Proof.
  revert n. induction c1 as [|i c1 IH]; intros n; simpl; [by rewrite Nat.add_0_r |].
  rewrite IH. do 3 f_equal. lia.
Qed.

Definition push_code (b : nat) (code : list inst) (s : cg) : cg :=
  set_ir (ir_set_code
    (<[b := default [] (blocks (theIR s) !! b) ++ number (next_inst (theIR s)) code]> (blocks (theIR s)))
    (detached (theIR s)) (next_inst (theIR s) + length code) (theIR s)) s.

Lemma push_code_app b c1 c2 s : push_code b c2 (push_code b c1 s) = push_code b (c1 ++ c2) s.
Proof.
  unfold push_code, set_ir, ir_set_code. simpl. rewrite lookup_insert_eq, insert_insert_eq. simpl.
  by rewrite number_app, length_app, app_assoc, Nat.add_assoc.
Qed.

(** The main builder stands at the end of block [b]. *)
Definition builds (b : nat) (s : cg) : Prop :=
  insideLambda s = false /\ main_ip (theIR s) = Some b /\ is_Some (blocks (theIR s) !! b).

Lemma builds_push b code s : builds b s -> builds b (push_code b code s).
Proof. intros (? & ? & ?). split_and!; try done. simpl. by rewrite lookup_insert_eq. Qed.

Lemma push_code_nil b s : builds b s -> push_code b [] s = s.
Proof.
  intros (_ & _ & l & Hl). unfold push_code. rewrite Hl. simpl. rewrite app_nil_r, Nat.add_0_r, insert_id by done.
  destruct s as [? ? ? ? ? ? ? ? ? ? ? ? ? []]. done.
Qed.

Lemma Insert_push b i t s :
  builds b s -> Insert i t s = (Ok (VInst (next_inst (theIR s)) t), push_code b [i] s).
Proof.
  intros (Hl & Hip & _). unfold Insert, bind, getInsertBlock, gets, gets_ir, modify_ir, modify, mret, SE_ret.
  rewrite Hl, Hip. simpl. unfold push_code. simpl. by rewrite Nat.add_1_r.
Qed.

(** * Reconciliation *)

Definition i64 : ty := TInt MainCtx 64.
Definition dbl : ty := TDouble MainCtx.
Definition int (n : Z) : value := VConstInt MainCtx 64 n.

(** The signatures that the injections give to the runtime functions used
    here. *)
Definition recon_int_type : fun_ty := mk_fun_ty i64 [i64; i64; i64; i64; i64].
Definition recon_float_type : fun_ty := mk_fun_ty dbl [dbl; dbl; i64; i64; i64].
Definition recon_void_type : fun_ty := mk_fun_ty (TVoid MainCtx) [i64; i64; i64].
Definition destroy_type : fun_ty := mk_fun_ty (TVoid MainCtx) [i64].

Definition declares (s : cg) (name : string) (ft : fun_ty) : Prop :=
  exists f, main_module (theIR s) !! name = Some f /\ f_type f = ft.

(** An entry of the reconciliation of a statement without a value, or of an
    int variable. *)
Definition int_entry (e : option value * option value) : Prop :=
  match e.2 with None => True | Some v => getType v = TPointer i64 end.

(** The code of the reconciliation: for an int, load the old value, pass it
    with the number of the entry, store the answer. *)
Fixpoint recon_code (n : nat) (max : Z) (cid : value) (i : Z)
    (l : list (option value * option value)) : list inst :=
  match l with
  | [] => []
  | (_, Some v) :: l' =>
      [ILoad v; ICall "__recon_int" [VInst n i64; int 1; int i; int max; cid];
       IStore (VInst (S n) i64) v] ++ recon_code (S (S (S n))) max cid (i + 1) l'
  | (_, None) :: l' =>
      ICall "__recon_void" [int i; int max; cid] :: recon_code (S n) max cid (i + 1) l'
  end.

(** The statement numbers of the calls in a piece of code. *)
Definition recon_id (i : inst) : option Z :=
  match i with
  | ICall f args =>
      if decide (f = "__recon_int") then
        match args with [_; _; VConstInt _ _ k; _; _] => Some k | _ => None end
      else if decide (f = "__recon_void") then
        match args with [VConstInt _ _ k; _; _] => Some k | _ => None end
      else None
  | _ => None
  end.

Lemma recon_code_ids n max cid i l : omap recon_id (recon_code n max cid i l) = seqZ i (Z.of_nat (length l)).
Proof.
  revert n i. induction l as [|[a [v|]] l IH]; intros n i; [done | |];
    rewrite seqZ_cons by (simpl; lia); simpl; f_equal; rewrite IH; f_equal; lia.
Qed.

Lemma getFunction_declared s name ft :
  insideLambda s = false -> declares s name ft ->
  exists f, getFunction name s = (Ok (Some f), s) /\ f_type f = ft.
Proof.
  intros Hl (f & Hf & Ht). exists f. split; [| done].
  unfold getFunction, getModule, bind, gets, mret, SE_ret. simpl. by rewrite Hl, Hf.
Qed.

Lemma CreateCall_push b name ft args s :
  builds b s -> getType <$> args = fparams ft ->
  CreateCall name ft args s = (Ok (VInst (next_inst (theIR s)) (fret ft)), push_code b [ICall name args] s).
Proof.
  intros Hb Ht. unfold CreateCall. rewrite (bind_eq _ _ s tt s); [by apply Insert_push |].
  unfold assert. by rewrite bool_decide_true.
Qed.

Lemma CreateLoad_push b p t s :
  builds b s -> getType p = TPointer t ->
  CreateLoad p s = (Ok (VInst (next_inst (theIR s)) t), push_code b [ILoad p] s).
Proof. intros Hb Ht. unfold CreateLoad. rewrite Ht. by apply Insert_push. Qed.

Lemma CreateStore_push b v p s :
  builds b s -> getType p = TPointer (getType v) ->
  exists r, CreateStore v p s = (Ok r, push_code b [IStore v p] s).
Proof.
  intros Hb Ht. eexists. unfold CreateStore, getContext.
  rewrite (bind_eq _ _ s (context_of s) s) by done. rewrite Ht.
  rewrite (bind_eq _ _ s tt s); [by apply Insert_push |]. unfold assert. by rewrite bool_decide_true.
Qed.

Section reconcile.
Context (b : nat) (cid : value) (Hcid : getType cid = i64).

(** What the end of a group needs of the state. *)
Definition at_group_end (max : Z) (s : cg) : Prop :=
  builds b s /\ currCid s = Some cid /\ currId s = max /\
  declares s "__recon_int" recon_int_type /\ declares s "__recon_void" recon_void_type.

Lemma at_group_end_push max code s : at_group_end max s -> at_group_end max (push_code b code s).
Proof. intros (Hb & H). split; [by apply builds_push | done]. Qed.

(** An entry for a variable whose type is neither an integer nor a double: the
    loop loads it and ends. *)
Definition ends_loop (e : option value * option value) : Prop :=
  match e.2 with
  | Some v => exists ty, getType v = TPointer ty /\ isIntegerTy ty = false /\ isDoubleTy ty = false
  | None => False
  end.

(** What is left when the loop ends, with the load of its first entry. *)
Definition loop_left (rest : list (option value * option value)) : Prop :=
  match rest with [] => True | e :: _ => ends_loop e end.
Definition left_code (rest : list (option value * option value)) : list inst :=
  match rest with (_, Some v) :: _ => [ILoad v] | _ => [] end.

Lemma reconcile_left i rest s :
  builds b s -> loop_left rest -> reconcile i rest s = (Ok tt, push_code b (left_code rest) s).
Proof.
  intros Hb Hr. destruct rest as [|[a [v|]] rest]; [cbn; by rewrite push_code_nil | | done].
  destruct Hr as (ty & Ht & Hi & Hd). cbn [reconcile left_code].
  rewrite (bind_eq _ _ _ _ _ (CreateLoad_push b v ty s Hb Ht)). cbn [getType]. by rewrite Hi, Hd.
Qed.

Lemma reconcile_app_code max l rest i s :
  at_group_end max s -> Forall int_entry l -> loop_left rest ->
  reconcile i (l ++ rest) s = (Ok tt, push_code b (recon_code (next_inst (theIR s)) max cid i l ++ left_code rest) s).
Proof.
  intros Hs Hl Hrest. revert i s Hs. induction Hl as [|[a o] l He Hl IH]; intros i s Hs.
  { apply reconcile_left; [apply Hs | done]. }
  pose proof Hs as (Hb & Hc & Hm & Hi & Hv).
  destruct o as [v|]; unfold int_entry in He; simpl in He; cbn [app reconcile recon_code].
  - rewrite (bind_eq _ _ _ _ _ (CreateLoad_push b v i64 s Hb He)). cbn [getType isIntegerTy i64].
    set (s1 := push_code b [ILoad v] s). assert (builds b s1) as Hb1 by by apply builds_push. cbv iota.
    rewrite (bind_eq _ _ s1 max s1) by (unfold gets; simpl; by rewrite Hm).
    rewrite (bind_eq _ _ s1 (Some cid) s1) by (unfold gets; simpl; by rewrite Hc).
    destruct (getFunction_declared s1 "__recon_int" recon_int_type) as (f & Ef & Tf); [by apply Hb | done |].
    rewrite (bind_eq _ _ _ _ _ Ef), (bind_eq _ _ s1 f s1), (bind_eq _ _ s1 cid s1), Tf by done.
    erewrite bind_eq by (apply (CreateCall_push b); [done | simpl; by rewrite Hcid]).
    set (s2 := push_code b _ s1). assert (builds b s2) as Hb2 by by apply builds_push.
    destruct (CreateStore_push b (VInst (next_inst (theIR s1)) i64) v s2) as (r & Er); [done | done |].
    rewrite (bind_eq _ _ _ _ _ Er). unfold s2, s1. rewrite !push_code_app.
    rewrite IH, push_code_app by by apply at_group_end_push. simpl.
    do 3 f_equal. by rewrite Nat.add_1_r, (Nat.add_comm _ 3).
  - rewrite (bind_eq _ _ s max s) by (unfold gets; by rewrite Hm).
    rewrite (bind_eq _ _ s (Some cid) s) by (unfold gets; by rewrite Hc).
    destruct (getFunction_declared s "__recon_void" recon_void_type) as (f & Ef & Tf); [by apply Hb | done |].
    rewrite (bind_eq _ _ _ _ _ Ef), (bind_eq _ _ s f s), (bind_eq _ _ s cid s), Tf by done.
    erewrite bind_eq by (apply (CreateCall_push b); [done | simpl; by rewrite Hcid]).
    rewrite IH, push_code_app by by apply at_group_end_push. simpl. by rewrite Nat.add_1_r.
Qed.
End reconcile.

(** * The end of a group *)

(** [visitFunctionCall] with one variable that has the type of the parameter. *)
Lemma call_with_variable b name ft x a t s :
  builds b s -> declares s name ft -> fparams ft = [t] ->
  namedValues s !! x = Some (Some a) -> getType a = TPointer t ->
  visitFunctionCall name [visitIdentifier x] s =
    (Ok (Some (VInst (S (next_inst (theIR s))) (fret ft))),
     push_code b [ILoad a; ICall name [VInst (next_inst (theIR s)) t]] s).
Proof.
  intros Hb Hd Hp Hx Ha. destruct (getFunction_declared s name ft) as (f & Ef & Tf); [by apply Hb | done |].
  unfold visitFunctionCall. rewrite (bind_eq _ _ _ _ _ Ef), (bind_eq _ _ s (insideLambda s) s) by done.
  rewrite (bind_eq _ _ s (Some f) s), Tf, Hp by done. simpl.
  set (v := VInst (next_inst (theIR s)) t). set (s1 := push_code b [ILoad a] s).
  assert (visitIdentifier x s = (Ok (Some v), s1)) as Ev.
  { unfold visitIdentifier. rewrite (bind_eq _ _ s (Some a) s).
    - by rewrite (bind_eq _ _ _ _ _ (CreateLoad_push b a t s Hb Ha)).
    - unfold namedValue. rewrite (bind_eq _ _ s (namedValues s) s) by done. by rewrite Hx. }
  rewrite (bind_eq _ _ s (Some [v]) s1).
  - unfold some. erewrite bind_eq by (apply (CreateCall_push b); [by apply builds_push | by rewrite Hp]).
    unfold s1. rewrite push_code_app. unfold mret, SE_ret. simpl. by rewrite Nat.add_1_r.
  - rewrite (bind_eq _ _ _ _ _ Ev), (bind_eq _ _ s1 (Some v) s1) by done.
    rewrite (bind_eq _ _ s1 (Some v) s1) by (unfold convert_argument; by rewrite bool_decide_true).
    done.
Qed.

Lemma end_group_pushes b l0 cid a l rest s :
  builds b s -> blocks (theIR s) !! b = Some l0 ->
  currCid s = Some cid -> getType cid = i64 ->
  declares s "__recon_int" recon_int_type -> declares s "__recon_void" recon_void_type ->
  declares s "__destroy_context" destroy_type ->
  reconVector s = l ++ rest -> Forall int_entry l -> loop_left rest ->
  namedValues s !! "cid" = Some (Some a) -> getType a = TPointer i64 ->
  let recon := recon_code (next_inst (theIR s)) (currId s - 1) cid 0 l ++ left_code rest in
  let loaded := next_inst (theIR s) + length recon in
  let code := recon ++ [ILoad a; ICall "__destroy_context" [VInst loaded i64]] in
  end_group s = (Ok tt, set_namedValues (delete "cid" (namedValues s))
    (push_code b code (set_currId (currId s - 1) (set_executeCommit true s)))).
Proof.
  intros Hb Hl Hc Tc Hri Hrv Hdc Hv Hl0 Hrest Ha Ta recon loaded code.
  set (s1 := set_executeCommit true s). set (s2 := set_currId (currId s1 - 1) s1).
  set (s3 := push_code b recon s2).
  assert (reconcile 0 (reconVector s) s2 = (Ok tt, s3)) as E.
  { rewrite Hv. apply (reconcile_app_code b cid Tc (currId s - 1) l rest 0 s2); [by split_and! | done | done]. }
  unfold end_group. rewrite (bind_eq _ _ s tt s1), (bind_eq _ _ s1 tt s2) by done.
  rewrite (bind_eq _ _ s2 (reconVector s) s2), (bind_eq _ _ _ _ _ E) by done.
  erewrite bind_eq by (apply (call_with_variable b _ destroy_type _ a i64);
    [by apply (builds_push b recon s2) | done..]).
  unfold s3. rewrite push_code_app. reflexivity.
Qed.

(** C20. The end of a group, when the reconciliation vector holds entries for
    calls and int variables, up to its end or up to an entry for a pointer or a
    structure: for each of them, in order and numbered from zero, the old value
    of a variable is loaded, passed with the number of the last statement of
    this group, and the answer stored; at the entry for the pointer or the
    structure it is loaded, and the loop is left without a call for it or for
    what follows; then the context is destroyed.  The vector keeps its
    entries. *)
Theorem end_group_code b l0 cid a l rest s :
  builds b s -> blocks (theIR s) !! b = Some l0 ->
  currCid s = Some cid -> getType cid = i64 ->
  declares s "__recon_int" recon_int_type -> declares s "__recon_void" recon_void_type ->
  declares s "__destroy_context" destroy_type ->
  reconVector s = l ++ rest -> Forall int_entry l -> loop_left rest ->
  namedValues s !! "cid" = Some (Some a) -> getType a = TPointer i64 ->
  exists s' code,
    end_group s = (Ok tt, s') /\
    let recon := recon_code (next_inst (theIR s)) (currId s - 1) cid 0 l ++ left_code rest in
    let loaded := next_inst (theIR s) + length recon in
    code = recon ++ [ILoad a; ICall "__destroy_context" [VInst loaded i64]] /\
    blocks (theIR s') !! b = Some (l0 ++ number (next_inst (theIR s)) code) /\
    omap recon_id code = seqZ 0 (Z.of_nat (length l)) /\
    reconVector s' = reconVector s /\ executeCommit s' = true /\ namedValues s' !! "cid" = None.
Proof.
  intros Hb Hl Hc Tc Hri Hrv Hdc Hv Hl0 Hrest Ha Ta.
  pose proof (end_group_pushes b l0 cid a l rest s Hb Hl Hc Tc Hri Hrv Hdc Hv Hl0 Hrest Ha Ta) as E. cbv zeta in E.
  eexists _, _. split; [exact E |]. split; [reflexivity |]. split_and!.
  - simpl. by rewrite lookup_insert_eq, Hl.
  - rewrite !omap_app. simpl.
    assert (omap recon_id (left_code rest) = []) as -> by (by destruct rest as [|[? []]]).
    rewrite !app_nil_r. apply recon_code_ids.
  - done.
  - done.
  - simpl. apply lookup_delete_eq.
Qed.

(** C34. The group of a float assignment cannot be compiled: the declaration
    of [__recon_float] takes a float where the call passes the integer 1, and
    LLVM's assertion stops the compiler. *)
Theorem float_reconciliation_crashes b cid a v i l s :
  builds b s -> currCid s = Some cid -> getType v = TPointer dbl ->
  declares s "__recon_float" recon_float_type ->
  exists s', reconcile i ((a, Some v) :: l) s =
    (Err (Assertion "Calling a function with a bad signature!"), s').
Proof.
  intros Hb Hc Tv Hd. cbn [reconcile]. rewrite (bind_eq _ _ _ _ _ (CreateLoad_push b v dbl s Hb Tv)).
  set (s1 := push_code b [ILoad v] s). cbn [getType isIntegerTy isDoubleTy dbl]. exists s1.
  rewrite (bind_eq _ _ s1 (currId s1) s1), (bind_eq _ _ s1 (Some cid) s1)
    by (unfold gets; simpl; by rewrite ?Hc).
  destruct (getFunction_declared s1 "__recon_float" recon_float_type) as (f & Ef & Tf); [by apply Hb | done |].
  rewrite (bind_eq _ _ _ _ _ Ef), (bind_eq _ _ s1 f s1), (bind_eq _ _ s1 cid s1), Tf by done.
  apply bind_err. unfold CreateCall. apply bind_err. unfold assert. by rewrite bool_decide_false.
Qed.

(** * Scheduling *)

(** The runtime function for a closure that returns [k]. *)
Definition sched_name (k : string) : string := "__fork_sched_" +:+ k.
Definition sched_type : fun_ty := mk_fun_ty (TVoid MainCtx) [TPointer i64; TPointer i64; i64; i64].

(** C21. Scheduling a closure: the address the JIT gave and the environment are
    cast to pointers and passed with the number of the statement and the
    context; the next statement gets the next number. *)
Theorem schedule_code jit_address name k last b l0 cid e0 st s :
  builds b s -> blocks (theIR s) !! b = Some l0 ->
  k ∈ ["int"; "float"; "void"] -> lambdaKeyword s = Some k ->
  declares s (sched_name k) sched_type ->
  currCid s = Some cid -> getType cid = i64 ->
  namedValues s !! "e0" = Some (Some e0) -> getType e0 = TPointer (TStruct st) ->
  exists v s',
    schedule_closure jit_address name last s = (Ok (Some v), s') /\
    (let n := next_inst (theIR s) in
     blocks (theIR s') !! b = Some (l0 ++ number n
       [ICast IntToPtr (int (jit_address name)) (TPointer i64);
        ICast BitCast e0 (TPointer i64);
        ICall (sched_name k) [VInst n (TPointer i64); VInst (S n) (TPointer i64);
                              int (currId s); cid]])) /\
    currId s' = (currId s + 1)%Z /\ jitted (theIR s') = jitted (theIR s) ++ [name] /\
    lambda_module (theIR s') = None.
Proof.
  intros Hb Hl0 Hk Hkw Hd Hc Tc He Te.
  set (s1 := set_ir (ir_set_jitted (jitted (theIR s) ++ [name])
    (ir_set_modules (main_module (theIR s)) None (theIR s))) s).
  assert (builds b s1) as Hb1 by done.
  set (c1 := ICast IntToPtr (int (jit_address name)) (TPointer i64)).
  set (c2 := ICast BitCast e0 (TPointer i64)).
  set (s2 := push_code b [c1] s1). assert (builds b s2) as Hb2 by by apply builds_push.
  set (s3 := push_code b [c2] s2). assert (builds b s3) as Hb3 by by apply builds_push.
  set (s4 := set_currId (currId s3 + 1)%Z s3). assert (builds b s4) as Hb4 by done.
  unfold schedule_closure. rewrite (bind_eq _ _ s tt s1) by done.
  rewrite (bind_eq _ _ s1 (VInst (next_inst (theIR s1)) (TPointer i64)) s2).
  2: { unfold castIntToPointer, getInt64Ty, getContext.
       rewrite (bind_eq _ _ s1 i64 s1).
       - unfold CreateIntToPtr, CreateCast. rewrite bool_decide_false by done.
         rewrite (bind_eq _ _ s1 tt s1) by done. by apply Insert_push.
       - unfold bind, gets, context_of. destruct Hb1 as [-> _]. done. }
  rewrite (bind_eq _ _ s2 (Some e0) s2).
  2: { unfold visitAddressOfExpression. rewrite (bind_eq _ _ s2 (Some e0) s2); [done |].
       unfold namedValue. rewrite (bind_eq _ _ s2 (namedValues s2) s2) by done. simpl. by rewrite He. }
  rewrite (bind_eq _ _ s2 e0 s2) by done.
  rewrite (bind_eq _ _ s2 (VInst (next_inst (theIR s2)) (TPointer i64)) s3).
  2: { unfold CreateBitOrPointerCast. rewrite Te. rewrite bool_decide_false by done. simpl.
       unfold CreateCast. rewrite Te. rewrite bool_decide_false by done.
       rewrite (bind_eq _ _ s2 tt s2) by done. by apply Insert_push. }
  rewrite (bind_eq _ _ s3 (currId s3) s3), (bind_eq _ _ s3 tt s4) by done.
  rewrite (bind_eq _ _ s4 (Some cid) s4) by (unfold gets; simpl; by rewrite Hc).
  rewrite (bind_eq _ _ s4 (Some k) s4) by (unfold gets; simpl; by rewrite Hkw).
  destruct (getFunction_declared s4 (sched_name k) sched_type) as (f & Ef & Tf); [by apply Hb | done |].
  rewrite (bind_eq _ _ s4 (Some (sched_name k, f)) s4).
  2: { repeat (apply elem_of_cons in Hk as [->|Hk]; [simpl; by rewrite (bind_eq _ _ _ _ _ Ef) |]).
       by apply elem_of_nil in Hk. }
  rewrite (bind_eq _ _ s4 cid s4), Tf by done. unfold some.
  erewrite bind_eq by (apply (CreateCall_push b); [done | simpl; by rewrite Tc]).
  eexists _, _. split; [reflexivity |]. split_and!; [| done..].
  simpl. rewrite !lookup_insert_eq. simpl. rewrite Hl0. simpl. rewrite <- !app_assoc. simpl.
  by rewrite !Nat.add_1_r.
Qed.

(** * Witnesses: programs whose last statement leaves a group open. *)

Definition open_group (s : stmt) : cg :=
  (compile some_address some_order
    [FunctionDefinition (KeywordType "int") "f" [] (Some [ReturnStatement (Some (Integer 4))]) false;
     FunctionDefinition (KeywordType "void") "main" [] (Some
       [SVariable (VariableDefinition true "int" "n" (Some (Integer 1)) false);
        SVariable (VariableDefinition true "float" "d" (Some (Float double_zero)) false); s]) false]).2.

Definition open_int : cg :=
  open_group (AssignStatement false (Identifier "n") (BinaryOperator (Identifier "n") "+" (Integer 1))).
Definition open_float : cg :=
  open_group (AssignStatement false (Identifier "d") (BinaryOperator (Identifier "d") "+" (Float double_zero))).

Lemma commit_vector_spec_witness :
  commit_vector [ExpressionStatement false (Integer 1); ExpressionStatement true (Integer 2)] !! 1 =
    Some false.
Proof.
  exact (commit_vector_spec [ExpressionStatement false (Integer 1); ExpressionStatement true (Integer 2)]
    1 (ExpressionStatement true (Integer 2)) eq_refl).
Defined.

(** Decide a concrete fact about a state. *)
Ltac state_tac :=
  lazymatch goal with
  | |- declares _ _ _ => eexists; split; vm_compute; reflexivity
  | |- builds _ _ => split_and!; [vm_compute; reflexivity | vm_compute; reflexivity | vm_compute; by eexists]
  | |- Forall _ _ => vm_compute; repeat constructor
  | |- _ => vm_compute; reflexivity
  end.

Lemma end_group_code_witness :
  exists s' code, end_group open_int = (Ok tt, s') /\
    omap recon_id code = [0%Z] /\ reconVector s' = reconVector open_int /\
    namedValues s' !! "cid" = None.
Proof.
  destruct (end_group_code 1 (default [] (blocks (theIR open_int) !! 1))
    (VInst 5 i64) (VInst 6 (TPointer i64)) (reconVector open_int) [] open_int)
    as (s' & code & H1 & _ & _ & H2 & H3 & _ & H4); [first [exact I | symmetry; apply app_nil_r | state_tac].. |].
  exists s', code. split_and!; [exact H1 | | exact H3 | exact H4].
  rewrite H2. vm_compute. reflexivity.
Defined.

Lemma float_reconciliation_crashes_witness :
  exists s', reconcile 0 (reconVector open_float) open_float =
    (Err (Assertion "Calling a function with a bad signature!"), s').
Proof.
  replace (reconVector open_float) with [(@None value, Some (VInst 3 (TPointer dbl)))]
    by (vm_compute; reflexivity).
  refine (float_reconciliation_crashes 1 (VInst 5 i64) None (VInst 3 (TPointer dbl)) 0 [] open_float
    _ _ _ _); state_tac.
Defined.

(** The state in which a void closure of the group is scheduled. *)
Definition before_schedule : cg :=
  set_lambdaKeyword (Some "void")
    (set_namedValues (<["e0" := Some (VInst 99 (TPointer (TStruct 0)))]> (namedValues open_int)) open_int).

Lemma schedule_code_witness :
  exists v s', schedule_closure some_address "lambda9" None before_schedule = (Ok (Some v), s') /\
    currId s' = 2%Z /\ jitted (theIR s') = ["lambda0"; "lambda9"].
Proof.
  destruct (schedule_code some_address "lambda9" "void" None 1
    (default [] (blocks (theIR before_schedule) !! 1))
    (VInst 5 i64) (VInst 99 (TPointer (TStruct 0))) 0 before_schedule)
    as (v & s' & H1 & _ & H2 & H3 & _);
    [ state_tac | state_tac | set_solver | state_tac | state_tac | state_tac | state_tac | state_tac
    | state_tac |].
  exists v, s'. split_and!; [exact H1 | rewrite H2; vm_compute; reflexivity
    | rewrite H3; vm_compute; reflexivity].
Defined.
