(* ===== verification/LibProps.v ===== *)
(** The properties of the runtime library and of the declarations with which
    the compiler calls it. *)

From S2P Require Import Prelude Ast Runtime RuntimeFacts IR State Builder CodeGenBase CodeGenExpr.
From S2P Require Import CodeGenStmt CodeGenBlock Injections Lib.

Local Open Scope Z_scope.

(** C40. [print_int] prints one line with an [int]: the number itself exactly
    when it fits 32 bits, otherwise another one that agrees with it modulo
    2^32. *)
Theorem print_int_line {heap} i (s : lib (heap := heap)) :
  print_mutex s = false ->
  exists n,
    print_int i s = (Ok tt, print ("Outputing Integer: " +:+ pretty n +:+ newline) s) /\
    - 2 ^ 31 <= n < 2 ^ 31 /\ n `mod` 2 ^ 32 = i `mod` 2 ^ 32 /\
    (n = i <-> - 2 ^ 31 <= i < 2 ^ 31).
Proof.
  intros Hm. exists (wrap 32 i). split_and!.
  - unfold print_int, lock_print, bind, gets, modify. rewrite Hm. by destruct s; simpl in *; subst.
  - apply (wrap_range 32 i). lia.
  - apply (wrap_range 32 i). lia.
  - apply (wrap_mod 32 i). lia.
  - split; [intros <-; apply (wrap_range 32 i); lia | intros H; by apply (wrap_small 32 i)].
Qed.

(** What the allocators ask of the C library: for a count below 2^60 both
    ask for exactly eight bytes each; a negative count makes [malloc] ask for
    nearly 2^64 bytes, and from 2^60 on the product overflows, which [calloc],
    given both factors, leaves to the C library. *)
Theorem allocation_request {heap} malloc calloc n (s : lib (heap := heap)) :
  malloc_mutex s = false -> in_int64 n ->
  (let '(p, h) := malloc (if decide (n < 0) then two64 + 8 * n else 8 * n) (the_heap s) in
   malloc_int malloc n s =
     (if decide (- 2 ^ 60 <= n < 2 ^ 60) then (Ok p, set_heap h s)
      else (Err SignedOverflow, set_malloc_mutex true s))) /\
  (let '(p, h) := calloc (if decide (n < 0) then two64 + n else n) 8 (the_heap s) in
   calloc_int calloc n s = (Ok p, set_heap h s)).
Proof.
  intros Hm Hn.
  assert (forall z, in_int64 z -> size_t z = if decide (z < 0) then two64 + z else z) as Hsize.
  { intros z. unfold size_t, in_int64, two63, two64. intros Hz. case_decide.
    - rewrite <- (Z.mod_add _ 1), Z.mod_small; lia.
    - apply Z.mod_small. lia. }
  assert (in_int64 (n * 8) <-> - 2 ^ 60 <= n < 2 ^ 60) as H8.
  { unfold in_int64, two63 in *. lia. }
  split.
  - destruct (malloc _ (the_heap s)) as [p h] eqn:E.
    unfold malloc_int, malloc_words, lock_malloc, bind, gets, modify. rewrite Hm.
    destruct (decide (- 2 ^ 60 <= n < 2 ^ 60)) as [Hr|Hr].
    + rewrite bool_decide_true by by apply H8. unfold mret, SE_ret at 1, run_heap, bind, gets, modify.
      simpl. rewrite Hsize by by apply H8.
      replace (if decide (n * 8 < 0) then two64 + n * 8 else n * 8)
        with (if decide (n < 0) then two64 + 8 * n else 8 * n) by (repeat case_decide; lia).
      rewrite E. unfold mret, SE_ret. simpl. by destruct s; simpl in *; subst.
    + by rewrite bool_decide_false by by rewrite H8.
  - destruct (calloc _ 8 (the_heap s)) as [p h] eqn:E.
    unfold calloc_int, calloc_words, lock_malloc, run_heap, bind, gets, modify. rewrite Hm. simpl.
    rewrite Hsize by done. rewrite E. unfold mret, SE_ret. simpl. by destruct s; simpl in *; subst.
Qed.

(** * The injected declarations *)

(** The C type that a declaration stands for. *)
Definition ctype_of (type : string) (isPointer : bool) : ctype :=
  if isPointer then CPointer
  else if decide (type = "int") then CInt64
  else if decide (type = "float") then CDouble
  else CVoid.

Definition signature (s : stmt) : option (string * (ctype * list ctype)) :=
  match s with
  | ExternStatement type ident args ptr =>
      Some (ident, (ctype_of type ptr,
        (fun v => ctype_of (stringType v) (vardef_hasPointerType v)) <$> args))
  | _ => None
  end.

(** The injected declarations name exactly the functions of the library's
    prototypes, in order, and agree with them in every type but one: the
    parameter [known] is an integer in the library, and takes the type of the
    value in the declarations of [__recon_float], [__recon_intptr] and
    [__recon_floatptr]. *)
Theorem injections_match_prototypes :
  (omap signature buildInjections).*1 = prototypes.*1 /\
  filter (fun p => p.1 <> p.2) (zip (omap signature buildInjections) prototypes) =
    (fun q => match q : string * ctype with (name, t) =>
       ((name, (t, [t; t; CInt64; CInt64; CInt64])),
        (name, (t, [t; CInt64; CInt64; CInt64; CInt64]))) end) <$>
    [("__recon_float", CDouble); ("__recon_intptr", CPointer); ("__recon_floatptr", CPointer)].
Proof. split; vm_compute; reflexivity. Qed.

(** * Witnesses *)

Definition demo_lib : lib (heap := Z) := mk_lib (new_ParContextManager 2) false false 4096 [].
Definition demo_malloc (n : Z) (h : Z) : Z * Z := (h, h + n).
Definition demo_calloc (n size : Z) (h : Z) : Z * Z := (h, h + n * size).

Lemma print_int_line_witness :
  exists n, print_int (2 ^ 32 + 5) demo_lib =
      (Ok tt, print ("Outputing Integer: " +:+ pretty n +:+ newline) demo_lib) /\
    (n = 2 ^ 32 + 5 <-> - 2 ^ 31 <= 2 ^ 32 + 5 < 2 ^ 31).
Proof.
  destruct (print_int_line (2 ^ 32 + 5) demo_lib eq_refl) as (n & H1 & _ & _ & H2).
  exists n. split; [exact H1 | exact H2].
Defined.

Lemma allocation_request_witness :
  malloc_int demo_malloc 3 demo_lib = (Ok 4096, set_heap 4120 demo_lib) /\
  calloc_int demo_calloc 3 demo_lib = (Ok 4096, set_heap 4120 demo_lib).
Proof.
  refine (allocation_request demo_malloc demo_calloc 3 demo_lib eq_refl _).
  unfold in_int64, two63. lia.
Defined.
