(* ===== verification/Linked.v ===== *)
(** Compiled commit groups on the real runtime: the calls of the code are
    answered by the hidden functions of [lib.cpp], and these by the statement
    manager.  What a closure returns is a parameter here, as the code of the
    closures is compiled apart; GroupCorrect.v says what their functions
    return.  What a closure does to the outside is not followed. *)

From stdpp Require Import functions.
From S2P Require Import Prelude Ast Runtime RuntimeFacts RuntimeConc IR State Builder CodeGenBase CodeGenExpr.
From S2P Require Import CodeGenStmt CodeGenBlock Machine ExprLogic ExprCorrect Source SourceFacts Flow EntryCode.
From S2P Require Import Closure ClosureBody Capture Scheduled GroupRun GroupEnd Lib Library.

(** * The hidden functions *)

Section hidden.
Context {heap : Type}.
#[local] Existing Instance lib_outside.
(** What the closure at an address returns for an environment. *)
Context (code_int : Z -> option nat -> Z) (code_void : Z -> option nat -> unit).
Local Abbreviation state := (lib (heap := heap)).

(** A call that throws, or blocks for ever, does not come back. *)
Definition answer {A} (to_rv : A -> rv) (r : res crash A * state) : option (rv * state) :=
  match r with (Ok a, w) => Some (to_rv a, w) | (Err _, _) => None end.

Definition no_value {A} (_ : A) : rv := RVoid.

(** The functions that the code of a group calls, with the registers of their
    arguments. *)
Definition hidden_names : list string :=
  ["__make_context"; "__fork_sched_int"; "__fork_sched_void"; "__recon_int"; "__recon_void"; "__destroy_context"].

Definition hidden_called (f : string) (rs : list rv) (w : state) : option (rv * state) :=
  match rs with
  | [] => if decide (f = "__make_context") then answer (RInt 64) (lib_make_context w) else None
  | [RInt 64 cid] =>
      if decide (f = "__destroy_context") then answer no_value (lib_destroy_context cid w) else None
  | [RAddr func; RPtr env; RInt 64 id; RInt 64 cid] =>
      if decide (f = "__fork_sched_int") then answer no_value (fork_sched_int code_int func env id cid w)
      else if decide (f = "__fork_sched_void") then answer no_value (fork_sched_void code_void func env id cid w)
      else None
  | [RInt 64 id; RInt 64 max; RInt 64 cid] =>
      if decide (f = "__recon_void") then answer no_value (lib_recon_void id max cid w) else None
  | [RInt 64 original; RInt 64 known; RInt 64 id; RInt 64 max; RInt 64 cid] =>
      if decide (f = "__recon_int") then answer (RInt 64) (lib_recon_int original known id max cid w) else None
  | _ => None
  end.

(** ** The world of a program that is linked with them *)

Context {sigs : Signatures} (base : World (out := lib_outside (heap := heap))).

(** No function of the program has one of their names. *)
Definition hidden_apart : Prop := Forall (fun f => signature_of f = None) hidden_names.

Definition linked_running : Running :=
  {| arguments := arguments (Running := world_running (World := base));
     undefined_division := undefined_division (Running := world_running (World := base));
     called f rs w :=
       if decide (f ∈ hidden_names) then hidden_called f rs w
       else called (Running := world_running (World := base)) f rs w |}.

Definition linked (Ha : hidden_apart) : World (out := lib_outside (heap := heap)).
Proof.
  refine {| world_running := linked_running; world_meaning := world_meaning (World := base) |}.
  - exact (same_undefined (World := base)).
  - exact (undefined_fits (World := base)).
  - intros f sg zs rs z w w' Hf Hz H. simpl.
    rewrite decide_False.
    { exact (called_agrees (World := base) f sg zs rs z w w' Hf Hz H). }
    intros Hin. rewrite (proj1 (Forall_forall _ _) Ha f Hin) in Hf. discriminate.
Defined.
End hidden.

(** * The manager in a group *)

Section opened.
Local Open Scope Z_scope.
(** The manager behind [make_context], but for the context it has made. *)
Context (m0 : ParContextManager) (c : Z).
Context (Hmutex : mutex m0 = false) (Hcount : 0 <= thread_count m0) (Hmax : max_threads m0 <= 4).

(** The context [c] has the futures [sc], and those with a thread count. *)
Definition opened (sc : StatementContext) : ParContextManager :=
  set_thread_count (thread_count m0 + async_in sc) (set_context_map (<[c := sc]> (context_map m0)) m0).

Definition fits (sc : StatementContext) : Prop := thread_count m0 + async_in sc <= max_threads m0.

Lemma fits_range sc : fits sc -> 0 <= thread_count m0 + async_in sc <= 4.
Proof. unfold fits. pose proof (async_in_nonneg sc). lia. Qed.

Lemma opened_pending sc k id : pending (opened sc) c k id = (f ← futures sc k !! id; Some f.1.2).
Proof. unfold pending, opened. simpl. by rewrite lookup_insert_eq. Qed.

Section future_of.
Context {A : Type} `{FutureMap A}.

Lemma sched_opened {Env} (st : Env -> A) env id sc :
  fits sc -> fm_get sc !! id = None ->
  exists sc', sched st env id c (opened sc) = (Ok tt, opened sc') /\ fits sc' /\
    forall k z, pending (opened sc') c k z =
      if bool_decide (k = fm_kind (A := A) /\ z = id) then Some (fm_dyn (st env)) else pending (opened sc) c k z.
Proof.
  intros Hf Hnone. pose proof (fits_range sc Hf) as Hr.
  set (m := opened sc) in *. set (f := std_async (sched_policy m) st env).
  set (sc' := fm_set (<[id := f]> (fm_get sc)) sc). exists sc'.
  assert (async_in sc' = async_in sc + (sched_count m - thread_count m)) as Ha.
  { unfold sc'. rewrite async_in_insert, Hnone. unfold f. rewrite slot_sched. simpl. lia. }
  assert (add_to f id c sc (set_thread_count (sched_count m) m) = opened sc') as Hadd.
  { assert (thread_count m = thread_count m0 + async_in sc) as Hm by done.
    unfold add_to, opened, set_context_map, set_thread_count. simpl. rewrite insert_insert_eq, Ha, Hm. f_equal. lia. }
  split_and!.
  - rewrite sched_eq; [| done |].
    + cbv zeta. change (context_map m) with (<[c := sc]> (context_map m0)).
      rewrite lookup_insert_eq, Hnone, <- Hadd. reflexivity.
    + unfold sched_count, in_int64, two63. simpl. destruct (_ <=? _); lia.
  - unfold fits in *. rewrite Ha. unfold sched_count. simpl.
    destruct (Z.leb_spec (max_threads m0) (thread_count m0 + async_in sc)); lia.
  - intros k z. rewrite <- Hadd. 
    rewrite (pending_add f id c sc (set_thread_count (sched_count m) m) c k z) by (simpl; apply lookup_insert_eq).
    replace (bool_decide (c = c /\ k = fm_kind (A := A) /\ z = id)) with (bool_decide (k = fm_kind (A := A) /\ z = id))
      by (apply bool_decide_ext; tauto).
    done.
Qed.

Lemma recon_opened id sc f :
  fits sc -> fm_get sc !! id = Some f ->
  exists sc', Runtime.recon (A := A) id c (opened sc) = (Ok (Runtime.value f), opened sc') /\ fits sc' /\
    forall k z, pending (opened sc') c k z =
      if bool_decide (k = fm_kind (A := A) /\ z = id) then None else pending (opened sc) c k z.
Proof.
  intros Hf Hsome. pose proof (fits_range sc Hf) as Hr.
  set (sc' := fm_set (delete id (fm_get sc)) sc). exists sc'.
  pose proof (async_in_delete sc id f Hsome) as Ha. change (async_in sc' = async_in sc - slot f) in Ha.
  assert (remove_from (A := A) id c sc (opened sc) = set_thread_count (thread_count m0 + async_in sc) (opened sc')) as Hrem.
  { unfold remove_from, opened, set_context_map, set_thread_count. simpl. by rewrite insert_insert_eq. }
  split_and!.
  - unfold Runtime.recon. erewrite bind_eq.
    2: { rewrite recon_take_eq by done. simpl. rewrite lookup_insert_eq, Hsome. reflexivity. }
    rewrite Hrem. rewrite slot_policy in Ha. destruct (policy f).
    + unfold mret, SE_ret. by rewrite <- (Z.sub_0_r (async_in sc)), <- Ha.
    + erewrite bind_eq; [| apply recon_release_eq; [done | unfold in_int64, two63; simpl; lia]].
      unfold mret, SE_ret, opened, set_thread_count. simpl. do 3 f_equal. lia.
  - unfold fits in *. rewrite Ha. pose proof (slot_nonneg f). lia.
  - intros k z. pose proof (pending_remove (A := A) id c sc (opened sc) c k z) as Hp. rewrite Hrem in Hp.
    replace (bool_decide (c = c /\ k = fm_kind (A := A) /\ z = id)) with (bool_decide (k = fm_kind (A := A) /\ z = id)) in Hp
      by (apply bool_decide_ext; tauto).
    apply Hp. simpl. apply lookup_insert_eq.
Qed.

(** A statement that is not there: [at] throws, the mutex stays locked. *)
Lemma recon_missing id sc :
  fm_get sc !! id = None ->
  exists m, Runtime.recon (A := A) id c (opened sc) = (Err OutOfRange, m) /\ mutex m = true.
Proof.
  intros Hnone. unfold Runtime.recon, bind. rewrite recon_take_eq by done. simpl. rewrite lookup_insert_eq, Hnone.
  by eexists.
Qed.

Lemma opened_get sc id : fm_get sc !! id = None <-> pending (opened sc) c (fm_kind (A := A)) id = None.
Proof. rewrite opened_pending, futures_lookup. by destruct (fm_get sc !! id). Qed.

Lemma opened_value sc id d : pending (opened sc) c (fm_kind (A := A)) id = Some d ->
  exists f, fm_get sc !! id = Some f /\ fm_dyn (Runtime.value f) = d.
Proof.
  rewrite opened_pending, futures_lookup. destruct (fm_get sc !! id) as [f|]; [| done].
  simpl. intros [= <-]. by exists f.
Qed.
End future_of.

(** With nothing pending no thread counts, and the context can go. *)
Lemma destroy_opened sc :
  (forall k id, pending (opened sc) c k id = None) -> context_map m0 !! c = None ->
  destroy_context c (opened sc) = (Ok tt, m0).
Proof.
  intros Hp Hc. assert (forall k, futures sc k = ∅) as He.
  { intros k. apply map_eq. intros id. rewrite lookup_empty. specialize (Hp k id). rewrite opened_pending in Hp.
    by destruct (futures sc k !! id). }
  assert (async_in sc = 0) as Ha by (unfold async_in; rewrite !He; reflexivity).
  rewrite destroy_context_eq by done. simpl. rewrite lookup_insert_eq. unfold opened. rewrite Ha, Z.add_0_r.
  unfold set_context_map, set_thread_count. simpl. rewrite delete_insert_id by done. by destruct m0.
Qed.
End opened.

(** * The protocol of the manager *)

Section linked.
Context {heap : Type}.
#[local] Existing Instance lib_outside.
Context (code_int : Z -> option nat -> Z) (code_void : Z -> option nat -> unit).
Context (code_range : forall a e, in_int64 (code_int a e)).
Context {sigs : Signatures} (base : World (out := lib_outside (heap := heap))).
Context (apart : hidden_apart).
Local Abbreviation world := (linked code_int code_void base apart).
Local Abbreviation state := (lib (heap := heap)).

(** The library in front of a group: the manager is unlocked, counts between
    zero and its limit threads, and has not used its next number. *)
Record idle (w : state) : Prop := mk_idle {
  idle_mutex : mutex (manager w) = false;
  idle_count : (0 <= thread_count (manager w) <= max_threads (manager w))%Z;
  idle_limit : (max_threads (manager w) <= 4)%Z;
  idle_fresh : context_map (manager w) !! next_cid (manager w) = None;
  idle_number : in_int64 (next_cid (manager w) + 1)
}.

(** What an int closure returns. *)
Definition returned (x : filed) : Z := code_int (filed_address x) (Some (filed_env x)).

(** What statement [id] of kind [k] gives when the statements [l] are filed and
    the first [i] of them collected. *)
Definition delivers (x : filed) : kind * dyn :=
  match filed_type x with FkInt => (KInt, DInt (returned x)) | _ => (KVoid, DVoid) end.

Definition due (i : nat) (l : list filed) (k : kind) (id : Z) : option dyn :=
  if bool_decide (Z.of_nat i <= id)%Z then
    x ← l !! Z.to_nat id; if decide ((delivers x).1 = k) then Some (delivers x).2 else None
  else None.

Context (w : state) (w_idle : idle w).
Local Abbreviation c := (next_cid (manager w)).
Local Abbreviation m0 := (set_next_cid (next_cid (manager w) + 1) (manager w)).

(** The library while the group is worked on. *)
Definition at_work (i : nat) (l : list filed) (w' : state) : Prop :=
  exists sc, w' = set_manager (opened m0 c sc) w /\ fits m0 sc /\
    forall k id, pending (opened m0 c sc) c k id = due i l k id.

Lemma due_end l k id : due (length l) l k id = None.
Proof.
  unfold due. case_bool_decide; [| done]. rewrite lookup_ge_None_2; [done |]. lia.
Qed.

Lemma due_filed l x k id :
  due 0 (l ++ [x]) k id =
    if bool_decide (k = (delivers x).1 /\ id = Z.of_nat (length l)) then Some (delivers x).2 else due 0 l k id.
Proof.
  unfold due. destruct (decide (id = Z.of_nat (length l))) as [->|Hne].
  - rewrite (bool_decide_true (_ <= _)%Z) by lia. rewrite Nat2Z.id, lookup_app_r, Nat.sub_diag by lia. simpl.
    rewrite lookup_ge_None_2 by lia. simpl.
    destruct (decide ((delivers x).1 = k)) as [<-|Hk]; [by rewrite bool_decide_true |].
    by rewrite bool_decide_false by (intros [-> _]; done).
  - rewrite (bool_decide_false (_ /\ _)) by tauto. case_bool_decide; [| done].
    destruct (decide (id < Z.of_nat (length l))%Z).
    + rewrite lookup_app_l by lia. done.
    + rewrite !lookup_ge_None_2; [done | lia | rewrite length_app; simpl; lia].
Qed.

Lemma due_collected i l x k id : l !! i = Some x ->
  due (S i) l k id = if bool_decide (k = (delivers x).1 /\ id = Z.of_nat i) then None else due i l k id.
Proof.
  intros Hx. unfold due. destruct (decide (id = Z.of_nat i)) as [->|Hne].
  - rewrite (bool_decide_false (Z.of_nat (S i) <= _)%Z) by lia. rewrite (bool_decide_true (_ <= _)%Z) by lia.
    rewrite Nat2Z.id, Hx. simpl.
    destruct (decide ((delivers x).1 = k)) as [<-|Hk]; [by rewrite bool_decide_true |].
    by rewrite bool_decide_false by (intros [-> _]; done).
  - rewrite (bool_decide_false (_ /\ _)) by tauto.
    destruct (decide (Z.of_nat i <= id)%Z).
    + by rewrite !bool_decide_true by lia.
    + by rewrite !bool_decide_false by lia.
Qed.

Lemma due_at i l x : l !! i = Some x -> due i l (delivers x).1 (Z.of_nat i) = Some (delivers x).2.
Proof. intros Hx. unfold due. rewrite bool_decide_true, Nat2Z.id, Hx by lia. simpl. by rewrite decide_True. Qed.

Lemma make_context_linked :
  called (Running := world_running (World := world)) "__make_context" [] w =
    Some (RInt 64 c, set_manager (opened m0 c new_StatementContext) w).
Proof.
  change (answer (RInt 64) (lib_make_context w) = Some (RInt 64 c, set_manager (opened m0 c new_StatementContext) w)).
  unfold lib_make_context, on_manager. destruct w_idle. rewrite make_context_eq by done. simpl.
  unfold opened. rewrite new_context_no_async, Z.add_0_r. reflexivity.
Qed.

Lemma at_work_begin : at_work 0 [] (set_manager (opened m0 c new_StatementContext) w).
Proof.
  exists new_StatementContext. split_and!; [done | |].
  - unfold fits. rewrite new_context_no_async. destruct w_idle. simpl. lia.
  - intros k id. rewrite opened_pending. unfold due. simpl. case_bool_decide; by destruct k.
Qed.

(** The void and the int statements at once: the calls of [sched] and [recon]
    at the value type. *)
Lemma sched_at_work {A} `{FutureMap A} (st : option nat -> A) x l w' :
  at_work 0 l w' -> fm_kind (A := A) = (delivers x).1 -> fm_dyn (st (Some (filed_env x))) = (delivers x).2 ->
  exists w'', on_manager (sched st (Some (filed_env x)) (Z.of_nat (length l)) c) w' = (Ok tt, w'') /\
    at_work 0 (l ++ [x]) w''.
Proof.
  intros (sc & -> & Hf & Hp) Hk Hd. destruct w_idle.
  destruct (sched_opened m0 c idle_mutex0 ltac:(simpl; lia) idle_limit0 st (Some (filed_env x)) (Z.of_nat (length l)) sc Hf)
    as (sc' & E & Hf' & Hp').
  { apply (opened_get m0 c). rewrite Hp. unfold due. case_bool_decide; [| done].
    rewrite lookup_ge_None_2; [done | lia]. }
  exists (set_manager (opened m0 c sc') w). split; [unfold on_manager; simpl; by rewrite E |].
  exists sc'. split_and!; [done | done |]. intros k id. by rewrite Hp', Hp, due_filed, Hk, Hd.
Qed.

Lemma recon_at_work {A} `{FutureMap A} i l x w' :
  at_work i l w' -> l !! i = Some x -> fm_kind (A := A) = (delivers x).1 ->
  exists (a : A) w'', on_manager (Runtime.recon (Z.of_nat i) c) w' = (Ok a, w'') /\ fm_dyn a = (delivers x).2 /\
    at_work (S i) l w''.
Proof.
  intros (sc & -> & Hf & Hp) Hx Hk. destruct w_idle.
  destruct (opened_value (A := A) m0 c sc (Z.of_nat i) (delivers x).2) as (f & Hget & Hd).
  { rewrite Hp, Hk. by apply due_at. }
  destruct (recon_opened m0 c idle_mutex0 ltac:(simpl; lia) idle_limit0 (Z.of_nat i) sc f Hf Hget) as (sc' & E & Hf' & Hp').
  exists (Runtime.value f), (set_manager (opened m0 c sc') w). split_and!; [unfold on_manager; simpl; by rewrite E | done |].
  exists sc'. split_and!; [done | done |]. intros k id. by rewrite Hp', Hp, (due_collected i l x), Hk.
Qed.

#[export] Instance linked_protocol : Protocol (world := world) c returned.
Proof.
  refine {| filing := at_work 0; collecting := at_work |}.
  - intros l [t a e] w' Hw Hid Ht. simpl in Ht. destruct Ht; subst t.
    + destruct (sched_at_work (H := int_FutureMap) (code_int a) (mk_filed FkInt a e) l w' Hw eq_refl eq_refl) as (w'' & E & Hw'').
      exists RVoid, w''. split; [| done].
      change (answer no_value (fork_sched_int code_int a (Some e) (Z.of_nat (length l)) c w') = Some (RVoid, w'')).
      unfold fork_sched_int, sched_int. cbn [filed_env] in E. by rewrite E.
    + destruct (sched_at_work (H := void_FutureMap) (code_void a) (mk_filed FkVoid a e) l w' Hw eq_refl eq_refl) as (w'' & E & Hw'').
      exists RVoid, w''. split; [| done].
      change (answer no_value (fork_sched_void code_void a (Some e) (Z.of_nat (length l)) c w') = Some (RVoid, w'')).
      unfold fork_sched_void, sched_void. cbn [filed_env] in E. by rewrite E.
  - done.
  - intros i l [t a e] n max w' Hw Hx Ht. simpl in Ht. subst t.
    destruct (recon_at_work (H := int_FutureMap) i l (mk_filed FkInt a e) w' Hw Hx eq_refl) as (v & w'' & E & Hv & Hw'').
    injection Hv as ->. exists w''. split_and!; [| apply code_range | done].
    change (answer (RInt 64) (lib_recon_int n 1 (Z.of_nat i) max c w') = Some (RInt 64 (returned (mk_filed FkInt a e)), w'')).
    unfold lib_recon_int, recon_int. by rewrite E.
  - intros i l [t a e] max w' Hw Hx Ht. simpl in Ht. subst t.
    destruct (recon_at_work (H := void_FutureMap) i l (mk_filed FkVoid a e) w' Hw Hx eq_refl) as (v & w'' & E & Hv & Hw'').
    exists RVoid, w''. split; [| done].
    change (answer no_value (lib_recon_void (Z.of_nat i) max c w') = Some (RVoid, w'')).
    unfold lib_recon_void, recon_void. by rewrite E.
  - intros l w' (sc & -> & Hf & Hp).
    change (is_Some (answer no_value (lib_destroy_context c (set_manager (opened m0 c sc) w)))).
    unfold lib_destroy_context, on_manager. destruct w_idle. simpl.
    rewrite (destroy_opened m0 c); [by eexists | done | | | | done]; [simpl; lia | done |].
    intros k id. by rewrite Hp, due_end.
Defined.

Lemma destroy_linked l w' r w'' : at_work (length l) l w' ->
  called (Running := world_running (World := world)) "__destroy_context" [RInt 64 c] w' = Some (r, w'') ->
  w'' = set_manager m0 w.
Proof.
  intros (sc & -> & Hf & Hp).
  change (answer no_value (lib_destroy_context c (set_manager (opened m0 c sc) w)) = Some (r, w'') -> w'' = set_manager m0 w).
  unfold lib_destroy_context, on_manager. destruct w_idle. simpl.
  rewrite (destroy_opened m0 c); [by intros [= _ <-] | done | simpl; lia | done | | done].
  intros k id. by rewrite Hp, due_end.
Qed.
End linked.
