(* ===== verification/LinkedProps.v ===== *)
(** Compiled commit groups, run on the statement manager: the first group of a
    program does what it means and leaves the manager as it was; a later one
    asks for statements that were never scheduled, and throws. *)

From stdpp Require Import functions.
From S2P Require Import GroupProps.
From S2P Require Import Prelude Ast Runtime RuntimeFacts RuntimeConc IR State Builder CodeGenBase CodeGenExpr.
From S2P Require Import CodeGenStmt CodeGenBlock Machine ExprLogic ExprCorrect Source SourceFacts Flow EntryCode.
From S2P Require Import Closure ClosureBody Capture Scheduled GroupRun GroupEnd Lib Library GroupCorrect Linked.

(** * A group on the manager *)

Section on_manager.
Context {heap : Type}.
#[local] Existing Instance lib_outside.
Context (code_int : Z -> option nat -> Z) (code_void : Z -> option nat -> unit).
Context {sigs : Signatures} (base : World (out := lib_outside (heap := heap))) (apart : hidden_apart).
Local Abbreviation world := (linked code_int code_void base apart).
Context (jit_address : string -> Z).
Context (hash_order : gmap string (option value) -> list (string * option value)).
Context (fname : string) (funt : fun_ty) (b : nat) (m0 : machine (out := lib_outside (heap := heap))).
Local Abbreviation group_closed := (group_closed (world := world) fname funt b m0).
Local Abbreviation visit_statements := (visit_statements jit_address hash_order (visitClosureBlock jit_address hash_order)).
Local Abbreviation with_visits := (with_visits jit_address hash_order).

(** C5. The first commit group of a program, compiled and run on the statement
    manager of the runtime library: under the conditions of the theorem on
    groups, with an unlocked manager that counts no more threads than its limit
    (four at most) and has not used its next context number, the group is
    compiled without a message, its code runs to the statement that ends the
    group, and leaves the library as it was but for the context number: every
    statement was scheduled and collected, none is left, and every thread that
    was counted is given back, however many of the statements got one.  Each
    int variable assigned to has what the closure scheduled for it returned;
    and if the closures return what their statements mean, as their functions
    do, the variables are those the group means: every statement sees the
    variables as they were in front of the group. *)
Theorem group_on_manager G env cv i l st rest last (m : machine (out := lib_outside (heap := heap))) s :
  (forall a e, in_int64 (code_int a e)) ->
  (forall g, Permutation (hash_order g) (map_to_list g)) ->
  (forall k : Z, signature_of ("lambda" +:+ pretty k) = None) ->
  idle (around m) -> group_closed G env m s -> reconVector s = [] ->
  l <> [] -> Forall (settled G) l -> in_int64 (Z.of_nat (length l)) ->
  (forall j, j < length l -> cv !! (i + j) = Some false) -> cv !! (i + length l) = Some true ->
  exists es (m1 : machine (out := lib_outside (heap := heap))) s' m',
    let fs := files jit_address G (lambdaNum s) l es in
    let env' := answers (returned code_int) (assigned <$> l) fs env in
    visit_statements cv i (with_visits (l ++ st :: rest)) last s =
      (last <- accept jit_address hash_order st ;;
       visit_statements cv (S (i + length l)) (with_visits rest) last) s' /\
    closures_made G env (lambdaNum s) l es (mem m) m1 s' /\
    group_closed G env' m' s' /\ errors s' = errors s /\ namedValues s' = namedValues s /\
    around m' = set_manager (set_next_cid (next_cid (manager (around m)) + 1) (manager (around m))) (around m) /\
    (Forall2 (fun st f => forall x, assigned st = Some x -> gives (meaning := world_meaning (World := base)) env st (returned code_int f)) l fs ->
      meant (meaning := world_meaning (World := base)) env l env env').
Proof.
  intros Hcode Ho Hsig Hw Hg Hr Hne Hl Hsmall Hcv Hend.
  destruct (commit_group_at (world := world) jit_address hash_order fname funt b m0
    (Protocol0 := linked_protocol code_int code_void Hcode base apart (around m) Hw)
    G env cv i l st rest last _ m s Ho Hsig (make_context_linked code_int code_void base apart _ Hw)
    (at_work_begin code_int _ Hw) Hg Hr Hne Hl Hsmall Hcv Hend)
    as (es & m1 & w2 & s' & m' & r & Hv & _ & Hc & _ & Hw2 & Hd & Hg' & He & Hn).
  exists es, m1, s', m'. split_and!; [done.. | |].
  - eapply (destroy_linked code_int code_void base apart _ Hw _ _ _ _ Hw2 Hd).
  - apply answers_meant.
Qed.
End on_manager.

(** * A later group *)

Section later.
Context {heap : Type}.
#[local] Existing Instance lib_outside.
Context (code_int : Z -> option nat -> Z) (code_void : Z -> option nat -> unit).
Context (code_range : forall a e, in_int64 (code_int a e)).
Context {sigs : Signatures} (base : World (out := lib_outside (heap := heap))) (apart : hidden_apart).
Local Abbreviation world := (linked code_int code_void base apart).
Local Abbreviation machine := (machine (out := lib_outside (heap := heap))).
Local Abbreviation run := (run (running := world_running (World := world))).
Local Abbreviation eval_value := (eval_value (running := world_running (World := world))).
Local Abbreviation exec := (exec (running := world_running (World := world))).

(** The call asks for a statement that is not there: [recon] throws, and
    leaves the manager's mutex locked. *)
Definition recon_throws (f : string) (rs : list rv) (w : lib (heap := heap)) : Prop :=
  exists w', mutex (manager w') = true /\
    ((exists original known id max cid, f = "__recon_int" /\
        rs = [RInt 64 original; RInt 64 known; RInt 64 id; RInt 64 max; RInt 64 cid] /\
        lib_recon_int original known id max cid w = (Err OutOfRange, w')) \/
     (exists id max cid, f = "__recon_void" /\ rs = [RInt 64 id; RInt 64 max; RInt 64 cid] /\
        lib_recon_void id max cid w = (Err OutOfRange, w'))).

(** Started in [m], the code gets to such a call. *)
Definition ends_in_throw (m : machine) (code : list (nat * inst)) : Prop :=
  exists l1 n f args l2 m' rs, code = l1 ++ (n, ICall f args) :: l2 /\ run m l1 = Some m' /\
    mapM (eval_value (regs m')) args = Some rs /\ recon_throws f rs (around m').

Lemma ends_in_throw_app m m' l1 l2 :
  run m l1 = Some m' -> ends_in_throw m' l2 -> ends_in_throw m (l1 ++ l2).
Proof.
  intros Hr (k1 & n & f & args & k2 & m2 & rs & -> & Hr2 & He & Ht).
  exists (l1 ++ k1), n, f, args, k2, m2, rs. split_and!; [by rewrite <- app_assoc | | done | done].
  rewrite run_app, Hr. exact Hr2.
Qed.

Lemma ends_in_throw_more m l1 l2 : ends_in_throw m l1 -> ends_in_throw m (l1 ++ l2).
Proof.
  intros (k1 & n & f & args & k2 & m2 & rs & -> & H). exists k1, n, f, args, (k2 ++ l2), m2, rs.
  split; [by rewrite <- app_assoc | done].
Qed.

Lemma exec_call (m : machine) n f args rs : mapM (eval_value (regs m)) args = Some rs ->
  exec m (n, ICall f args) =
    ('(r, w) ← called (Running := world_running (World := world)) f rs (around m);
     Some (mk_machine (<[n := r]> (regs m)) (mem m) w)).
Proof. intros He. unfold exec, effect. cbn [fst snd]. rewrite He. reflexivity. Qed.

Lemma exec_load (m : machine) n v t slot r : getType v = TPointer t ->
  eval_value (regs m) v = Some (RPtr (Some slot)) -> mem m !! slot = Some r ->
  exec m (n, ILoad v) = Some (mk_machine (<[n := r]> (regs m)) (mem m) (around m)).
Proof. intros Tv Hv Hm. unfold exec, effect, result. cbn [fst snd]. rewrite Hv, Tv. simpl. by rewrite Hm. Qed.

Lemma exec_store (m : machine) n x v slot r : eval_value (regs m) x = Some r ->
  eval_value (regs m) v = Some (RPtr (Some slot)) ->
  exec m (n, IStore x v) = Some (mk_machine (regs m) (<[slot := r]> (mem m)) (around m)).
Proof. intros Hx Hv. unfold exec. cbn [fst snd]. by rewrite Hv, Hx. Qed.

(** The code does not get further. *)
Lemma ends_in_throw_stops m code : ends_in_throw m code -> run m code = None.
Proof.
  intros (l1 & n & f & args & l2 & m' & rs & -> & Hr & He & w' & _ & Ht). rewrite run_app, Hr. simpl.
  rewrite (exec_call _ _ _ _ _ He).
  destruct Ht as [(o & k & id & mx & cid & -> & -> & E)|(id & mx & cid & -> & -> & E)];
    simpl; by rewrite E.
Qed.

Context (w : lib (heap := heap)) (w_idle : idle w).
Local Abbreviation c := (next_cid (manager w)).
Local Abbreviation at_work := (at_work code_int w).

Lemma recon_at_work_missing {A} `{FutureMap A} i l w' :
  at_work i l w' -> due code_int i l (fm_kind (A := A)) (Z.of_nat i) = None ->
  exists w'', on_manager (Runtime.recon (A := A) (Z.of_nat i) c) w' = (Err OutOfRange, w'') /\
    mutex (manager w'') = true.
Proof.
  intros (sc & -> & Hf & Hp) Hd. pose proof (idle_mutex _ w_idle) as Hmu.
  destruct (fun H => recon_missing (A := A) (set_next_cid (c + 1) (manager w)) c Hmu (Z.of_nat i) sc H)
    as (m & E & Hm).
  { apply (opened_get (set_next_cid (c + 1) (manager w)) c). by rewrite Hp. }
  exists (set_manager m w). split; [unfold on_manager; simpl; by rewrite E | done].
Qed.

Lemma due_other i l k : (forall x, l !! i = Some x -> (delivers code_int x).1 <> k) -> due code_int i l k (Z.of_nat i) = None.
Proof.
  intros Hx. unfold due. rewrite bool_decide_true, Nat2Z.id by lia. destruct (l !! i) as [x|]; [| done].
  simpl. rewrite decide_False; [done |]. by apply Hx.
Qed.

(** An entry of the vector whose code can be run. *)
Definition entry_ready (m : machine) (p : option value * option value) : Prop :=
  match p.2 with
  | Some v => getType v = TPointer i64 /\
      exists slot n, eval_value (regs m) v = Some (RPtr (Some slot)) /\ mem m !! slot = Some (RInt 64 n)
  | None => True
  end.

Lemma entry_ready_mono (m m' : machine) p :
  regs m ⊆ regs m' -> (forall slot n, mem m !! slot = Some (RInt 64 n) -> exists n', mem m' !! slot = Some (RInt 64 n')) ->
  entry_ready m p -> entry_ready m' p.
Proof.
  intros R M. unfold entry_ready. destruct p.2 as [v|]; [| done]. intros (Tv & slot & n & Hv & Hm).
  destruct (M _ _ Hm) as [n' Hn']. split; [done |]. exists slot, n'. split; [by eapply eval_value_mono | done].
Qed.

Lemma entry_ready_store m r w' slot n n' l :
  mem m !! slot = Some (RInt 64 n) -> regs m ⊆ r -> Forall (entry_ready m) l ->
  Forall (entry_ready (mk_machine r (<[slot := RInt 64 n']> (mem m)) w')) l.
Proof.
  intros Hm R Hl. eapply Forall_impl; [exact Hl |]. intros p. apply entry_ready_mono; [done |].
  intros slot' k Hk. simpl. destruct (decide (slot = slot')) as [->|Hne]; [rewrite lookup_insert_eq; eauto |].
  rewrite lookup_insert_ne by done. eauto.
Qed.

(** Where the code of an entry stands: at number [i] of the statements [fs]. *)
Record collects (fs : list filed) (cid : value) (i first : nat) (m : machine) : Prop := {
  co_work : at_work i fs (around m);
  co_cid : eval_value (regs m) cid = Some (RInt 64 c);
  co_fresh : forall id r, regs m !! id = Some r -> id < first
}.

(** The code of an entry throws, or collects a statement. *)
Definition collects_or_throws (fs : list filed) (cid : value) (i first : nat) (m : machine) (code : list inst) : Prop :=
  ends_in_throw m (number first code) \/
  exists m', run m (number first code) = Some m' /\ i < length fs /\ collects fs cid (S i) (first + length code) m' /\
    forall l, Forall (entry_ready m) l -> Forall (entry_ready m') l.

Lemma fresh_insert (r : gmap nat rv) first x : (forall id y, r !! id = Some y -> id < first) ->
  r ⊆ <[first := x]> r /\ forall id y, <[first := x]> r !! id = Some y -> id < S first.
Proof.
  intros H. split.
  - apply insert_subseteq. destruct (r !! first) eqn:E; [| done]. apply H in E. lia.
  - intros id y [[<- _]|[_ Hy]]%lookup_insert_Some; [lia |]. apply H in Hy. lia.
Qed.

Lemma constant_small (fs : list filed) i : i <= length fs -> in_int64 (Z.of_nat (length fs)) -> wrap 64 (Z.of_nat i) = Z.of_nat i.
Proof. intros Hi H. apply wrap_int64. unfold in_int64, two63 in *. lia. Qed.

(** A statement of kind [k] is filed under the number, or not. *)
Lemma filed_kind (fs : list filed) i k :
  (exists x, fs !! i = Some x /\ (delivers code_int x).1 = k) \/ due code_int i fs k (Z.of_nat i) = None.
Proof.
  destruct (fs !! i) as [x|] eqn:E.
  - destruct (decide ((delivers code_int x).1 = k)); [eauto |]. right. apply due_other. intros y Hy. congruence.
  - right. apply due_other. intros y Hy. congruence.
Qed.

Lemma void_entry_runs fs cid i first max m :
  i <= length fs -> in_int64 (Z.of_nat (length fs)) -> collects fs cid i first m ->
  collects_or_throws fs cid i first m [ICall "__recon_void" [int (Z.of_nat i); int max; cid]].
Proof.
  intros Hi Hn [Hw Hc Hf].
  assert (mapM (eval_value (regs m)) [int (Z.of_nat i); int max; cid] =
    Some [RInt 64 (Z.of_nat i); RInt 64 (wrap 64 max); RInt 64 c]) as He.
  { simpl. rewrite (constant_small fs) by done. simpl in Hc. by rewrite Hc. }
  destruct (filed_kind fs i KVoid) as [(x & Hx & Hk)|Hd].
  - right. destruct (recon_at_work (H := void_FutureMap) code_int code_void w w_idle i fs x _ Hw Hx (eq_sym Hk)) as ([] & w'' & E & _ & Hw'').
    exists (mk_machine (<[first := RVoid]> (regs m)) (mem m) w'').
    destruct (fresh_insert (regs m) first RVoid Hf) as [R F]. split_and!.
    + cbn [number Machine.run]. rewrite (exec_call _ _ _ _ _ He).
      change (called (Running := world_running (World := world)) "__recon_void"
        [RInt 64 (Z.of_nat i); RInt 64 (wrap 64 max); RInt 64 c] (around m))
        with (answer no_value (lib_recon_void (Z.of_nat i) (wrap 64 max) c (around m))).
      unfold lib_recon_void, recon_void. rewrite E. reflexivity.
    + by eapply lookup_lt_Some.
    + split; [done | by eapply eval_value_mono | intros id r H; apply F in H; simpl; lia].
    + intros l Hl. eapply Forall_impl; [exact Hl |]. intros p. apply entry_ready_mono; [done |]. simpl. eauto.
  - left. destruct (recon_at_work_missing (H := void_FutureMap) i fs _ Hw Hd) as (w'' & E & Hm).
    eexists [], first, _, _, [], m, _. split_and!; [reflexivity | reflexivity | exact He |].
    exists w''. split; [done |]. right. by eexists _, _, _.
Qed.

Lemma int_entry_runs fs cid i first max m v slot n :
  i <= length fs -> in_int64 (Z.of_nat (length fs)) -> collects fs cid i first m ->
  getType v = TPointer i64 -> eval_value (regs m) v = Some (RPtr (Some slot)) -> mem m !! slot = Some (RInt 64 n) ->
  collects_or_throws fs cid i first m
    [ILoad v; ICall "__recon_int" [VInst first i64; int 1; int (Z.of_nat i); int max; cid]; IStore (VInst (S first) i64) v].
Proof.
  intros Hi Hn [Hw Hc Hf] Tv Hv Hm.
  destruct (fresh_insert (regs m) first (RInt 64 n) Hf) as [R1 F1].
  set (m1 := mk_machine (<[first := RInt 64 n]> (regs m)) (mem m) (around m)).
  assert (run m [(first, ILoad v)] = Some m1) as E1.
  { cbn [Machine.run]. by rewrite (exec_load _ _ _ _ _ _ Tv Hv Hm). }
  assert (mapM (eval_value (regs m1)) [VInst first i64; int 1; int (Z.of_nat i); int max; cid] =
    Some [RInt 64 n; RInt 64 1; RInt 64 (Z.of_nat i); RInt 64 (wrap 64 max); RInt 64 c]) as He.
  { pose proof (eval_value_mono _ _ _ _ R1 Hc) as Hc1. simpl in Hc1 |- *. rewrite lookup_insert_eq. simpl.
    rewrite (constant_small fs) by done. by rewrite Hc1. }
  destruct (filed_kind fs i KInt) as [(x & Hx & Hk)|Hd].
  - right. destruct (recon_at_work (H := int_FutureMap) code_int code_void w w_idle i fs x _ Hw Hx (eq_sym Hk)) as (a & w'' & E & _ & Hw'').
    destruct (fresh_insert (regs m1) (S first) (RInt 64 a) F1) as [R2 F2].
    set (m2 := mk_machine (<[S first := RInt 64 a]> (regs m1)) (mem m) w'').
    exists (mk_machine (regs m2) (<[slot := RInt 64 a]> (mem m)) w'').
    assert (regs m ⊆ regs m2) as R by by etrans. split_and!.
    + change (number first ?l) with ([(first, ILoad v)] ++ number (S first) (tail l)). cbn [tail].
      rewrite run_app, E1. cbn [mbind option_bind number Machine.run]. rewrite (exec_call _ _ _ _ _ He).
      change (called (Running := world_running (World := world)) "__recon_int"
        [RInt 64 n; RInt 64 1; RInt 64 (Z.of_nat i); RInt 64 (wrap 64 max); RInt 64 c] (around m1))
        with (answer (RInt 64) (lib_recon_int n 1 (Z.of_nat i) (wrap 64 max) c (around m))).
      unfold lib_recon_int, recon_int. rewrite E. cbn [answer mbind option_bind].
      change (mk_machine (<[S first := RInt 64 a]> (regs m1)) (mem m1) w'') with m2.
      rewrite (exec_store m2 _ _ v slot (RInt 64 a)); [done | apply lookup_insert_eq | by eapply eval_value_mono].
    + by eapply lookup_lt_Some.
    + split; [done | by eapply eval_value_mono | intros id r H; apply F2 in H; simpl; lia].
    + intros l Hl. by eapply entry_ready_store.
  - left. destruct (recon_at_work_missing (H := int_FutureMap) i fs _ Hw Hd) as (w'' & E & Hmu).
    eexists [(first, ILoad v)], (S first), _, _, _, m1, _. split_and!; [reflexivity | exact E1 | exact He |].
    exists w''. split; [done |]. left. by eexists _, _, _, _, _.
Qed.

(** Asked for more statements than there are, the code throws. *)
Lemma recon_code_throws fs cid max l : forall i first m,
  i <= length fs -> length fs < i + length l -> in_int64 (Z.of_nat (length fs)) ->
  collects fs cid i first m -> Forall (entry_ready m) l ->
  ends_in_throw m (number first (recon_code first max cid (Z.of_nat i) l)).
Proof.
  induction l as [|[o v] l IH]; intros i first m Hi Hl Hn Hc Hr; [simpl in Hl; lia |].
  apply Forall_cons in Hr as [Hv Hr].
  assert (exists code, recon_code first max cid (Z.of_nat i) ((o, v) :: l) =
      code ++ recon_code (first + length code) max cid (Z.of_nat (S i)) l /\
    collects_or_throws fs cid i first m code) as (code & -> & Hcode).
  { destruct v as [v|].
    - destruct Hv as (Tv & slot & n & Hv & Hm). eexists [_; _; _]. split; [| by eapply int_entry_runs].
      cbn [recon_code length app]. do 4 f_equal; lia.
    - eexists [_]. split; [| by apply void_entry_runs]. cbn [recon_code length app]. do 2 f_equal; lia. }
  rewrite number_app. destruct Hcode as [Ht|(m' & Hm' & Hlt & Hc' & Hr')]; [by apply ends_in_throw_more |].
  eapply ends_in_throw_app; [exact Hm' |]. apply IH; [lia | simpl in Hl; lia | done | done | by apply Hr'].
Qed.

(** What an open group says of the entries of the vector. *)
Lemma entries_ready fname funt b (m0 : machine) G env m s entries targets :
  group_open (world := world) fname funt b m0 G env c m s -> Forall2 (aims G s) entries targets ->
  Forall int_entry entries /\ Forall (entry_ready m) entries.
Proof.
  intros Hg. induction 1 as [|[o v] x entries targets Hx _ [IH1 IH2]]; [split; constructor |].
  destruct v as [v|], x as [x|]; try done; [| by split; constructor].
  destruct Hx as [Hv HG]. simpl in Hv.
  destruct (go_vars _ _ _ _ _ _ _ _ _ Hg x FkInt HG) as (a & u & slot & r & z & Ha & [Ta Va] & Hm & _ & He).
  assert (a = v) as -> by congruence. destruct z as [n| |]; try done. destruct He as [-> _].
  split; constructor; try done. split; [exact Ta |]. by exists slot, n.
Qed.
End later.

Section later_group.
Context {heap : Type}.
#[local] Existing Instance lib_outside.
Context (code_int : Z -> option nat -> Z) (code_void : Z -> option nat -> unit).
Context {sigs : Signatures} (base : World (out := lib_outside (heap := heap))) (apart : hidden_apart).
Local Abbreviation world := (linked code_int code_void base apart).
Context (jit_address : string -> Z).
Context (hash_order : gmap string (option value) -> list (string * option value)).
Context (fname : string) (funt : fun_ty) (b : nat) (m0 : machine (out := lib_outside (heap := heap))).
Local Abbreviation group_closed := (group_closed (world := world) fname funt b m0).
Local Abbreviation visit_statements := (visit_statements jit_address hash_order (visitClosureBlock jit_address hash_order)).
Local Abbreviation with_visits := (with_visits jit_address hash_order).

(** The end of an open group whose vector has more entries than statements were
    filed. *)
Lemma end_group_throws G env w fs targets (m : machine (out := lib_outside (heap := heap))) s :
  idle w -> group_open (world := world) fname funt b m0 G env (next_cid (manager w)) m s ->
  at_work code_int w 0 fs (around m) -> in_int64 (Z.of_nat (length fs)) ->
  Forall2 (aims G s) (reconVector s) targets -> length fs < length (reconVector s) ->
  exists s' code, end_group s = (Ok tt, s') /\ errors s' = errors s /\
    blocks (theIR s') !! b = Some code /\ ends_in_throw code_int code_void base apart m0 code.
Proof.
  intros Hw Hg Hf Hn Ha Hlen.
  destruct (entries_ready code_int code_void base apart w fname funt b m0 G env m s _ _ Hg Ha) as [Hint Hready].
  destruct (sd_code _ _ _ _ _ _ _ (go_standing _ _ _ _ _ _ _ _ _ Hg)) as (l0 & Hl0 & Hrun & _).
  destruct (go_cid _ _ _ _ _ _ _ _ _ Hg) as (cid & Hcid & Tcid & Vcid).
  destruct (go_variable _ _ _ _ _ _ _ _ _ Hg) as (a & slot & Hav & [Ta _] & _).
  destruct (go_runtime _ _ _ _ _ _ _ _ _ Hg) as [_ _ Ri Rv Rd].
  assert (insideLambda s = false) as Hl by by eapply group_outside, go_standing.
  assert (builds b s) as Hb.
  { split_and!; [done | | by eexists]. pose proof (sd_ip _ _ _ _ _ _ _ (go_standing _ _ _ _ _ _ _ _ _ Hg)) as H.
    by rewrite Hl in H. }
  pose proof (end_group_pushes b l0 cid a (reconVector s) [] s Hb Hl0 Hcid Tcid Ri Rv Rd
    (eq_sym (app_nil_r _)) Hint I Hav Ta) as E. cbv zeta in E.
  eexists _, _. split; [exact E |]. split_and!; [done | simpl; rewrite lookup_insert_eq, Hl0; reflexivity |]. simpl.
  rewrite app_nil_r, number_app. eapply (ends_in_throw_app _ _ _ _ _ m); [exact Hrun |].
  apply ends_in_throw_more.
  apply (recon_code_throws code_int code_void base apart w Hw fs cid (currId s - 1) (reconVector s) 0);
    [lia | simpl; lia | done | | done].
  split; [done | exact Vcid |]. apply (sd_regs _ _ _ _ _ _ _ (go_standing _ _ _ _ _ _ _ _ _ Hg)).
Qed.

(** C25. A later group of a program fails.  Compiled with entries left in the
    reconciliation vector, one at least, for int variables that are in scope or
    for statements without a value, and otherwise under the conditions of the
    theorem on the first group, a group is compiled without a message; but the
    loop at its end asks for the statements of the earlier groups too, under
    numbers of this group, and the code, run, comes to a call of [__recon_int]
    or [__recon_void] for a number under which no such statement was scheduled:
    the manager throws and keeps its mutex locked, and the run gets no
    further. *)
Theorem later_group_throws G env cv i l st rest last (m : machine (out := lib_outside (heap := heap))) s targets :
  (forall a e, in_int64 (code_int a e)) ->
  (forall g, Permutation (hash_order g) (map_to_list g)) ->
  (forall k : Z, signature_of ("lambda" +:+ pretty k) = None) ->
  idle (around m) -> group_closed G env m s ->
  reconVector s <> [] -> Forall2 (aims G s) (reconVector s) targets ->
  l <> [] -> Forall (settled G) l -> in_int64 (Z.of_nat (length l)) ->
  (forall j, j < length l -> cv !! (i + j) = Some false) -> cv !! (i + length l) = Some true ->
  exists s' code,
    visit_statements cv i (with_visits (l ++ st :: rest)) last s =
      (last <- accept jit_address hash_order st ;;
       visit_statements cv (S (i + length l)) (with_visits rest) last) s' /\
    errors s' = errors s /\ blocks (theIR s') !! b = Some code /\
    ends_in_throw code_int code_void base apart m0 code /\
    run (running := world_running (World := world)) m0 code = None.
Proof.
  intros Hcode Ho Hsig Hw Hg Hr Hold Hne Hl Hsmall Hcv Hend.
  destruct (group_filed_at (world := world) jit_address hash_order fname funt b m0
    (Protocol0 := linked_protocol code_int code_void Hcode base apart (around m) Hw)
    G env cv i l last _ m s Ho Hsig (make_context_linked code_int code_void base apart _ Hw)
    (at_work_begin code_int _ Hw) Hg Hne Hl Hsmall Hcv)
    as (es & v & m1 & s1 & entries & E1 & Hg1 & Hlen & _ & Hfile1 & _ & _ & Hrv & Haims & _ & _ & Her & Hnv).
  destruct (end_group_throws G env (around m) _ (targets ++ (assigned <$> l)) m1 s1 Hw Hg1 Hfile1)
    as (s' & code & E' & Er' & Hcode' & Ht).
  - by rewrite Hlen.
  - rewrite Hrv. apply Forall2_app; [| done]. eapply Forall2_impl; [exact Hold |].
    intros [o1 o2] [x|]; [| done]. unfold aims. simpl. destruct o2 as [a|]; [| done]. intros [Hx HG].
    split; [| done]. rewrite Hnv; [done |]. intros ->. pose proof (go_free _ _ _ _ _ _ _ _ _ Hg1). congruence.
  - apply Forall2_length in Haims. rewrite length_fmap in Haims. rewrite Hrv, length_app, Haims, Hlen.
    destruct (reconVector s); [done | simpl; lia].
  - exists s', code. split_and!; [| congruence | done | done | by eapply ends_in_throw_stops].
    eapply visit_group; [exact E1 | by eapply group_outside, go_standing | apply Hg1 | done | done].
Qed.
End later_group.

(** * Witness: the library of a program that prints numbers *)

Module LinkedDemo.
#[local] Existing Instance lib_outside.
#[local] Existing Instance Demo.sigs.

(** Nothing is formatted and nothing allocated. *)
Definition no_format (_ : double) : string := "".

#[local] Instance meaning : Meaning (out := lib_outside (heap := unit)) :=
  {| fk_called := means no_format; fk_undefined := None |}.
#[local] Instance running : Running (out := lib_outside (heap := unit)) :=
  {| arguments := []; called := runs no_format; undefined_division := None |}.

#[local] Instance base : World (out := lib_outside (heap := unit)).
Proof.
  refine {| world_running := running; world_meaning := meaning |}; [done | done |].
  intros f sg zs rs z w w' Hf Hz H. unfold signature_of, Demo.sigs in Hf. case_decide; [| done].
  injection Hf as <-. subst f. destruct zs as [|[n| |] [|? ?]]; try done.
  destruct (one_argument _ _ _ Hz) as (r & -> & -> & _). simpl in H |- *.
  apply finish_agrees in H as [-> H]. by exists RVoid.
Defined.

Lemma no_clash : hidden_apart.
Proof. repeat constructor. Qed.

(** Every int closure returns 12, the value of [5 + y]. *)
Definition code_int (a : Z) (e : option nat) : Z := 12.
Definition code_void (a : Z) (e : option nat) : unit := tt.
#[local] Instance world : World (out := lib_outside (heap := unit)) := linked code_int code_void base no_clash.

(** The library when the program starts, on a machine with four cores. *)
Definition library : lib (heap := unit) := mk_lib (new_ParContextManager 4) false false tt [].

Lemma library_idle : idle library.
Proof. split; vm_compute; intuition discriminate. Qed.
End LinkedDemo.

Lemma group_on_manager_witness :
  exists s' (m' : machine (out := lib_outside (heap := unit))), errors s' = [] /\
    Machine.around m' = set_manager (set_next_cid 1 (new_ParContextManager 4)) LinkedDemo.library /\
    group_closed (world := LinkedDemo.world) "main" (mk_fun_ty (TInt MainCtx 64) []) 0
      (Demo.start (out := lib_outside (heap := unit)) LinkedDemo.library) Demo.G (<["x" := Some (VI 12)]> Demo.env) m' s' /\
    meant (sigs := Demo.sigs) (meaning := LinkedDemo.meaning) Demo.env Demo.group Demo.env (<["x" := Some (VI 12)]> Demo.env).
Proof.
  destruct (group_on_manager LinkedDemo.code_int LinkedDemo.code_void LinkedDemo.base LinkedDemo.no_clash
    Demo.address map_to_list "main" (mk_fun_ty (TInt MainCtx 64) []) 0
    (Demo.start (out := lib_outside (heap := unit)) LinkedDemo.library) Demo.G Demo.env Demo.commits 2
    Demo.group Demo.last_statement [] None
    (Demo.there (world := LinkedDemo.world) LinkedDemo.library) Demo.inside)
    as (es & m1 & s' & m' & E & Hclosures & Hclosed & Herr & _ & Hw & Hm).
  - intros a e. vm_compute. intuition discriminate.
  - done.
  - done.
  - apply LinkedDemo.library_idle.
  - apply (Demo.inside_closed (world := LinkedDemo.world)).
  - by vm_compute.
  - done.
  - repeat constructor.
  - by vm_compute.
  - intros [|[|[|j]]] Hj; simpl in Hj; [done | done | done | lia].
  - done.
  - destruct Hclosures as (_ & _ & Hlen & _). destruct es as [|e1 [|e2 [|e3 [|e4 es]]]];
      [discriminate Hlen | discriminate Hlen | discriminate Hlen | | discriminate Hlen].
    exists s', m'. split_and!; [rewrite Herr; vm_compute; reflexivity | exact Hw | exact Hclosed |].
    apply Hm. repeat constructor; simpl; intros x [= <-]. exists LinkedDemo.library. eexists _, _.
    split; [reflexivity |]. reflexivity.
Defined.

(** The same program behind its first group: a second group of two statements. *)
Module SecondGroup.
#[local] Existing Instance lib_outside.
#[local] Existing Instance Demo.sigs.
#[local] Existing Instance LinkedDemo.world.

Definition body : list stmt := Demo.prefix ++ Demo.group ++ [Demo.last_statement].
Definition inside : cg :=
  ((accept Demo.address map_to_list Demo.print_int ;;
    accept Demo.address map_to_list (FunctionDefinition (KeywordType "int") "main" [] (Some body) false))
    ProgramProps.injected).2.
Definition code : list (nat * inst) := default [] (blocks (theIR inside) !! 0).
Definition start : machine := Demo.start LinkedDemo.library.
Definition there : machine := default start (run (running := world_running) start code).
Definition env : string -> option fval := <["x" := Some (VI 12)]> Demo.env.

Definition print_y (commit : bool) : stmt := ExpressionStatement commit (FunctionCall "print_int" [Identifier "y"]).
Definition group : list stmt := [print_y false; print_y true].
Definition commits : list bool := commit_vector (body ++ group ++ [Demo.last_statement]).

Lemma second_named : namedValues inside = <["x" := Some (Demo.variable 0)]> {["y" := Some (Demo.variable 2)]}.
Proof. vm_compute. reflexivity. Qed.

Lemma second_entries x o : namedValues inside !! x = Some o ->
  (x = "x" /\ o = Some (Demo.variable 0)) \/ (x = "y" /\ o = Some (Demo.variable 2)).
Proof. rewrite second_named. intros [[<- <-]|[_ [<- <-]%lookup_singleton_Some]]%lookup_insert_Some; auto. Qed.

Lemma there_variables : regs there !! 0 = Some (RPtr (Some 0)) /\ regs there !! 2 = Some (RPtr (Some 2)) /\
  mem there !! 0 = Some (RInt 64 12) /\ mem there !! 2 = Some (RInt 64 7).
Proof. split_and!; vm_compute; reflexivity. Qed.

Lemma second_standing : standing (world := call_free LinkedDemo.world) MainCtx "main" (mk_fun_ty (TInt MainCtx 64) []) 0 start there inside.
Proof.
  split.
  - vm_compute. reflexivity.
  - vm_compute. reflexivity.
  - vm_compute. reflexivity.
  - eexists. split; [vm_compute; reflexivity |]. split; vm_compute; reflexivity.
  - exists code. split_and!; [vm_compute; reflexivity | vm_compute; reflexivity |].
    apply (bool_decide_unpack _). vm_compute. exact I.
  - intros id r Hid. by apply (lookup_empty_Some (M := gmap nat) id r) in Hid.
  - change (map_Forall (fun id (_ : rv) => id < next_inst (theIR inside)) (regs there)).
    apply (bool_decide_unpack _). vm_compute. exact I.
  - change (map_Forall (fun id (_ : rv) => id < next_inst (theIR inside)) (mem there)).
    apply (bool_decide_unpack _). vm_compute. exact I.
Qed.

Lemma second_runtime : runtime_declared (main_module (theIR inside)).
Proof.
  split; [| intros [] H; try discriminate H | | |]; eexists; (split; [vm_compute; reflexivity |]; vm_compute; reflexivity).
Qed.

(** The machine is only known by its two variables. *)
Lemma closed_at (t : machine) :
  regs t !! 0 = Some (RPtr (Some 0)) -> regs t !! 2 = Some (RPtr (Some 2)) ->
  mem t !! 0 = Some (RInt 64 12) -> mem t !! 2 = Some (RInt 64 7) ->
  standing (world := call_free LinkedDemo.world) MainCtx "main" (mk_fun_ty (TInt MainCtx 64) []) 0 start t inside ->
  group_closed (world := LinkedDemo.world) "main" (mk_fun_ty (TInt MainCtx 64) []) 0 start Demo.G env t inside.
Proof.
  intros R0 R2 M0 M2 Hs. split.
  - exact Hs.
  - vm_compute. reflexivity.
  - vm_compute. reflexivity.
  - vm_compute. reflexivity.
  - vm_compute. reflexivity.
  - vm_compute. reflexivity.
  - intros x o [[-> ->]|[-> ->]]%second_entries.
    + exists ("x", (TInt MainCtx 64, RInt 64 12)). split_and!; [reflexivity | done |].
      exists (Demo.variable 0), 0. split_and!; [reflexivity | exact (conj eq_refl R0) | exact M0].
    + exists ("y", (TInt MainCtx 64, RInt 64 7)). split_and!; [reflexivity | done |].
      exists (Demo.variable 2), 2. split_and!; [reflexivity | exact (conj eq_refl R2) | exact M2].
  - intros x y a a' slot Hx Hy V1 V2.
    apply second_entries in Hx as [[-> [= ->]]|[-> [= ->]]], Hy as [[-> [= ->]]|[-> [= ->]]]; [reflexivity | | | reflexivity].
    + change (regs t !! 0 = Some (RPtr (Some slot))) in V1. change (regs t !! 2 = Some (RPtr (Some slot))) in V2. congruence.
    + change (regs t !! 2 = Some (RPtr (Some slot))) in V1. change (regs t !! 0 = Some (RPtr (Some slot))) in V2. congruence.
  - intros y ty Hy. unfold Demo.G in Hy. destruct (bool_decide (y = "x" \/ y = "y")) eqn:E; [| discriminate Hy].
    injection Hy as <-. apply bool_decide_eq_true in E as [-> | ->].
    + exists (Demo.variable 0), tt, 0, (RInt 64 12), (VI 12).
      split_and!; [vm_compute; reflexivity | exact (conj eq_refl R0) | exact M0 | reflexivity | vm_compute; intuition discriminate].
    + exists (Demo.variable 2), tt, 2, (RInt 64 7), (VI 7).
      split_and!; [vm_compute; reflexivity | exact (conj eq_refl R2) | exact M2 | reflexivity | vm_compute; intuition discriminate].
  - intros f sg Hf. unfold signature_of, Demo.sigs in Hf. destruct (decide (f = "print_int")) as [->|]; [| discriminate Hf]. injection Hf as <-.
    eexists. split; [vm_compute; reflexivity |]. vm_compute. reflexivity.
  - apply second_runtime.
  - change (map_Forall (fun b' (_ : list (nat * inst)) => b' < next_block (theIR inside)) (blocks (theIR inside))).
    apply (bool_decide_unpack _). vm_compute. exact I.
Qed.

Lemma second_closed : group_closed (world := LinkedDemo.world) "main" (mk_fun_ty (TInt MainCtx 64) []) 0 start Demo.G env there inside.
Proof. destruct there_variables as (R0 & R2 & M0 & M2). exact (closed_at there R0 R2 M0 M2 second_standing). Qed.

Lemma there_idle : idle (around there).
Proof. split; vm_compute; intuition discriminate. Qed.

Lemma old_entries : reconVector inside = [(None, Some (Demo.variable 0)); (None, None); (None, None)].
Proof. vm_compute. reflexivity. Qed.

Lemma old_aims : Forall2 (aims Demo.G inside) (reconVector inside) [Some "x"; None; None].
Proof. rewrite old_entries. repeat constructor. Qed.
End SecondGroup.

Lemma later_group_throws_witness :
  exists s' code, errors s' = [] /\ blocks (theIR s') !! 0 = Some code /\
    run (running := world_running (World := LinkedDemo.world)) SecondGroup.start code = None /\
    visit_statements Demo.address map_to_list (visitClosureBlock Demo.address map_to_list)
      SecondGroup.commits 6 (with_visits Demo.address map_to_list (SecondGroup.group ++ [Demo.last_statement]))
      None SecondGroup.inside = (last <- accept Demo.address map_to_list Demo.last_statement ;; mret last) s'.
Proof.
  destruct (later_group_throws LinkedDemo.code_int LinkedDemo.code_void LinkedDemo.base LinkedDemo.no_clash
    Demo.address map_to_list "main" (mk_fun_ty (TInt MainCtx 64) []) 0 SecondGroup.start
    Demo.G SecondGroup.env SecondGroup.commits 6 SecondGroup.group Demo.last_statement [] None
    SecondGroup.there SecondGroup.inside [Some "x"; None; None])
    as (s' & code & E & Herr & Hcode & _ & Hrun).
  - intros a e. vm_compute. intuition discriminate.
  - reflexivity.
  - reflexivity.
  - apply SecondGroup.there_idle.
  - apply SecondGroup.second_closed.
  - rewrite SecondGroup.old_entries. discriminate.
  - apply SecondGroup.old_aims.
  - discriminate.
  - repeat constructor.
  - vm_compute. intuition discriminate.
  - intros [|[|j]] Hj; simpl in Hj; [reflexivity | reflexivity | lia].
  - reflexivity.
  - exists s', code. split_and!; [rewrite Herr; vm_compute; reflexivity | exact Hcode | exact Hrun | exact E].
Defined.
