(* ===== verification/Bench.v ===== *)
(** What the C++ benchmarks share: the ways a program stops, and constants. *)

From S2P Require Import Prelude.

(** A crash, a recursion deeper than the depth given, a division by zero, and
    [delete] of memory that [new] did not give. *)
Inductive stop : Type := Crash (c : crash) | Exhausted | DivisionByZero | MismatchedDelete.

#[export] Instance stop_eq_dec : EqDecision stop.
Proof. solve_decision. Defined.

(** [0.5] *)
Definition half : double := S754_finite false 4503599627370496 (-53).
