(* ===== verification/Tree.v ===== *)
(** The benchmark [Bench/C++/Node.cpp] with its main program
    [Bench/C++/CTest.cpp]: a binary tree of nodes on the heap, built by
    insertion at random places.

    A [Node*] is an address, or [None] when null.  The random numbers
    ([std::uniform_real_distribution] over [std::mt19937_64]) and [pow] are
    the C++ library's and are parameters. *)

From S2P Require Import Prelude Bench.

Record node : Type := mk_node {
  value : double;
  leftchild : option nat;
  rightchild : option nat
}.

(** The heap, the next address [new] gives, the number of random values drawn
    so far, and what was printed. *)
Record bench : Type := mk_bench {
  heap : gmap nat node;
  next : nat;
  drawn : nat;
  printed : string
}.

Abbreviation B := (SE bench stop).

Definition set_heap (h : gmap nat node) (b : bench) : bench :=
  mk_bench h (next b) (drawn b) (printed b).

(** [p->...] *)
Definition read (p : nat) : B node :=
  h <- gets heap ;;
  match h !! p with Some n => mret n | None => fail (Crash NullPointer) end.

Definition write (p : nat) (f : node -> node) : B unit :=
  n <- read p ;; modify (fun b => set_heap (<[p := f n]> (heap b)) b).

Definition set_value (v : double) (n : node) : node := mk_node v (leftchild n) (rightchild n).
Definition set_leftchild (c : option nat) (n : node) : node := mk_node (value n) c (rightchild n).
Definition set_rightchild (c : option nat) (n : node) : node := mk_node (value n) (leftchild n) c.

(** A sum of two [int]s. *)
Definition int32_add (a b : Z) : B Z :=
  if ((- 2147483648 <=? a + b) && (a + b <=? 2147483647))%Z then mret (a + b)%Z
  else fail (Crash SignedOverflow).

Definition null_function : B unit := mret tt.

(** [Node::Node], and [new]. *)
Definition Node : node := mk_node double_zero None None.

Definition new_Node : B nat :=
  p <- gets next ;;
  modify (fun b => mk_bench (<[p := Node]> (heap b)) (S p) (drawn b) (printed b)) ;;
  mret p.

Definition M_PI : double := S754_finite false 7074237752028440 (-51).

Definition WORK_COST : nat := Z.to_nat 100000.

Section tree.
Context (random : nat -> double).
Context (pow : double -> double -> double).

(** [Node::generator->operator()( *rng )]. *)
Definition generator : B double :=
  k <- gets drawn ;;
  modify (fun b => mk_bench (heap b) (next b) (S k) (printed b)) ;;
  mret (random k).

Fixpoint insert_into_tree (fuel : nat) (this new_node : nat) : B unit :=
  match fuel with
  | O => fail Exhausted
  | S fuel =>
      n <- read this ;;
      match leftchild n, rightchild n with
      | Some l, Some r =>
          x <- generator ;;
          if SFltb x half then insert_into_tree fuel l new_node
          else insert_into_tree fuel r new_node
      | Some _, None => write this (set_rightchild (Some new_node))
      | None, Some _ => write this (set_leftchild (Some new_node))
      | None, None =>
          x <- generator ;;
          if SFltb x half then write this (set_leftchild (Some new_node))
          else write this (set_rightchild (Some new_node))
      end
  end.

Fixpoint populate (fuel : nat) (this : nat) : B unit :=
  match fuel with
  | O => fail Exhausted
  | S fuel =>
      x <- generator ;;
      write this (set_value x) ;;
      n <- read this ;;
      (match leftchild n with Some l => populate fuel l | None => null_function end) ;;
      n <- read this ;;
      match rightchild n with Some r => populate fuel r | None => null_function end
  end.

Fixpoint size (fuel : nat) (this : nat) : B Z :=
  match fuel with
  | O => fail Exhausted
  | S fuel =>
      n <- read this ;;
      count <- (match leftchild n with
                | Some l => s <- size fuel l ;; int32_add 1 s
                | None => mret 1%Z
                end) ;;
      match rightchild n with
      | Some r => s <- size fuel r ;; int32_add count s
      | None => mret count
      end
  end.

(** [for (int i = 0; i < WORK_COST; i++)]. *)
Fixpoint work (n : nat) (this : nat) : B unit :=
  match n with
  | O => mret tt
  | S n => write this (fun m => set_value (pow (value m) M_PI) m) ;; work n this
  end.

Fixpoint do_work (fuel : nat) (this : nat) : B unit :=
  match fuel with
  | O => fail Exhausted
  | S fuel =>
      work WORK_COST this ;;
      n <- read this ;;
      (match leftchild n with Some l => do_work fuel l | None => null_function end) ;;
      n <- read this ;;
      match rightchild n with Some r => do_work fuel r | None => null_function end
  end.

(** [while (actual_size < size)]. *)
Fixpoint grow_tree (fuel : nat) (root : nat) (actual_size size : Z) : B unit :=
  if (actual_size <? size)%Z then
    match fuel with
    | O => fail Exhausted
    | S fuel' =>
        n <- new_Node ;;
        insert_into_tree fuel root n ;;
        actual_size <- int32_add actual_size 1 ;;
        grow_tree fuel' root actual_size size
    end
  else mret tt.

Definition build_tree_of_size (fuel : nat) (size : Z) : B (option nat) :=
  if (size <? 1)%Z then mret None
  else
    root <- new_Node ;;
    grow_tree fuel root 1 size ;;
    mret (Some root).

(** * The main program *)

Definition cout (s : string) : B unit :=
  modify (fun b => mk_bench (heap b) (next b) (drawn b) (printed b +:+ s)).

(** [snprintf] into [n] bytes: what fits before the terminator. *)
Definition snprintf (n : nat) (s : string) : string := String.substring 0 (n - 1) s.

Definition tcmsg : string := "Tasks have been completed." +:+ newline.

Definition completion_message (size : Z) : string :=
  tcmsg +:+ snprintf (200 - String.length tcmsg) ("Tree had size: " +:+ pretty size +:+ newline).

(** A null [Node*] is not dereferenced. *)
Definition through (p : option nat) : B nat :=
  match p with Some p => mret p | None => fail (Crash NullPointer) end.

Definition main (fuel : nat) : B Z :=
  root <- build_tree_of_size fuel 1000 ;;
  root <- through root ;;
  populate fuel root ;;
  cout ("Began working..." +:+ newline) ;;
  do_work fuel root ;;
  n <- size fuel root ;;
  cout (completion_message n) ;;
  mret 0%Z.
End tree.
