(* ===== verification/TreeProps.v ===== *)
(** The properties of the tree benchmark: the heap of the program holds a
    tree at every step, insertion adds one node wherever the random numbers
    lead, and every function ends with a recursion depth that the number of
    nodes bounds. *)

From S2P Require Import Prelude Bench Tree.

(** * The tree at an address *)

Inductive shape : Type := Nil | At (p : nat) (l r : shape).

Definition root (t : shape) : option nat := match t with Nil => None | At p _ _ => Some p end.

Fixpoint addresses (t : shape) : list nat :=
  match t with Nil => [] | At p l r => p :: addresses l ++ addresses r end.

(** The nodes of [t] are on the heap and point to each other. *)
Fixpoint rep (h : gmap nat node) (t : shape) : Prop :=
  match t with
  | Nil => True
  | At p l r => (exists v, h !! p = Some (mk_node v (root l) (root r))) /\ rep h l /\ rep h r
  end.

Lemma rep_frame h h' t :
  (forall p, p ∈ addresses t -> h' !! p = h !! p) -> rep h t -> rep h' t.
Proof.
  induction t as [|p l IHl r IHr]; [done |]. simpl. intros Hp ((v & Hv) & Hl & Hr). split_and!.
  - exists v. rewrite Hp; [done | by left].
  - apply IHl; [| done]. intros q Hq. apply Hp. right. apply elem_of_app. by left.
  - apply IHr; [| done]. intros q Hq. apply Hp. right. apply elem_of_app. by right.
Qed.

(** A tree, no node of which occurs twice, and no cell that [new] will give
    in use. *)
Record holds_tree (t : shape) (b : bench) : Prop := {
  ht_rep : rep (heap b) t;
  ht_nodup : NoDup (addresses t);
  ht_next : forall p n, heap b !! p = Some n -> p < next b
}.

Lemma rep_allocated h t p : rep h t -> p ∈ addresses t -> is_Some (h !! p).
Proof.
  induction t as [|q l IHl r IHr]; simpl; [by intros _ ?%elem_of_nil |].
  intros ((v & Hv) & Hl & Hr) [->|[?|?]%elem_of_app]%elem_of_cons; eauto.
Qed.

Lemma holds_tree_bound t b p : holds_tree t b -> p ∈ addresses t -> p < next b.
Proof. intros [Hr _ Hn] Hp. destruct (rep_allocated _ _ _ Hr Hp) as [n H]. by eapply Hn. Qed.

(** ** Reads and writes *)

Lemma read_eq p n b : heap b !! p = Some n -> read p b = (Ok n, b).
Proof. intros H. unfold read, bind, gets. by rewrite H. Qed.

Definition wrote (p : nat) (n : node) (b : bench) : bench := set_heap (<[p := n]> (heap b)) b.

Lemma write_eq p f n b : heap b !! p = Some n -> write p f b = (Ok tt, wrote p (f n) b).
Proof. intros H. unfold write. by rewrite (bind_eq _ _ _ _ _ (read_eq _ _ _ H)). Qed.

(** The heap of [b'] and [b] differ at the addresses of [t] only. *)
Definition framed (t : shape) (h h' : gmap nat node) : Prop :=
  forall a, a ∉ addresses t -> h' !! a = h !! a.

Definition after (h : gmap nat node) (k : nat) (b : bench) : bench :=
  mk_bench h (next b) k (printed b).

Lemma rep_insert_other h p n t : p ∉ addresses t -> rep h t -> rep (<[p := n]> h) t.
Proof.
  intros Hp. apply rep_frame. intros a Ha. apply lookup_insert_ne. intros ->. done.
Qed.

Lemma framed_write h p l r n : framed (At p l r) h (<[p := n]> h).
Proof. intros a Ha. apply lookup_insert_ne. intros ->. apply Ha. by left. Qed.

(** The parts of a tree that lie next to each other. *)
Lemma nodup_at q p l r : NoDup (q :: addresses (At p l r)) ->
  q <> p /\ (p ∉ addresses l) /\ (p ∉ addresses r) /\
  NoDup (q :: addresses l) /\ NoDup (q :: addresses r) /\
  (forall a, a ∈ addresses l -> a ∉ addresses r).
Proof.
  simpl. rewrite !NoDup_cons, NoDup_app, !not_elem_of_cons, !not_elem_of_app.
  intros ((? & ? & ?) & (? & ?) & ? & Hd & ?). split_and!; try done.
Qed.

(** The new node as the child of a node. *)
Lemma rep_new_child h p l r v n :
  rep h l -> rep h r -> p ∉ addresses l -> p ∉ addresses r -> n = mk_node v (root l) (root r) ->
  rep (<[p := n]> h) (At p l r).
Proof.
  intros Hl Hr Hpl Hpr ->. split_and!; [exists v; apply lookup_insert_eq | |];
    by apply rep_insert_other.
Qed.

Section tree.
Context (random : nat -> double).

Definition draw (b : bench) : bench := mk_bench (heap b) (next b) (S (drawn b)) (printed b).

Lemma generator_eq b : generator random b = (Ok (random (drawn b)), draw b).
Proof. done. Qed.

(** * Insertion *)

(** Where a node with the address [q] goes when [k] values were drawn, and
    how many are drawn then. *)
Fixpoint insert_shape (k : nat) (q : nat) (t : shape) : shape * nat :=
  match t with
  | Nil => (At q Nil Nil, k)
  | At p l r =>
      match l, r with
      | At _ _ _, At _ _ _ =>
          if SFltb (random k) half then let '(l', k') := insert_shape (S k) q l in (At p l' r, k')
          else let '(r', k') := insert_shape (S k) q r in (At p l r', k')
      | At _ _ _, Nil => (At p l (At q Nil Nil), k)
      | Nil, At _ _ _ => (At p (At q Nil Nil) r, k)
      | Nil, Nil =>
          if SFltb (random k) half then (At p (At q Nil Nil) r, S k)
          else (At p l (At q Nil Nil), S k)
      end
  end.

Lemma insert_shape_root k q p l r : root (insert_shape k q (At p l r)).1 = Some p.
Proof.
  simpl. destruct l, r; try done; destruct (SFltb _ _); try done; by destruct (insert_shape _ _ _).
Qed.

Lemma insert_shape_both k q p pl ll lr pr rl rr (l := At pl ll lr) (r := At pr rl rr) :
  insert_shape k q (At p l r) =
  if SFltb (random k) half then let '(l', k') := insert_shape (S k) q l in (At p l' r, k')
  else let '(r', k') := insert_shape (S k) q r in (At p l r', k').
Proof. done. Qed.

(** Every node is kept, and [q] is new. *)
Lemma insert_shape_addresses k q t : addresses (insert_shape k q t).1 ≡ₚ q :: addresses t.
Proof.
  revert k. induction t as [|p l IHl r IHr]; intros k; [done |]. cbn [insert_shape].
  destruct l as [|pl ll lr], r as [|pr rl rr]; try destruct (SFltb _ _);
    try (simpl; solve_Permutation).
  - specialize (IHl (S k)). destruct (insert_shape (S k) q (At pl ll lr)) as [l' k'].
    change (p :: addresses l' ++ addresses (At pr rl rr) ≡ₚ
      q :: p :: addresses (At pl ll lr) ++ addresses (At pr rl rr)).
    simpl in IHl |- *. rewrite IHl. solve_Permutation.
  - specialize (IHr (S k)). destruct (insert_shape (S k) q (At pr rl rr)) as [r' k'].
    change (p :: addresses (At pl ll lr) ++ addresses r' ≡ₚ
      q :: p :: addresses (At pl ll lr) ++ addresses (At pr rl rr)).
    simpl in IHr |- *. rewrite IHr. solve_Permutation.
Qed.

Lemma insert_runs fuel : forall p l r q v b,
  rep (heap b) (At p l r) -> NoDup (q :: addresses (At p l r)) ->
  heap b !! q = Some (mk_node v None None) -> length (addresses (At p l r)) <= fuel ->
  exists h', insert_into_tree random fuel p q b =
      (Ok tt, after h' (insert_shape (drawn b) q (At p l r)).2 b) /\
    rep h' (insert_shape (drawn b) q (At p l r)).1 /\ framed (At p l r) (heap b) h'.
Proof.
  induction fuel as [|fuel IH]; intros p l r q v b Hrep Hnd Hq Hf; [simpl in Hf; lia |].
  pose proof Hrep as ((v0 & Hp) & Hl & Hr).
  destruct (nodup_at _ _ _ _ Hnd) as (Hqp & Hpl & Hpr & Hndl & Hndr & Hdis).
  assert (rep (heap b) (At q Nil Nil)) as Hnew by (simpl; eauto).
  assert (p ∉ addresses (At q Nil Nil)) as Hpq by (simpl; set_solver).
  cbn [insert_into_tree]. rewrite (bind_eq _ _ _ _ _ (read_eq _ _ _ Hp)). cbn [leftchild rightchild].
  destruct l as [|pl ll lr], r as [|pr rl rr]; cbn [root].
  - cbn [insert_shape]. rewrite (bind_eq _ _ _ _ _ (generator_eq b)). destruct (SFltb _ _);
      rewrite (write_eq p _ (mk_node v0 None None) (draw b) Hp);
      (eexists; split; [reflexivity | split; [| apply framed_write]]);
      by apply (rep_new_child _ _ _ _ v0).
  - rewrite (write_eq p _ _ b Hp). eexists. split; [reflexivity |]. split; [| apply framed_write].
    by apply (rep_new_child _ _ _ _ v0).
  - rewrite (write_eq p _ _ b Hp). eexists. split; [reflexivity |]. split; [| apply framed_write].
    by apply (rep_new_child _ _ _ _ v0).
  - rewrite insert_shape_both, (bind_eq _ _ _ _ _ (generator_eq b)).
    assert (length (addresses (At p (At pl ll lr) (At pr rl rr))) =
      S (length (addresses (At pl ll lr)) + length (addresses (At pr rl rr)))) as Hlen
      by (cbn [addresses length]; rewrite length_app; reflexivity).
    destruct (SFltb _ _).
    + destruct (IH pl ll lr q v (draw b) Hl Hndl Hq) as (h' & E & R & Fr); [lia |].
      exists h'. cbn [drawn draw] in *.
      pose proof (insert_shape_root (S (drawn b)) q pl ll lr) as Hroot.
      destruct (insert_shape (S (drawn b)) q (At pl ll lr)) as [l' k']. cbn [fst snd] in *.
      split; [exact E |]. split; [split_and!; [| exact R |] |].
      * exists v0. rewrite Fr by done. by rewrite Hroot.
      * eapply rep_frame; [| exact Hr]. intros a Ha. apply Fr. intros Ha'. by apply (Hdis a).
      * intros a Ha. apply Fr. cbn [addresses] in Ha |- *. set_solver.
    + destruct (IH pr rl rr q v (draw b) Hr Hndr Hq) as (h' & E & R & Fr); [lia |].
      exists h'. cbn [drawn draw] in *.
      pose proof (insert_shape_root (S (drawn b)) q pr rl rr) as Hroot.
      destruct (insert_shape (S (drawn b)) q (At pr rl rr)) as [r' k']. cbn [fst snd] in *.
      split; [exact E |]. split; [split_and!; [| | exact R] |].
      * exists v0. rewrite Fr by done. by rewrite Hroot.
      * eapply rep_frame; [| exact Hl]. intros a Ha. apply Fr. by apply (Hdis a).
      * intros a Ha. apply Fr. cbn [addresses] in Ha |- *. set_solver.
Qed.

End tree.

(** * Walks over the tree *)

(** The values of the nodes, a node before its children. *)
Fixpoint values (h : gmap nat node) (t : shape) : list double :=
  match t with
  | Nil => []
  | At p l r => default double_zero (value <$> h !! p) :: values h l ++ values h r
  end.

Lemma values_frame h h' t :
  (forall p, p ∈ addresses t -> h' !! p = h !! p) -> values h' t = values h t.
Proof.
  induction t as [|p l IHl r IHr]; [done |]. simpl. intros Hp. f_equal; [by rewrite Hp by left |].
  f_equal; [apply IHl | apply IHr]; intros q Hq; apply Hp; right; apply elem_of_app; auto.
Qed.

(** A walk that changes the node, then the left and the right subtree. *)
Lemma walk_parts h1 h2 h3 p l r v (t := At p l r) :
  NoDup (addresses t) -> h1 !! p = Some (mk_node v (root l) (root r)) ->
  rep h2 l -> framed l h1 h2 -> rep h3 r -> framed r h2 h3 ->
  rep h3 t /\ framed t h1 h3 /\ values h3 t = v :: values h2 l ++ values h3 r.
Proof.
  simpl. rewrite NoDup_cons, NoDup_app, not_elem_of_app. intros ((Hpl & Hpr) & Hl & Hd & Hr) Hp Rl Fl Rr Fr.
  assert (h3 !! p = Some (mk_node v (root l) (root r))) as Hp3 by by rewrite Fr, Fl.
  assert (forall a, a ∈ addresses l -> h3 !! a = h2 !! a) as Hl3 by (intros a Ha; apply Fr; by apply Hd).
  split_and!; [by exists v | by eapply rep_frame | done | |].
  - intros a Ha. simpl in Ha. rewrite not_elem_of_cons, not_elem_of_app in Ha.
    by rewrite Fr, Fl by tauto.
  - rewrite Hp3. simpl. by rewrite (values_frame h2 h3 l Hl3).
Qed.

Definition visit_child (f : nat -> B unit) (c : option nat) : B unit :=
  match c with Some p => f p | None => null_function end.

Section populate.
Context (random : nat -> double).

(** [populate] ends, keeps the tree, and gives the nodes the random numbers in
    turn. *)
Lemma populate_runs t : forall fuel b,
  rep (heap b) t -> NoDup (addresses t) -> length (addresses t) <= fuel ->
  exists h', visit_child (populate random fuel) (root t) b =
      (Ok tt, after h' (drawn b + length (addresses t)) b) /\
    rep h' t /\ framed t (heap b) h' /\
    values h' t = random <$> seq (drawn b) (length (addresses t)).
Proof.
  induction t as [|p l IHl r IHr]; intros fuel b Hrep Hnd Hf.
  { exists (heap b). split_and!; [| done | done | done]. simpl. rewrite Nat.add_0_r. by destruct b. }
  destruct fuel as [|fuel]; [simpl in Hf; lia |].
  pose proof Hrep as ((v0 & Hp) & Hl & Hr). pose proof Hnd as Hnd'.
  simpl in Hnd', Hf |- *. rewrite NoDup_cons, NoDup_app, not_elem_of_app in Hnd'.
  destruct Hnd' as ((Hpl & Hpr) & Hndl & Hd & Hndr). rewrite length_app in Hf |- *.
  set (v := random (drawn b)). set (b1 := wrote p (mk_node v (root l) (root r)) (draw b)).
  assert (heap b1 !! p = Some (mk_node v (root l) (root r))) as Hp1 by apply lookup_insert_eq.
  destruct (IHl fuel b1) as (h2 & E2 & R2 & F2 & V2); [by apply rep_insert_other | done | lia |].
  set (b2 := after h2 (drawn b1 + length (addresses l)) b1) in *.
  assert (heap b2 !! p = Some (mk_node v (root l) (root r))) as Hp2 by by (simpl; rewrite F2).
  assert (forall a, a ∈ addresses r -> heap b2 !! a = heap b !! a) as Hr2.
  { intros a Ha. simpl. rewrite F2 by (intros Hal; by apply (Hd a)). apply lookup_insert_ne. congruence. }
  destruct (IHr fuel b2) as (h3 & E3 & R3 & F3 & V3); [by eapply rep_frame | done | lia |].
  destruct (walk_parts _ _ _ p l r v Hnd Hp1 R2 F2 R3 F3) as (R & F & V).
  exists h3. split_and!.
  - rewrite (bind_eq _ _ _ _ _ (generator_eq random b)). rewrite (bind_eq _ _ _ _ _ (write_eq p _ _ (draw b) Hp)).
    fold b1. rewrite (bind_eq _ _ _ _ _ (read_eq _ _ _ Hp1)). unfold visit_child in E2, E3.
    rewrite (bind_eq _ _ _ _ _ E2), (bind_eq _ _ _ _ _ (read_eq _ _ _ Hp2)).
    etrans; [exact E3 |]. unfold after. simpl. do 2 f_equal. lia.
  - apply R.
  - apply R.
  - apply R.
  - intros a Ha. rewrite F by done. simpl. apply lookup_insert_ne. intros ->. apply Ha. by left.
  - change (values h3 (At p l r) = random <$> drawn b :: seq (S (drawn b)) (length (addresses l) + length (addresses r))).
    rewrite V, V2, V3, seq_app, fmap_cons, fmap_app. done.
Qed.

End populate.

Section work.
Context (pow : double -> double -> double).

(** One node's share of the work. *)
Definition worked (v : double) : double := Nat.iter WORK_COST (fun v => pow v M_PI) v.

Lemma iter_shift {A} (f : A -> A) n x : Nat.iter n f (f x) = f (Nat.iter n f x).
Proof. induction n as [|n IH]; [done |]. simpl. by rewrite IH. Qed.

Lemma work_runs n : forall p v l r b, heap b !! p = Some (mk_node v l r) ->
  work pow n p b = (Ok tt, wrote p (mk_node (Nat.iter n (fun v => pow v M_PI) v) l r) b).
Proof.
  induction n as [|n IH]; intros p v l r b Hp; cbn [work].
  - unfold wrote, set_heap. simpl. rewrite insert_id by done. by destruct b.
  - rewrite (bind_eq _ _ _ _ _ (write_eq p _ _ b Hp)).
    rewrite (IH p (pow v M_PI) l r); [| apply lookup_insert_eq].
    unfold wrote, set_heap. simpl. rewrite insert_insert_eq. do 5 f_equal.
    exact (iter_shift (fun v => pow v M_PI) n v).
Qed.

Lemma do_work_runs t : forall fuel b,
  rep (heap b) t -> NoDup (addresses t) -> length (addresses t) <= fuel ->
  exists h', visit_child (do_work pow fuel) (root t) b = (Ok tt, after h' (drawn b) b) /\
    rep h' t /\ framed t (heap b) h' /\ values h' t = worked <$> values (heap b) t.
Proof.
  induction t as [|p l IHl r IHr]; intros fuel b Hrep Hnd Hf.
  { exists (heap b). split_and!; [by destruct b | done..]. }
  destruct fuel as [|fuel]; [simpl in Hf; lia |].
  pose proof Hrep as ((v0 & Hp) & Hl & Hr). pose proof Hnd as Hnd'.
  simpl in Hnd', Hf. rewrite NoDup_cons, NoDup_app, not_elem_of_app in Hnd'.
  destruct Hnd' as ((Hpl & Hpr) & Hndl & Hd & Hndr). rewrite length_app in Hf.
  set (v := worked v0). set (b1 := wrote p (mk_node v (root l) (root r)) b).
  assert (heap b1 !! p = Some (mk_node v (root l) (root r))) as Hp1 by apply lookup_insert_eq.
  destruct (IHl fuel b1) as (h2 & E2 & R2 & F2 & V2); [by apply rep_insert_other | done | lia |].
  set (b2 := after h2 (drawn b1) b1) in *.
  assert (heap b2 !! p = Some (mk_node v (root l) (root r))) as Hp2 by by (simpl; rewrite F2).
  assert (forall a, a ∈ addresses r -> heap b2 !! a = heap b !! a) as Hr2.
  { intros a Ha. simpl. rewrite F2 by (intros Hal; by apply (Hd a)). apply lookup_insert_ne. congruence. }
  destruct (IHr fuel b2) as (h3 & E3 & R3 & F3 & V3); [by eapply rep_frame | done | lia |].
  destruct (walk_parts _ _ _ p l r v Hnd Hp1 R2 F2 R3 F3) as (R & F & V).
  exists h3. split; [| split; [exact R | split]].
  - cbn [visit_child root do_work]. rewrite (bind_eq _ _ _ _ _ (work_runs WORK_COST _ _ _ _ _ Hp)).
    change (Nat.iter WORK_COST (fun v => pow v M_PI) v0) with v. fold b1.
    rewrite (bind_eq _ _ _ _ _ (read_eq _ _ _ Hp1)). unfold visit_child in E2, E3.
    rewrite (bind_eq _ _ _ _ _ E2), (bind_eq _ _ _ _ _ (read_eq _ _ _ Hp2)).
    etrans; [exact E3 | done].
  - intros a Ha. rewrite F by done. simpl. apply lookup_insert_ne. intros ->. apply Ha. by left.
  - rewrite V, V2, V3, (values_frame (heap b) (heap b2) r Hr2). cbn [values]. rewrite Hp.
    rewrite (values_frame (heap b) (heap b1) l).
    + cbn [fmap option_fmap option_map default value]. rewrite fmap_cons, fmap_app. done.
    + intros a Ha. apply lookup_insert_ne. congruence.
Qed.

End work.

(** * Size *)

Definition INT_MAX : Z := 2147483647.

Lemma int32_add_eq a b s : (0 <= a)%Z -> (0 <= b)%Z -> (a + b <= INT_MAX)%Z ->
  int32_add a b s = (Ok (a + b)%Z, s).
Proof.
  unfold int32_add, INT_MAX. intros Ha Hb Hs.
  replace (-2147483648 <=? a + b)%Z with true by (symmetry; apply Z.leb_le; lia).
  by replace (a + b <=? 2147483647)%Z with true by (symmetry; apply Z.leb_le; lia).
Qed.

Definition nodes (t : shape) : Z := Z.of_nat (length (addresses t)).

Lemma nodes_at p l r : nodes (At p l r) = (1 + nodes l + nodes r)%Z.
Proof. unfold nodes. simpl. rewrite length_app. lia. Qed.

Lemma size_runs t : forall fuel b p,
  rep (heap b) t -> root t = Some p -> length (addresses t) <= fuel -> (nodes t <= INT_MAX)%Z ->
  size fuel p b = (Ok (nodes t), b).
Proof.
  induction t as [|p l IHl r IHr]; intros fuel b p' Hrep Hp Hf Hm; [done |].
  injection Hp as <-. destruct fuel as [|fuel]; [simpl in Hf; lia |].
  pose proof Hrep as ((v0 & Hp) & Hl & Hr). simpl in Hf. rewrite length_app in Hf.
  rewrite nodes_at in Hm |- *.
  assert (0 <= nodes l)%Z by (unfold nodes; lia). assert (0 <= nodes r)%Z by (unfold nodes; lia).
  cbn [size]. rewrite (bind_eq _ _ _ _ _ (read_eq _ _ _ Hp)). cbn [leftchild rightchild].
  assert ((match root l with Some l => s <- size fuel l ;; int32_add 1 s | None => mret 1%Z end) b =
    (Ok (1 + nodes l)%Z, b)) as El.
  { destruct (root l) as [pl|] eqn:E; [| by destruct l].
    rewrite (bind_eq _ _ _ _ _ (IHl fuel b pl Hl eq_refl ltac:(lia) ltac:(lia))). apply int32_add_eq; lia. }
  rewrite (bind_eq _ _ _ _ _ El). destruct (root r) as [pr|] eqn:E.
  - rewrite (bind_eq _ _ _ _ _ (IHr fuel b pr Hr eq_refl ltac:(lia) ltac:(lia))). apply int32_add_eq; lia.
  - destruct r; [| done]. change (nodes Nil) with 0%Z. by rewrite Z.add_0_r.
Qed.

Section growth.
Context (random : nat -> double).

(** * Growth *)

Lemma new_Node_eq b :
  new_Node b = (Ok (next b), mk_bench (<[next b := Node]> (heap b)) (S (next b)) (drawn b) (printed b)).
Proof. done. Qed.

(** A new node is on the heap and not in the tree. *)
Lemma holds_tree_new t b (b1 := (new_Node b).2) : holds_tree t b ->
  holds_tree t b1 /\ NoDup (next b :: addresses t) /\ heap b1 !! next b = Some Node.
Proof.
  intros H. assert (next b ∉ addresses t) as Hnew.
  { intros Hin. pose proof (holds_tree_bound _ _ _ H Hin). lia. }
  destruct H as [Hr Hnd Hn]. split_and!; [split | by constructor | apply lookup_insert_eq].
  - by apply rep_insert_other.
  - done.
  - intros p n Hp. simpl in Hp |- *. apply lookup_insert_Some in Hp as [[<- _]|[_ Hp]]; [lia |]. apply Hn in Hp. lia.
Qed.

(** One step of the loop of [build_tree_of_size]. *)
Lemma insert_new t p b fuel (b1 := (new_Node b).2) :
  holds_tree t b -> root t = Some p -> length (addresses t) <= fuel ->
  exists b' t', insert_into_tree random fuel p (next b) b1 = (Ok tt, b') /\
    t' = (insert_shape random (drawn b) (next b) t).1 /\
    holds_tree t' b' /\ root t' = Some p /\ nodes t' = (1 + nodes t)%Z /\ printed b' = printed b /\
    addresses t' ≡ₚ next b :: addresses t /\ next b' = S (next b).
Proof.
  intros H Hp Hf. destruct t as [|p' l r]; [done |]. injection Hp as ->.
  destruct (holds_tree_new _ _ H) as ([Hrep Hnd Hn] & Hnd' & Hq).
  destruct (insert_runs random fuel p l r (next b) double_zero (new_Node b).2) as (h' & E & R & Fr); try done.
  pose proof (insert_shape_addresses random (drawn b) (next b) (At p l r)) as Hperm.
  eexists _, _. split; [exact E |]. split; [reflexivity |]. cbn [drawn new_Node] in *.
  split_and!; [split | apply insert_shape_root | | done | exact Hperm | done].
  - exact R.
  - by rewrite Hperm.
  - intros a n Ha. simpl in Ha |- *. destruct (decide (a ∈ addresses (At p l r))) as [Hin|Hout].
    + pose proof (holds_tree_bound _ _ _ H Hin). lia.
    + rewrite Fr in Ha by done. apply Hn in Ha. exact Ha.
  - unfold nodes. change (drawn (new_Node b).2) with (drawn b).
    apply Permutation_length in Hperm. simpl in Hperm |- *. lia.
Qed.

Lemma grow_runs fuel : forall t p b actual size,
  holds_tree t b -> root t = Some p -> actual = nodes t -> (actual <= size <= INT_MAX)%Z ->
  (2 * size <= Z.of_nat fuel + actual)%Z ->
  exists t' b', grow_tree random fuel p actual size b = (Ok tt, b') /\
    holds_tree t' b' /\ root t' = Some p /\ nodes t' = size /\ printed b' = printed b /\
    forall a, a ∈ addresses t' -> a ∈ addresses t \/ next b <= a.
Proof.
  induction fuel as [|fuel IH]; intros t p b actual size H Hp -> Hs Hf; cbn [grow_tree].
  { assert (nodes t = size) as E by (unfold nodes in *; lia). rewrite E, Z.ltb_irrefl. exists t, b. split_and!; auto. }
  destruct (nodes t <? size)%Z eqn:E.
  - apply Z.ltb_lt in E. rewrite (bind_eq _ _ _ _ _ (new_Node_eq b)).
    destruct (insert_new t p b (S fuel) H Hp) as (b' & t' & Ei & _ & H' & Hp' & Hn & Ho & Ha & Hx).
    { unfold nodes in *. lia. }
    rewrite (bind_eq _ _ _ _ _ Ei).
    rewrite (bind_eq _ _ b' (nodes t + 1)%Z b') by (apply int32_add_eq; unfold nodes in *; lia).
    destruct (IH t' p b' (nodes t + 1)%Z size) as (t2 & b2 & E2 & H2 & Hp2 & Hn2 & Ho2 & Ha2);
      [done | done | lia | lia | lia |].
    exists t2, b2. split_and!; try done; [congruence |].
    intros a Hin. apply Ha2 in Hin as [Hin|Hin]; [| right; lia].
    rewrite Ha in Hin. apply elem_of_cons in Hin as [->|Hin]; [by right | by left].
  - apply Z.ltb_ge in E. exists t, b. split_and!; auto. lia.
Qed.
End growth.

Lemma build_runs random n fuel b :
  (forall p m, heap b !! p = Some m -> p < next b) -> (1 <= n <= INT_MAX)%Z -> (2 * n <= Z.of_nat fuel)%Z ->
  exists t b', build_tree_of_size random fuel n b = (Ok (root t), b') /\ printed b' = printed b /\
    holds_tree t b' /\ nodes t = n /\ (forall p, p ∈ addresses t -> heap b !! p = None).
Proof.
  intros Hb [H1n Hmax] Hf. unfold build_tree_of_size.
  destruct (n <? 1)%Z eqn:E; [apply Z.ltb_lt in E; lia |]. clear E.
  rewrite (bind_eq _ _ _ _ _ (new_Node_eq b)).
  set (b1 := mk_bench (<[next b := Node]> (heap b)) (S (next b)) (drawn b) (printed b)).
  assert (holds_tree (At (next b) Nil Nil) b1) as H1.
  { split; simpl.
    - split_and!; [| done | done]. exists double_zero. by rewrite lookup_insert_eq.
    - repeat constructor. by intros ?%elem_of_nil.
    - intros p m [[<- _]|[_ Hp]]%lookup_insert_Some; [lia |]. apply Hb in Hp. lia. }
  destruct (grow_runs random fuel (At (next b) Nil Nil) (next b) b1 1 n H1)
    as (t & b' & E' & H' & Hr & Hn & Ho & Ha); [done | done | lia | lia |].
  rewrite (bind_eq _ _ _ _ _ E'). exists t, b'. rewrite Hr. split_and!; try done.
  intros p Hp. apply eq_None_not_Some. intros [m Hm].
  apply Hb in Hm. apply Ha in Hp as [Hp|Hp]; [| simpl in Hp; lia].
  apply elem_of_cons in Hp as [->|Hp]; [lia | by apply elem_of_nil in Hp].
Qed.

(** C37. [build_tree_of_size] ends, whatever the random numbers are, with a
    depth of recursion of twice the size, and gives a tree of exactly that
    many nodes, all new; for a size below one it gives NULL. *)
Theorem build_tree_of_size_correct random n fuel b :
  (forall p m, heap b !! p = Some m -> p < next b) -> (n <= INT_MAX)%Z -> (2 * n <= Z.of_nat fuel)%Z ->
  exists r b', build_tree_of_size random fuel n b = (Ok r, b') /\ printed b' = printed b /\
    if (n <? 1)%Z then r = None /\ b' = b
    else exists t, root t = r /\ holds_tree t b' /\ nodes t = n /\
      (forall p, p ∈ addresses t -> heap b !! p = None).
Proof.
  intros Hb Hmax Hf. destruct (n <? 1)%Z eqn:E.
  { exists None, b. unfold build_tree_of_size. by rewrite E. }
  apply Z.ltb_ge in E.
  destruct (build_runs random n fuel b) as (t & b' & E' & O & H' & Hn & Hfr); [done | lia | done |].
  exists (root t), b'. split_and!; try done. by exists t.
Qed.

(** The main program of the tree benchmark ends and prints that the tree
    had the size it was built with. *)
Theorem tree_benchmark_output random pow fuel :
  2000 <= fuel -> exists b',
    main random pow fuel (mk_bench ∅ 0 0 EmptyString) = (Ok 0%Z, b') /\
    printed b' = "Began working..." +:+ newline +:+ "Tasks have been completed." +:+ newline +:+
      "Tree had size: 1000" +:+ newline.
Proof.
  intros Hf. set (b0 := mk_bench ∅ 0 0 EmptyString).
  destruct (build_runs random 1000 fuel b0) as (t & b1 & E1 & O1 & [R1 N1 _] & Hn & _);
    [done | unfold INT_MAX; lia | lia |].
  assert (length (addresses t) <= fuel) as Hlen by (unfold nodes in Hn; lia).
  destruct (populate_runs random t fuel b1 R1 N1 Hlen) as (h2 & E2 & R2 & _).
  set (b2 := after h2 (drawn b1 + length (addresses t)) b1) in *.
  set (b3 := mk_bench (heap b2) (next b2) (drawn b2) (printed b2 +:+ "Began working..." +:+ newline)).
  destruct (do_work_runs pow t fuel b3 R2 N1 Hlen) as (h4 & E4 & R4 & _).
  set (b4 := after h4 (drawn b3) b3) in *.
  destruct (root t) as [p|] eqn:Hr; [| by destruct t].
  assert (size fuel p b4 = (Ok 1000%Z, b4)) as E5.
  { rewrite <- Hn. apply (size_runs t fuel b4 p R4 Hr Hlen). rewrite Hn. unfold INT_MAX. lia. }
  unfold visit_child in E2, E4.
  eexists. split.
  - unfold main. rewrite (bind_eq _ _ _ _ _ E1). rewrite (bind_eq _ _ b1 p b1) by done.
    rewrite (bind_eq _ _ _ _ _ E2). rewrite (bind_eq _ _ b2 tt b3) by done.
    rewrite (bind_eq _ _ _ _ _ E4), (bind_eq _ _ _ _ _ E5). reflexivity.
  - cbn [printed b4 after b3 b2]. rewrite O1. vm_compute. reflexivity.
Qed.

(** * Witnesses *)

Definition empty_bench : bench := mk_bench ∅ 0 0 EmptyString.

Lemma build_tree_of_size_correct_witness :
  exists r b', build_tree_of_size (fun _ => double_zero) 6 3 empty_bench = (Ok r, b') /\
    printed b' = EmptyString /\
    exists t, root t = r /\ holds_tree t b' /\ nodes t = 3%Z /\
      (forall p, p ∈ addresses t -> heap empty_bench !! p = None).
Proof.
  refine (build_tree_of_size_correct (fun _ => double_zero) 3 6 empty_bench _ _ _).
  - intros p m H. discriminate H.
  - unfold INT_MAX. lia.
  - lia.
Defined.

Lemma tree_benchmark_output_witness : exists b',
  main (fun _ => double_zero) (fun v _ => v) 2000 empty_bench = (Ok 0%Z, b') /\
  printed b' = "Began working..." +:+ newline +:+ "Tasks have been completed." +:+ newline +:+
    "Tree had size: 1000" +:+ newline.
Proof. exact (tree_benchmark_output (fun _ => double_zero) (fun v _ => v) 2000 (le_n 2000)). Defined.
