(* ===== verification/MonteCarlo.v ===== *)
(** The benchmark [Bench/C++/regMonteCarlo.cpp]: the part of a grid of points
    that lies in a circle, for an approximation of pi.

    A [double*] is the number of the array it points to the start of; an
    access outside the array, or a sum that is no [int64_t], stops the
    program. *)

From S2P Require Import Prelude Bench.

(** How an array was allocated. *)
Inductive origin : Type := ByCalloc | ByNew.

Record state : Type := mk_state {
  arrays : gmap nat (origin * list double);
  fresh : nat;
  printed : string
}.

Abbreviation C := (SE state stop).

Definition set_arrays (a : gmap nat (origin * list double)) (s : state) : state :=
  mk_state a (fresh s) (printed s).

(** A result of [int64_t] arithmetic. *)
Definition checked (z : Z) : C Z :=
  if ((- two63 <=? z) && (z <? two63))%Z then mret z else fail (Crash SignedOverflow).

Definition array (p : nat) : C (list double) :=
  a <- gets arrays ;;
  match a !! p with Some (_, l) => mret l | None => fail (Crash NullPointer) end.

(** [p[i]] and [p[i] = v]. *)
Definition get (p : nat) (i : Z) : C double :=
  l <- array p ;;
  match (if (0 <=? i)%Z then l !! Z.to_nat i else None) with
  | Some v => mret v
  | None => fail (Crash OutOfRange)
  end.

Definition put (p : nat) (i : Z) (v : double) : C unit :=
  get p i ;;
  modify (fun s => set_arrays (alter (fun b => (b.1, <[Z.to_nat i := v]> b.2)) p (arrays s)) s).

(** [calloc(n, 8)]: doubles of all-zero bytes. *)
Definition calloc (n : Z) : C nat :=
  p <- gets fresh ;;
  modify (fun s => mk_state (<[p := (ByCalloc, replicate (Z.to_nat n) double_zero)]> (arrays s)) (S p)
                     (printed s)) ;;
  mret p.

(** The delete of memory that came from [calloc] is undefined in C++; here the
    program stops. *)
Definition delete_array (p : nat) : C unit :=
  a <- gets arrays ;;
  match a !! p with
  | Some (ByNew, _) => modify (fun s => set_arrays (delete p (arrays s)) s)
  | Some (ByCalloc, _) => fail MismatchedDelete
  | None => fail (Crash NullPointer)
  end.

Definition fsqrt (d : double) : double := SFsqrt prec emax d.

(** * The functions *)

Definition mod_ (x y : Z) : C Z :=
  if (y =? 0)%Z then fail DivisionByZero
  else
    m <- checked (Z.quot x y) ;;
    p <- checked (m * y) ;;
    checked (x - p).

Definition distance (x0 y0 x1 y1 : double) : double :=
  let dx := fsub x0 x1 in
  let dy := fsub y0 y1 in
  let result := fsqrt (fadd (fmul dx dx) (fmul dy dy)) in
  result.

Fixpoint init_coords (fuel : nat) (coords : nat) (numberOfPoints : Z) (delta : double) : C unit :=
  match fuel with
  | O => fail Exhausted
  | S fuel =>
      if (numberOfPoints =? 0)%Z then mret tt
      else
        numberOfPoints <- checked (numberOfPoints - 1) ;;
        put coords numberOfPoints (fmul delta (of_int numberOfPoints)) ;;
        init_coords fuel coords numberOfPoints delta
  end.

Fixpoint compute_distances_from_center_sub (fuel : nat) (distances : nat) (xcoord : double)
    (ycoords : nat) (numberOfPointsY offset : Z) : C unit :=
  match fuel with
  | O => fail Exhausted
  | S fuel =>
      if (numberOfPointsY =? 0)%Z then mret tt
      else
        numberOfPointsY <- checked (numberOfPointsY - 1) ;;
        y <- get ycoords numberOfPointsY ;;
        put distances offset (distance half half xcoord y) ;;
        offset <- checked (offset + 1) ;;
        compute_distances_from_center_sub fuel distances xcoord ycoords numberOfPointsY offset
  end.

Fixpoint compute_distances_from_center (fuel : nat) (distances xcoords ycoords : nat)
    (numberOfPointsX numberOfPointsY callcount : Z) : C unit :=
  match fuel with
  | O => fail Exhausted
  | S fuel =>
      if (numberOfPointsX =? 0)%Z then mret tt
      else
        numberOfPointsX <- checked (numberOfPointsX - 1) ;;
        offset <- checked (numberOfPointsY * callcount) ;;
        x <- get xcoords numberOfPointsX ;;
        compute_distances_from_center_sub fuel distances x ycoords numberOfPointsY offset ;;
        callcount <- checked (callcount + 1) ;;
        compute_distances_from_center fuel distances xcoords ycoords numberOfPointsX numberOfPointsY
          callcount
  end.

Fixpoint count_less_than_one_half (fuel : nat) (distances : nat) (start end_ : Z) : C Z :=
  match fuel with
  | O => fail Exhausted
  | S fuel =>
      if (end_ <? start)%Z then mret 0%Z
      else
        val <- get distances start ;;
        next <- checked (start + 1) ;;
        if SFltb val half then
          n <- count_less_than_one_half fuel distances next end_ ;; checked (n + 1)
        else count_less_than_one_half fuel distances next end_
  end.

(** * The main program *)

Section main.
(** How [std::cout] formats a double. *)
Context (show_double : double -> string).

Definition cout (s : string) : C unit :=
  modify (fun st => mk_state (arrays st) (fresh st) (printed st +:+ s)).

(** [4/(totalNumberOfPoints/(count*1.0))] *)
Definition pi_estimate (totalNumberOfPoints count : Z) : double :=
  fdiv (of_int 4) (fdiv (of_int totalNumberOfPoints) (fmul (of_int count) (of_int 1))).

Definition main (fuel : nat) : C Z :=
  let numberOfPointsX := 1200%Z in
  let numberOfPointsY := 1200%Z in
  totalNumberOfPoints <- checked (numberOfPointsX * numberOfPointsY) ;;
  let deltaX := fdiv (of_int 1) (of_int numberOfPointsX) in
  let deltaY := fdiv (of_int 1) (of_int numberOfPointsY) in
  xcoords <- calloc numberOfPointsX ;;
  ycoords <- calloc numberOfPointsY ;;
  init_coords fuel xcoords numberOfPointsX deltaX ;;
  init_coords fuel ycoords numberOfPointsY deltaY ;;
  distances <- calloc totalNumberOfPoints ;;
  compute_distances_from_center fuel distances xcoords ycoords numberOfPointsX numberOfPointsY 0 ;;
  compute_distances_from_center fuel distances xcoords ycoords numberOfPointsX numberOfPointsY 0 ;;
  compute_distances_from_center fuel distances xcoords ycoords numberOfPointsX numberOfPointsY 0 ;;
  compute_distances_from_center fuel distances xcoords ycoords numberOfPointsX numberOfPointsY 0 ;;
  count <- count_less_than_one_half fuel distances 0 (totalNumberOfPoints - 1) ;;
  cout (pretty count +:+ newline) ;;
  cout (show_double (pi_estimate totalNumberOfPoints count) +:+ newline) ;;
  delete_array xcoords ;;
  delete_array ycoords ;;
  delete_array distances ;;
  mret 0%Z.
End main.
