(* ===== verification/MonteCarloProps.v ===== *)
(** The properties of the pi benchmark: what each function leaves in the
    arrays, that all of them end, and what the main program prints before it
    frees its arrays. *)

From S2P Require Import Prelude Bench MonteCarlo.

(** * Arrays *)

(** The array [p] holds [l]. *)
Definition holds (s : state) (p : nat) (l : list double) : Prop :=
  exists o, arrays s !! p = Some (o, l).

(** [s] with [l] in the array [p]. *)
Definition updated (p : nat) (l : list double) (s : state) : state :=
  set_arrays (alter (fun b => (b.1, l)) p (arrays s)) s.

Lemma holds_updated s p l l' : holds s p l -> holds (updated p l' s) p l'.
Proof.
  intros [o H]. exists o. unfold updated. simpl. unfold alter, map_alter.
  by rewrite lookup_partial_alter_eq, H.
Qed.

Lemma holds_updated_ne s p q l l' : p <> q -> holds s q l -> holds (updated p l' s) q l.
Proof.
  intros Hne [o H]. exists o. unfold updated. simpl. unfold alter, map_alter.
  by rewrite lookup_partial_alter_ne.
Qed.

Lemma updated_twice p l l' s : updated p l' (updated p l s) = updated p l' s.
Proof.
  unfold updated, set_arrays. simpl. f_equal. rewrite alter_alter_eq. by apply alter_ext.
Qed.

Lemma updated_same s p l : holds s p l -> updated p l s = s.
Proof.
  intros [o H]. unfold updated, set_arrays. destruct s as [a f t]. simpl in *. f_equal.
  apply alter_id. intros x Hx. rewrite H in Hx. by simplify_eq.
Qed.

Lemma checked_ok z s : in_int64 z -> checked z s = (Ok z, s).
Proof.
  unfold checked, in_int64. intros [H1 H2].
  replace (- two63 <=? z)%Z with true by (symmetry; apply Z.leb_le; lia).
  by replace (z <? two63)%Z with true by (symmetry; apply Z.ltb_lt; lia).
Qed.

Lemma get_eq s p l (i : nat) v : holds s p l -> l !! i = Some v -> get p (Z.of_nat i) s = (Ok v, s).
Proof.
  intros [o H] Hi. unfold get, array, bind, gets. rewrite H. simpl.
  replace (0 <=? Z.of_nat i)%Z with true by (symmetry; apply Z.leb_le; lia).
  by rewrite Nat2Z.id, Hi.
Qed.

Lemma put_eq s p l (i : nat) v : holds s p l -> i < length l ->
  put p (Z.of_nat i) v s = (Ok tt, updated p (<[i := v]> l) s).
Proof.
  intros H Hi. destruct (lookup_lt_is_Some_2 _ _ Hi) as [v0 Hv]. unfold put.
  rewrite (bind_eq _ _ _ _ _ (get_eq _ _ _ _ _ H Hv)). unfold modify, updated. do 2 f_equal.
  destruct H as [o H]. rewrite Nat2Z.id. apply alter_ext. intros x Hx. rewrite H in Hx. by simplify_eq.
Qed.

Definition small (n : nat) : Prop := (Z.of_nat n < two63)%Z.

Lemma small_int64 n : small n -> in_int64 (Z.of_nat n).
Proof. unfold small, in_int64, two63. lia. Qed.

(** * The functions *)

(** The coordinates of [n] points, [delta] apart. *)
Definition grid (n : nat) (delta : double) : list double :=
  (fun i => fmul delta (of_int (Z.of_nat i))) <$> seq 0 n.

Lemma grid_S n delta : grid (S n) delta = grid n delta ++ [fmul delta (of_int (Z.of_nat n))].
Proof. unfold grid. by rewrite seq_S, fmap_app. Qed.

Lemma pred_of_nat n : (Z.of_nat (S n) - 1)%Z = Z.of_nat n.
Proof. lia. Qed.

Lemma of_nat_S_eqb n : (Z.of_nat (S n) =? 0)%Z = false.
Proof. apply Z.eqb_neq. lia. Qed.

Lemma init_coords_runs n : forall fuel p l delta s,
  holds s p l -> n <= length l -> small (length l) -> n < fuel ->
  init_coords fuel p (Z.of_nat n) delta s = (Ok tt, updated p (grid n delta ++ drop n l) s).
Proof.
  induction n as [|n IH]; intros fuel p l delta s H Hn Hs Hf; (destruct fuel as [|fuel]; [lia |]);
    cbn [init_coords].
  - change (grid 0 delta ++ drop 0 l) with l. by rewrite (updated_same _ _ _ H).
  - rewrite of_nat_S_eqb, pred_of_nat.
    rewrite (bind_eq _ _ _ _ _ (checked_ok _ s (small_int64 n ltac:(unfold small in *; lia)))).
    rewrite (bind_eq _ _ _ _ _ (put_eq _ _ _ n _ H ltac:(lia))).
    rewrite (IH fuel p _ delta _ (holds_updated _ _ _ _ H)) by (rewrite ?length_insert; first [done | lia]).
    rewrite updated_twice, grid_S, <- app_assoc. do 4 f_equal.
    rewrite (drop_S _ (fmul delta (of_int (Z.of_nat n)))) by (apply list_lookup_insert_eq; lia).
    by rewrite drop_insert_lt by lia.
Qed.

(** The distances of the points of column [x]; the last point comes first. *)
Definition row (x : double) (ys : list double) : list double :=
  (fun y => distance half half x y) <$> reverse ys.

Lemma row_snoc x ys y : row x (ys ++ [y]) = distance half half x y :: row x ys.
Proof. unfold row. by rewrite reverse_snoc. Qed.

Lemma length_row x ys : length (row x ys) = length ys.
Proof. unfold row. by rewrite length_fmap, length_reverse. Qed.

(** [l] with [m] written over it from position [i]. *)
Definition overwrite (i : nat) (m l : list double) : list double :=
  take i l ++ m ++ drop (i + length m) l.

Lemma overwrite_nil i l : overwrite i [] l = l.
Proof. unfold overwrite. simpl. by rewrite Nat.add_0_r, take_drop. Qed.

Lemma length_overwrite i m l : i + length m <= length l -> length (overwrite i m l) = length l.
Proof. intros H. unfold overwrite. rewrite !length_app, length_take, length_drop. lia. Qed.

Lemma overwrite_cons i v m l : i < length l ->
  overwrite (S i) m (<[i := v]> l) = overwrite i (v :: m) l.
Proof.
  intros Hi. unfold overwrite. rewrite (take_S_r _ _ v) by by apply list_lookup_insert_eq.
  rewrite take_insert_ge by lia. rewrite drop_insert_lt by lia. rewrite <- app_assoc. simpl.
  by rewrite Nat.add_succ_r.
Qed.

Lemma overwrite_app i m1 m2 l : i + length m1 <= length l ->
  overwrite (i + length m1) m2 (overwrite i m1 l) = overwrite i (m1 ++ m2) l.
Proof.
  intros H. unfold overwrite. rewrite (app_assoc (take i l) m1 (drop _ l)).
  assert (length (take i l ++ m1) = i + length m1) as E by (rewrite length_app, length_take; lia).
  rewrite take_app_length' by lia. rewrite drop_app_ge by lia. rewrite E, drop_drop, length_app.
  rewrite <- !app_assoc. do 4 f_equal. lia.
Qed.

Lemma sub_runs n : forall fuel d x ys p q l (off : nat) s,
  holds s p l -> holds s q ys -> p <> q -> n <= length ys -> off + n <= length l ->
  small (length l) -> small (length ys) -> n < fuel -> d = p ->
  compute_distances_from_center_sub fuel d x q (Z.of_nat n) (Z.of_nat off) s =
    (Ok tt, updated p (overwrite off (row x (take n ys)) l) s).
Proof.
  induction n as [|n IH]; intros fuel d x ys p q l off s Hp Hq Hne Hn Hl Hsl Hsy Hf ->;
    (destruct fuel as [|fuel]; [lia |]); cbn [compute_distances_from_center_sub].
  - rewrite take_0. change (row x []) with (@nil double). by rewrite overwrite_nil, (updated_same _ _ _ Hp).
  - rewrite of_nat_S_eqb, pred_of_nat.
    rewrite (bind_eq _ _ _ _ _ (checked_ok _ s (small_int64 n ltac:(unfold small in *; lia)))).
    destruct (lookup_lt_is_Some_2 ys n ltac:(lia)) as [y Hy].
    rewrite (bind_eq _ _ _ _ _ (get_eq _ _ _ n _ Hq Hy)).
    rewrite (bind_eq _ _ _ _ _ (put_eq _ _ _ off _ Hp ltac:(lia))).
    replace (Z.of_nat off + 1)%Z with (Z.of_nat (S off)) by lia.
    erewrite bind_eq by (apply checked_ok, small_int64; unfold small in *; lia).
    rewrite (IH fuel p x ys p q _ (S off) _ (holds_updated _ _ _ _ Hp) (holds_updated_ne _ _ _ _ _ Hne Hq))
      by (rewrite ?length_insert; first [done | lia]).
    rewrite updated_twice, overwrite_cons by lia. by rewrite (take_S_r _ _ _ Hy), row_snoc.
Qed.

(** The rows of the columns [xs]; the last column comes first. *)
Definition rows (xs ys : list double) : list double := concat ((fun x => row x ys) <$> reverse xs).

Lemma rows_snoc xs x ys : rows (xs ++ [x]) ys = row x ys ++ rows xs ys.
Proof. unfold rows. by rewrite reverse_snoc. Qed.

Lemma length_rows xs ys : length (rows xs ys) = length xs * length ys.
Proof.
  unfold rows. rewrite <- (length_reverse xs). induction (reverse xs) as [|x l IH]; [done |].
  change (length (row x ys ++ concat ((fun x => row x ys) <$> l)) = S (length l) * length ys).
  rewrite length_app, length_row, IH. lia.
Qed.

Lemma center_runs n : forall fuel p xs ys xq yq l (c : nat) s (ny := length ys),
  holds s p l -> holds s xq xs -> holds s yq ys -> p <> xq -> p <> yq ->
  n <= length xs -> (c + n) * ny <= length l -> small (length l) -> small (length xs) -> small ny ->
  small (c + n) -> n + ny < fuel ->
  compute_distances_from_center fuel p xq yq (Z.of_nat n) (Z.of_nat ny) (Z.of_nat c) s =
    (Ok tt, updated p (overwrite (ny * c) (rows (take n xs) ys) l) s).
Proof.
  induction n as [|n IH]; intros fuel p xs ys xq yq l c s ny Hp Hx Hy Nx Ny Hn Hl Sl Sx Sy Sc Hf;
    (destruct fuel as [|fuel]; [lia |]); cbn [compute_distances_from_center].
  - rewrite take_0. change (rows [] ys) with (@nil double).
    by rewrite overwrite_nil, (updated_same _ _ _ Hp).
  - rewrite of_nat_S_eqb, pred_of_nat.
    rewrite (bind_eq _ _ _ _ _ (checked_ok _ s (small_int64 n ltac:(unfold small in *; lia)))).
    rewrite <- Nat2Z.inj_mul.
    assert (ny * c + ny <= length l) as Hrow by nia.
    rewrite (bind_eq _ _ _ _ _ (checked_ok _ s (small_int64 (ny * c) ltac:(unfold small in *; lia)))).
    destruct (lookup_lt_is_Some_2 xs n ltac:(lia)) as [x Hxn].
    rewrite (bind_eq _ _ _ _ _ (get_eq _ _ _ n _ Hx Hxn)).
    rewrite (bind_eq _ _ _ _ _ (sub_runs ny fuel p x ys p yq l (ny * c) s Hp Hy Ny
      ltac:(unfold ny; lia) Hrow Sl Sy ltac:(lia) eq_refl)).
    replace (Z.of_nat c + 1)%Z with (Z.of_nat (S c)) by lia.
    erewrite bind_eq by (apply checked_ok, small_int64; unfold small in *; lia).
    rewrite (take_ge ys ny) by (unfold ny; lia). set (m := row x ys). assert (length m = ny) as Hm by apply length_row.
    rewrite (IH fuel p xs ys xq yq _ (S c) _ (holds_updated _ _ _ _ Hp)
      (holds_updated_ne _ _ _ _ _ Nx Hx) (holds_updated_ne _ _ _ _ _ Ny Hy));
      rewrite ?length_overwrite by lia; try first [done | unfold ny, small in *; nia].
    fold ny. rewrite updated_twice. replace (ny * S c) with (ny * c + length m) by lia.
    rewrite overwrite_app by lia. by rewrite (take_S_r _ _ _ Hxn), rows_snoc.
Qed.

(** How many of [l] are below one half. *)
Definition count_below (l : list double) : nat := length (filter (fun d => SFltb d half = true) l).

Lemma count_below_cons v l :
  count_below (v :: l) = if SFltb v half then S (count_below l) else count_below l.
Proof.
  unfold count_below. destruct (SFltb v half) eqn:E.
  - by rewrite filter_cons_True.
  - by rewrite filter_cons_False by (by rewrite E).
Qed.

Lemma count_below_le l : count_below l <= length l.
Proof. apply length_filter. Qed.

Lemma count_runs n : forall fuel p l (i : nat) s,
  holds s p l -> i + n = length l -> small (length l) -> n < fuel ->
  count_less_than_one_half fuel p (Z.of_nat i) (Z.of_nat (length l) - 1) s =
    (Ok (Z.of_nat (count_below (drop i l))), s).
Proof.
  induction n as [|n IH]; intros fuel p l i s H Hi Hs Hf; (destruct fuel as [|fuel]; [lia |]);
    cbn [count_less_than_one_half].
  - replace (Z.of_nat (length l) - 1 <? Z.of_nat i)%Z with true by (symmetry; apply Z.ltb_lt; lia).
    by rewrite drop_ge by lia.
  - replace (Z.of_nat (length l) - 1 <? Z.of_nat i)%Z with false by (symmetry; apply Z.ltb_ge; lia).
    destruct (lookup_lt_is_Some_2 l i ltac:(lia)) as [v Hv].
    rewrite (bind_eq _ _ _ _ _ (get_eq _ _ _ i _ H Hv)).
    replace (Z.of_nat i + 1)%Z with (Z.of_nat (S i)) by lia.
    erewrite bind_eq by (apply checked_ok, small_int64; unfold small in *; lia).
    specialize (IH fuel p l (S i) s H ltac:(lia) Hs ltac:(lia)).
    assert (count_below (drop (S i) l) <= n) as Hle.
    { etrans; [apply count_below_le |]. rewrite length_drop. lia. }
    rewrite (drop_S _ _ _ Hv), count_below_cons. destruct (SFltb v half) eqn:E.
    + rewrite (bind_eq _ _ _ _ _ IH), Nat2Z.inj_succ, <- Z.add_1_r. apply checked_ok.
      unfold small, in_int64, two63 in *. lia.
    + exact IH.
Qed.

(** ** Single elements of the rows *)

Lemma lookup_concat {A} (ls : list (list A)) n i j :
  Forall (fun l => length l = n) ls -> j < n -> concat ls !! (n * i + j) = ls !! i ≫= (.!! j).
Proof.
  intros Hls Hj. revert i. induction Hls as [|l ls Hl _ IH]; intros i; [done |]. simpl.
  destruct i as [|i]; simpl.
  - rewrite Nat.mul_0_r. by rewrite lookup_app_l by lia.
  - rewrite lookup_app_r by lia. replace (n * S i + j - length l) with (n * i + j) by lia. apply IH.
Qed.

Lemma lookup_rows xs ys i j x y :
  xs !! (length xs - 1 - i) = Some x -> ys !! (length ys - 1 - j) = Some y ->
  i < length xs -> j < length ys ->
  rows xs ys !! (length ys * i + j) = Some (distance half half x y).
Proof.
  intros Hx Hy Hi Hj. unfold rows. rewrite lookup_concat.
  - rewrite list_lookup_fmap, reverse_lookup by done.
    replace (length xs - S i) with (length xs - 1 - i) by lia. rewrite Hx. simpl.
    unfold row. rewrite list_lookup_fmap, reverse_lookup by done.
    replace (length ys - S j) with (length ys - 1 - j) by lia. by rewrite Hy.
  - apply Forall_fmap, Forall_forall. intros x' _. apply length_row.
  - done.
Qed.

Lemma lookup_overwrite_after i m l k : i + length m <= k -> i <= length l ->
  overwrite i m l !! k = l !! k.
Proof.
  intros Hk Hi. unfold overwrite. rewrite lookup_app_r by (rewrite length_take; lia).
  rewrite length_take, lookup_app_r by lia. rewrite lookup_drop. f_equal. lia.
Qed.

(** * The properties *)

(** [mod] is the remainder of the truncating division: it stops for a
    zero divisor and for the quotient that is no [int64_t], and has the
    remainder as its result otherwise. *)
Theorem mod_correct x y s :
  in_int64 x -> in_int64 y ->
  mod_ x y s =
    if (y =? 0)%Z then (Err DivisionByZero, s)
    else if ((x =? - two63) && (y =? -1))%Z then (Err (Crash SignedOverflow), s)
    else (Ok (Z.rem x y), s).
Proof.
  intros Hx Hy. unfold mod_. destruct (y =? 0)%Z eqn:E0; [done |]. apply Z.eqb_neq in E0.
  destruct ((x =? - two63) && (y =? -1))%Z eqn:E1.
  { apply andb_true_iff in E1 as [->%Z.eqb_eq ->%Z.eqb_eq]. reflexivity. }
  assert (~ (x = - two63 /\ y = -1)%Z) as Hne by (intros [-> ->]; done).
  assert (in_int64 (Z.quot x y * y)) as Hm.
  { rewrite Z.mul_comm. unfold in_int64 in *. destruct (Z.le_ge_cases 0 x).
    - pose proof (Z.mul_quot_le x y). lia.
    - pose proof (Z.mul_quot_ge x y). lia. }
  rewrite (bind_eq _ _ _ _ _ (checked_ok _ s (quot_in_int64 _ _ Hx Hy E0 Hne))).
  rewrite (bind_eq _ _ _ _ _ (checked_ok _ s Hm)).
  replace (x - Z.quot x y * y)%Z with (Z.rem x y) by (pose proof (Z.quot_rem' x y); lia).
  apply checked_ok. pose proof (Z.quot_rem' x y). unfold in_int64 in *.
  destruct (Z.le_ge_cases 0 x) as [H0|H0].
  - pose proof (Z.rem_nonneg x y E0 H0). pose proof (Z.mul_quot_le x y H0 E0). lia.
  - pose proof (Z.rem_nonpos x y E0 H0). pose proof (Z.mul_quot_ge x y H0 E0). lia.
Qed.

(** C38. [compute_distances_from_center], called for all points from call
    count zero, ends and stores the distance from the centre of every point
    of the grid, the last column and the last row first, and leaves the rest
    of the array as it was. *)
Theorem distances_correct fuel p xs ys xq yq l s :
  holds s p l -> holds s xq xs -> holds s yq ys -> p <> xq -> p <> yq ->
  length xs * length ys <= length l -> small (length l) -> small (length xs) -> small (length ys) ->
  length xs + length ys < fuel ->
  exists l', compute_distances_from_center fuel p xq yq (Z.of_nat (length xs)) (Z.of_nat (length ys)) 0 s =
      (Ok tt, updated p l' s) /\ length l' = length l /\
    (forall i j x y, i < length xs -> j < length ys ->
      xs !! (length xs - 1 - i) = Some x -> ys !! (length ys - 1 - j) = Some y ->
      l' !! (length ys * i + j) = Some (distance half half x y)) /\
    (forall k, length xs * length ys <= k -> l' !! k = l !! k).
Proof.
  intros Hp Hx Hy Nx Ny Hl Sl Sx Sy Hf. exists (overwrite 0 (rows xs ys) l). split_and!.
  - change 0%Z with (Z.of_nat 0).
    rewrite (center_runs (length xs) fuel p xs ys xq yq l 0 s) by (done || lia).
    by rewrite Nat.mul_0_r, firstn_all.
  - apply length_overwrite. by rewrite length_rows.
  - intros i j x y Hi Hj Hxi Hyj. unfold overwrite. simpl.
    rewrite lookup_app_l by (rewrite length_rows; nia). by apply lookup_rows.
  - intros k Hk. apply lookup_overwrite_after; [| lia]. by rewrite length_rows.
Qed.

(** ** Allocation *)

Definition allocated (n : nat) (s : state) : state :=
  mk_state (<[fresh s := (ByCalloc, replicate n double_zero)]> (arrays s)) (S (fresh s)) (printed s).

Lemma calloc_eq n s : calloc (Z.of_nat n) s = (Ok (fresh s), allocated n s).
Proof. unfold calloc, bind, gets, modify, mret, SE_ret. by rewrite Nat2Z.id. Qed.

Lemma holds_allocated n s : holds (allocated n s) (fresh s) (replicate n double_zero).
Proof. exists ByCalloc. apply lookup_insert_eq. Qed.

Lemma holds_allocated_ne n s p l : fresh s <> p -> holds s p l -> holds (allocated n s) p l.
Proof. intros Hne [o H]. exists o. simpl. by rewrite lookup_insert_ne. Qed.

(** The coordinates and the distances of the main program. *)
Definition axis : list double := grid (Z.to_nat 1200) (fdiv (of_int 1) (of_int 1200)).

Definition inside : Z := Z.of_nat (count_below (rows axis axis)).

Lemma axis_eq N : N = Z.to_nat 1200 -> axis = grid N (fdiv (of_int 1) (of_int (Z.of_nat N))).
Proof. intros ->. unfold axis. by rewrite Z2Nat.id by lia. Qed.

Lemma inside_eq : inside = Z.of_nat (count_below (rows axis axis)).
Proof. reflexivity. Qed.

Lemma overwrite_same m l : length m = length l -> overwrite 0 m l = m.
Proof. intros H. unfold overwrite. simpl. by rewrite H, drop_all, app_nil_r. Qed.

Lemma init_zeros n fuel p delta s :
  holds s p (replicate n double_zero) -> small n -> n < fuel ->
  init_coords fuel p (Z.of_nat n) delta s = (Ok tt, updated p (grid n delta) s).
Proof.
  intros H Hn Hf. rewrite (init_coords_runs n fuel p _ delta s H) by (rewrite ?length_replicate; done || lia).
  by rewrite drop_replicate, Nat.sub_diag, app_nil_r.
Qed.

(** A square grid whose distances fill the array. *)
Lemma compute_square n fuel p q1 q2 xs l s :
  holds s p l -> length l = n * n -> holds s q1 xs -> holds s q2 xs -> length xs = n ->
  p <> q1 -> p <> q2 -> small n -> small (n * n) -> n + n < fuel ->
  compute_distances_from_center fuel p q1 q2 (Z.of_nat n) (Z.of_nat n) 0 s = (Ok tt, updated p (rows xs xs) s).
Proof.
  intros Hp Hl H1 H2 Hxs N1 N2 Sn Snn Hf. change 0%Z with (Z.of_nat 0).
  pose proof (center_runs n fuel p xs xs q1 q2 l 0 s Hp H1 H2 N1 N2) as E. cbv zeta in E.
  rewrite Hxs in E. rewrite E by (rewrite ?Hl; first [done | lia | by replace (0 + n) with n by lia]).
  rewrite Nat.mul_0_r, take_ge by lia. by rewrite overwrite_same by (rewrite length_rows; lia).
Qed.

(** The three arrays of the main program, the coordinates filled in. *)
Lemma arrays_made N M fuel delta :
  small N -> N < fuel -> exists s,
    (forall A (k : nat -> nat -> nat -> C A), (xcoords <- calloc (Z.of_nat N) ;;
     ycoords <- calloc (Z.of_nat N) ;;
     init_coords fuel xcoords (Z.of_nat N) delta ;;
     init_coords fuel ycoords (Z.of_nat N) delta ;;
     distances <- calloc (Z.of_nat M) ;; k xcoords ycoords distances) (mk_state ∅ 0 EmptyString) = k 0 1 2 s) /\
    holds s 0 (grid N delta) /\ holds s 1 (grid N delta) /\ holds s 2 (replicate M double_zero) /\
    printed s = EmptyString /\ exists l, arrays s !! 0 = Some (ByCalloc, l).
Proof.
  intros SN Hf. set (s0 := mk_state ∅ 0 EmptyString).
  set (s1 := allocated N s0). set (s2 := allocated N s1).
  assert (holds s2 0 (replicate N double_zero)) as H20 by by (apply holds_allocated_ne; [| apply holds_allocated]).
  assert (holds s2 1 (replicate N double_zero)) as H21 by apply (holds_allocated N s1).
  set (s3 := updated 0 (grid N delta) s2).
  assert (holds s3 1 (replicate N double_zero)) as H31 by by apply holds_updated_ne.
  set (s4 := updated 1 (grid N delta) s3).
  assert (holds s4 0 (grid N delta)) as H40 by by (apply holds_updated_ne, (holds_updated _ _ _ _ H20)).
  assert (holds s4 1 (grid N delta)) as H41 by apply (holds_updated _ _ _ _ H31).
  exists (allocated M s4). split_and!; [| | | | done | by eexists].
  - intros A k. rewrite (bind_eq _ _ _ _ _ (calloc_eq N s0)), (bind_eq _ _ _ _ _ (calloc_eq N s1)).
    rewrite (bind_eq _ _ _ _ _ (init_zeros N fuel 0 delta s2 H20 SN Hf)).
    rewrite (bind_eq _ _ _ _ _ (init_zeros N fuel 1 delta s3 H31 SN Hf)).
    by rewrite (bind_eq _ _ _ _ _ (calloc_eq M s4)).
  - by apply holds_allocated_ne.
  - by apply holds_allocated_ne.
  - apply (holds_allocated M s4).
Qed.

(** The passes over the grid after the first find what they write. *)
Lemma passes N fuel xs l s :
  let pass := compute_distances_from_center fuel 2 0 1 (Z.of_nat N) (Z.of_nat N) 0 in
  holds s 2 l -> length l = N * N -> holds s 0 xs -> holds s 1 xs -> length xs = N ->
  small N -> small (N * N) -> N + N < fuel ->
  (forall A (k : C A), (pass ;; pass ;; pass ;; pass ;; k) s = k (updated 2 (rows xs xs) s)) /\
  holds (updated 2 (rows xs xs) s) 2 (rows xs xs).
Proof.
  intros pass H2 Hl H0 H1 Hxs SN SNN Hf.
  assert (forall s l, holds s 2 l -> length l = N * N -> holds s 0 xs -> holds s 1 xs ->
    pass s = (Ok tt, updated 2 (rows xs xs) s)) as Hcomp by (intros; eapply compute_square; done || lia).
  set (s6 := updated 2 (rows xs xs) s).
  assert (holds s6 2 (rows xs xs)) as H62 by apply (holds_updated _ _ _ _ H2).
  assert (pass s6 = (Ok tt, s6)) as E6.
  { rewrite (Hcomp s6 _ H62); [by rewrite (updated_same _ _ _ H62) | by rewrite length_rows, Hxs | |];
      by apply holds_updated_ne. }
  split; [intros A k | done]. rewrite (bind_eq _ _ _ _ _ (Hcomp s _ H2 Hl H0 H1)). fold s6.
  by do 3 rewrite (bind_eq _ _ _ _ _ E6).
Qed.

Lemma main_runs N show_double fuel :
  1200%Z = Z.of_nat N -> axis = grid N (fdiv (of_int 1) (of_int (Z.of_nat N))) ->
  (1440001 <= Z.of_nat fuel)%Z -> exists s,
    main show_double fuel (mk_state ∅ 0 EmptyString) = (Err MismatchedDelete, s) /\
    printed s = pretty inside +:+ newline +:+ show_double (pi_estimate 1440000 inside) +:+ newline.
Proof.
  intros HN Hax Hf. unfold main.
  assert (small N) as SN by (unfold small, two63; lia).
  assert (Z.of_nat (N * N) = 1440000%Z) as HNN by (rewrite Nat2Z.inj_mul, <- HN; reflexivity).
  assert (small (N * N)) as SNN by (unfold small, two63; lia).
  assert (N + N < N * N) as HNN2 by nia. assert (N * N < fuel) as Hfuel by lia.
  rewrite HN. cbv zeta. rewrite <- Nat2Z.inj_mul.
  rewrite (bind_eq _ _ _ _ _ (checked_ok _ _ (small_int64 _ SNN))).
  destruct (arrays_made N (N * N) fuel (fdiv (of_int 1) (of_int (Z.of_nat N))) SN)
    as (s5 & E5 & H0 & H1 & H2 & Ho & l & Hl); [lia |].
  rewrite E5. clear E5. set (xs := grid N _) in *.
  assert (length xs = N) as Hxs by (unfold xs, grid; by rewrite length_fmap, length_seq).
  destruct (passes N fuel xs _ s5 H2 (length_replicate _ _) H0 H1 Hxs SN SNN ltac:(lia)) as [E6 H6].
  rewrite E6. clear E6.
  pose proof (count_runs (N * N) fuel 2 (rows xs xs) 0 _ H6) as Ec. rewrite length_rows, Hxs in Ec. simpl (0 + _) in Ec.
  rewrite (bind_eq _ _ _ _ _ (Ec eq_refl SNN Hfuel)). rewrite drop_0.
  assert (Z.of_nat (count_below (rows xs xs)) = inside) as Hin by (rewrite inside_eq, Hax; done).
  rewrite Hin, HNN. generalize inside as count. intros count. clear Hin Ec H6.
  generalize (pi_estimate 1440000 count) as estimate. intros estimate.
  assert (exists l, arrays (updated 2 (rows xs xs) s5) !! 0 = Some (ByCalloc, l)) as [l' Hl'].
  { exists l. simpl. by rewrite lookup_alter_ne. }
  assert (printed (updated 2 (rows xs xs) s5) = EmptyString) as Ho' by done.
  generalize dependent (updated 2 (rows xs xs) s5). intros s6 Hl' Ho'.
  eexists. split.
  - unfold cout, delete_array, bind, modify, gets. cbn [arrays]. rewrite Hl'. reflexivity.
  - cbn [printed]. rewrite Ho'. rewrite <- !string_app_assoc. reflexivity.
Qed.

(** C39. The main program of the pi benchmark prints the number of points of
    the grid whose distance from the centre is below one half, and four times
    its share of the points; then it frees with [delete] what [calloc] gave,
    which is undefined. *)
Theorem monte_carlo_output show_double fuel :
  (1440001 <= Z.of_nat fuel)%Z -> exists s,
    main show_double fuel (mk_state ∅ 0 EmptyString) = (Err MismatchedDelete, s) /\
    printed s = pretty inside +:+ newline +:+ show_double (pi_estimate 1440000 inside) +:+ newline.
Proof.
  apply (main_runs (Z.to_nat 1200)); [symmetry; apply Z2Nat.id; lia | by apply axis_eq].
Qed.

(** * Witnesses *)

Definition demo_state : state :=
  mk_state (<[0 := (ByCalloc, [double_zero; half])]> (<[1 := (ByCalloc, [half])]>
    (<[2 := (ByCalloc, [double_zero; double_zero; half])]> ∅))) 3 EmptyString.

Lemma mod_correct_witness : in_int64 (-7) /\ mod_ (-7) 2 demo_state = (Ok (-1)%Z, demo_state).
Proof.
  split; [split; reflexivity || discriminate |].
  exact (mod_correct (-7) 2 demo_state ltac:(split; reflexivity || discriminate)
    ltac:(split; reflexivity || discriminate)).
Defined.

Lemma distances_correct_witness :
  exists l', compute_distances_from_center 4 2 0 1 2 1 0 demo_state = (Ok tt, updated 2 l' demo_state) /\
    length l' = 3 /\ l' !! 0 = Some (distance half half half half) /\ l' !! 2 = Some half.
Proof.
  destruct (distances_correct 4 2 [double_zero; half] [half] 0 1 [double_zero; double_zero; half] demo_state)
    as (l' & E & Hl & Hin & Hout).
  - by exists ByCalloc.
  - by exists ByCalloc.
  - by exists ByCalloc.
  - discriminate.
  - discriminate.
  - simpl. lia.
  - reflexivity.
  - reflexivity.
  - reflexivity.
  - simpl. lia.
  - exists l'. split; [exact E |]. split; [exact Hl |]. split.
    + apply (Hin 0 0 half half); [simpl; lia | simpl; lia | reflexivity | reflexivity].
    + apply (Hout 2). simpl. lia.
Defined.

Lemma monte_carlo_output_witness : exists s,
  main (fun _ => "d") (Z.to_nat 1440001) (mk_state ∅ 0 EmptyString) = (Err MismatchedDelete, s) /\
  printed s = pretty inside +:+ newline +:+ "d" +:+ newline.
Proof.
  apply (monte_carlo_output (fun _ => "d") (Z.to_nat 1440001)). rewrite Z2Nat.id; [apply Z.le_refl | discriminate].
Defined.
